(* ===== verification/_CoqProject ===== *)
-Q . S2P
Prelude.v
GoStrings.v
DnsName.v
Sha256.v
GoTime.v
Json.v
JsonDecode.v
JsonTypes.v
Os.v
OsLogic.v
FileUtil.v
Config.v
Secrets.v
X509.v
Policy.v
PolicyHash.v
PolicySpec.v
PolicyManager.v
RateLimit.v
Pki.v
PkiFiles.v
Agent.v
AgentSpec.v
StepCa.v
AuditLog.v
Store.v
StoreSqlite.v
StoreAudit.v
StoreFileAudit.v
StoreDisk.v
SqliteSchema.v
Authn.v
Broker.v
BrokerSpec.v
SingleFlight.v
Service.v
ServiceSpec.v
AuditTrail.v
ServiceRefusals.v
Exchange.v
Acme.v
AcmeSpec.v
Command.v
Serve.v
Inspect.v
Cli.v
