(* ===== verification/Prelude.v ===== *)
(** * Certplane: a verified model of the certificate broker and its agent

Certplane issues TLS certificates to hosts through a central broker. An agent
on each host holds an identity certificate; it sends the broker a certificate
request for a _profile_ over mutual TLS ([POST /v1/certificates]). The broker
authenticates the host, checks the request against a policy file, applies rate
limits, serves a certificate from its cache or has an ACME issuer make one, and
keeps an audit log. The agent checks what it is given, installs it and reloads
its service; it has its identity enrolled and renewed by a step-ca authority.
This library models the Go code of both programs, in [src/internal],
[src/config] and [src/cmd], as executable definitions, and proves what makes
each part correct.

** Files

- [Prelude]: results and errors ([result], [wrap_err], [traverse]), tactics
  ([result_inv], [cases_in], [unbool]), the [certplane] hint databases, the
  notations [==] and [!=] of [go_scope].
- [GoStrings], [GoTime], [Json], [JsonDecode], [JsonTypes], [Sha256], [X509]:
  what the code uses of Go's standard library, computed: byte strings
  ([strings]), instants, durations and RFC 3339 texts ([time]), JSON texts with
  Go's escapes and the decoding of any text ([encoding/json]), into strings,
  base64 bytes, instants, slices, maps and structs, digests, the fields of
  certificates and requests.
- [Os]: [path/filepath] and [os]: a disk with inodes, written and synced
  contents, faults of the system calls and crashes; the monad [EM] of
  computations that fail, over a [machine]. [OsLogic]: a weakest precondition
  for them, with an invariant of every moment in between.
- [FileUtil]: [internal/fileutil]: atomic writes and lock files.
- [DnsName]: [internal/dnsname/dnsname.go].
- [Config]: [config]: the configuration files of both programs.
- [Secrets]: [internal/secrets]: the interface [Provider] with its laws and the
  providers of environment variables, files and Vault.
- [Policy]: [types.go], [hash.go], [compile.go], [authorize.go] of
  [internal/broker/policy]; [PolicyHash]: what the hashes determine;
  [PolicySpec]: the meaning of a policy file ([file_ok], [file_authorizes]) and
  the theorems that [Compile] and [Authorize] implement it; [PolicyManager]:
  [load.go] and [manager.go].
- [RateLimit]: [internal/broker/ratelimit/limiter.go] and its specification as
  a log of grants.
- [Pki]: [internal/pki], over the interface [Crypto] for PEM and X.509;
  [PkiFiles]: its operations on files.
- [Agent]: [internal/agent]: enrolment, renewal, the certificate loop, the
  client of the broker; [AgentSpec]: its properties. [StepCa]: [internal/ca],
  the client of step-ca that enrols and renews.
- [AuditLog]: [internal/broker/audit]: events, their JSON lines, recorders; the
  interface [RecorderOps] and its laws [RecorderLaws].
- [Store]: [internal/broker/store/cache.go]: the cache key, the interface
  [CertificateStore] with its laws [StoreLaws] (an abstract map from keys to
  bundles), the file store down to the JSON text of its file, and its instance;
  [StoreDisk]: the file store on a disk; [StoreFileAudit]: the audit log of
  the file store; [StoreSqlite]: [sqlite_values.go], [sqlite_columns.go],
  [sqlite_cache.go] and the instance of the SQLite store; [StoreAudit]:
  [sqlite_audit.go]; [SqliteSchema]: [sqlite.go] and [sqlite_migrations.go],
  the schema as the SQL text of the source and the migration transaction.
- [Authn]: [internal/broker/authn/mtls.go].
- [Broker]: the endpoint, [issue.go], [issue_audit.go], [issue_types.go],
  [http.go], [responses.go], [server.go], over the interfaces [Crypto],
  [CertificateStore], [RecorderOps] and [Issuer]; [BrokerSpec]: the relation
  [outcome] between the state before and after a request, the refinement
  theorem and its consequences, and a server that runs.
- [SingleFlight]: requests that overlap: [issueOrLoad] cut into its uses of the
  store and the issuer, and the group of flights as a step relation.
- [Service]: the broker in service: the handler cut into its stages, requests
  that interleave between them, flights, and the watcher of the policy, as a
  list of events that a run consumes; the invariant [sound]. [ServiceSpec]: what
  holds over the whole life of a broker; [AuditTrail]: what is on its audit
  record, for a recorder with the laws [RecorderLaws]; [ServiceRefusals]: why it
  refuses whom it refuses.
- [Exchange]: the agent's client against the broker's handler, through the JSON
  texts of both sides.
- [Acme]: [internal/broker/issuer/acme/acme.go], an instance of [Issuer];
  [AcmeSpec]: its properties.
- [Command]: [cmd], [internal/logging] and the set-up of the HTTP server: how
  the two programs choose and make their parts from a configuration; [Serve]:
  the broker as a program, from its configuration file to its end, with
  [ListenAndServe]; [Inspect]: the commands that print the cache and the audit
  log; [Cli]: the declarations of commands and flags.

** Conventions

A string is the list of its bytes. An instant is a number of nanoseconds since
January 1 of year 1, UTC, the zero value of [time.Time]; a duration is a number
of nanoseconds within 64 bits, and differences saturate as [Time.Sub] does. A
Go [map] is a [gmap]; where the code iterates over one, the order does not
matter or the code sorts the keys. An error is a value of an inductive type
with one constructor per [fmt.Errorf]; the rendering of messages is left out,
and where a message goes into an audit event it is the parameter [env_text].
Readings of the clock, random identifiers, results of system calls and
failures are inputs of the operations, or streams of an [environment]. A
method that changes its receiver returns the new state; the handler of the
endpoint is a computation in a state monad over [world], the agent and the
issuer are computations in [EM].

A path names a file by its text. Directories are not kept: [MkdirAll] makes a
path usable, and the entries of directories it makes are taken to survive a
crash. A crash leaves a file its synced content, or any other when data were
written since; a rename survives once its directory is synced.

** Parameters

Code that is not in the repository is a parameter: YAML decoding
([yaml_decode], [decode]), [url.ParseRequestURI] and [url.Parse], PEM and X.509
encodings and signatures ([Crypto], [CryptoLaws]), the tables of SQLite
([CacheTable], [AuditTable], with the behaviour of [INSERT], [ON CONFLICT], [ORDER BY] and [LIMIT] as laws)
and the database behind them ([Database], [DatabaseLaws]), identifiers
([env_ulid]), the answers of the network and of client libraries: of the
broker, the shell and the authority for the agent ([services]), of lego and
step-ca (the two [library] records), of Vault and the process's variables
([host]). The laws say that the library decodes what it encodes and that the
database does what the statements say; each theorem that uses them has a
witness with a concrete instance.

** What the theorems show

- The endpoint ([BrokerSpec], [SingleFlight]): every request gets one response
  and follows [outcome]; a certificate is only ever served or issued for a
  request admitted by the policy file; without admission, or with a failing
  audit log in the mode [fail_closed], nothing is issued; what was issued is
  served from the cache next time; a refusal is due to the request, the policy,
  the limits or the recorder, as its status says. Requests that overlap on a key have one bundle issued and stored
  among them, each is answered with a bundle of its own key, and all of them
  are answered. An agent that calls the broker is given the bundle of its own
  request, or the refusal, and one whose host the policy file grants the profile
  is stopped by nothing but the limits, the audit log, the store or the
  authority ([Exchange]).
- The broker in service ([ServiceSpec], [AuditTrail], [ServiceRefusals],
  [Serve]): over its whole life, however requests, flights and edits of the
  policy file interleave, whoever is served is granted what it gets by a content
  of the policy file, with a bundle of its own key; no more is served or issued
  than the limits allow; when the broker fails closed, whoever is served is on
  the audit record, with the bundle; every request comes to its answer, one
  alone leaves the server as the handler does, and whoever is not served has the
  reason its status says, in its own request, the policy file, a limit that is
  used up, the recorder, or a store or issuer that failed. A broker that starts
  from its configuration file lives such a life, with the limits of the file.
- Files ([FileUtil]): an atomic write shows the old or the complete new file,
  across crashes; lock files exclude.
- The agent ([AgentSpec], [StepCa]): at each moment of a run keys are kept and
  certificates are old or checked ones; what a run that succeeds leaves; a run
  with nothing due does nothing; enrolment replaces nothing and keeps its token
  until the certificate is durable; renewal follows its relation.
- The policy ([PolicySpec], [PolicyManager]): which files compile, the invariant
  of the compiled policy, authorization traced back to the file, the meaning of
  each refusal, what the hashes determine, what the watcher serves.
- The limiter ([RateLimit]): it refines the log of grants, and no window of an
  hour exceeds the limits.
- The stores ([Store], [StoreDisk], [StoreSqlite], [StoreAudit],
  [StoreFileAudit], [SqliteSchema]): both caches implement the abstract map, the
  SQLite one up to the second; on a disk the file store does what it does on the
  content of its file, and the cache survives faults and crashes; audit rows and lines round trip; opening migrates in one step,
  and the statements and rows fit the schema.
- The issuer ([AcmeSpec]) and secrets ([Secrets]): the account key is never
  replaced; what is asked of the authority, with which provider and secret.
- Where the code and the JSON schemas of its files differ, the theorems state
  what the code does: a rate limit of 0 is the default, it disables nothing
  ([Config.zero_limits_are_defaults]), and the challenge http-01 is refused for
  every profile ([PolicySpec.http01_refused]).
- Configuration ([Config], [Command]): the accepted files and what is loaded of
  them; a broker that starts is made of what its files say, and one that does
  not start never fails for a setting that validation lets through; what is
  printed of a cache ([Inspect]) is read back as its entries.
- The recorders ([AuditLog]), client authentication ([Authn]), names ([DnsName])
  and PKI helpers ([Pki]): their functional behaviour on every branch.

** Bounds

No definition runs on fuel that can be too small: [JsonDecode.read_document] is
given twice the length of the text, with the proof that more changes nothing,
the digest one step per word of the message; [SingleFlight.run_alone] is used
with the three steps an execution has. A run of [Service] is as long as its list
of events; the steps of its requests and flights are at most eleven for each
request. The calendar functions are exact for every instant; their round trip is
proved for the years 1 to 9999 ([formattable]), those RFC 3339 can write.

** Not modelled

The loop that accepts connections, TLS and [net/http] are the standard
library's: a handler meets the request they made. The single flight group is a
library, of which [SingleFlight] states the documented behaviour as a step
relation. In [Service] a step of a request is one stage of the handler: events
that one request appends between two lines of the same stage of another are not
told apart, since the limiter, the recorders and the stores each hold a mutex or
a transaction for a call. What [cobra] makes of a command line is a parameter of
[Cli]. The text of log lines is left out; deployment files are not Go code.
*)

From Stdlib Require Export ZArith Lia ZifyN ZifyNat ZifyBool.
From stdpp Require Export base tactics list gmap strings sorting.

(** ** Notations and hint databases *)

Declare Scope go_scope.
Delimit Scope go_scope with go.

(** Go's [==] on comparable values, as a boolean. *)
Notation "x == y" := (bool_decide (x = y)) (at level 70, no associativity) : go_scope.
Notation "x != y" := (negb (bool_decide (x = y))) (at level 70, no associativity) : go_scope.

Create HintDb certplane discriminated.
Create Rewrite HintDb certplane.

(** ** Errors as values *)

(** The two results of a Go call [(T, error)] of which exactly one is
meaningful. *)
Inductive result (E A : Type) : Type :=
  | Ok (a : A)
  | Err (e : E).
Arguments Ok {E A} a.
Arguments Err {E A} e.

#[export] Instance result_ret {E} : MRet (result E) := λ A a, Ok a.
#[export] Instance result_bind {E} : MBind (result E) :=
  λ A B f r, match r with Ok a => f a | Err e => Err e end.
#[export] Instance result_fmap {E} : FMap (result E) :=
  λ A B f r, match r with Ok a => Ok (f a) | Err e => Err e end.

Definition is_ok {E A} (r : result E A) : bool :=
  match r with Ok _ => true | Err _ => false end.

(** [if err != nil { return fmt.Errorf("...: %w", err) }]: the error of a
callee wrapped by the caller. *)
Definition wrap_err {E E' A} (f : E → E') (r : result E A) : result E' A :=
  match r with Ok a => Ok a | Err e => Err (f e) end.

Definition from_option_err {E A} (e : E) (o : option A) : result E A :=
  match o with Some a => Ok a | None => Err e end.

Lemma bind_Ok {E A B} (r : result E A) (f : A → result E B) (b : B) :
  r ≫= f = Ok b ↔ ∃ a, r = Ok a ∧ f a = Ok b.
Proof. destruct r; naive_solver. Qed.

Lemma bind_Err {E A B} (r : result E A) (f : A → result E B) (e : E) :
  r ≫= f = Err e ↔ r = Err e ∨ ∃ a, r = Ok a ∧ f a = Err e.
Proof. destruct r; naive_solver. Qed.

Lemma wrap_err_Ok {E E' A} (g : E → E') (r : result E A) a :
  wrap_err g r = Ok a ↔ r = Ok a.
Proof. destruct r; naive_solver. Qed.

(** Left-to-right traversal that stops at the first error. *)
Fixpoint traverse {E A B} (f : A → result E B) (l : list A) : result E (list B) :=
  match l with
  | [] => Ok []
  | x :: l' => y ← f x; ys ← traverse f l'; mret (y :: ys)
  end.

Lemma traverse_Ok {E A B} (f : A → result E B) l ys :
  traverse f l = Ok ys ↔ Forall2 (λ x y, f x = Ok y) l ys.
Proof.
  revert ys. induction l as [|x l IH]; intros ys; simpl.
  - split; [intros [= <-]; constructor | by inversion 1].
  - rewrite bind_Ok. split.
    + intros (y & Hy & (ys' & Hys & [= <-])%bind_Ok).
      constructor; [done | by apply IH].
    + inversion 1 as [|? y ? ys' Hy Hys]; subst. exists y. split; [done|].
      apply bind_Ok. exists ys'. split; [by apply IH | done].
Qed.

Lemma traverse_Err {E A B} (f : A → result E B) l e :
  traverse f l = Err e → ∃ x, x ∈ l ∧ f x = Err e.
Proof.
  induction l as [|x l IH]; simpl; [done|].
  intros [?|(y & _ & [Hl|(ys & _ & ?)]%bind_Err)]%bind_Err.
  - exists x. split; [left | done].
  - destruct (IH Hl) as (x' & ? & ?). exists x'. split; [by right | done].
  - done.
Qed.

(** ** Lists *)

Lemma elem_of_concat_map {A B} (f : A → list B) l x :
  x ∈ concat (f <$> l) ↔ ∃ a, a ∈ l ∧ x ∈ f a.
Proof.
  induction l as [|c l IH]; csimpl; [set_solver|].
  rewrite elem_of_app, IH. setoid_rewrite elem_of_cons. naive_solver.
Qed.

Lemma concat_part {A B} (f : A → list B) l a :
  NoDup (concat (f <$> l)) → a ∈ l → NoDup (f a).
Proof.
  induction l as [|c l IH]; csimpl; [by intros _ ?%not_elem_of_nil|].
  intros (Hc & _ & Hl)%NoDup_app [->|Ha]%elem_of_cons; [done | by apply IH].
Qed.

(** Lists without common elements, when the whole has no duplicates. *)
Lemma concat_distinct {A B} (f : A → list B) l a b x y :
  NoDup (concat (f <$> l)) → a ∈ l → b ∈ l → x ∈ f a → y ∈ f b → a ≠ b → x ≠ y.
Proof.
  induction l as [|c l IH]; csimpl; [by intros _ ?%not_elem_of_nil|].
  intros (Hf & Hd & Hl)%NoDup_app Ha Hb Hx Hy Hab ->.
  apply elem_of_cons in Ha as [->|Ha], Hb as [->|Hb]; [done| | |by eapply IH].
  - apply (Hd y); [done|]. apply elem_of_concat_map. eauto.
  - apply (Hd y); [done|]. apply elem_of_concat_map. eauto.
Qed.

(** ** Tactics *)

(** Invert a hypothesis that a chain of binds, conditionals and matches
returned a given result. *)
Ltac result_inv_step :=
  match goal with
  | H : Ok _ = Ok _ |- _ => injection H as H; subst
  | H : Err _ = Err _ |- _ => injection H as H; subst
  | H : Ok _ = Err _ |- _ => discriminate H
  | H : Err _ = Ok _ |- _ => discriminate H
  | H : mret _ = Ok _ |- _ => unfold mret, result_ret in H
  | H : mret _ = Err _ |- _ => unfold mret, result_ret in H
  | H : mbind _ _ = Ok _ |- _ =>
      let a := fresh "a" in let Ha := fresh "Ha" in
      apply bind_Ok in H as (a & Ha & H)
  | H : wrap_err _ _ = Ok _ |- _ => apply wrap_err_Ok in H
  end.
Ltac result_inv := repeat (result_inv_step; simpl in * ).

(** Split the conditionals of a hypothesis, discarding the branches with
the wrong outcome. *)
Ltac cases_in H :=
  repeat match type of H with
    | context [if ?b then _ else _] => destruct b eqn:?
    | context [match ?x with _ => _ end] => destruct x eqn:?
    end; try discriminate H.

(** Turn boolean tests into propositions. *)
Ltac unbool :=
  repeat match goal with
  | H : bool_decide _ = true |- _ => apply bool_decide_eq_true in H
  | H : bool_decide _ = false |- _ => apply bool_decide_eq_false in H
  | H : negb _ = true |- _ => apply negb_true_iff in H
  | H : negb _ = false |- _ => apply negb_false_iff in H
  | H : andb _ _ = true |- _ => apply andb_true_iff in H as [? ?]
  | H : orb _ _ = false |- _ => apply orb_false_iff in H as [? ?]
  | H : (_ <? _)%Z = true |- _ => apply Z.ltb_lt in H
  | H : (_ <? _)%Z = false |- _ => apply Z.ltb_ge in H
  | H : (_ <=? _)%Z = true |- _ => apply Z.leb_le in H
  | H : (_ <=? _)%Z = false |- _ => apply Z.leb_gt in H
  end.

(** ** Lists filtered and updated *)

Lemma filter_none {T} (P : T → Prop) `{!∀ x, Decision (P x)} (l : list T) :
  (∀ x, x ∈ l → ¬ P x) → filter P l = [].
Proof.
  induction l as [|x l IH]; intros Hl; [done|]. rewrite filter_cons_False by (apply Hl; left).
  apply IH. intros y Hy. apply Hl. by right.
Qed.

Lemma filter_every {T} (P : T → Prop) `{!∀ x, Decision (P x)} (l : list T) :
  (∀ x, x ∈ l → P x) → filter P l = l.
Proof.
  induction l as [|x l IH]; intros Hl; [done|]. rewrite filter_cons_True by (apply Hl; left).
  f_equal. apply IH. intros y Hy. apply Hl. by right.
Qed.

Lemma nodup_fmap_eq {T U} (f : T → U) (l : list T) x y :
  NoDup (f <$> l) → x ∈ l → y ∈ l → f x = f y → x = y.
Proof.
  induction l as [|z l IH]; [set_solver|]. rewrite fmap_cons, NoDup_cons.
  intros [Hz Hnd] Hx Hy Hxy. apply elem_of_cons in Hx as [->|Hx], Hy as [->|Hy]; try done; [| |auto].
  - destruct Hz. rewrite Hxy. by apply list_elem_of_fmap_2.
  - destruct Hz. rewrite <- Hxy. by apply list_elem_of_fmap_2.
Qed.

Lemma omap_insert_perm {T U} (f : T → option U) l i x y :
  l !! i = Some x →
  ∃ rest, omap f l ≡ₚ option_list (f x) ++ rest ∧ omap f (<[i:=y]> l) ≡ₚ option_list (f y) ++ rest.
Proof.
  intros Hi. exists (omap f (take i l) ++ omap f (drop (Datatypes.S i) l)).
  assert (Hone : ∀ z, omap f (take i l ++ z :: drop (Datatypes.S i) l)
    ≡ₚ option_list (f z) ++ omap f (take i l) ++ omap f (drop (Datatypes.S i) l)).
  { intros z. rewrite omap_app. simpl. destruct (f z); simpl; [|done]. by rewrite Permutation_middle. }
  split; [by rewrite <- Hone, take_drop_middle|].
  rewrite insert_take_drop; [apply Hone|]. by eapply lookup_lt_Some.
Qed.

Lemma sum_insert {T} (f : T → nat) l i x y :
  l !! i = Some x → (sum_list_with f (<[i:=y]> l) + f x = sum_list_with f l + f y)%nat.
Proof.
  revert i. induction l as [|z l IH]; intros i Hi; [done|]. destruct i as [|i]; simpl in *.
  - injection Hi as ->. lia.
  - specialize (IH i Hi). lia.
Qed.
