(* ===== verification/GoStrings.v ===== *)
(** * Go strings

The operations of Go's [strings] package the program calls, on byte strings
([String.string], one [ascii] per byte), with the lemmas the components
share. *)

From Stdlib Require Import Ascii.
From S2P Require Import Prelude.

(** The value of a byte. *)
Definition code (a : ascii) : N := N_of_ascii a.

(** ** Byte classes *)

Definition in_range (lo hi : N) (a : ascii) : bool :=
  ((lo <=? code a) && (code a <=? hi))%N.

Definition is_upper : ascii → bool := in_range 65 90.
Definition is_lower : ascii → bool := in_range 97 122.
Definition is_digit : ascii → bool := in_range 48 57.
Definition is_ascii (a : ascii) : bool := (code a <=? 127)%N.

(** The bytes of [unicode.IsSpace] below 128: tab, newline, vertical tab,
form feed, carriage return, space. *)
Definition ascii_space (a : ascii) : bool := in_range 9 13 a || (code a =? 32)%N.

(** The two-byte UTF-8 encodings of the other runes of [unicode.IsSpace]:
U+0085 and U+00A0. *)
Definition space2 (a b : ascii) : bool :=
  ((code a =? 0xC2) && ((code b =? 0x85) || (code b =? 0xA0)))%N.

(** The three-byte ones: U+1680, U+2000 to U+200A, U+2028, U+2029, U+202F,
U+205F and U+3000. *)
Definition space3 (a b c : ascii) : bool :=
  (((code a =? 0xE1) && (code b =? 0x9A) && (code c =? 0x80))
   || ((code a =? 0xE2) && (code b =? 0x80)
       && (in_range 0x80 0x8A c || in_range 0xA8 0xA9 c || (code c =? 0xAF)))
   || ((code a =? 0xE2) && (code b =? 0x81) && (code c =? 0x9F))
   || ((code a =? 0xE3) && (code b =? 0x80) && (code c =? 0x80)))%N.

(** ** Operations *)

Fixpoint string_app (s t : string) : string :=
  match s with
  | EmptyString => t
  | String a s' => String a (string_app s' t)
  end.

Fixpoint rev_append (s acc : string) : string :=
  match s with
  | EmptyString => acc
  | String a s' => rev_append s' (String a acc)
  end.
Definition rev_string (s : string) : string := rev_append s "".

Fixpoint len (s : string) : nat :=
  match s with
  | EmptyString => 0
  | String _ s' => S (len s')
  end.

Fixpoint all_bytes (p : ascii → bool) (s : string) : bool :=
  match s with
  | EmptyString => true
  | String a s' => p a && all_bytes p s'
  end.

Fixpoint some_byte (p : ascii → bool) (s : string) : bool :=
  match s with
  | EmptyString => false
  | String a s' => p a || some_byte p s'
  end.

(** [strings.HasPrefix]. *)
Fixpoint has_prefix (s pre : string) {struct pre} : bool :=
  match pre, s with
  | EmptyString, _ => true
  | String a pre', String b s' => bool_decide (a = b) && has_prefix s' pre'
  | String _ _, EmptyString => false
  end.

(** [strings.TrimPrefix]: drop one occurrence of the prefix, when there is
one. *)
Fixpoint drop_bytes (n : nat) (s : string) : string :=
  match n, s with
  | 0, _ => s
  | S n', String _ s' => drop_bytes n' s'
  | S _, EmptyString => EmptyString
  end.
Definition trim_prefix (s pre : string) : string :=
  if has_prefix s pre then drop_bytes (len pre) s else s.

Definition has_suffix (s suf : string) : bool :=
  has_prefix (rev_string s) (rev_string suf).
Definition trim_suffix (s suf : string) : string :=
  if has_suffix s suf
  then rev_string (drop_bytes (len suf) (rev_string s)) else s.

(** [strings.Contains]. *)
Fixpoint contains (s sub : string) : bool :=
  has_prefix s sub ||
  match s with
  | EmptyString => false
  | String _ s' => contains s' sub
  end.

(** [strings.Count] of a one-byte string. *)
Fixpoint count_byte (c : ascii) (s : string) : nat :=
  match s with
  | EmptyString => 0
  | String a s' => (if bool_decide (a = c) then 1 else 0) + count_byte c s'
  end.

(** [strings.Split] on a one-byte separator; the result has at least one
part. *)
Fixpoint split_byte (c : ascii) (s : string) : list string :=
  match s with
  | EmptyString => [""]
  | String a s' =>
      if bool_decide (a = c) then "" :: split_byte c s'
      else match split_byte c s' with
           | h :: t => String a h :: t
           | [] => [String a ""]
           end
  end.

(** [strings.Join]. *)
Fixpoint join (parts : list string) (sep : string) : string :=
  match parts with
  | [] => ""
  | [p] => p
  | p :: ps => string_app p (string_app sep (join ps sep))
  end.

(** The left trimming loop of [strings.TrimSpace], for the given encodings of
the white space runes. A rune that is trimmed starts at a byte below 128 or
at a lead byte, so no rune boundary has to be tracked. *)
Fixpoint trim_left (p2 : ascii → ascii → bool) (p3 : ascii → ascii → ascii → bool)
    (s : string) : string :=
  match s with
  | EmptyString => ""
  | String a s1 =>
      if ascii_space a then trim_left p2 p3 s1
      else match s1 with
           | EmptyString => s
           | String b s2 =>
               if p2 a b then trim_left p2 p3 s2
               else match s2 with
                    | EmptyString => s
                    | String c s3 => if p3 a b c then trim_left p2 p3 s3 else s
                    end
           end
  end.

(** [strings.TrimSpace]. The right end is the left end of the reversed
string, where an encoding is read backwards. *)
Definition TrimSpace (s : string) : string :=
  let l := trim_left space2 space3 s in
  rev_string (trim_left (λ a b, space2 b a) (λ a b c, space3 c b a) (rev_string l)).

(** [strings.TrimLeft], [TrimRight] and [Trim] with a cutset of one byte. *)
Fixpoint trim_left_byte (c : ascii) (s : string) : string :=
  match s with
  | EmptyString => ""
  | String a s' => if bool_decide (a = c) then trim_left_byte c s' else s
  end.
Definition trim_right_byte (c : ascii) (s : string) : string :=
  rev_string (trim_left_byte c (rev_string s)).
Definition trim_byte (c : ascii) (s : string) : string := trim_right_byte c (trim_left_byte c s).

Definition lower_byte (a : ascii) : ascii :=
  if is_upper a then ascii_of_N (code a + 32) else a.

(** [strings.ToLower]. Besides A to Z, exactly two runes have a lower case
below 128: U+0130 (bytes C4 B0, lower case "i") and U+212A (bytes E2 84 AA,
lower case "k"). A rune whose lower case is another rune above 127 is left
as it is: the callers compare the result with ASCII strings or refuse every
byte above 127, so they cannot tell these runes apart. *)
Fixpoint ToLower (s : string) : string :=
  match s with
  | EmptyString => ""
  | String a s1 =>
      let keep := String (lower_byte a) (ToLower s1) in
      match s1 with
      | String b s2 =>
          if ((code a =? 0xC4) && (code b =? 0xB0))%N
          then String "i" (ToLower s2)
          else match s2 with
               | String c s3 =>
                   if ((code a =? 0xE2) && (code b =? 0x84) && (code c =? 0xAA))%N
                   then String "k" (ToLower s3) else keep
               | EmptyString => keep
               end
      | EmptyString => keep
      end
  end.

(** [sort.Strings]: the sorted rearrangement in byte order, which is unique
since equal strings are indistinguishable. *)
Definition sort_strings (l : list string) : list string := merge_sort String.le l.

(** ** Bytes as lists *)

Fixpoint to_list (s : string) : list ascii :=
  match s with
  | EmptyString => []
  | String a s' => a :: to_list s'
  end.

Lemma to_list_inj s t : to_list s = to_list t → s = t.
Proof.
  revert t. induction s as [|a s IH]; intros [|b t]; try done.
  intros [= -> ?]. f_equal. by apply IH.
Qed.

Lemma to_list_app s t : to_list (string_app s t) = to_list s ++ to_list t.
Proof. induction s; simpl; [done | by f_equal]. Qed.

Lemma to_list_rev s : to_list (rev_string s) = reverse (to_list s).
Proof.
  unfold rev_string.
  assert (∀ acc, to_list (rev_append s acc) = reverse (to_list s) ++ to_list acc) as ->.
  - induction s as [|a s IH]; intros acc; simpl; [done|].
    by rewrite IH, reverse_cons, <- app_assoc.
  - apply app_nil_r.
Qed.
#[export] Hint Rewrite to_list_app to_list_rev : certplane.

Lemma rev_string_involutive s : rev_string (rev_string s) = s.
Proof. apply to_list_inj. autorewrite with certplane. apply reverse_involutive. Qed.
#[export] Hint Rewrite rev_string_involutive : certplane.

Lemma string_app_nil_r s : string_app s "" = s.
Proof. apply to_list_inj. rewrite to_list_app. apply app_nil_r. Qed.

Lemma string_app_assoc s t u :
  string_app s (string_app t u) = string_app (string_app s t) u.
Proof. apply to_list_inj. autorewrite with certplane. apply app_assoc. Qed.

Lemma len_to_list s : len s = length (to_list s).
Proof. induction s; simpl; auto. Qed.

Lemma all_bytes_spec p s :
  all_bytes p s = true ↔ ∀ a, a ∈ to_list s → p a = true.
Proof.
  induction s as [|a s IH]; simpl.
  - split; [|done]. intros _ a. by rewrite elem_of_nil.
  - rewrite andb_true_iff, IH. setoid_rewrite elem_of_cons. naive_solver.
Qed.

Lemma all_bytes_impl (p q : ascii → bool) s :
  (∀ a, p a = true → q a = true) → all_bytes p s = true → all_bytes q s = true.
Proof. rewrite !all_bytes_spec. naive_solver. Qed.

Lemma all_bytes_app p s t :
  all_bytes p (string_app s t) = all_bytes p s && all_bytes p t.
Proof. induction s; simpl; [done|]. by rewrite IHs, andb_assoc. Qed.
#[export] Hint Rewrite all_bytes_app : certplane.

Lemma some_byte_false p s :
  some_byte p s = false ↔ all_bytes (λ a, negb (p a)) s = true.
Proof.
  induction s as [|a s IH]; simpl; [done|].
  by rewrite orb_false_iff, andb_true_iff, negb_true_iff, IH.
Qed.

Lemma has_prefix_spec s pre :
  has_prefix s pre = true ↔ ∃ rest, s = string_app pre rest.
Proof.
  revert s. induction pre as [|a pre IH]; intros s; simpl.
  - split; [by exists s | done].
  - destruct s as [|b s]; simpl; [split; [done | by intros [? ?]]|].
    rewrite andb_true_iff, bool_decide_eq_true, IH. split.
    + intros [-> [r ->]]. by exists r.
    + intros [r [= -> ->]]. split; [done | by exists r].
Qed.

Lemma drop_bytes_app s t : drop_bytes (len s) (string_app s t) = t.
Proof. by induction s. Qed.

Lemma trim_prefix_app pre rest : trim_prefix (string_app pre rest) pre = rest.
Proof.
  unfold trim_prefix. replace (has_prefix _ _) with true.
  - apply drop_bytes_app.
  - symmetry. apply has_prefix_spec. by exists rest.
Qed.

Lemma has_suffix_spec s suf :
  has_suffix s suf = true ↔ ∃ front, s = string_app front suf.
Proof.
  unfold has_suffix. rewrite has_prefix_spec. split; intros [r H].
  - exists (rev_string r). apply (f_equal rev_string) in H.
    rewrite rev_string_involutive in H. rewrite H. apply to_list_inj.
    autorewrite with certplane. rewrite reverse_app. by rewrite reverse_involutive.
  - exists (rev_string r). rewrite H. apply to_list_inj.
    autorewrite with certplane. apply reverse_app.
Qed.

Lemma trim_suffix_no s suf : has_suffix s suf = false → trim_suffix s suf = s.
Proof. unfold trim_suffix. by intros ->. Qed.

Lemma contains_middle s t u : contains (string_app s (string_app t u)) t = true.
Proof.
  induction s as [|a s IH].
  - assert (Hp : has_prefix (string_app t u) t = true) by (apply has_prefix_spec; by exists u).
    change (string_app "" (string_app t u)) with (string_app t u). revert Hp.
    destruct (string_app t u); cbn [contains]; by intros ->.
  - cbn [string_app contains]. rewrite IH. apply orb_true_r.
Qed.

Lemma contains_byte c s : contains s (String c "") = true ↔ c ∈ to_list s.
Proof.
  induction s as [|a s IH]; simpl.
  - by rewrite elem_of_nil.
  - rewrite orb_true_iff, andb_true_r, bool_decide_eq_true, IH, elem_of_cons. done.
Qed.

Lemma count_byte_zero c s : count_byte c s = 0 ↔ c ∉ to_list s.
Proof.
  induction s as [|a s IH]; simpl.
  - split; [intros _; apply not_elem_of_nil | done].
  - rewrite not_elem_of_cons, <- IH. case_bool_decide; naive_solver lia.
Qed.

(** ** Splitting and joining *)

Lemma split_byte_not_nil c s : split_byte c s ≠ [].
Proof. destruct s; simpl; [done|]. case_bool_decide; [done|]. by destruct split_byte. Qed.

Lemma split_byte_app c s t :
  split_byte c (string_app s (String c t)) = split_byte c s ++ split_byte c t.
Proof.
  induction s as [|a s IH]; simpl.
  - by rewrite bool_decide_true.
  - case_bool_decide; [by rewrite IH|]. rewrite IH.
    pose proof (split_byte_not_nil c s). by destruct (split_byte c s).
Qed.

Lemma split_byte_bytes c s l a :
  l ∈ split_byte c s → a ∈ to_list l → a ∈ to_list s ∧ a ≠ c.
Proof.
  revert l. induction s as [|b s IH]; intros l; simpl.
  - intros ->%list_elem_of_singleton. by intros ?%elem_of_nil.
  - case_bool_decide as Hb.
    + intros [->|Hl]%elem_of_cons; [by intros ?%elem_of_nil|].
      intros Ha. destruct (IH l Hl Ha). by split; [right|].
    + pose proof (split_byte_not_nil c s).
      destruct (split_byte c s) as [|h t] eqn:E; [done|].
      intros [->|Hl]%elem_of_cons Ha.
      * simpl in Ha. apply elem_of_cons in Ha as [->|Ha]; [by split; [left|]|].
        destruct (IH h); [by left | done |]. by split; [right|].
      * destruct (IH l); [by right | done |]. by split; [right|].
Qed.

Lemma split_byte_all c (p : ascii → bool) s :
  p c = true →
  all_bytes p s = true ↔ ∀ l, l ∈ split_byte c s → all_bytes p l = true.
Proof.
  intros Hc. split.
  - intros Hs l Hl. apply all_bytes_spec. intros a Ha.
    rewrite all_bytes_spec in Hs. apply Hs. by eapply split_byte_bytes.
  - induction s as [|a s IH]; simpl; [done|].
    case_bool_decide as Ha.
    + subst. intros H. rewrite Hc. apply IH. intros l Hl. apply H. by right.
    + pose proof (split_byte_not_nil c s).
      destruct (split_byte c s) as [|h t] eqn:E; [done|].
      intros H'. pose proof (H' _ (list_elem_of_here _ _)) as Hh. simpl in Hh.
      apply andb_true_iff in Hh as [-> Hh]. apply IH.
      intros l [->|Hl]%elem_of_cons; [done|]. apply H'. by right.
Qed.

(** The bytes of a string other than the separator are those of its parts. *)
Lemma split_byte_elem c d s :
  d ≠ c → d ∈ to_list s ↔ ∃ l, l ∈ split_byte c s ∧ d ∈ to_list l.
Proof.
  intros Hd. split; [|intros (l & ? & ?); by eapply split_byte_bytes].
  intros Hin.
  destruct (decide (Exists (λ l, d ∈ to_list l) (split_byte c s))) as [He|Hn].
  { apply Exists_exists in He as (l & ? & ?). by exists l. }
  exfalso. apply not_Exists_Forall in Hn; [|apply _]. rewrite Forall_forall in Hn.
  assert (all_bytes (λ a, negb (bool_decide (a = d))) s = true) as Hall.
  { rewrite (split_byte_all c) by by rewrite bool_decide_false.
    intros l Hl. apply all_bytes_spec. intros a Ha.
    case_bool_decide; [|done]. subst. by apply Hn in Hl. }
  rewrite all_bytes_spec in Hall. apply Hall in Hin. by rewrite bool_decide_true in Hin.
Qed.

Lemma join_split_byte c s : join (split_byte c s) (String c "") = s.
Proof.
  induction s as [|a s IH]; [done|]. simpl.
  pose proof (split_byte_not_nil c s).
  case_bool_decide.
  - destruct (split_byte c s) as [|h t] eqn:E; [done|]. simpl in *. by rewrite IH; subst a.
  - destruct (split_byte c s) as [|h [|h' t]] eqn:E; [done| |];
      simpl in *; by rewrite IH.
Qed.

(** A string without the separator is one part. *)
Lemma split_byte_none c s : c ∉ to_list s → split_byte c s = [s].
Proof.
  induction s as [|a s IH]; simpl; [done|].
  intros [Ha Hs]%not_elem_of_cons. rewrite bool_decide_false by done.
  by rewrite IH.
Qed.

Lemma split_byte_join c parts :
  parts ≠ [] → (∀ p, p ∈ parts → c ∉ to_list p) →
  split_byte c (join parts (String c "")) = parts.
Proof.
  induction parts as [|p [|q ps] IH]; [done| |]; intros _ H; simpl.
  - apply split_byte_none, H. by left.
  - rewrite split_byte_app, split_byte_none by (apply H; by left).
    simpl. f_equal. apply IH; [done|]. intros r Hr. apply H. by right.
Qed.

(** The separator twice in a row leaves an empty part after the first. *)
Lemma split_byte_double c s :
  contains s (String c (String c "")) = true → "" ∈ tail (split_byte c s).
Proof.
  induction s as [|a s IH]; [done|].
  intros [[Ha Hs]%andb_true_iff|Hs]%orb_true_iff; simpl.
  - apply bool_decide_eq_true in Ha. rewrite bool_decide_true by done. simpl.
    destruct s as [|b s]; [done|]. simpl in Hs.
    rewrite andb_true_r, bool_decide_eq_true in Hs. subst. simpl.
    rewrite bool_decide_true by done. left.
  - specialize (IH Hs). case_bool_decide; simpl.
    + destruct (split_byte c s); [done | by right].
    + by destruct (split_byte c s).
Qed.

Lemma split_byte_trailing c s :
  has_suffix s (String c "") = true → "" ∈ split_byte c s.
Proof.
  intros [f ->]%has_suffix_spec. rewrite split_byte_app. simpl.
  apply elem_of_app. right. left.
Qed.

(** ** Trimming *)

Section trim.
Context (p2 : ascii → ascii → bool) (p3 : ascii → ascii → ascii → bool).

Definition starts_space (s : string) : bool :=
  match s with
  | EmptyString => false
  | String a s1 =>
      ascii_space a ||
      match s1 with
      | EmptyString => false
      | String b s2 =>
          p2 a b || match s2 with EmptyString => false | String c _ => p3 a b c end
      end
  end.

Lemma trim_left_fix s : starts_space s = false → trim_left p2 p3 s = s.
Proof.
  destruct s as [|a [|b [|c s]]]; simpl; [done|..];
    intros; unbool; by repeat case_match.
Qed.

(** What the loop leaves is a suffix that starts with no white space. *)
Lemma trim_left_spec s :
  starts_space (trim_left p2 p3 s) = false
  ∧ ∃ pre, s = string_app pre (trim_left p2 p3 s).
Proof.
  induction s as [s IH] using (well_founded_induction (Wf_nat.well_founded_ltof _ len)).
  unfold Wf_nat.ltof in IH.
  destruct (starts_space s) eqn:E; cycle 1.
  { rewrite trim_left_fix by done. split; [done | by exists ""]. }
  destruct s as [|a s1]; [done|]. simpl in E |- *.
  destruct (ascii_space a).
  { destruct (IH s1) as [? [pre Hp]]; [simpl; lia|].
    split; [done|]. exists (String a pre). simpl. by rewrite <- Hp. }
  destruct s1 as [|b s2]; [done|]. destruct (p2 a b).
  { destruct (IH s2) as [? [pre Hp]]; [simpl; lia|].
    split; [done|]. exists (String a (String b pre)). simpl. by rewrite <- Hp. }
  destruct s2 as [|c s3]; [done|]. simpl in E. rewrite E.
  destruct (IH s3) as [? [pre Hp]]; [simpl; lia|].
  split; [done|]. exists (String a (String b (String c pre))). simpl. by rewrite <- Hp.
Qed.

Lemma starts_space_app s t :
  starts_space s = true → starts_space (string_app s t) = true.
Proof.
  destruct s as [|a [|b [|c s]]]; simpl; [done|..]; destruct (ascii_space a); try done;
    destruct (p2 a b); done.
Qed.
End trim.

Lemma TrimSpace_idemp s : TrimSpace (TrimSpace s) = TrimSpace s.
Proof.
  unfold TrimSpace.
  destruct (trim_left_spec space2 space3 s) as [Hl _].
  set (l := trim_left space2 space3 s) in *.
  destruct (trim_left_spec (λ a b, space2 b a) (λ a b c, space3 c b a) (rev_string l))
    as [Hr [pre Hpre]].
  set (r := trim_left (λ a b, space2 b a) (λ a b c, space3 c b a) (rev_string l)) in *.
  assert (l = string_app (rev_string r) (rev_string pre)) as El.
  { apply (f_equal rev_string) in Hpre. rewrite rev_string_involutive in Hpre.
    rewrite Hpre. apply to_list_inj. autorewrite with certplane. apply reverse_app. }
  rewrite (trim_left_fix space2 space3 (rev_string r)).
  - rewrite rev_string_involutive. by rewrite trim_left_fix.
  - destruct (starts_space space2 space3 (rev_string r)) eqn:E; [|done].
    apply (starts_space_app _ _ _ (rev_string pre)) in E. rewrite <- El in E. congruence.
Qed.

(** ** Byte facts, by arithmetic on the codes *)

Ltac byte_arith :=
  unfold ascii_space, space2, space3, is_upper, is_lower, is_digit, is_ascii,
    in_range in *; cbv beta in *; lia.

Lemma code_inj a b : code a = code b → a = b.
Proof.
  unfold code. intros H.
  by rewrite <- (ascii_N_embedding a), <- (ascii_N_embedding b), H.
Qed.

Lemma code_bound a : (code a < 256)%N.
Proof. apply N_ascii_bounded. Qed.

(** A byte that no white space rune of [TrimSpace] contains. *)
Definition plain_byte (a : ascii) : bool := (32 <? code a)%N && is_ascii a.

Lemma plain_not_space s :
  all_bytes plain_byte s = true →
  starts_space space2 space3 s = false
  ∧ starts_space (λ a b, space2 b a) (λ a b c, space3 c b a) s = false.
Proof.
  unfold plain_byte. intros H.
  destruct s as [|a [|b [|c s]]]; simpl in H |- *; [done|..]; split; byte_arith.
Qed.

Lemma all_bytes_rev p s : all_bytes p (rev_string s) = all_bytes p s.
Proof.
  apply eq_true_iff_eq. rewrite !all_bytes_spec, to_list_rev.
  by setoid_rewrite elem_of_reverse.
Qed.
#[export] Hint Rewrite all_bytes_rev : certplane.

Lemma TrimSpace_plain s : all_bytes plain_byte s = true → TrimSpace s = s.
Proof.
  intros H. unfold TrimSpace.
  rewrite (trim_left_fix space2 space3 s) by by apply plain_not_space.
  rewrite trim_left_fix; [apply rev_string_involutive|].
  apply plain_not_space. by rewrite all_bytes_rev.
Qed.

Lemma ToLower_plain s :
  all_bytes (λ a, is_ascii a && negb (is_upper a)) s = true → ToLower s = s.
Proof.
  induction s as [|a s IH]; [done|]. simpl. intros [[Ha Hu]%andb_true_iff Hs]%andb_true_iff.
  unbool. unfold lower_byte. rewrite Hu, IH by done.
  destruct s as [|b [|c s]]; [done|..]; repeat case_match; try done;
    exfalso; byte_arith.
Qed.

(** The output of [ToLower] holds no upper case letter. *)
Lemma lower_byte_not_upper a : is_upper (lower_byte a) = false.
Proof.
  unfold lower_byte. destruct (is_upper a) eqn:E; [|done].
  pose proof (code_bound a). unfold is_upper, in_range, code in *.
  rewrite N_ascii_embedding; lia.
Qed.

Lemma ToLower_no_upper s : all_bytes (λ a, negb (is_upper a)) (ToLower s) = true.
Proof.
  induction s as [s IH] using (well_founded_induction (Wf_nat.well_founded_ltof _ len)).
  unfold Wf_nat.ltof in IH.
  destruct s as [|a s1]; [done|]. simpl.
  pose proof (lower_byte_not_upper a) as Ha.
  destruct s1 as [|b s2]; [by simpl; rewrite Ha|].
  case_match. { simpl. apply IH. simpl. lia. }
  assert (all_bytes (λ a, negb (is_upper a)) (ToLower (String b s2)) = true) as Hb
    by (apply IH; simpl; lia).
  destruct s2 as [|c s3].
  - simpl. rewrite Ha. apply Hb.
  - case_match. { simpl. apply IH. simpl. lia. }
    change (negb (is_upper (lower_byte a))
      && all_bytes (λ a, negb (is_upper a)) (ToLower (String b (String c s3))) = true).
    by rewrite Ha, Hb.
Qed.

(** ** Sorting *)

Lemma sort_strings_Permutation l : sort_strings l ≡ₚ l.
Proof. apply merge_sort_Permutation. Qed.

Lemma sort_strings_elem_of x l : x ∈ sort_strings l ↔ x ∈ l.
Proof. by rewrite sort_strings_Permutation. Qed.

Lemma sort_strings_NoDup l : NoDup (sort_strings l) ↔ NoDup l.
Proof. by rewrite sort_strings_Permutation. Qed.

Lemma sort_strings_length l : length (sort_strings l) = length l.
Proof. by rewrite sort_strings_Permutation. Qed.

Lemma sort_strings_Sorted l : StronglySorted String.le (sort_strings l).
Proof. apply StronglySorted_merge_sort; apply _. Qed.

(** Sorting is determined by the multiset. *)
#[export] Instance sort_strings_proper : Proper ((≡ₚ) ==> (=)) sort_strings.
Proof.
  intros l k Hlk. apply (StronglySorted_unique String.le).
  - apply sort_strings_Sorted.
  - apply sort_strings_Sorted.
  - by rewrite !sort_strings_Permutation.
Qed.

Lemma sort_strings_id l : StronglySorted String.le l → sort_strings l = l.
Proof.
  intros Hl. apply (StronglySorted_unique String.le); [apply sort_strings_Sorted | done |].
  apply sort_strings_Permutation.
Qed.

(** Two duplicate-free lists with the same elements sort alike. *)
Lemma sort_strings_ext l k :
  NoDup l → NoDup k → (∀ x, x ∈ l ↔ x ∈ k) → sort_strings l = sort_strings k.
Proof. intros. apply sort_strings_proper. by apply NoDup_Permutation. Qed.

#[export] Hint Rewrite sort_strings_elem_of sort_strings_NoDup sort_strings_length : certplane.
#[export] Hint Resolve sort_strings_Sorted : certplane.

#[global] Arguments has_prefix : simpl never.
#[global] Arguments has_suffix : simpl never.
#[global] Arguments trim_prefix : simpl never.
#[global] Arguments trim_suffix : simpl never.
#[global] Arguments contains : simpl never.
#[global] Arguments TrimSpace : simpl never.
#[global] Arguments ToLower : simpl never.
#[global] Arguments sort_strings : simpl never.
