(* ===== verification/DnsName.v ===== *)
(** * DNS names ([internal/dnsname/dnsname.go])

[Canonical], [CanonicalList], [IsValidWildcard] and [EqualSet], the
declarative grammar [canonical_dns] of the names [Canonical] returns, and the
lemmas the policy, the PKI helpers and the configuration rely on. *)

From Stdlib Require Import Ascii.
From S2P Require Import Prelude GoStrings.
#[local] Open Scope go_scope.

Module dnsname.

(** The errors of [Canonical], one constructor per [fmt.Errorf]; the
arguments of the message are kept where they are ASCII. *)
Inductive error :=
  | EmptyName
  | ContainsWhitespace
  | ContainsEmptyLabel
  | NotASCII
  | InvalidWildcard (name : string)
  | TooFewLabels (name : string)
  | LabelTooLong (label : string)
  | LabelHyphen (label : string)
  | LabelInvalidCharacter (label : string) (r : ascii).

(** [strings.ContainsAny(name, " \t\n\r")] *)
Definition listed_space (a : ascii) : bool :=
  ((code a =? 32) || (code a =? 9) || (code a =? 10) || (code a =? 13))%N.

Definition IsValidWildcard (name : string) : bool :=
  if negb (has_prefix name "*.") then false
  else if negb (count_byte "*"%char name =? 1)%nat then false
  else
    let rest := trim_prefix name "*." in
    let labels := split_byte "."%char rest in
    (2 <=? length labels)%nat &&
    match labels with
    | l0 :: l1 :: _ => (l0 != "") && (l1 != "")
    | _ => false
    end.

Definition label_byte (a : ascii) : bool :=
  is_lower a || is_digit a || (a == "-"%char).

(** The inner loop over the runes of a label; the label is ASCII. *)
Fixpoint check_label_bytes (label rest : string) : option error :=
  match rest with
  | EmptyString => None
  | String a rest' =>
      if negb (label_byte a) then Some (LabelInvalidCharacter label a)
      else check_label_bytes label rest'
  end.

Definition check_label (label : string) : option error :=
  if label == "" then Some ContainsEmptyLabel
  else if (63 <? len label)%nat then Some (LabelTooLong label)
  else if label != "*" then
    if has_prefix label "-" || has_suffix label "-" then Some (LabelHyphen label)
    else check_label_bytes label label
  else None.

Fixpoint check_labels (labels : list string) : option error :=
  match labels with
  | [] => None
  | l :: ls => match check_label l with Some e => Some e | None => check_labels ls end
  end.

(** The three assignments at the top of [Canonical]. *)
Definition normalise (name : string) : string :=
  ToLower (trim_suffix (TrimSpace name) ".").

Definition Canonical (name : string) : result error string :=
  let name := normalise name in
  if name == "" then Err EmptyName
  else if some_byte listed_space name then Err ContainsWhitespace
  else if contains name ".." then Err ContainsEmptyLabel
  else if some_byte (λ r, negb (is_ascii r)) name then Err NotASCII
  else if contains name "*" && negb (IsValidWildcard name)
  then Err (InvalidWildcard name)
  else
    let labels := split_byte "."%char name in
    if (length labels <? 2)%nat then Err (TooFewLabels name)
    else match check_labels labels with
         | Some e => Err e
         | None => Ok name
         end.

(** The loop of [CanonicalList], with the map [seen] and the slice [out]. *)
Fixpoint canonical_loop (names : list string) (seen : gset string) (out : list string)
    : result error (list string) :=
  match names with
  | [] => Ok out
  | name :: names' =>
      canonical ← Canonical name;
      if bool_decide (canonical ∈ seen) then canonical_loop names' seen out
      else canonical_loop names' ({[canonical]} ∪ seen) (out ++ [canonical])
  end.

Definition CanonicalList (names : list string) : result error (list string) :=
  out ← canonical_loop names ∅ [];
  mret (sort_strings out).

(** The loop of [EqualSet] over the indices of two slices of one length. *)
Fixpoint equal_elements (a b : list string) : bool :=
  match a, b with
  | x :: a', y :: b' => if x != y then false else equal_elements a' b'
  | _, _ => true
  end.

Definition EqualSet (a b : list string) : bool :=
  match CanonicalList a, CanonicalList b with
  | Ok ca, Ok cb =>
      if negb (length ca =? length cb)%nat then false else equal_elements ca cb
  | _, _ => false
  end.

Example Canonical_test : Canonical "API.WHISPER.CL." = Ok "api.whisper.cl".
Proof. vm_compute. reflexivity. Qed.

(** ** Grammar of the canonical names *)

(** A letter-digit-hyphen label of 1 to 63 bytes. *)
Definition ldh_label (l : string) : Prop :=
  l ≠ "" ∧ len l ≤ 63 ∧ all_bytes label_byte l = true
  ∧ has_prefix l "-" = false ∧ has_suffix l "-" = false.

(** The labels of a name after an optional leading "*". *)
Definition dns_body (n : string) : list string :=
  match split_byte "."%char n with
  | l :: ls => if l == "*" then ls else l :: ls
  | [] => []
  end.

(** At least two letter-digit-hyphen labels, after an optional leading "*". *)
Definition canonical_dns (n : string) : Prop :=
  2 ≤ length (dns_body n) ∧ Forall ldh_label (dns_body n).

#[export] Instance ldh_label_dec l : Decision (ldh_label l).
Proof. unfold ldh_label. apply _. Defined.
#[export] Instance canonical_dns_dec n : Decision (canonical_dns n).
Proof. unfold canonical_dns. apply _. Defined.

(** ** The label checks *)

Lemma check_label_bytes_None l rest :
  check_label_bytes l rest = None ↔ all_bytes label_byte rest = true.
Proof.
  induction rest as [|a r IH]; simpl; [done|]. destruct (label_byte a); naive_solver.
Qed.

Lemma check_label_None l : check_label l = None ↔ l = "*" ∨ ldh_label l.
Proof.
  unfold check_label, ldh_label. rewrite <- (check_label_bytes_None l l).
  case_bool_decide as E1; [subst; naive_solver|].
  destruct (Nat.ltb_spec 63 (len l)) as [H|H].
  { split; [done|]. intros [->|?]; [simpl in H; lia | lia]. }
  case_bool_decide as E2; [naive_solver|].
  destruct (has_prefix l "-"), (has_suffix l "-"); naive_solver.
Qed.

Lemma check_labels_None ls :
  check_labels ls = None ↔ Forall (λ l, l = "*" ∨ ldh_label l) ls.
Proof.
  induction ls as [|l ls IH]; simpl; [done|].
  rewrite Forall_cons, <- check_label_None. destruct (check_label l); naive_solver.
Qed.

Lemma label_byte_not_special a :
  label_byte a = true → a ≠ "*"%char ∧ a ≠ "."%char.
Proof. intros H. split; intros ->; done. Qed.

Lemma ldh_label_no_star l : ldh_label l → "*"%char ∉ to_list l.
Proof.
  intros (_ & _ & H & _) Hin. rewrite all_bytes_spec in H. by apply H in Hin.
Qed.

Lemma ldh_label_not_star l : ldh_label l → l ≠ "*".
Proof. intros H ->. apply ldh_label_no_star in H. apply H. left. Qed.

Lemma ldh_not_empty ls : Forall ldh_label ls → "" ∉ ls.
Proof. rewrite Forall_forall. intros H Hin. by destruct (H _ Hin). Qed.

(** ** Wildcards *)

Lemma split_star rest :
  split_byte "."%char (string_app "*." rest) = "*" :: split_byte "."%char rest.
Proof. done. Qed.

Lemma IsValidWildcard_spec n :
  IsValidWildcard n = true ↔
  ∃ rest l0 l1 ls, n = string_app "*." rest ∧ ("*"%char ∉ to_list rest)
    ∧ split_byte "."%char rest = l0 :: l1 :: ls ∧ l0 ≠ "" ∧ l1 ≠ "".
Proof.
  unfold IsValidWildcard. split.
  - intros H. destruct (has_prefix n "*.") eqn:Hp; [|done].
    apply has_prefix_spec in Hp as [rest ->].
    destruct (Nat.eqb_spec (count_byte "*" (string_app "*." rest)) 1) as [Hc|]; [|done].
    rewrite trim_prefix_app in H. simpl in Hc, H.
    destruct (split_byte "."%char rest) as [|l0 [|l1 ls]] eqn:E; try done.
    simpl in H. unbool. exists rest, l0, l1, ls. split_and!; try done.
    apply count_byte_zero. lia.
  - intros (rest & l0 & l1 & ls & -> & Hs & E & H0 & H1).
    replace (has_prefix _ _) with true by (symmetry; apply has_prefix_spec; by exists rest).
    rewrite trim_prefix_app, E. apply count_byte_zero in Hs. simpl.
    by rewrite Hs, !bool_decide_false.
Qed.

(** ** [Canonical] computes the normal form of the names of the grammar *)

Definition name_byte (a : ascii) : bool :=
  label_byte a || (a == "."%char) || (a == "*"%char).

Lemma canonical_labels n :
  canonical_dns n → Forall (λ l, l = "*" ∨ ldh_label l) (split_byte "."%char n).
Proof.
  unfold canonical_dns, dns_body. intros [_ H].
  destruct (split_byte "."%char n) as [|l ls]; [done|].
  case_bool_decide; [constructor; [by left|]|]; eapply Forall_impl; eauto.
Qed.

Lemma canonical_bytes n : canonical_dns n → all_bytes name_byte n = true.
Proof.
  intros H%canonical_labels. rewrite (split_byte_all "."%char) by done.
  intros l Hl. rewrite Forall_forall in H. destruct (H l Hl) as [->|Hldh]; [done|].
  destruct Hldh as (_ & _ & Hb & _). revert Hb. apply all_bytes_impl.
  unfold name_byte. by intros a ->.
Qed.

Lemma name_byte_plain a :
  name_byte a = true →
  plain_byte a = true ∧ is_upper a = false ∧ listed_space a = false ∧ is_ascii a = true.
Proof.
  unfold name_byte, label_byte, plain_byte, listed_space. intros H.
  rewrite !orb_true_iff, !bool_decide_eq_true in H.
  destruct H as [[[[H|H]|H]|H]|H]; subst; try done; byte_arith.
Qed.

Lemma canonical_no_empty n : canonical_dns n → "" ∉ split_byte "."%char n.
Proof.
  intros H%canonical_labels Hin. rewrite Forall_forall in H.
  destruct (H _ Hin) as [|[??]]; done.
Qed.

Lemma canonical_normalise n : canonical_dns n → normalise n = n.
Proof.
  intros H. pose proof (canonical_bytes n H) as Hb. unfold normalise.
  rewrite TrimSpace_plain.
  2: { eapply all_bytes_impl; [|done]. apply name_byte_plain. }
  rewrite trim_suffix_no.
  - apply ToLower_plain. eapply all_bytes_impl; [|done].
    by intros a (_ & -> & _ & ->)%name_byte_plain.
  - destruct (has_suffix n ".") eqn:E; [|done].
    apply split_byte_trailing in E. by apply canonical_no_empty in E.
Qed.
(** The name after a leading "*.". *)
Lemma split_star_inv n ls :
  split_byte "."%char n = "*" :: ls → ls ≠ [] → n = string_app "*." (join ls ".").
Proof.
  intros E Hls. rewrite <- (join_split_byte "."%char n), E. by destruct ls.
Qed.

Lemma ldh_labels_no_star n :
  Forall ldh_label (split_byte "."%char n) → "*"%char ∉ to_list n.
Proof.
  rewrite (split_byte_elem "."%char), Forall_forall by done.
  intros H (l & Hl%H & Hin). by apply ldh_label_no_star in Hl.
Qed.

Lemma canonical_wildcard n :
  canonical_dns n → contains n "*" = true → IsValidWildcard n = true.
Proof.
  unfold canonical_dns, dns_body. intros [Hlen Hldh] Hstar%contains_byte.
  destruct (split_byte "."%char n) as [|l ls] eqn:E; [simpl in Hlen; lia|].
  case_bool_decide as Hl; cycle 1.
  { rewrite <- E in Hldh. by apply ldh_labels_no_star in Hldh. }
  subst l. destruct ls as [|l0 [|l1 ls]]; simpl in Hlen; [lia|lia|].
  apply split_star_inv in E as En; [|done].
  assert (E' : split_byte "."%char (join (l0 :: l1 :: ls) ".") = l0 :: l1 :: ls)
    by (rewrite En, split_star in E; congruence).
  apply IsValidWildcard_spec. exists (join (l0 :: l1 :: ls) "."), l0, l1, ls.
  split_and!; [done| |done|..].
  - apply ldh_labels_no_star. by rewrite E'.
  - rewrite Forall_forall in Hldh. apply Hldh. left.
  - rewrite Forall_forall in Hldh. apply Hldh. right. left.
Qed.

(** The checks of [Canonical] after normalisation accept the grammar... *)
Lemma Canonical_complete s :
  canonical_dns (normalise s) → Canonical s = Ok (normalise s).
Proof.
  unfold Canonical. set (n := normalise s). intros H.
  pose proof (canonical_bytes n H) as Hb. pose proof (canonical_no_empty n H) as He.
  rewrite (bool_decide_false (n = "")); [|intros E; rewrite E in He; apply He; left].
  rewrite (proj2 (some_byte_false listed_space n)).
  2: { eapply all_bytes_impl; [|done]. by intros a (_ & _ & -> & _)%name_byte_plain. }
  destruct (contains n "..") eqn:Hdd.
  { apply split_byte_double in Hdd. exfalso. apply He.
    destruct (split_byte "."%char n); [done | by right]. }
  rewrite (proj2 (some_byte_false (λ r, negb (is_ascii r)) n)).
  2: { eapply all_bytes_impl; [|done]. by intros a (_ & _ & _ & ->)%name_byte_plain. }
  destruct (contains n "*") eqn:Hs; simpl; [rewrite canonical_wildcard by done|]; simpl.
  all: rewrite (proj2 (check_labels_None _)) by (by apply canonical_labels).
  all: destruct H as [Hlen _]; unfold dns_body in Hlen.
  all: destruct (Nat.ltb_spec (length (split_byte "."%char n)) 2) as [Hlt|]; [|done].
  all: destruct (split_byte "."%char n) as [|l [|? ?]]; simpl in *; [lia| |lia].
  all: case_bool_decide; simpl in Hlen; lia.
Qed.

(** ... and nothing else. *)
Lemma Canonical_sound s n : Canonical s = Ok n → n = normalise s ∧ canonical_dns n.
Proof.
  unfold Canonical. set (m := normalise s). intros H.
  case_bool_decide; [done|].
  destruct (some_byte listed_space m); [done|].
  destruct (contains m ".."); [done|].
  destruct (some_byte _ m); [done|].
  destruct (contains m "*" && negb (IsValidWildcard m)) eqn:Hw; [done|].
  destruct (Nat.ltb_spec (length (split_byte "."%char m)) 2) as [|Hlen]; [done|].
  destruct (check_labels _) eqn:Hc; [done|]. injection H as <-. split; [done|].
  apply check_labels_None in Hc. rewrite Forall_forall in Hc.
  assert (Hldh : ∀ l, l ∈ split_byte "."%char m → l ≠ "*" → ldh_label l)
    by (intros l Hl ?; by destruct (Hc l Hl)).
  unfold canonical_dns, dns_body.
  destruct (contains m "*") eqn:Hstar.
  - simpl in Hw. apply negb_false_iff, IsValidWildcard_spec in Hw
      as (rest & l0 & l1 & ls & Hm & Hns & E & _).
    rewrite Hm, split_star, E in Hldh |- *. rewrite bool_decide_true by done.
    split; [simpl; lia|]. apply Forall_forall. intros l Hl. apply Hldh; [by right|].
    intros ->. apply Hns. rewrite <- E in Hl.
    eapply (split_byte_bytes "."%char); [done | left].
  - assert (∀ l, l ∈ split_byte "."%char m → l ≠ "*") as Hno.
    { intros l Hl ->. assert ("*"%char ∈ to_list m) as Hin
        by (eapply split_byte_bytes; [done | left]).
      apply contains_byte in Hin. congruence. }
    destruct (split_byte "."%char m) as [|l ls]; [simpl in Hlen; lia|].
    rewrite bool_decide_false by (apply Hno; left).
    split; [done|]. apply Forall_forall. naive_solver.
Qed.

Lemma Canonical_Ok s n : Canonical s = Ok n ↔ n = normalise s ∧ canonical_dns n.
Proof.
  split; [apply Canonical_sound|]. intros [-> H]. by apply Canonical_complete.
Qed.

Lemma Canonical_fix n : canonical_dns n → Canonical n = Ok n.
Proof. intros H. apply Canonical_Ok. by rewrite canonical_normalise. Qed.
#[export] Hint Resolve Canonical_fix : certplane.

Lemma Canonical_canonical s n : Canonical s = Ok n → canonical_dns n.
Proof. by intros [_ ?]%Canonical_Ok. Qed.
#[export] Hint Resolve Canonical_canonical : certplane.

(** On canonical names the wildcard test is the presence of a "*". *)
Lemma IsValidWildcard_contains n :
  canonical_dns n → IsValidWildcard n = contains n "*".
Proof.
  intros H. apply eq_true_iff_eq. split; [|by apply canonical_wildcard].
  intros (rest & l0 & l1 & ls & -> & _)%IsValidWildcard_spec. by apply contains_byte; left.
Qed.

(** ** Lists of names *)

Lemma canonical_loop_Ok names seen out r :
  NoDup out → (∀ x, x ∈ out ↔ x ∈ seen) →
  canonical_loop names seen out = Ok r →
  NoDup r
  ∧ (∀ n, n ∈ r ↔ n ∈ out ∨ ∃ s, s ∈ names ∧ Canonical s = Ok n)
  ∧ (∀ s, s ∈ names → is_ok (Canonical s) = true).
Proof.
  revert seen out. induction names as [|s names IH]; intros seen out Hnd Hseen; simpl.
  { intros [= <-]. split_and!; [done| |by intros ? ?%elem_of_nil].
    intros n. split; [by left|]. intros [?|(? & ?%elem_of_nil & _)]; done. }
  intros (c & Hc & H)%bind_Ok.
  assert (Hgoal : ∃ out', NoDup out' ∧ canonical_loop names (list_to_set out') out' = Ok r
    ∧ ∀ n, n ∈ out' ↔ n ∈ out ∨ n = c).
  { case_bool_decide as Hin.
    - exists out. split_and!; [done| |intros n; split; [by left|intros [?| ->]; [done|by apply Hseen]]].
      rewrite <- H. f_equal. apply set_eq. intros x. by rewrite elem_of_list_to_set.
    - exists (out ++ [c]). split_and!.
      + apply NoDup_app. split_and!; [done | | apply NoDup_singleton].
        intros x Hx ->%list_elem_of_singleton. by apply Hin, Hseen.
      + rewrite <- H. f_equal. apply set_eq. intros x.
        rewrite elem_of_list_to_set, elem_of_app, list_elem_of_singleton, Hseen. set_solver.
      + intros n. by rewrite elem_of_app, list_elem_of_singleton. }
  destruct Hgoal as (out' & Hnd' & H' & Hout').
  apply IH in H' as (? & Hr & Hall); [|done|intros x; by rewrite elem_of_list_to_set].
  split_and!; [done| |].
  - intros n. rewrite Hr, Hout'. setoid_rewrite elem_of_cons.
    split; [intros [[?| ->]|(x & ? & ?)]; eauto|].
    intros [?|(x & [->|?] & Hx)]; [by left; left| |by eauto].
    left. right. congruence.
  - intros x [->|Hx]%elem_of_cons; [by rewrite Hc | by apply Hall].
Qed.

Lemma canonical_loop_total names seen out :
  (∀ s, s ∈ names → is_ok (Canonical s) = true) →
  is_ok (canonical_loop names seen out) = true.
Proof.
  revert seen out. induction names as [|s names IH]; intros seen out H; [done|]. simpl.
  pose proof (H s (list_elem_of_here _ _)) as Hs. destruct (Canonical s); [|done]. simpl.
  case_bool_decide; apply IH; intros; apply H; by right.
Qed.

Lemma canonical_loop_Err names seen out e :
  canonical_loop names seen out = Err e → ∃ s, s ∈ names ∧ Canonical s = Err e.
Proof.
  revert seen out. induction names as [|s names IH]; intros seen out; [done|]. simpl.
  intros [H|(c & _ & H)]%bind_Err; [exists s; (split; [left | done])|].
  case_bool_decide; apply IH in H as (x & ? & ?); exists x; (split; [by right | done]).
Qed.

(** The canonical list is the sorted duplicate-free list of the canonical
forms of the elements, all of which must have one. *)
Lemma CanonicalList_Ok l out :
  CanonicalList l = Ok out ↔
  StronglySorted String.le out ∧ NoDup out
  ∧ (∀ n, n ∈ out ↔ ∃ s, s ∈ l ∧ Canonical s = Ok n)
  ∧ (∀ s, s ∈ l → is_ok (Canonical s) = true).
Proof.
  unfold CanonicalList. split.
  - intros (r & Hr & [= <-])%bind_Ok.
    apply canonical_loop_Ok in Hr as (Hnd & Hel & Hall);
      [|constructor|set_solver].
    split_and!; [auto with certplane | by rewrite sort_strings_NoDup | | done].
    intros n. rewrite sort_strings_elem_of, Hel, elem_of_nil. naive_solver.
  - intros (Hs & Hnd & Hel & Hall).
    pose proof (canonical_loop_total l ∅ [] Hall) as Ht.
    destruct (canonical_loop l ∅ []) as [r|] eqn:Hr; [|done]. simpl. unfold mret, result_ret.
    apply canonical_loop_Ok in Hr as (Hnd' & Hel' & _); [|constructor|set_solver].
    f_equal. rewrite <- (sort_strings_id out) by done.
    apply sort_strings_ext; [done..|]. intros x. rewrite Hel, Hel', elem_of_nil. naive_solver.
Qed.

Lemma CanonicalList_canonical l out :
  CanonicalList l = Ok out → Forall canonical_dns out.
Proof.
  intros (_ & _ & H & _)%CanonicalList_Ok. apply Forall_forall.
  intros n (s & _ & ?)%H. eauto with certplane.
Qed.

Lemma CanonicalList_fix l out : CanonicalList l = Ok out → CanonicalList out = Ok out.
Proof.
  intros H. pose proof (CanonicalList_canonical _ _ H) as Hc. rewrite Forall_forall in Hc.
  apply CanonicalList_Ok in H as (Hs & Hnd & _).
  apply CanonicalList_Ok. split_and!; [done..| |].
  - intros n. split; [intros Hn; exists n; auto with certplane|].
    intros (s & Hin & Hn). rewrite (Canonical_fix s) in Hn by auto. by injection Hn as <-.
  - intros n Hn. by rewrite (Canonical_fix n) by auto.
Qed.

Lemma CanonicalList_nil l : CanonicalList l = Ok [] → l = [].
Proof.
  intros (_ & _ & H & Ho)%CanonicalList_Ok. destruct l as [|s l]; [done|].
  specialize (Ho s (list_elem_of_here _ _)). destruct (Canonical s) as [n|] eqn:E; [|done].
  exfalso. apply (not_elem_of_nil n), H. exists s. by split; [left|].
Qed.

Lemma equal_elements_eq a b :
  length a = length b → equal_elements a b = true ↔ a = b.
Proof.
  revert b. induction a as [|x a IH]; intros [|y b]; simpl; try done.
  intros [= Hl]. case_bool_decide; simpl; [rewrite IH by done|]; naive_solver.
Qed.

Lemma EqualSet_lists a b :
  EqualSet a b = true ↔ ∃ c, CanonicalList a = Ok c ∧ CanonicalList b = Ok c.
Proof.
  unfold EqualSet. destruct (CanonicalList a) as [ca|], (CanonicalList b) as [cb|];
    try naive_solver.
  destruct (Nat.eqb_spec (length ca) (length cb)) as [E|E]; simpl.
  - rewrite equal_elements_eq by done. naive_solver.
  - split; [done|]. intros (c & [= ->] & [= ->]). done.
Qed.

(** ** Properties *)

(** C40: [Canonical] accepts exactly the names whose normal form (trimmed,
one trailing dot dropped, lower case) lies in the declarative grammar, returns
that normal form, and is idempotent: its results are its fixed points. *)
Theorem Canonical_correct s n :
  Canonical s = Ok n ↔ n = normalise s ∧ canonical_dns n ∧ Canonical n = Ok n.
Proof. rewrite Canonical_Ok. naive_solver auto with certplane. Qed.

(** [CanonicalList] returns the strictly sorted list of the canonical
forms of its arguments when all of them have one, and fails otherwise; its
result depends only on the set of names, and is a fixed point. *)
Theorem CanonicalList_correct l out :
  CanonicalList l = Ok out ↔
  StronglySorted String.le out ∧ NoDup out
  ∧ (∀ n, n ∈ out ↔ ∃ s, s ∈ l ∧ Canonical s = Ok n)
  ∧ (∀ s, s ∈ l → ∃ n, Canonical s = Ok n ∧ n ∈ out)
  ∧ CanonicalList out = Ok out.
Proof.
  split.
  - intros H. pose proof (CanonicalList_fix _ _ H).
    apply CanonicalList_Ok in H as (? & ? & Hel & Hok). split_and!; try done.
    intros s Hs. specialize (Hok s Hs). destruct (Canonical s) as [n|] eqn:E; [|done].
    exists n. split; [done|]. apply Hel. eauto.
  - intros (? & ? & Hel & Hok & _). apply CanonicalList_Ok. split_and!; try done.
    intros s (n & -> & _)%Hok. done.
Qed.

(** [EqualSet] decides whether two lists of names denote the same
non-failing set of canonical names, whatever their order, repetitions, case
and surrounding white space. *)
Theorem EqualSet_correct a b :
  EqualSet a b = true ↔
  (∀ s, s ∈ a ∨ s ∈ b → is_ok (Canonical s) = true)
  ∧ (∀ n, (∃ s, s ∈ a ∧ Canonical s = Ok n) ↔ (∃ s, s ∈ b ∧ Canonical s = Ok n)).
Proof.
  rewrite EqualSet_lists. setoid_rewrite CanonicalList_Ok. split.
  - intros (c & (_ & _ & Ha & Hoa) & (_ & _ & Hb & Hob)).
    split; [naive_solver|]. intros n. by rewrite <- Ha, <- Hb.
  - intros [Hok Heq].
    pose proof (canonical_loop_total a ∅ [] (λ s Hs, Hok s (or_introl Hs))) as Ht.
    destruct (canonical_loop a ∅ []) as [r|] eqn:Er; [|done].
    apply canonical_loop_Ok in Er as (Hnd & Hel & _); [|constructor|set_solver].
    exists (sort_strings r).
    assert (∀ n, n ∈ sort_strings r ↔ ∃ s, s ∈ a ∧ Canonical s = Ok n) as Hs.
    { intros n. rewrite sort_strings_elem_of, Hel, elem_of_nil. naive_solver. }
    split_and!; auto using sort_strings_Sorted; try by rewrite sort_strings_NoDup.
    intros n. by rewrite Hs, Heq.
Qed.

(** The check for bytes above 127 runs after [strings.ToLower], whose tables
map the Kelvin sign U+212A to "k": a name that is not ASCII is accepted, and
denotes the name with the letter "k". *)
Definition kelvin_sign : string :=
  String (ascii_of_N 0xE2) (String (ascii_of_N 0x84) (String (ascii_of_N 0xAA) "")).

Example Canonical_accepts_kelvin_sign :
  Canonical (string_app "certplane." (string_app kelvin_sign "ippel.org"))
  = Ok "certplane.kippel.org".
Proof. vm_compute. reflexivity. Qed.
End dnsname.
