(* ===== verification/Sha256.v ===== *)
(** * SHA-256 and hexadecimal text

[crypto/sha256] and [encoding/hex] as the program uses them: digests of byte
strings, rendered as lower case hexadecimal text. *)

From Stdlib Require Import Ascii.
From S2P Require Import Prelude GoStrings.
#[local] Open Scope N_scope.

Module sha256.

Definition word_mask : N := 0xffffffff.
Definition add32 (x y : N) : N := N.land (x + y) word_mask.
Definition rotr (x n : N) : N :=
  N.lor (N.shiftr x n) (N.land (N.shiftl x (32 - n)) word_mask).
Definition not32 (x : N) : N := N.lxor x word_mask.

(** The round constants are the first 32 bits of the fractional parts of the
cube roots of the first 64 primes, the initial state those of the square roots
of the first 8. *)
Fixpoint cube_root (bits : nat) (acc x : N) : N :=
  match bits with
  | O => acc
  | S b =>
      let try := acc + N.shiftl 1 (N.of_nat b) in
      cube_root b (if try * try * try <=? x then try else acc) x
  end.

Definition is_prime (n : nat) : bool :=
  forallb (λ d, negb (n mod d =? 0)%nat) (seq 2 (n - 2)).
Definition primes : list N :=
  N.of_nat <$> base.filter (λ n, is_prime n = true) (seq 2 310).

Definition K : list N :=
  Eval vm_compute in (λ p, N.land (cube_root 40 0 (N.shiftl p 96)) word_mask) <$> primes.
Definition H0 : list N :=
  Eval vm_compute in (λ p, N.land (N.sqrt (N.shiftl p 64)) word_mask) <$> take 8 primes.

Example K_length : length K = 64%nat.
Proof. reflexivity. Qed.

Definition big_sigma0 x := N.lxor (rotr x 2) (N.lxor (rotr x 13) (rotr x 22)).
Definition big_sigma1 x := N.lxor (rotr x 6) (N.lxor (rotr x 11) (rotr x 25)).
Definition small_sigma0 x := N.lxor (rotr x 7) (N.lxor (rotr x 18) (N.shiftr x 3)).
Definition small_sigma1 x := N.lxor (rotr x 17) (N.lxor (rotr x 19) (N.shiftr x 10)).
Definition ch x y z := N.lxor (N.land x y) (N.land (not32 x) z).
Definition maj x y z := N.lxor (N.land x y) (N.lxor (N.land x z) (N.land y z)).

(** The message as words, after the padding to a multiple of 64 bytes. *)
Fixpoint words (l : list N) : list N :=
  match l with
  | a :: b :: c :: d :: l' =>
      (N.shiftl a 24 + N.shiftl b 16 + N.shiftl c 8 + d) :: words l'
  | _ => []
  end.

Definition be_bytes (n : nat) (x : N) : list N :=
  (λ i, N.land (N.shiftr x (8 * N.of_nat i)) 0xff) <$> reverse (seq 0 n).

Definition padded (msg : list N) : list N :=
  let l := length msg in
  let zeros := ((119 - l mod 64) mod 64)%nat in
  msg ++ [0x80] ++ replicate zeros 0 ++ be_bytes 8 (8 * N.of_nat l).

(** The message schedule, newest word first: [t] further words follow. *)
Fixpoint schedule (t : nat) (w : list N) : list N :=
  match t with
  | O => w
  | S t' =>
      let at_ i := nth i w 0 in
      let x := add32 (add32 (small_sigma1 (at_ 1%nat)) (at_ 6%nat))
                     (add32 (small_sigma0 (at_ 14%nat)) (at_ 15%nat)) in
      schedule t' (x :: w)
  end.

Definition round (st : list N) (kw : N * N) : list N :=
  match st with
  | [a; b; c; d; e; f; g; h] =>
      let t1 := add32 (add32 h (big_sigma1 e))
                      (add32 (ch e f g) (add32 (fst kw) (snd kw))) in
      let t2 := add32 (big_sigma0 a) (maj a b c) in
      [add32 t1 t2; a; b; c; add32 d t1; e; f; g]
  | _ => st
  end.

Definition compress (st : list N) (block : list N) : list N :=
  let w := reverse (schedule 48 (reverse block)) in
  zip_with add32 st (fold_left round (zip K w) st).

Fixpoint blocks (fuel : nat) (st : list N) (ws : list N) : list N :=
  match fuel, ws with
  | _, [] => st
  | O, _ => st
  | S fuel', _ => blocks fuel' (compress st (take 16 ws)) (drop 16 ws)
  end.

Definition Sum256 (s : string) : list N :=
  let ws := words (padded (code <$> to_list s)) in
  blocks (length ws) H0 ws ≫= be_bytes 4.

Definition hex_digit (n : N) : ascii :=
  ascii_of_N (if n <? 10 then 48 + n else 87 + n).

(** [hex.EncodeToString]. *)
Fixpoint EncodeToString (l : list N) : string :=
  match l with
  | [] => ""
  | b :: l' =>
      String (hex_digit (N.shiftr b 4))
        (String (hex_digit (N.land b 15)) (EncodeToString l'))
  end.

Definition hex_sha256 (s : string) : string := EncodeToString (Sum256 s).

Example hex_sha256_abc :
  hex_sha256 "abc" = "ba7816bf8f01cfea414140de5dae2223b00361a396177a9cb410ff61f20015ad".
Proof. vm_compute. reflexivity. Qed.

Example hex_sha256_empty :
  hex_sha256 "" = "e3b0c44298fc1c149afbf4c8996fb92427ae41e4649b934ca495991b7852b855".
Proof. vm_compute. reflexivity. Qed.

(** Two blocks. *)
Example hex_sha256_long :
  hex_sha256 "abcdbcdecdefdefgefghfghighijhijkijkljklmklmnlmnomnopnopq"
  = "248d6a61d20638b8e5c026930c3e6039a33ce45964ff2167f6ecedd419db06c1".
Proof. vm_compute. reflexivity. Qed.

(** A collision of the digest, as a pair of byte strings. *)
Definition collision (x y : string) : Prop := x ≠ y ∧ hex_sha256 x = hex_sha256 y.

#[global] Arguments hex_sha256 : simpl never.
#[global] Arguments Sum256 : simpl never.

End sha256.
