(* ===== verification/GoTime.v ===== *)
(** * Time and durations

Go's [time.Duration] (a signed 64-bit count of nanoseconds) and [time.Time]
as the program uses them, with the RFC 3339 text of the store and of the HTTP
answers. An instant is a number of nanoseconds since the zero [time.Time],
January 1 of year 1 in UTC; every location the program formats is UTC. *)

From Stdlib Require Import Ascii.
From stdpp Require Import pretty.
From S2P Require Import Prelude GoStrings.
#[local] Open Scope Z_scope.

(** ** Durations *)

Definition maxDuration : Z := 9223372036854775807.
Definition minDuration : Z := -9223372036854775808.
Definition is_duration (d : Z) : Prop := minDuration ≤ d ≤ maxDuration.

Definition Nanosecond : Z := 1.
Definition Microsecond : Z := 1000.
Definition Millisecond : Z := 1000000.
Definition Second : Z := 1000000000.
Definition Minute : Z := 60 * Second.
Definition Hour : Z := 60 * Minute.

(** [Time.Sub] saturates. *)
Definition clamp_duration (d : Z) : Z := Z.max minDuration (Z.min maxDuration d).
Definition time_Sub (t u : Z) : Z := clamp_duration (t - u).
(** [time.Until(t)] at the clock reading [now]. *)
Definition time_Until (now t : Z) : Z := time_Sub t now.
Definition time_IsZero (t : Z) : bool := t =? 0.

Lemma time_Sub_range t u : is_duration (time_Sub t u).
Proof. unfold is_duration, time_Sub, clamp_duration, minDuration, maxDuration. lia. Qed.

(** Comparing a saturated difference with a duration that is not extreme is
comparing the instants. *)
Lemma time_Until_le now t d :
  minDuration ≤ d < maxDuration → time_Until now t ≤ d ↔ t ≤ now + d.
Proof.
  unfold time_Until, time_Sub, clamp_duration, minDuration, maxDuration. lia.
Qed.
#[export] Hint Resolve time_Sub_range : certplane.

(** ** Decimal numbers *)

Definition digit (n : Z) : ascii := ascii_of_N (Z.to_N (48 + n)).
Definition digit_val (a : ascii) : option Z :=
  if is_digit a then Some (Z.of_N (code a) - 48) else None.

(** [strconv.Itoa] of a number that is not negative. *)
Definition itoa (n : Z) : string := pretty (Z.to_N n).

Fixpoint repeat_zero (n : nat) : string :=
  match n with O => "" | S n' => String "0" (repeat_zero n') end.

(** The [appendInt(b, x, width)] of the time formatter. *)
Definition pad_int (width : nat) (x : Z) : string :=
  let s := itoa (Z.abs x) in
  string_app (if x <? 0 then "-" else "") (string_app (repeat_zero (width - len s)) s).

(** ** Duration.String *)

(** [fmtFrac]: the digits of [v / 10^prec] after the point, without trailing
zeros, in front of [tail]; and the integer part. *)
Fixpoint fmt_frac (prec : nat) (v : Z) (print : bool) (tail : string) : string * Z :=
  match prec with
  | O => (if print then String "." tail else tail, v)
  | S prec' =>
      let print' := print || negb (v mod 10 =? 0) in
      fmt_frac prec' (v / 10) print'
        (if print' then String (digit (v mod 10)) tail else tail)
  end.

Definition fmt_int (v : Z) (tail : string) : string := string_app (itoa v) tail.

Definition duration_String (d : Z) : string :=
  let u := Z.abs d in
  let text :=
    if u =? 0 then "0s"
    else if u <? Second then
      let '(prec, unit) :=
        if u <? Microsecond then (0%nat, "ns")
        else if u <? Millisecond then (3%nat, "µs") else (6%nat, "ms") in
      let '(tail, v) := fmt_frac prec u false unit in fmt_int v tail
    else
      let '(tail, secs) := fmt_frac 9 u false "s" in
      let s := fmt_int (secs mod 60) tail in
      let mins := secs / 60 in
      if 0 <? mins then
        let m := fmt_int (mins mod 60) (String "m" s) in
        let hours := mins / 60 in
        if 0 <? hours then fmt_int hours (String "h" m) else m
      else s in
  if d <? 0 then String "-" text else text.

Example duration_String_tests :
  duration_String (720 * Hour) = "720h0m0s" ∧ duration_String 1500000000 = "1.5s"
  ∧ duration_String 1000 = "1µs" ∧ duration_String (- (90 * Minute)) = "-1h30m0s".
Proof. vm_compute. done. Qed.

(** ** The calendar *)

Definition is_leap (y : Z) : bool :=
  (y mod 4 =? 0) && (negb (y mod 100 =? 0) || (y mod 400 =? 0)).

Definition months (leap : bool) : list Z :=
  [31; if leap then 29 else 28; 31; 30; 31; 30; 31; 31; 30; 31; 30; 31].
Definition month_days (y : Z) : list Z := months (is_leap y).

Definition daysIn (y m : Z) : Z := nth (Z.to_nat (m - 1)) (month_days y) 0.

(** Days from January 1 of year 1 to January 1 of year [y]. *)
Definition days_before_year (y : Z) : Z :=
  let n := y - 1 in 365 * n + n / 4 - n / 100 + n / 400.

(** Month (from 1) and day (from 1) of the [yday]-th day of a year. *)
Fixpoint month_of (months : list Z) (m yday : Z) : Z * Z :=
  match months with
  | [] => (m, yday + 1)
  | d :: ds => if yday <? d then (m, yday + 1) else month_of ds (m + 1) (yday - d)
  end.

Fixpoint days_before_month (months : list Z) (m : nat) : Z :=
  match months, m with
  | d :: ds, S m' => d + days_before_month ds m'
  | _, _ => 0
  end.

Definition days_of_civil (y m d : Z) : Z :=
  days_before_year y + days_before_month (month_days y) (Z.to_nat (m - 1)) + (d - 1).

(** Year and day of the year by the 400, 100, 4 and 1 year cycles. *)
Definition year_of_days (days : Z) : Z * Z :=
  let n400 := days / 146097 in
  let d1 := days mod 146097 in
  let n100 := Z.min 3 (d1 / 36524) in
  let d2 := d1 - 36524 * n100 in
  let n4 := d2 / 1461 in
  let d3 := d2 - 1461 * n4 in
  let n1 := Z.min 3 (d3 / 365) in
  (400 * n400 + 100 * n100 + 4 * n4 + n1 + 1, d3 - 365 * n1).

Definition civil_of_days (days : Z) : Z * Z * Z :=
  let '(y, yday) := year_of_days days in
  let '(m, d) := month_of (month_days y) 1 yday in
  (y, m, d).

(** ** RFC 3339 *)

(** The text up to the whole seconds. *)
Definition format_seconds (t : Z) : string :=
  let secs := t / Second in
  let '(y, m, d) := civil_of_days (secs / 86400) in
  let sod := secs mod 86400 in
  string_app (pad_int 4 y) (String "-" (string_app (pad_int 2 m) (String "-"
    (string_app (pad_int 2 d) (String "T" (string_app (pad_int 2 (sod / 3600)) (String ":"
    (string_app (pad_int 2 (sod / 60 mod 60)) (String ":"
    (pad_int 2 (sod mod 60))))))))))).

(** [t.UTC().Format(time.RFC3339)]: the fraction is dropped. *)
Definition format_RFC3339 (t : Z) : string := string_app (format_seconds t) "Z".

Definition two_digits (a b : ascii) (lo hi : Z) : option Z :=
  x ← digit_val a; y ← digit_val b;
  let n := 10 * x + y in
  if (lo <=? n) && (n <=? hi) then Some n else None.

(** An optional fraction: a dot and digits; the digits after the ninth are
dropped. The scale is the weight of the next digit. *)
Fixpoint fraction_digits (scale acc : Z) (l : list ascii) : Z * list ascii :=
  match l with
  | a :: l' =>
      match digit_val a with
      | Some d => fraction_digits (scale / 10) (acc + scale * d) l'
      | None => (acc, l)
      end
  | [] => (acc, [])
  end.

Definition parse_fraction (l : list ascii) : Z * list ascii :=
  match l with
  | "."%char :: a :: l' =>
      match digit_val a with
      | Some d => fraction_digits 10000000 (100000000 * d) l'
      | None => (0, l)
      end
  | _ => (0, l)
  end.

(** The zone: "Z", or a numeric offset in minutes east of UTC. *)
Definition parse_zone (l : list ascii) : option Z :=
  match l with
  | ["Z"%char] => Some 0
  | [s; h1; h2; ":"%char; m1; m2] =>
      h ← two_digits h1 h2 0 23; m ← two_digits m1 m2 0 59;
      if bool_decide (s = "+"%char) then Some (60 * h + m)
      else if bool_decide (s = "-"%char) then Some (- (60 * h + m))
      else None
  | _ => None
  end.

(** [time.Parse(time.RFC3339, s)], the strict grammar of its fast path. *)
Definition parse_RFC3339 (s : string) : option Z :=
  match to_list s with
  | y1 :: y2 :: y3 :: y4 :: "-"%char :: mo1 :: mo2 :: "-"%char :: d1 :: d2 :: "T"%char
    :: h1 :: h2 :: ":"%char :: mi1 :: mi2 :: ":"%char :: s1 :: s2 :: rest =>
      yh ← two_digits y1 y2 0 99; yl ← two_digits y3 y4 0 99;
      let y := 100 * yh + yl in
      m ← two_digits mo1 mo2 1 12;
      d ← two_digits d1 d2 1 (daysIn y m);
      h ← two_digits h1 h2 0 23; mi ← two_digits mi1 mi2 0 59; sec ← two_digits s1 s2 0 59;
      let '(nsec, rest) := parse_fraction rest in
      zone ← parse_zone rest;
      Some ((days_of_civil y m d * 86400 + h * 3600 + mi * 60 + sec - 60 * zone) * Second
            + nsec)
  | _ => None
  end.

Example format_epoch : format_RFC3339 (62135596800 * Second) = "1970-01-01T00:00:00Z".
Proof. vm_compute. reflexivity. Qed.
Example format_leap : format_RFC3339 (63844847999 * Second + 5) = "2024-02-29T23:59:59Z".
Proof. vm_compute. reflexivity. Qed.
Example parse_offset :
  parse_RFC3339 "1970-01-01T01:30:00.5+01:30" = Some (62135596800 * Second + 500000000).
Proof. vm_compute. reflexivity. Qed.

(** ** The calendar arithmetic is exact *)

Definition year_length (y : Z) : Z := if is_leap y then 366 else 365.

Lemma year_of_days_spec days y yday :
  year_of_days days = (y, yday) →
  days = days_before_year y + yday ∧ 0 ≤ yday < year_length y.
Proof.
  unfold year_of_days, days_before_year, year_length, is_leap. intros [= <- <-].
  pose proof (Z.div_mod days 146097). pose proof (Z.mod_pos_bound days 146097).
  set (n400 := days / 146097) in *. set (d1 := days mod 146097) in *.
  set (n100 := Z.min 3 (d1 / 36524)) in *.
  assert (0 ≤ n100 ≤ 3) by lia.
  assert (0 ≤ d1 - 36524 * n100 ≤ 36524 ∧ (n100 < 3 → d1 - 36524 * n100 < 36524)) by lia.
  set (d2 := d1 - 36524 * n100) in *.
  set (n4 := d2 / 1461) in *.
  assert (0 ≤ n4 ≤ 24) by lia.
  assert (0 ≤ d2 - 1461 * n4 < 1461 ∧ (n4 = 24 → n100 < 3 → d2 - 1461 * n4 < 1460)) by lia.
  set (d3 := d2 - 1461 * n4) in *.
  set (n1 := Z.min 3 (d3 / 365)) in *.
  assert (0 ≤ n1 ≤ 3) by lia.
  assert (0 ≤ d3 - 365 * n1 ≤ 365 ∧ (n1 < 3 → d3 - 365 * n1 < 365)) by lia.
  split; [lia|].
  destruct ((400 * n400 + 100 * n100 + 4 * n4 + n1 + 1) mod 4 =? 0) eqn:E4,
    ((400 * n400 + 100 * n100 + 4 * n4 + n1 + 1) mod 100 =? 0) eqn:E100,
    ((400 * n400 + 100 * n100 + 4 * n4 + n1 + 1) mod 400 =? 0) eqn:E400; simpl; lia.
Qed.

(** A boolean test on the numbers below [n]. *)
Definition below (n : nat) (p : Z → bool) : bool := forallb (λ i, p (Z.of_nat i)) (seq 0 n).

Lemma below_spec n (P : Z → Prop) `{∀ x, Decision (P x)} :
  below n (λ x, bool_decide (P x)) = true → ∀ x, 0 ≤ x < Z.of_nat n → P x.
Proof.
  unfold below. rewrite forallb_forall. intros Hall x Hx.
  specialize (Hall (Z.to_nat x)). rewrite Z2Nat.id in Hall by lia.
  eapply bool_decide_eq_true, Hall, in_seq. lia.
Qed.

(** The month table, by evaluation on the days of the two kinds of year. *)
Definition month_ok (leap : bool) (yday : Z) : bool :=
  let '(m, d) := month_of (months leap) 1 yday in
  (1 <=? m) && (m <=? 12) && (1 <=? d)
  && (d <=? nth (Z.to_nat (m - 1)) (months leap) 0) && (d <=? 31)
  && (days_before_month (months leap) (Z.to_nat (m - 1)) + (d - 1) =? yday).

Lemma month_table (leap : bool) yday :
  0 ≤ yday < (if leap then 366 else 365) → month_ok leap yday = true.
Proof.
  intros Hy. destruct leap.
  - apply (below_spec 366 (λ x, month_ok true x = true)); [vm_compute; reflexivity | lia].
  - apply (below_spec 365 (λ x, month_ok false x = true)); [vm_compute; reflexivity | lia].
Qed.

Lemma month_of_spec y yday m d :
  0 ≤ yday < year_length y → month_of (month_days y) 1 yday = (m, d) →
  1 ≤ m ≤ 12 ∧ 1 ≤ d ≤ daysIn y m ∧ d ≤ 31
  ∧ days_before_month (month_days y) (Z.to_nat (m - 1)) + (d - 1) = yday.
Proof.
  unfold month_days, year_length, daysIn, month_days. intros Hy Hm.
  pose proof (month_table (is_leap y) yday Hy) as H.
  unfold month_ok in H. rewrite Hm in H. unbool. lia.
Qed.

Lemma civil_roundtrip days y m d :
  civil_of_days days = (y, m, d) →
  days_of_civil y m d = days ∧ 1 ≤ m ≤ 12 ∧ 1 ≤ d ≤ daysIn y m ∧ d ≤ 31.
Proof.
  unfold civil_of_days, days_of_civil.
  destruct (year_of_days days) as [y' yday] eqn:Ey.
  destruct (month_of (month_days y') 1 yday) as [m' d'] eqn:Em. intros [= <- <- <-].
  apply year_of_days_spec in Ey as [-> Hy].
  apply month_of_spec in Em as (? & ? & ? & ?); [|done]. split_and!; lia.
Qed.

(** ** Fixed-width decimals *)

Lemma pad_int_2 n :
  0 ≤ n < 100 → pad_int 2 n = String (digit (n / 10)) (String (digit (n mod 10)) "").
Proof.
  revert n. apply (below_spec 100 (λ n, pad_int 2 n = _)). vm_compute. reflexivity.
Qed.

Lemma pad_int_4 n :
  0 ≤ n < 10000 →
  pad_int 4 n = String (digit (n / 100 / 10)) (String (digit (n / 100 mod 10))
    (String (digit (n mod 100 / 10)) (String (digit (n mod 100 mod 10)) ""))).
Proof.
  revert n. apply (below_spec (Z.to_nat 10000) (λ n, pad_int 4 n = _)). vm_compute. reflexivity.
Qed.

Lemma digit_val_digit k : 0 ≤ k < 10 → digit_val (digit k) = Some k.
Proof.
  revert k. apply (below_spec 10 (λ k, digit_val (digit k) = Some k)).
  vm_compute. reflexivity.
Qed.

Lemma two_digits_digit n lo hi :
  0 ≤ n < 100 → lo ≤ n ≤ hi →
  two_digits (digit (n / 10)) (digit (n mod 10)) lo hi = Some n.
Proof.
  intros Hn Hr. unfold two_digits. rewrite !digit_val_digit by lia. simpl.
  replace (10 * (n / 10) + n mod 10) with n by lia.
  destruct (lo <=? n) eqn:E1, (n <=? hi) eqn:E2; [done|lia..].
Qed.

(** ** Formatting and parsing *)

(** The instants of the years 1 to 9999. *)
Definition formattable (t : Z) : Prop := 0 ≤ t < 315537897600 * Second.

(** What a pass through the RFC 3339 text keeps of an instant. *)
Definition truncate_second (t : Z) : Z := t / Second * Second.

Lemma formattable_year t y m d :
  formattable t → civil_of_days (t / Second / 86400) = (y, m, d) → 1 ≤ y ≤ 9999.
Proof.
  unfold formattable, civil_of_days. set (days := t / Second / 86400). intros Ht.
  assert (0 ≤ days < 3652059) by (unfold days, Second in *; lia).
  destruct (year_of_days days) as [y' yday] eqn:Ey. destruct (month_of _ _ _).
  intros [= -> _ _]. apply year_of_days_spec in Ey as [E Hy].
  unfold days_before_year, year_length in *. destruct (is_leap y); lia.
Qed.

(** What follows the seconds is the fraction and the zone. *)
Lemma parse_seconds t tail :
  formattable t →
  parse_RFC3339 (string_app (format_seconds t) tail)
  = let '(nsec, rest) := parse_fraction (to_list tail) in
    zone ← parse_zone rest; Some ((t / Second - 60 * zone) * Second + nsec).
Proof.
  intros Ht. unfold format_seconds.
  destruct (civil_of_days (t / Second / 86400)) as [[y m] d] eqn:E.
  pose proof (formattable_year _ _ _ _ Ht E).
  apply civil_roundtrip in E as (Hd & ? & ? & ?).
  set (secs := t / Second) in *.
  assert (0 ≤ secs mod 86400 < 86400) by lia. set (sod := secs mod 86400) in *.
  rewrite pad_int_4, !pad_int_2 by lia. unfold parse_RFC3339. cbn [to_list string_app].
  rewrite (two_digits_digit (y / 100)), (two_digits_digit (y mod 100)) by lia. simpl.
  replace (100 * (y / 100) + y mod 100) with y by lia.
  rewrite !two_digits_digit by lia. simpl. rewrite !two_digits_digit by lia. simpl.
  rewrite Hd. destruct (parse_fraction (to_list tail)) as [nsec rest].
  destruct (parse_zone rest) as [zone|]; simpl; [|done]. do 3 f_equal.
  pose proof (Z.div_mod secs 86400). fold sod in H4. lia.
Qed.

Lemma parse_format t :
  formattable t → parse_RFC3339 (format_RFC3339 t) = Some (truncate_second t).
Proof.
  intros Ht. unfold format_RFC3339. rewrite parse_seconds by done. simpl.
  unfold truncate_second. do 2 f_equal. lia.
Qed.

Lemma truncate_second_le t : truncate_second t ≤ t < truncate_second t + Second.
Proof. unfold truncate_second, Second. lia. Qed.

Lemma truncate_second_idemp t : truncate_second (truncate_second t) = truncate_second t.
Proof. unfold truncate_second, Second. lia. Qed.

Lemma formattable_truncate t : formattable t → formattable (truncate_second t).
Proof. unfold formattable, truncate_second, Second. lia. Qed.

Lemma format_truncate t : format_RFC3339 (truncate_second t) = format_RFC3339 t.
Proof. unfold format_RFC3339, format_seconds, truncate_second. by rewrite Z.div_mul by done. Qed.

(** [time.RFC3339Nano], as [Time.MarshalJSON] writes it: the fraction of the
second without trailing zeros, nothing when it is zero. *)
Definition format_RFC3339Nano (t : Z) : string :=
  string_app (format_seconds t) (fst (fmt_frac 9 (t mod Second) false "Z")).

(** [Time.MarshalJSON] refuses years outside 0..9999. *)
Definition year_encodes (t : Z) : bool :=
  let '(y, _, _) := civil_of_days (t / Second / 86400) in (0 <=? y) && (y <=? 9999).

Lemma formattable_year_encodes t : formattable t → year_encodes t = true.
Proof.
  intros Ht. unfold year_encodes. destruct (civil_of_days _) as [[y m] d] eqn:E.
  pose proof (formattable_year _ _ _ _ Ht E). unbool. lia.
Qed.

Example format_RFC3339Nano_tests :
  format_RFC3339Nano (31 * 86400 * Second) = "0001-02-01T00:00:00Z"
  ∧ format_RFC3339Nano (1500000000) = "0001-01-01T00:00:01.5Z".
Proof. vm_compute. done. Qed.

(** *** Reading the fraction back *)

(** The last [prec] decimal digits of [v]. *)
Fixpoint last_digits (prec : nat) (v : Z) : string :=
  match prec with
  | O => ""
  | S p => string_app (last_digits p (v / 10)) (String (digit (v mod 10)) "")
  end.

Lemma fmt_frac_print prec v tail :
  fst (fmt_frac prec v true tail) = String "." (string_app (last_digits prec v) tail).
Proof.
  revert v tail. induction prec as [|p IH]; intros v tail; simpl; [done|].
  by rewrite IH, <- string_app_assoc.
Qed.

(** The zeros at the end are dropped. *)
Lemma fmt_frac_trim prec v tail :
  0 ≤ v < 10 ^ Z.of_nat prec →
  (v = 0 ∧ fst (fmt_frac prec v false tail) = tail)
  ∨ ∃ (p k : nat) w, (0 < p)%nat ∧ (p + k = prec)%nat ∧ v = w * 10 ^ Z.of_nat k
      ∧ 0 ≤ w < 10 ^ Z.of_nat p
      ∧ fst (fmt_frac prec v false tail) = String "." (string_app (last_digits p w) tail).
Proof.
  revert v. induction prec as [|n IH]; intros v Hv; [left; simpl in *; split; [lia|done]|].
  rewrite Nat2Z.inj_succ, Z.pow_succ_r in Hv by lia.
  destruct (Z.eqb_spec (v mod 10) 0) as [E|E].
  - replace (fmt_frac (S n) v false tail) with (fmt_frac n (v / 10) false tail) by (simpl; by rewrite E).
    destruct (IH (v / 10)) as [[Hz ->]|(p & k & w & Hp & Hn & Hk & Hw & ->)]; [lia|left; split; [lia|done]|].
    right. exists p, (S k), w. split_and!; [lia..| |lia|lia|done].
    rewrite Nat2Z.inj_succ, Z.pow_succ_r by lia. lia.
  - right. exists (S n), 0%nat, v. rewrite Nat2Z.inj_succ, Z.pow_succ_r by lia. split_and!; [lia..|].
    rewrite <- fmt_frac_print. simpl. apply Z.eqb_neq in E. by rewrite E.
Qed.

Lemma fraction_digits_last p : ∀ e w acc l,
  0 ≤ w < 10 ^ Z.of_nat p →
  fraction_digits (10 ^ Z.of_nat (p + e) / 10) acc (to_list (last_digits p w) ++ l)
  = fraction_digits (10 ^ Z.of_nat e / 10) (acc + w * 10 ^ Z.of_nat e) l.
Proof.
  induction p as [|p IH]; intros e w acc l Hw.
  - simpl in *. f_equal. lia.
  - rewrite Nat2Z.inj_succ, Z.pow_succ_r in Hw by lia.
    cbn [last_digits]. rewrite to_list_app, <- app_assoc.
    replace (S p + e)%nat with (p + S e)%nat by lia. rewrite IH by lia. cbn [to_list app fraction_digits].
    rewrite digit_val_digit by lia.
    replace (10 ^ Z.of_nat (S e)) with (10 ^ Z.of_nat e * 10) by (rewrite Nat2Z.inj_succ, Z.pow_succ_r; lia).
    rewrite Z.div_mul by done. f_equal. lia.
Qed.

Lemma parse_fraction_frac v :
  0 ≤ v < Second → parse_fraction (to_list (fst (fmt_frac 9 v false "Z"))) = (v, ["Z"%char]).
Proof.
  intros Hv. destruct (fmt_frac_trim 9 v "Z") as [[-> ->]|(p & k & w & Hp & Hn & -> & Hw & ->)];
    [exact Hv | reflexivity |].
  pose proof (fraction_digits_last p k w 0 ["Z"%char] Hw) as E.
  cbn [to_list]. rewrite to_list_app. cbn [to_list]. rewrite Hn in E.
  change (10 ^ Z.of_nat 9 / 10) with 100000000 in E.
  assert (∃ a l, digit_val a ≠ None ∧ to_list (last_digits p w) = a :: l) as (a & l & Ha & El).
  { clear -Hp Hw. revert w Hw. induction p as [|p IH]; [lia|]. intros w Hw.
    rewrite Nat2Z.inj_succ, Z.pow_succ_r in Hw by lia. cbn [last_digits].
    rewrite to_list_app. destruct (decide (p = 0%nat)) as [->|Hne].
    - eexists _, _. split; [|reflexivity]. rewrite digit_val_digit by lia. done.
    - destruct (IH ltac:(lia) (w / 10)) as (a & l & Ha & ->); [lia|]. eexists _, _. by split; [exact Ha|]. }
  rewrite El in E |- *. cbn [app parse_fraction fraction_digits] in *.
  destruct (digit_val a) as [d|]; [|done]. rewrite Z.add_0_l in E. change (100000000 / 10) with 10000000 in E.
  etrans; [exact E|]. by rewrite Z.add_0_l.
Qed.

(** The text of [time.RFC3339Nano] keeps the instant. *)
Lemma parse_format_nano t : formattable t → parse_RFC3339 (format_RFC3339Nano t) = Some t.
Proof.
  intros Ht. unfold format_RFC3339Nano. rewrite parse_seconds by done.
  rewrite parse_fraction_frac by (unfold Second; lia). simpl. f_equal. unfold Second. lia.
Qed.

#[export] Hint Resolve parse_format formattable_truncate : certplane.
#[export] Hint Rewrite truncate_second_idemp format_truncate : certplane.

#[global] Arguments format_RFC3339 : simpl never.
#[global] Arguments parse_RFC3339 : simpl never.
