(* ===== verification/Json.v ===== *)
(** * JSON text

The output of [encoding/json.Marshal] on the values the program encodes:
strings, integers that are not negative, arrays and structs (in field order),
with Go's escapes. Printing is injective on values whose strings are valid
UTF-8. *)

From Stdlib Require Import Ascii.
From stdpp Require Import pretty.
From S2P Require Import Prelude GoStrings GoTime.

(** ** UTF-8 *)

Definition cont : ascii → bool := in_range 0x80 0xBF.
Definition rune2 (a b : ascii) : bool := in_range 0xC2 0xDF a && cont b.
Definition rune3 (a b c : ascii) : bool :=
  ((code a =? 0xE0)%N && in_range 0xA0 0xBF b
   || (in_range 0xE1 0xEC a || in_range 0xEE 0xEF a) && cont b
   || (code a =? 0xED)%N && in_range 0x80 0x9F b) && cont c.
Definition rune4 (a b c d : ascii) : bool :=
  ((code a =? 0xF0)%N && in_range 0x90 0xBF b
   || in_range 0xF1 0xF3 a && cont b
   || (code a =? 0xF4)%N && in_range 0x80 0x8F b) && cont c && cont d.

Inductive rune :=
  | R1 (a : ascii)
  | R2 (a b : ascii)
  | R3 (a b c : ascii)
  | R4 (a b c d : ascii)
  | RuneError.  (* a byte that starts no rune *)

(** The decoding loop of [utf8.DecodeRune]. *)
Fixpoint runes (s : string) : list rune :=
  match s with
  | EmptyString => []
  | String a s1 =>
      if is_ascii a then R1 a :: runes s1
      else match s1 with
      | EmptyString => RuneError :: runes s1
      | String b s2 =>
          if rune2 a b then R2 a b :: runes s2
          else match s2 with
          | EmptyString => RuneError :: runes s1
          | String c s3 =>
              if rune3 a b c then R3 a b c :: runes s3
              else match s3 with
              | EmptyString => RuneError :: runes s1
              | String d s4 =>
                  if rune4 a b c d then R4 a b c d :: runes s4
                  else RuneError :: runes s1
              end
          end
      end
  end.

Definition rune_bytes (r : rune) : string :=
  match r with
  | R1 a => String a ""
  | R2 a b => String a (String b "")
  | R3 a b c => String a (String b (String c ""))
  | R4 a b c d => String a (String b (String c (String d "")))
  | RuneError => ""
  end.

Definition valid_utf8 (s : string) : Prop := RuneError ∉ runes s.

#[export] Instance rune_eq_dec : EqDecision rune.
Proof. solve_decision. Defined.
#[export] Instance valid_utf8_dec s : Decision (valid_utf8 s).
Proof. unfold valid_utf8. apply _. Defined.

(** ** Escapes *)

Definition chr (n : N) : ascii := ascii_of_N n.
Definition hex_nibble (n : N) : ascii :=
  ascii_of_N (if (n <? 10)%N then 48 + n else 87 + n)%N.

(** The bytes below 128, HTML escapes included. *)
Definition escape_ascii (a : ascii) : string :=
  let n := code a in
  let backslash c := String (chr 92) (String c "") in
  (if (n =? 34) || (n =? 92) then backslash a
   else if n =? 8 then backslash (chr 98)
   else if n =? 12 then backslash (chr 102)
   else if n =? 10 then backslash (chr 110)
   else if n =? 13 then backslash (chr 114)
   else if n =? 9 then backslash (chr 116)
   else if (n <? 32) || (n =? 60) || (n =? 62) || (n =? 38) then
     String (chr 92) (string_app "u00"
       (String (hex_nibble (N.shiftr n 4)) (String (hex_nibble (N.land n 15)) "")))
   else String a "")%N.

Definition escape_rune (r : rune) : string :=
  match r with
  | R1 a => escape_ascii a
  | RuneError => String (chr 92) "ufffd"
  | R3 a b c =>
      if ((code a =? 0xE2) && (code b =? 0x80) && (code c =? 0xA8))%N
      then String (chr 92) "u2028"
      else if ((code a =? 0xE2) && (code b =? 0x80) && (code c =? 0xA9))%N
      then String (chr 92) "u2029"
      else rune_bytes r
  | _ => rune_bytes r
  end.

Fixpoint concat_strings (l : list string) : string :=
  match l with [] => "" | s :: l' => string_app s (concat_strings l') end.

Definition newline : string := String (chr 10) "".
Definition quote : string := String (chr 34) "".
Definition json_string (s : string) : string :=
  string_app quote (string_app (concat_strings (escape_rune <$> runes s)) quote).

(** ** Values *)

#[warnings="-register-all"]
Inductive json :=
  | JString (s : string)
  | JInt (n : Z)
  | JArray (vs : list json)
  | JObject (fields : list (string * json)).

Fixpoint print (v : json) : string :=
  match v with
  | JString s => json_string s
  | JInt n => itoa n
  | JArray vs =>
      string_app "[" (string_app (join ((fix go l := match l with
        | [] => [] | x :: l' => print x :: go l' end) vs) ",") "]")
  | JObject fs =>
      string_app "{" (string_app (join ((fix go l := match l with
        | [] => []
        | f :: l' => string_app (json_string (fst f)) (string_app ":" (print (snd f))) :: go l'
        end) fs) ",") "}")
  end.

Lemma print_array vs : print (JArray vs) = string_app "[" (string_app (join (print <$> vs) ",") "]").
Proof. reflexivity. Qed.

Lemma print_object fs :
  print (JObject fs) = string_app "{" (string_app (join
    ((λ f, string_app (json_string f.1) (string_app ":" (print f.2))) <$> fs) ",") "}").
Proof. reflexivity. Qed.

(** ** Prefix-free encoders *)

(** No encoding is a proper prefix of another, and none is shared. *)
Definition prefix_free {A} (P : A → Prop) (f : A → string) : Prop :=
  ∀ a b r1 r2, P a → P b → string_app (f a) r1 = string_app (f b) r2 → a = b ∧ r1 = r2.

Lemma string_app_inj_l s r1 r2 : string_app s r1 = string_app s r2 → r1 = r2.
Proof. induction s; simpl; [done|]. intros [= ?]. auto. Qed.

Lemma string_app_prefix s t r1 r2 :
  string_app s r1 = string_app t r2 → has_prefix s t = true ∨ has_prefix t s = true.
Proof.
  revert t. induction s as [|a s IH]; intros [|b t]; simpl; intros H.
  - by left.
  - by right.
  - by left.
  - injection H as -> H. unfold has_prefix. fold has_prefix.
    destruct (IH t H) as [-> | ->]; rewrite !bool_decide_true by done; auto.
Qed.

(** The runes written with ASCII bytes only: those below 128, U+2028 and
U+2029. *)
Definition line_sep (n : N) : rune := R3 (chr 0xE2) (chr 0x80) (chr n).
Definition short_runes : list rune :=
  ((λ n, R1 (chr (N.of_nat n))) <$> seq 0 128) ++ [line_sep 0xA8; line_sep 0xA9].

Definition short_prefix_free : bool :=
  forallb (λ x, forallb (λ y,
    bool_decide (x = y) || negb (has_prefix (escape_rune x) (escape_rune y)))
    short_runes) short_runes.

Lemma short_tokens x y r1 r2 :
  x ∈ short_runes → y ∈ short_runes →
  string_app (escape_rune x) r1 = string_app (escape_rune y) r2 → x = y.
Proof.
  assert (∀ x y, x ∈ short_runes → y ∈ short_runes →
    has_prefix (escape_rune x) (escape_rune y) = true → x = y) as Hpf.
  { assert (short_prefix_free = true) as H by (vm_compute; reflexivity).
    unfold short_prefix_free in H. rewrite forallb_forall in H.
    intros u v Hu%list_elem_of_In Hv%list_elem_of_In Huv. specialize (H u Hu).
    rewrite forallb_forall in H. specialize (H v Hv). rewrite Huv, orb_false_r in H.
    by apply bool_decide_eq_true in H. }
  intros Hx Hy [?|?]%string_app_prefix; [|symmetry]; by apply Hpf.
Qed.

Definition wf_rune (r : rune) : Prop :=
  match r with
  | R1 a => is_ascii a = true
  | R2 a b => rune2 a b = true
  | R3 a b c => rune3 a b c = true
  | R4 a b c d => rune4 a b c d = true
  | RuneError => False
  end.

Lemma R1_short a : is_ascii a = true → R1 a ∈ short_runes.
Proof.
  intros Ha. apply elem_of_app. left. apply list_elem_of_fmap.
  exists (N.to_nat (code a)). split.
  - rewrite N2Nat.id. unfold chr, code. by rewrite ascii_N_embedding.
  - apply list_elem_of_In, in_seq. unfold is_ascii in Ha. lia.
Qed.

Lemma R3_line_sep a b c n :
  code a = 0xE2%N → code b = 0x80%N → code c = n → R3 a b c = line_sep n.
Proof.
  unfold code, line_sep, chr. intros Ha Hb Hc.
  f_equal; rewrite <- (ascii_N_embedding _) at 1; by f_equal.
Qed.

(** A rune is written short, or as its bytes. *)
Lemma escape_rune_cases r :
  wf_rune r →
  r ∈ short_runes
  ∨ escape_rune r = rune_bytes r ∧ match r with R1 _ => False | _ => True end.
Proof.
  destruct r as [a|a b|a b c|a b c d|]; simpl; intros H; try (right; by split);
    [left; by apply R1_short|].
  destruct ((code a =? 0xE2) && (code b =? 0x80) && (code c =? 0xA8))%N eqn:E1.
  { left. rewrite (R3_line_sep a b c 0xA8) by lia. apply elem_of_app. right. left. }
  destruct ((code a =? 0xE2) && (code b =? 0x80) && (code c =? 0xA9))%N eqn:E2; [|by right].
  left. rewrite (R3_line_sep a b c 0xA9) by lia. apply elem_of_app. right. right. left.
Qed.

(** The bytes of a rune that is not written short start above 127. *)
Definition head_above (s : string) : Prop :=
  ∃ a t, s = String a t ∧ is_ascii a = false.

Lemma rune_bytes_head r :
  wf_rune r → match r with R1 _ => False | _ => True end → head_above (rune_bytes r).
Proof.
  destruct r as [a|a b|a b c|a b c d|]; simpl; try done; intros Hr _;
    eexists a, _; (split; [done|]);
    unfold rune2, rune3, rune4, cont in Hr; byte_arith.
Qed.

Lemma short_head r : r ∈ short_runes → ∃ a t, escape_rune r = String a t
  ∧ is_ascii a = true ∧ a ≠ chr 34.
Proof.
  assert (forallb (λ r, match escape_rune r with
    | String a _ => is_ascii a && negb (bool_decide (a = chr 34))
    | _ => false end) short_runes = true) as H by (vm_compute; reflexivity).
  rewrite forallb_forall in H. intros Hr%list_elem_of_In. specialize (H r Hr).
  destruct (escape_rune r) as [|a t]; [done|]. unbool. eauto.
Qed.

Lemma rune_bytes_prefix x y r1 r2 :
  wf_rune x → wf_rune y →
  string_app (rune_bytes x) r1 = string_app (rune_bytes y) r2 → x = y.
Proof.
  destruct x, y; simpl; try done; unfold rune2, rune3, rune4, cont; intros Hx Hy H;
    injection H as H; subst; try done; exfalso; byte_arith.
Qed.

Lemma escape_rune_prefix_free : prefix_free wf_rune escape_rune.
Proof.
  intros x y r1 r2 Hx Hy H.
  assert (x = y) as ->; [|split; [done | by eapply string_app_inj_l]].
  destruct (escape_rune_cases x Hx) as [Sx|[Ex Bx]], (escape_rune_cases y Hy) as [Sy|[Ey By]].
  - by eapply short_tokens.
  - apply short_head in Sx as (a & t & Et & Ha & _).
    destruct (rune_bytes_head y Hy By) as (b & u & Eu & Hb).
    rewrite Et, Ey, Eu in H. simpl in H. congruence.
  - apply short_head in Sy as (a & t & Et & Ha & _).
    destruct (rune_bytes_head x Hx Bx) as (b & u & Eu & Hb).
    rewrite Et, Ex, Eu in H. simpl in H. congruence.
  - rewrite Ex, Ey in H. by eapply rune_bytes_prefix.
Qed.

(** No escape starts with the closing quote. *)
Lemma escape_rune_not_quote r s1 s2 :
  wf_rune r → string_app (escape_rune r) s1 ≠ String (chr 34) s2.
Proof.
  intros Hr H. destruct (escape_rune_cases r Hr) as [Sr|[Er Br]].
  - apply short_head in Sr as (a & t & Et & _ & Ha). rewrite Et in H.
    injection H as -> _. by apply Ha.
  - destruct (rune_bytes_head r Hr Br) as (b & u & Eu & Hb).
    rewrite Er, Eu in H. injection H as -> _. done.
Qed.

(** One step of the decoding loop. *)
Lemma runes_step s :
  s ≠ "" → ∃ r s', runes s = r :: runes s' ∧ len s' < len s
    ∧ (r = RuneError ∨ wf_rune r ∧ s = string_app (rune_bytes r) s').
Proof.
  assert (∀ r s', wf_rune r → s = string_app (rune_bytes r) s' →
    runes s = r :: runes s' → ∃ r s', runes s = r :: runes s' ∧ len s' < len s
    ∧ (r = RuneError ∨ wf_rune r ∧ s = string_app (rune_bytes r) s')) as Hok.
  { intros r s' Hr Hs Hrs. exists r, s'. split_and!; [done| |by right].
    rewrite Hs. destruct r; simpl; try done; lia. }
  assert (∀ s', runes s = RuneError :: runes s' → len s' < len s →
    ∃ r s', runes s = r :: runes s' ∧ len s' < len s
    ∧ (r = RuneError ∨ wf_rune r ∧ s = string_app (rune_bytes r) s')) as Herr.
  { intros s' ??. exists RuneError, s'. auto. }
  destruct s as [|a s1]; [done|]. intros _. cbn [runes] in Hok, Herr |- *.
  destruct (is_ascii a) eqn:E1; [by apply (Hok (R1 a) s1)|].
  destruct s1 as [|b s2]; [apply (Herr ""); simpl; auto with lia|].
  destruct (rune2 a b) eqn:E2; [by apply (Hok (R2 a b) s2)|].
  destruct s2 as [|c s3]; [apply (Herr (String b "")); simpl; auto with lia|].
  destruct (rune3 a b c) eqn:E3; [by apply (Hok (R3 a b c) s3)|].
  destruct s3 as [|d s4]; [apply (Herr (String b (String c ""))); simpl; auto with lia|].
  destruct (rune4 a b c d) eqn:E4; [by apply (Hok (R4 a b c d) s4)|].
  apply (Herr (String b (String c (String d s4)))); simpl; auto with lia.
Qed.

(** A valid string is the concatenation of the bytes of its runes. *)
Lemma runes_valid s :
  valid_utf8 s → Forall wf_rune (runes s) ∧ concat_strings (rune_bytes <$> runes s) = s.
Proof.
  unfold valid_utf8.
  induction s as [s IH] using (well_founded_induction (Wf_nat.well_founded_ltof _ len)).
  intros Hv. destruct (decide (s = "")) as [->|Hs]; [by split|].
  destruct (runes_step s Hs) as (r & s' & Er & Hlen & Hr). rewrite Er in Hv |- *.
  apply not_elem_of_cons in Hv as [Hne Hv].
  destruct Hr as [->|[Hr ->]]; [done|]. destruct (IH s' Hlen Hv) as [Hwf Hb].
  split; [by constructor|]. cbn. by rewrite Hb.
Qed.

Lemma runes_inj s t : valid_utf8 s → valid_utf8 t → runes s = runes t → s = t.
Proof. intros [_ Hs]%runes_valid [_ Ht]%runes_valid E. congruence. Qed.

Lemma escapes_inj l1 l2 r1 r2 :
  Forall wf_rune l1 → Forall wf_rune l2 →
  string_app (concat_strings (escape_rune <$> l1)) (string_app quote r1)
  = string_app (concat_strings (escape_rune <$> l2)) (string_app quote r2) →
  l1 = l2 ∧ r1 = r2.
Proof.
  intros H1. revert l2. induction H1 as [|x l1 Hx H1 IH]; intros l2 H2 H.
  - destruct H2 as [|y l2 Hy H2]; [by injection H|]. symmetry in H. cbn in H.
    rewrite <- string_app_assoc in H. by apply escape_rune_not_quote in H.
  - destruct H2 as [|y l2 Hy H2]; cbn in H; rewrite <- !string_app_assoc in H.
    { by apply escape_rune_not_quote in H. }
    apply escape_rune_prefix_free in H as [-> H]; [|done..].
    by apply IH in H as [-> ->].
Qed.

Lemma json_string_prefix_free : prefix_free valid_utf8 json_string.
Proof.
  intros s t r1 r2 Hs Ht H. unfold json_string in H.
  rewrite <- !string_app_assoc in H. apply string_app_inj_l in H.
  destruct (runes_valid s Hs) as [Hws _], (runes_valid t Ht) as [Hwt _].
  apply escapes_inj in H as [Hr ->]; [|done..]. split; [by apply runes_inj | done].
Qed.

(** Arrays of prefix-free elements are prefix-free, when no element starts
like the end of an array. *)
Definition no_close (s : string) : Prop := ∀ r t, string_app s r ≠ String "]" t.

Lemma array_items_inj {A} (P : A → Prop) (f : A → string) l1 l2 r1 r2 :
  prefix_free P f → (∀ a, P a → no_close (f a)) → Forall P l1 → Forall P l2 →
  string_app (join (f <$> l1) ",") (String "]" r1)
  = string_app (join (f <$> l2) ",") (String "]" r2) →
  l1 = l2 ∧ r1 = r2.
Proof.
  intros Hpf Hnc H1. revert l2. induction H1 as [|x l1 Hx H1 IH]; intros l2 H2 H.
  - destruct H2 as [|y l2 Hy H2]; [by injection H|]. symmetry in H. exfalso.
    destruct l2; cbn in H; rewrite <- ?string_app_assoc in H; by apply Hnc in H.
  - destruct H2 as [|y l2 Hy H2].
    { exfalso. destruct l1; cbn in H; rewrite <- ?string_app_assoc in H; by apply Hnc in H. }
    destruct H1 as [|x' l1 Hx' H1], H2 as [|y' l2 Hy' H2]; cbn in H;
      rewrite <- ?string_app_assoc in H; apply Hpf in H as [-> H]; try done.
    + by injection H as ->.
    + injection H as H. destruct (IH (y' :: l2)) as [[= -> ->] ->]; [by constructor | done | done].
Qed.

Lemma json_array_prefix_free {A} (P : A → Prop) (f : A → string) :
  prefix_free P f → (∀ a, P a → no_close (f a)) →
  prefix_free (Forall P) (λ l, string_app "[" (string_app (join (f <$> l) ",") "]")).
Proof.
  intros Hpf Hnc l1 l2 r1 r2 H1 H2 H. injection H as H.
  rewrite <- !string_app_assoc in H. by eapply array_items_inj.
Qed.

Lemma json_string_no_close s : no_close (json_string s).
Proof. intros r t H. discriminate H. Qed.

(** ** Valid strings *)

Lemma runes_app s t : valid_utf8 s → runes (string_app s t) = runes s ++ runes t.
Proof.
  intros [Hwf Hs]%runes_valid. revert Hwf Hs. generalize (runes s). intros l Hwf <-.
  induction Hwf as [|r l Hr Hwf IH]; [done|]. cbn [fmap list_fmap concat_strings].
  rewrite <- string_app_assoc. cbn [app]. rewrite <- IH.
  generalize (string_app (concat_strings (rune_bytes <$> l)) t). intros u. clear -Hr.
  destruct r as [a|a b|a b c|a b c d|]; cbn [rune_bytes string_app runes]; [by rewrite Hr| | | |done];
    (assert (is_ascii a = false) as -> by (simpl in Hr; unfold rune2, rune3, rune4, cont in Hr; byte_arith)).
  - by rewrite Hr.
  - assert (rune2 a b = false) as -> by (simpl in Hr; unfold rune2, rune3, cont in *; byte_arith).
    by rewrite Hr.
  - assert (rune2 a b = false) as -> by (simpl in Hr; unfold rune2, rune4, cont in *; byte_arith).
    assert (rune3 a b c = false) as -> by (simpl in Hr; unfold rune3, rune4, cont in *; byte_arith).
    by rewrite Hr.
Qed.

Lemma valid_utf8_app s t : valid_utf8 s → valid_utf8 t → valid_utf8 (string_app s t).
Proof.
  intros Hs Ht. unfold valid_utf8. rewrite runes_app by done. by intros [?|?]%elem_of_app.
Qed.

Lemma valid_utf8_ascii s : all_bytes is_ascii s = true → valid_utf8 s.
Proof.
  unfold valid_utf8. induction s as [|a s IH]; simpl; [by intros _ ?%elem_of_nil|].
  intros [Ha Hs]%andb_true_iff. rewrite Ha. intros [|]%elem_of_cons; [done | by apply IH].
Qed.

Lemma itoa_digits n : all_bytes is_digit (itoa n) = true.
Proof.
  unfold itoa. change (pretty (Z.to_N n)) with
    (if decide (Z.to_N n = 0)%N then "0" else pretty_N_go (Z.to_N n) "").
  case_decide; [done|].
  assert (∀ x s, all_bytes is_digit s = true → all_bytes is_digit (pretty_N_go x s) = true)
    as H'; [|by apply H'].
  intros x. induction (N.lt_wf_0 x) as [x _ IH]; intros s Hs.
  destruct (decide (x = 0)%N) as [->|Hx]; [by rewrite pretty_N_go_0|].
  rewrite pretty_N_go_step by lia. apply IH; [apply N.div_lt; lia|]. simpl.
  rewrite Hs, andb_true_r. unfold pretty_N_char. by repeat case_match.
Qed.

Lemma itoa_ascii n : all_bytes is_ascii (itoa n) = true.
Proof. eapply all_bytes_impl; [|apply itoa_digits]. intros a. byte_arith. Qed.

(** The bytes of the text of an instant. *)
Definition time_byte (a : ascii) : bool := is_digit a || bool_decide (a ∈ to_list "-:.TZ").

Lemma time_byte_ascii s : all_bytes time_byte s = true → all_bytes is_ascii s = true.
Proof. apply all_bytes_impl. by intros [[] [] [] [] [] [] [] []]. Qed.

Lemma pad_int_time n x : all_bytes time_byte (pad_int n x) = true.
Proof.
  assert (∀ k, all_bytes time_byte (repeat_zero k) = true) as Hz by (by induction k).
  assert (Hi : all_bytes time_byte (itoa (Z.abs x)) = true).
  { eapply all_bytes_impl; [|apply itoa_digits]. intros a. unfold time_byte. by intros ->. }
  unfold pad_int. rewrite !all_bytes_app, Hz, Hi. by destruct (x <? 0)%Z.
Qed.

Lemma format_seconds_time t : all_bytes time_byte (format_seconds t) = true.
Proof.
  unfold format_seconds. destruct (civil_of_days _) as [[y m] d].
  repeat (rewrite all_bytes_app || cbn [all_bytes] || rewrite pad_int_time). done.
Qed.

Lemma format_time t : all_bytes time_byte (format_RFC3339 t) = true.
Proof. unfold format_RFC3339. by rewrite all_bytes_app, format_seconds_time. Qed.

Lemma digit_time n : (0 ≤ n < 10)%Z → time_byte (digit n) = true.
Proof. revert n. apply (below_spec 10 (λ n, time_byte (digit n) = true)). by vm_compute. Qed.

Lemma fmt_frac_time prec v b tail :
  all_bytes time_byte tail = true → all_bytes time_byte (fst (fmt_frac prec v b tail)) = true.
Proof.
  revert v b tail. induction prec as [|n IH]; intros v b tail Ht; simpl; [by destruct b|].
  apply IH. destruct (_ || _); [|done]. simpl. rewrite Ht, digit_time; [done|]. lia.
Qed.

Lemma format_nano_time t : all_bytes time_byte (format_RFC3339Nano t) = true.
Proof. unfold format_RFC3339Nano. by rewrite all_bytes_app, format_seconds_time, fmt_frac_time. Qed.

Lemma digit_ascii n : (0 ≤ n < 10)%Z → is_ascii (digit n) = true.
Proof.
  revert n. apply (below_spec 10 (λ n, is_ascii (digit n) = true)). vm_compute. reflexivity.
Qed.

Lemma fmt_frac_valid prec v b tail :
  valid_utf8 tail → valid_utf8 (fst (fmt_frac prec v b tail)).
Proof.
  revert v b tail. induction prec as [|prec IH]; intros v b tail Ht; simpl.
  - destruct b; [|done]. apply (valid_utf8_app "."); [by apply valid_utf8_ascii | done].
  - apply IH. destruct (_ || _); [|done].
    apply (valid_utf8_app (String (digit (v mod 10)) "")); [|done].
    apply valid_utf8_ascii. cbn. by rewrite digit_ascii by lia.
Qed.

Lemma fmt_int_valid v tail : valid_utf8 tail → valid_utf8 (fmt_int v tail).
Proof. intros. apply valid_utf8_app; [apply valid_utf8_ascii, itoa_ascii | done]. Qed.

Lemma duration_String_valid d : valid_utf8 (duration_String d).
Proof.
  unfold duration_String.
  assert (∀ c s, valid_utf8 s → is_ascii c = true → valid_utf8 (String c s)) as Hcons.
  { intros c s ??. apply (valid_utf8_app (String c "")); [|done].
    apply valid_utf8_ascii. simpl. by rewrite andb_true_r. }
  assert (∀ s, valid_utf8 s → valid_utf8 (if (d <? 0)%Z then String "-" s else s)) as Hneg.
  { intros s Hs. destruct (d <? 0)%Z; [by apply Hcons | done]. }
  apply Hneg. destruct (Z.abs d =? 0)%Z; [by apply valid_utf8_ascii|].
  destruct (Z.abs d <? Second)%Z.
  - destruct (if (_ <? Microsecond)%Z then _ else _) as [prec unit] eqn:Eu.
    assert (valid_utf8 unit) as Hunit.
    { repeat case_match; injection Eu as <- <-; 
      first [by apply valid_utf8_ascii | apply (bool_decide_unpack _); vm_compute; done]. }
    pose proof (fmt_frac_valid prec (Z.abs d) false unit Hunit).
    destruct (fmt_frac prec _ _ _). by apply fmt_int_valid.
  - pose proof (fmt_frac_valid 9 (Z.abs d) false "s" ltac:(by apply valid_utf8_ascii)).
    destruct (fmt_frac 9 _ _ _) as [tail secs].
    repeat case_match; repeat (apply fmt_int_valid || apply Hcons); done.
Qed.

(** ** The text of a value is one line *)

Definition line_byte (a : ascii) : bool := (31 <? code a)%N.

Lemma escape_rune_line r :
  r = RuneError ∨ wf_rune r → all_bytes line_byte (escape_rune r) = true.
Proof.
  intros [->|Hr]; [done|]. destruct (escape_rune_cases r Hr) as [Hs|[E Hb]].
  - assert (forallb (λ r, all_bytes line_byte (escape_rune r)) short_runes = true) as H
      by (vm_compute; reflexivity).
    rewrite forallb_forall in H. by apply H, list_elem_of_In.
  - rewrite E. destruct r as [a|a b|a b c|a b c d|]; simpl in *; try done;
      unfold rune2, rune3, rune4, cont in Hr; unfold line_byte; byte_arith.
Qed.

Lemma runes_wf s : Forall (λ r, r = RuneError ∨ wf_rune r) (runes s).
Proof.
  induction s as [s IH] using (well_founded_induction (Wf_nat.well_founded_ltof _ len)).
  destruct (decide (s = "")) as [->|Hs]; [constructor|].
  destruct (runes_step s Hs) as (r & s' & -> & Hlen & Hr).
  constructor; [naive_solver | by apply IH].
Qed.

Lemma concat_line l :
  Forall (λ s, all_bytes line_byte s = true) l → all_bytes line_byte (concat_strings l) = true.
Proof. induction 1; simpl; [done|]. by rewrite all_bytes_app, H, IHForall. Qed.

Lemma json_string_line s : all_bytes line_byte (json_string s) = true.
Proof.
  unfold json_string. rewrite !all_bytes_app, concat_line; [done|].
  apply Forall_fmap. eapply Forall_impl; [apply runes_wf | apply escape_rune_line].
Qed.

Lemma join_line sep l :
  all_bytes line_byte sep = true → Forall (λ s, all_bytes line_byte s = true) l →
  all_bytes line_byte (join l sep) = true.
Proof.
  intros Hsep. induction 1 as [|s l Hs Hl IH]; [done|]. destruct l as [|s0 l]; [done|].
  change (all_bytes line_byte (string_app s (string_app sep (join (s0 :: l) sep))) = true).
  by rewrite !all_bytes_app, Hs, Hsep, IH.
Qed.

(** Induction on the values inside a value. *)
Lemma json_nested_ind (P : json → Prop) :
  (∀ s, P (JString s)) → (∀ n, P (JInt n)) →
  (∀ vs, Forall P vs → P (JArray vs)) →
  (∀ fs, Forall (λ f, P f.2) fs → P (JObject fs)) → ∀ v, P v.
Proof.
  intros Hs Hn Ha Ho. fix IH 1. intros [s|n|vs|fs]; [apply Hs | apply Hn | |].
  - apply Ha. induction vs as [|x vs IHvs]; constructor; [apply IH | apply IHvs].
  - apply Ho. induction fs as [|[k x] fs IHfs]; constructor; [apply IH | apply IHfs].
Qed.

Lemma print_line v : all_bytes line_byte (print v) = true.
Proof.
  induction v as [s|n|vs IH|fs IH] using json_nested_ind.
  - apply json_string_line.
  - eapply all_bytes_impl; [|apply itoa_digits]. intros a. unfold line_byte. byte_arith.
  - rewrite print_array, !all_bytes_app, join_line; [done..|]. by apply Forall_fmap.
  - rewrite print_object, !all_bytes_app, join_line; [done..|]. apply Forall_fmap.
    eapply Forall_impl; [exact IH|]. intros f Hf. unfold compose.
    by rewrite !all_bytes_app, json_string_line, Hf.
Qed.

#[global] Arguments json_string : simpl never.
#[global] Arguments duration_String : simpl never.
