(* ===== verification/JsonDecode.v ===== *)
(** * Decoding JSON texts

[encoding/json.Unmarshal], for any text: the scanner with its white space,
escapes, numbers and limit on nesting, the repair of strings that are not valid
UTF-8; and structs of strings, with keys matched without regard to case, values
of a wrong kind refused, unknown keys skipped. What [Json.print] or
[MarshalIndent] writes is read back ([read_document_lay]). *)

From Stdlib Require Import Ascii.
From S2P Require Import Prelude GoStrings GoTime Json.
#[local] Open Scope go_scope.

Module json_decode.

(** ** Strings *)

(** The UTF-8 bytes of a code point below 65536. *)
Definition utf8_bytes (n : N) : string :=
  if (n <? 0x80)%N then String (chr n) ""
  else if (n <? 0x800)%N then
    String (chr (0xC0 + N.shiftr n 6)) (String (chr (0x80 + N.land n 63)) "")
  else
    String (chr (0xE0 + N.shiftr n 12))
      (String (chr (0x80 + N.land (N.shiftr n 6) 63)) (String (chr (0x80 + N.land n 63)) "")).

Definition unescape (a : ascii) : ascii :=
  let n := code a in
  if (n =? 98)%N then chr 8 else if (n =? 102)%N then chr 12 else if (n =? 110)%N then chr 10
  else if (n =? 114)%N then chr 13 else if (n =? 116)%N then chr 9 else a.

Definition prepend (s : string) (r : option (string * string)) : option (string * string) :=
  match r with Some (t, rest) => Some (string_app s t, rest) | None => None end.

Definition is_hex (a : ascii) : bool :=
  in_range 48 57 a || in_range 97 102 a || in_range 65 70 a.

Definition hex_digit (a : ascii) : N :=
  let n := code a in
  (if n <=? 57 then n - 48 else if n <=? 70 then n - 55 else n - 87)%N.

(** The letters of the escapes of one byte. *)
Definition is_escape (a : ascii) : bool := bool_decide (a ∈ to_list "bfnrt\/" ++ [chr 34]).

(** The rest of a string after its opening quote: its bytes as they are written,
and what follows the closing quote. *)
Fixpoint scan_string (s : string) : option (string * string) :=
  match s with
  | EmptyString => None
  | String a s1 =>
      if (code a =? 34)%N then Some ("", s1)
      else if (code a =? 92)%N then
        match s1 with
        | EmptyString => None
        | String b s2 =>
            if (code b =? 117)%N then
              match s2 with
              | String h1 (String h2 (String h3 (String h4 s3))) =>
                  if is_hex h1 && is_hex h2 && is_hex h3 && is_hex h4
                  then prepend (String a (String b (String h1 (String h2 (String h3 (String h4 ""))))))
                         (scan_string s3)
                  else None
              | _ => None
              end
            else if is_escape b then prepend (String a (String b "")) (scan_string s2)
            else None
        end
      else if (code a <? 32)%N then None
      else prepend (String a "") (scan_string s1)
  end.

(** [getu4]: the four hexadecimal digits of an escape. *)
Definition getu4 (s : string) : option N :=
  match s with
  | String a (String b (String h1 (String h2 (String h3 (String h4 _))))) =>
      if (code a =? 92)%N && (code b =? 117)%N && is_hex h1 && is_hex h2 && is_hex h3 && is_hex h4
      then Some (4096 * hex_digit h1 + 256 * hex_digit h2 + 16 * hex_digit h3 + hex_digit h4)%N
      else None
  | _ => None
  end.

Definition encode_rune (n : N) : string :=
  if (n <? 0x10000)%N then utf8_bytes n
  else String (chr (0xF0 + N.shiftr n 18)) (String (chr (0x80 + N.land (N.shiftr n 12) 63))
    (String (chr (0x80 + N.land (N.shiftr n 6) 63)) (String (chr (0x80 + N.land n 63)) ""))).

Definition replacement : N := 0xFFFD%N.

Definition is_surrogate (n : N) : bool := (0xD800 <=? n)%N && (n <? 0xE000)%N.
Definition high_surrogate (n : N) : bool := (0xD800 <=? n)%N && (n <? 0xDC00)%N.
Definition low_surrogate (n : N) : bool := (0xDC00 <=? n)%N && (n <? 0xE000)%N.

(** The rune of an escape at the head of [s], and the bytes it takes: two escapes
of surrogates make one rune, a surrogate alone is replaced. *)
Definition unquote_u (s : string) : N * nat :=
  match getu4 s with
  | None => (replacement, 6)
  | Some r =>
      if is_surrogate r then
        match getu4 (drop_bytes 6 s) with
        | Some r1 =>
            if high_surrogate r && low_surrogate r1
            then ((N.lor (N.shiftl (r - 0xD800) 10) (r1 - 0xDC00) + 0x10000)%N, 12)
            else (replacement, 6)
        | None => (replacement, 6)
        end
      else (r, 6)
  end.

(** [utf8.DecodeRune], with the number of bytes it takes. *)
Definition decode_rune (s : string) : rune :=
  match s with
  | EmptyString => RuneError
  | String a s1 =>
      if is_ascii a then R1 a
      else match s1 with
      | EmptyString => RuneError
      | String b s2 =>
          if rune2 a b then R2 a b
          else match s2 with
          | EmptyString => RuneError
          | String c s3 =>
              if rune3 a b c then R3 a b c
              else match s3 with
              | EmptyString => RuneError
              | String d _ => if rune4 a b c d then R4 a b c d else RuneError
              end
          end
      end
  end.

Definition rune_size (r : rune) : nat :=
  match r with R1 _ | RuneError => 1 | R2 _ _ => 2 | R3 _ _ _ => 3 | R4 _ _ _ _ => 4 end.

(** A rune written again: a byte that starts none becomes U+FFFD. *)
Definition rune_utf8 (r : rune) : string :=
  match r with RuneError => encode_rune replacement | _ => rune_bytes r end.

(** [unquoteBytes], with the bytes left to pass over. *)
Fixpoint unquote (skip : nat) (s : string) : string :=
  match s with
  | EmptyString => ""
  | String a s1 =>
      match skip with
      | S skip' => unquote skip' s1
      | O =>
          if (code a =? 92)%N then
            match s1 with
            | EmptyString => ""
            | String b _ =>
                if (code b =? 117)%N then
                  let '(r, n) := unquote_u s in string_app (encode_rune r) (unquote (Nat.pred n) s1)
                else String (unescape b) (unquote 1 s1)
            end
          else
            let r := decode_rune s in string_app (rune_utf8 r) (unquote (Nat.pred (rune_size r)) s1)
      end
  end.

(** A string literal after its opening quote. *)
Definition text_of (raw : string) : string := unquote 0 raw.

(** ** Values *)

(** A string is kept as it is between its quotes, a number as its literal: what
they stand for is up to the type they are decoded into. *)
#[warnings="-register-all"]
Inductive value :=
  | VNull | VBool
  | VNumber (literal : string)
  | VText (raw : string)
  | VArray (vs : list value)
  | VObject (fields : list (string * value)).

Definition is_space (a : ascii) : bool := bool_decide (code a ∈ [32; 9; 10; 13]%N).

Fixpoint skip_space (s : string) : string :=
  match s with String a s' => if is_space a then skip_space s' else s | EmptyString => s end.

Fixpoint skip_digits (s : string) : string :=
  match s with String a s' => if is_digit a then skip_digits s' else s | EmptyString => s end.

Definition some_digits (s : string) : option string :=
  match s with String a s' => if is_digit a then Some (skip_digits s') else None | EmptyString => None end.

Definition read_fraction (s : string) : option string :=
  match s with String "."%char s' => some_digits s' | _ => Some s end.

Definition read_exponent (s : string) : option string :=
  match s with
  | String a s' =>
      if (a =? "e")%char || (a =? "E")%char then
        match s' with
        | String b s'' => if (b =? "+")%char || (b =? "-")%char then some_digits s'' else some_digits s'
        | EmptyString => None
        end
      else Some s
  | EmptyString => Some s
  end.

(** What follows a number. *)
Definition read_number (s : string) : option string :=
  let s := match s with String "-"%char s' => s' | _ => s end in
  whole ← match s with
          | String "0"%char s' => Some s'
          | _ => some_digits s
          end;
  fraction ← read_fraction whole;
  read_exponent fraction.

Definition maxNestingDepth : N := 10000%N.

Fixpoint take_bytes (n : nat) (s : string) : string :=
  match n, s with S n', String a s' => String a (take_bytes n' s') | _, _ => "" end.

(** The keywords and the numbers. *)
Definition read_scalar (s : string) : option (value * string) :=
  if has_prefix s "null" then Some (VNull, drop_bytes 4 s)
  else if has_prefix s "true" then Some (VBool, drop_bytes 4 s)
  else if has_prefix s "false" then Some (VBool, drop_bytes 5 s)
  else rest ← read_number s; Some (VNumber (take_bytes (len s - len rest) s), rest).

(** What follows the byte [c], after white space. *)
Definition closing (c : ascii) (s : string) : option string :=
  match skip_space s with
  | String a rest => if (a =? c)%char then Some rest else None
  | EmptyString => None
  end.

(** A value and what follows it; the elements of an array after its bracket or a
comma, the members of an object likewise. *)
Fixpoint read_value (fuel : nat) (depth : N) (s : string) : option (value * string) :=
  match fuel with
  | O => None
  | S fuel' =>
      match skip_space s with
      | EmptyString => None
      | String a s1 =>
          if (code a =? 34)%N then '(raw, rest) ← scan_string s1; Some (VText raw, rest)
          else if (a =? "{")%char then
            if (maxNestingDepth <=? depth)%N then None
            else match closing "}" s1 with
                 | Some rest => Some (VObject [], rest)
                 | None => '(fs, rest) ← read_members fuel' (N.succ depth) s1; Some (VObject fs, rest)
                 end
          else if (a =? "[")%char then
            if (maxNestingDepth <=? depth)%N then None
            else match closing "]" s1 with
                 | Some rest => Some (VArray [], rest)
                 | None => '(vs, rest) ← read_elements fuel' (N.succ depth) s1; Some (VArray vs, rest)
                 end
          else read_scalar (String a s1)
      end
  end
with read_elements (fuel : nat) (depth : N) (s : string) : option (list value * string) :=
  match fuel with
  | O => None
  | S fuel' =>
      '(v, s1) ← read_value fuel' depth s;
      match closing "," s1 with
      | Some s2 => '(vs, rest) ← read_elements fuel' depth s2; Some (v :: vs, rest)
      | None => rest ← closing "]" s1; Some ([v], rest)
      end
  end
with read_members (fuel : nat) (depth : N) (s : string) : option (list (string * value) * string) :=
  match fuel with
  | O => None
  | S fuel' =>
      s1 ← closing (chr 34) s;
      '(k, s2) ← scan_string s1;
      s3 ← closing ":" s2;
      '(v, s4) ← read_value fuel' depth s3;
      match closing "," s4 with
      | Some s5 => '(fs, rest) ← read_members fuel' depth s5; Some ((text_of k, v) :: fs, rest)
      | None => rest ← closing "}" s4; Some ([(text_of k, v)], rest)
      end
  end.

(** A text that is one value. *)
Definition read_document (s : string) : option value :=
  match read_value (S (2 * len s)) 0 s with
  | Some (v, rest) => if skip_space rest == "" then Some v else None
  | None => None
  end.

(** ** Structs of strings *)

(** [foldName], on a key compared with an ASCII name: letters without their
case, the long s and the Kelvin sign as the letters they fold to. *)
Fixpoint fold_name (s : string) : string :=
  match s with
  | EmptyString => ""
  | String a s1 =>
      let other := String (if in_range 97 122 a then chr (code a - 32) else a) (fold_name s1) in
      match s1 with
      | String b s2 =>
          if (code a =? 0xC5)%N && (code b =? 0xBF)%N then String "S" (fold_name s2)
          else match s2 with
               | String c s3 =>
                   if (code a =? 0xE2)%N && (code b =? 0x84)%N && (code c =? 0xAA)%N
                   then String "K" (fold_name s3) else other
               | EmptyString => other
               end
      | EmptyString => other
      end
  end.

(** The members one after the other, into the fields that have the names: a null
leaves a field, a value of another kind is an error of the whole. *)
Fixpoint decode_members (names : list string) (fields : list (string * value)) (out : list string)
    : option (list string) :=
  match fields with
  | [] => Some out
  | (k, v) :: fields' =>
      match list_find (λ n, fold_name n = fold_name k) names with
      | None => decode_members names fields' out
      | Some (i, _) =>
          match v with
          | VText raw => decode_members names fields' (<[i:=text_of raw]> out)
          | VNull => decode_members names fields' out
          | _ => None
          end
      end
  end.

Definition Unmarshal (names : list string) (s : string) : option (list string) :=
  v ← read_document s;
  match v with
  | VNull => Some ((λ _, "") <$> names)
  | VObject fields => decode_members names fields ((λ _, "") <$> names)
  | _ => None
  end.

Definition q (s : string) : string := string_app quote (string_app s quote).
Definition nl_tab : string := String (chr 10) (String (chr 9) "").

Example decode_tests :
  let read := Unmarshal ["profile"; "csr_pem"] in
  let text := concat_strings in
  read (text [nl_tab; "{"; q "PROFILE"; " :"; q "a\nb\u00e9"; ","; q "x"; ":[1.5e3,{}, true],";
              q "csr_pem"; ":"; q "\ud83d\ude00\ud800"; "} "])
    = Some [String "a" (String (chr 10) (String "b" (String (chr 0xC3) (String (chr 0xA9) ""))));
            string_app (encode_rune 0x1F600) (encode_rune 0xFFFD)]
  ∧ read (text ["{"; q "profile"; ":3}"]) = None
  ∧ read (text ["{"; q "profile"; ":null}"]) = Some [""; ""]
  ∧ read "null" = Some [""; ""] ∧ read "[]" = None ∧ read "{} x" = None ∧ read "{,}" = None
  ∧ read (text ["{"; q "profile"; ":"; q (String (chr 0xFF) "\/"); "}"])
    = Some [string_app (encode_rune 0xFFFD) "/"; ""].
Proof. vm_compute. done. Qed.

(** ** The fuel is enough *)

Lemma skip_space_len s : len (skip_space s) ≤ len s.
Proof. induction s as [|a s IH]; simpl; [done|]. destruct (is_space a); simpl; lia. Qed.

Lemma prepend_Some p r t rest :
  prepend p r = Some (t, rest) → ∃ t', r = Some (t', rest) ∧ t = string_app p t'.
Proof. destruct r as [[t' rest']|]; [|done]. intros [= <- <-]. by exists t'. Qed.

Lemma scan_string_len s raw rest : scan_string s = Some (raw, rest) → len rest < len s.
Proof.
  revert raw. induction s as [s IH] using (well_founded_induction (Wf_nat.well_founded_ltof _ len)).
  unfold ltof in IH. intros raw. destruct s as [|a s1]; [done|]. cbn [scan_string].
  destruct (code a =? 34)%N; [intros [= _ <-]; simpl; lia|].
  assert (Hrec : ∀ s' p, len s' < len (String a s1) →
    prepend p (scan_string s') = Some (raw, rest) → len rest < len (String a s1)).
  { intros s' p Hs (raw' & Hr & _)%prepend_Some. specialize (IH s' Hs _ Hr). lia. }
  destruct (code a =? 92)%N; [|destruct (code a <? 32)%N; [done|apply Hrec; simpl; lia]].
  destruct s1 as [|b s2]; [done|]. destruct (code b =? 117)%N.
  - destruct s2 as [|h1 [|h2 [|h3 [|h4 s3]]]]; try done.
    destruct (_ && _); [|done]. apply Hrec. simpl. lia.
  - destruct (is_escape b); [|done]. apply Hrec. simpl. lia.
Qed.

Lemma drop_bytes_len n s : len (drop_bytes n s) ≤ len s.
Proof. revert s. induction n as [|n IH]; intros [|a s]; simpl; [lia..|]. specialize (IH s). lia. Qed.

Lemma skip_digits_len s : len (skip_digits s) ≤ len s.
Proof. induction s as [|a s IH]; simpl; [done|]. destruct (is_digit a); simpl; lia. Qed.

Lemma some_digits_len s rest : some_digits s = Some rest → len rest < len s.
Proof.
  destruct s as [|a s]; simpl; [done|]. destruct (is_digit a); [|done]. intros [= <-].
  pose proof (skip_digits_len s). lia.
Qed.

Lemma read_fraction_len s rest : read_fraction s = Some rest → len rest ≤ len s.
Proof.
  unfold read_fraction. destruct s as [|[[] [] [] [] [] [] [] []] s]; try (intros [= <-]; done).
  intros ?%some_digits_len. simpl. lia.
Qed.

Lemma read_exponent_len s rest : read_exponent s = Some rest → len rest ≤ len s.
Proof.
  destruct s as [|a s]; [by intros [= <-]|]. cbn [read_exponent].
  destruct (_ || _); [|by intros [= <-]]. destruct s as [|b s]; [done|].
  destruct (_ || _); intros ?%some_digits_len; simpl in *; lia.
Qed.

Lemma read_number_len s rest : read_number s = Some rest → len rest < len s.
Proof.
  unfold read_number. set (s0 := match s with String "-"%char s' => s' | _ => s end).
  assert (len s0 ≤ len s) as H0.
  { unfold s0. destruct s as [|[[] [] [] [] [] [] [] []] s]; simpl; lia. }
  intros (whole & Hw & (fr & Hf%read_fraction_len & He%read_exponent_len)%bind_Some)%bind_Some.
  assert (len whole < len s0); [|lia].
  destruct s0 as [|[[] [] [] [] [] [] [] []] s1]; try (by apply some_digits_len).
  injection Hw as <-. simpl. lia.
Qed.

Lemma read_scalar_len s v rest : s ≠ "" → read_scalar s = Some (v, rest) → len rest < len s.
Proof.
  intros Hs. unfold read_scalar. destruct s as [|a s]; [done|].
  assert (Hd : ∀ n, len (drop_bytes (S n) (String a s)) < len (String a s)).
  { intros n. cbn [drop_bytes len]. pose proof (drop_bytes_len n s). lia. }
  destruct (has_prefix _ "null"); [intros [= _ <-]; apply (Hd 3)|].
  destruct (has_prefix _ "true"); [intros [= _ <-]; apply (Hd 3)|].
  destruct (has_prefix _ "false"); [intros [= _ <-]; apply (Hd 4)|].
  intros (r & Hr & [= _ <-])%bind_Some. by apply read_number_len.
Qed.

(** Each part of a value leaves less than it was given, and more fuel than bytes
gives one answer. *)
Definition shorter {A} (s : string) (r : option (A * string)) : Prop :=
  ∀ x rest, r = Some (x, rest) → len rest < len s.

Lemma closing_len c s rest : closing c s = Some rest → len rest < len s.
Proof.
  unfold closing. pose proof (skip_space_len s) as Hs. destruct (skip_space s) as [|a r]; [done|].
  destruct (a =? c)%char; [|done]. intros [= <-]. simpl in Hs. lia.
Qed.

Ltac lens :=
  repeat match goal with
  | H : closing _ _ = Some _ |- _ => apply closing_len in H
  | H : scan_string _ = Some _ |- _ => apply scan_string_len in H
  end.

Lemma read_shorter n :
  (∀ d s, shorter s (read_value n d s)) ∧ (∀ d s, shorter s (read_elements n d s))
  ∧ (∀ d s, shorter s (read_members n d s)).
Proof.
  induction n as [|n (IHv & IHe & IHm)]; [done|]. unfold shorter in *.
  split_and!; intros d s x rest; cbn [read_value read_elements read_members].
  - pose proof (skip_space_len s) as Hs. destruct (skip_space s) as [|a s1]; [done|]. simpl in Hs.
    repeat case_match; lens; try done;
      try (intros ([y r] & Hr & [= _ <-])%bind_Some; try apply IHe in Hr; try apply IHm in Hr; lens; lia);
      try (intros [= _ <-]; lia).
    intros Hr%read_scalar_len; [simpl in Hr; lia | done].
  - intros ([v s1] & Hv%IHv & Hr)%bind_Some. case_match eqn:Ec.
    + apply bind_Some in Hr as ([vs r] & Hr%IHe & [= _ <-]). lens. lia.
    + apply bind_Some in Hr as (r & Hr & [= _ <-]). lens. lia.
  - intros (s1 & H1 & ([k s2] & H2 & (s3 & H3 & ([v s4] & Hv%IHv & Hr)%bind_Some)%bind_Some)%bind_Some)%bind_Some.
    case_match eqn:Ec.
    + apply bind_Some in Hr as ([vs r] & Hr%IHm & [= _ <-]). lens. lia.
    + apply bind_Some in Hr as (r & Hr & [= _ <-]). lens. lia.
Qed.

(** The fuel of [read_document] is enough: more gives the same answer. *)
Lemma read_fuel n :
  (∀ m d s, 2 * len s < n → 2 * len s < m → read_value n d s = read_value m d s)
  ∧ (∀ m d s, S (2 * len s) < n → S (2 * len s) < m → read_elements n d s = read_elements m d s)
  ∧ (∀ m d s, S (2 * len s) < n → S (2 * len s) < m → read_members n d s = read_members m d s).
Proof.
  induction n as [|n (IHv & IHe & IHm)]; [split_and!; lia|].
  split_and!; intros [|m] d s Hn Hm; try lia; cbn [read_value read_elements read_members].
  - pose proof (skip_space_len s) as Hs. destruct (skip_space s) as [|a s1]; [done|]. simpl in Hs.
    by rewrite (IHe m) by lia; rewrite (IHm m) by lia.
  - rewrite (IHv m) by lia. destruct (read_value m d s) as [[v s1]|] eqn:Ev; [|done].
    cbn [mbind option_bind]. apply read_shorter in Ev.
    destruct (closing "," s1) as [s2|] eqn:Ec; [|done]. lens. by rewrite (IHe m) by lia.
  - destruct (closing _ s) as [s1|] eqn:E1; [|done]. cbn [mbind option_bind].
    destruct (scan_string s1) as [[k s2]|] eqn:E2; [|done]. cbn [mbind option_bind].
    destruct (closing ":" s2) as [s3|] eqn:E3; [|done]. cbn [mbind option_bind]. lens.
    rewrite (IHv m) by lia. destruct (read_value m d s3) as [[v s4]|] eqn:Ev; [|done].
    cbn [mbind option_bind]. apply read_shorter in Ev.
    destruct (closing "," s4) as [s5|] eqn:E5; [|done]. lens. by rewrite (IHm m) by lia.
Qed.

Lemma read_document_fuel s m :
  2 * len s < m → read_value m 0 s = read_value (S (2 * len s)) 0 s.
Proof. intros Hm. apply read_fuel; lia. Qed.

(** ** What is printed is read *)

(** A text as JSON keeps it: bytes that start no rune become U+FFFD. *)
Definition valid_text (s : string) : string := concat_strings (rune_utf8 <$> runes s).

Lemma valid_text_id s : valid_utf8 s → valid_text s = s.
Proof.
  intros [Hw Hs]%runes_valid. rewrite <- Hs at 2. unfold valid_text. f_equal.
  clear Hs. induction Hw as [|[] l Hr Hw IH]; [done|..|done]; cbn; f_equal; exact IH.
Qed.

Definition any_rune (r : rune) : Prop := r = RuneError ∨ wf_rune r.

(** Bytes of a string that stand for themselves. *)
Definition plain_byte (a : ascii) : bool :=
  negb (code a =? 34)%N && negb (code a =? 92)%N && negb (code a <? 32)%N.

Lemma scan_plain s rest :
  all_bytes plain_byte s = true → scan_string (string_app s rest) = prepend s (scan_string rest).
Proof.
  induction s as [|a s IH]; simpl; [by destruct (scan_string rest) as [[]|]|].
  unfold plain_byte at 1. intros [Ha Hs]%andb_true_iff.
  apply andb_true_iff in Ha as [[->%negb_true_iff ->%negb_true_iff]%andb_true_iff ->%negb_true_iff].
  rewrite IH by done. by destruct (scan_string rest) as [[]|].
Qed.

Lemma short_runes_ind (P : rune → Prop) : Forall P short_runes → ∀ r, r ∈ short_runes → P r.
Proof. intros H. by rewrite Forall_forall in H. Qed.

Ltac each_short := unfold short_runes; cbn; repeat (constructor; [reflexivity|]); constructor.

Lemma scan_escape r rest :
  any_rune r → scan_string (string_app (escape_rune r) rest) = prepend (escape_rune r) (scan_string rest).
Proof.
  intros [->|Hr]; [reflexivity|]. destruct (escape_rune_cases r Hr) as [Hs|[E Hb]].
  - clear Hr. revert r Hs. apply short_runes_ind. each_short.
  - rewrite E. apply scan_plain. destruct r as [a|a b|a b c|a b c d|]; simpl in *; try done;
      unfold rune2, rune3, rune4, cont in Hr; unfold plain_byte; byte_arith.
Qed.

Lemma decode_rune_bytes r t : wf_rune r → decode_rune (string_app (rune_bytes r) t) = r.
Proof.
  destruct r as [a|a b|a b c|a b c d|]; simpl; intros Hr; [by rewrite Hr|..|done].
  - replace (is_ascii a) with false by (unfold rune2 in Hr; byte_arith). by rewrite Hr.
  - replace (is_ascii a) with false by (unfold rune3 in Hr; byte_arith).
    replace (rune2 a b) with false by (unfold rune2, rune3, cont in *; byte_arith). by rewrite Hr.
  - replace (is_ascii a) with false by (unfold rune4 in Hr; byte_arith).
    replace (rune2 a b) with false by (unfold rune2, rune4, cont in *; byte_arith).
    replace (rune3 a b c) with false by (unfold rune3, rune4, cont in *; byte_arith). by rewrite Hr.
Qed.

Lemma unquote_escape r t :
  any_rune r → unquote 0 (string_app (escape_rune r) t) = string_app (rune_utf8 r) (unquote 0 t).
Proof.
  intros [->|Hr]; [reflexivity|]. destruct (escape_rune_cases r Hr) as [Hs|[E Hb]].
  - clear Hr. revert r Hs. apply short_runes_ind. each_short.
  - pose proof (decode_rune_bytes r t Hr) as Hd. rewrite E.
    destruct r as [a|a b|a b c|a b c d|]; try done; cbn [rune_bytes string_app unquote] in *;
      (replace (code a =? 92)%N with false
         by (unfold wf_rune, rune2, rune3, rune4 in Hr; byte_arith)); by rewrite Hd.
Qed.

Lemma runes_any s : Forall any_rune (runes s).
Proof. apply runes_wf. Qed.

(** The body of a printed string is read as the text it stands for. *)
Lemma scan_escapes l rest :
  Forall any_rune l →
  scan_string (string_app (concat_strings (escape_rune <$> l)) (string_app quote rest))
  = Some (concat_strings (escape_rune <$> l), rest).
Proof.
  induction 1 as [|r l Hr Hl IH]; [done|]. cbn [fmap list_fmap concat_strings].
  rewrite <- string_app_assoc, scan_escape by done. cbn [fmap list_fmap] in IH. by rewrite IH.
Qed.

Lemma unquote_escapes l :
  Forall any_rune l →
  unquote 0 (concat_strings (escape_rune <$> l)) = concat_strings (rune_utf8 <$> l).
Proof.
  induction 1 as [|r l Hr Hl IH]; [done|]. cbn [fmap list_fmap concat_strings].
  rewrite unquote_escape by done. cbn [fmap list_fmap] in IH. by rewrite IH.
Qed.

(** The text between the quotes. *)
Definition escaped (s : string) : string := concat_strings (escape_rune <$> runes s).

Lemma json_string_body s rest :
  string_app (json_string s) rest
  = String (chr 34) (string_app (escaped s) (string_app quote rest)).
Proof. unfold json_string. by rewrite <- !string_app_assoc. Qed.

Lemma text_of_escaped s : text_of (escaped s) = valid_text s.
Proof. apply unquote_escapes, runes_any. Qed.

Lemma scan_escaped s rest : scan_string (string_app (escaped s) (string_app quote rest)) = Some (escaped s, rest).
Proof. apply scan_escapes, runes_any. Qed.

(** A text with white space where [MarshalIndent] puts it: between the items of
an array or object, by depth, and after a colon. *)
Record layout := mkLayout { break : nat → string; gap : string }.

Definition block (L : layout) (depth : nat) (opening close : string) (items : list string) : string :=
  match items with
  | [] => string_app opening close
  | _ =>
      string_app opening (string_app (break L (S depth))
        (string_app (join items (string_app "," (break L (S depth))))
          (string_app (break L depth) close)))
  end.

Fixpoint lay (L : layout) (depth : nat) (v : json) : string :=
  match v with
  | JString s => json_string s
  | JInt n => itoa n
  | JArray vs => block L depth "[" "]" (map (lay L (S depth)) vs)
  | JObject fs =>
      block L depth "{" "}" (map (λ f, string_app (json_string (fst f))
        (string_app ":" (string_app (gap L) (lay L (S depth) (snd f))))) fs)
  end.

Definition compact : layout := mkLayout (λ _, "") "".

Lemma lay_compact v : ∀ depth, lay compact depth v = print v.
Proof.
  assert (Hb : ∀ depth o c items, block compact depth o c items
    = string_app o (string_app (join items ",") c)) by by intros ??? [|??].
  induction v as [s|n|vs IH|fs IH] using json_nested_ind; intros depth; try done.
  - rewrite print_array. cbn [lay]. rewrite Hb. do 3 f_equal.
    apply Forall_fmap_ext_1. eapply Forall_impl; [exact IH|]. by intros v Hv.
  - rewrite print_object. cbn [lay]. rewrite Hb. do 3 f_equal.
    apply Forall_fmap_ext_1. eapply Forall_impl; [exact IH|]. intros f Hf. cbn. by rewrite Hf.
Qed.

(** Two spaces for each level. *)
Fixpoint indent (depth : nat) : string :=
  match depth with O => "" | S d => String " " (String " " (indent d)) end.

(** [json.MarshalIndent(v, "", "  ")]. *)
Definition MarshalIndent (v : json) : string :=
  lay (mkLayout (λ depth, string_app newline (indent depth)) " ") 0 v.

(** Arrays and objects at most [n] deep, without numbers. *)
Fixpoint fits (n : nat) (v : json) : bool :=
  match v, n with
  | JString _, _ => true
  | JArray vs, S n' => forallb (fits n') vs
  | JObject fs, S n' => forallb (λ f, fits n' (snd f)) fs
  | _, _ => false
  end.

(** What a printed value is read as. *)
Fixpoint read_back (v : json) : value :=
  match v with
  | JString s => VText (escaped s)
  | JInt n => VNumber (itoa n)
  | JArray vs => VArray (map read_back vs)
  | JObject fs => VObject (map (λ f, (valid_text (fst f), read_back (snd f))) fs)
  end.

Lemma skip_blank b s : all_bytes is_space b = true → skip_space (string_app b s) = skip_space s.
Proof. induction b as [|a b IH]; simpl; [done|]. intros [-> Hb]%andb_true_iff. by apply IH. Qed.

Lemma closing_blank c b s : all_bytes is_space b = true → closing c (string_app b s) = closing c s.
Proof. intros Hb. unfold closing. by rewrite skip_blank. Qed.

Lemma read_value_blank m d b s :
  all_bytes is_space b = true → read_value m d (string_app b s) = read_value m d s.
Proof. intros Hb. destruct m; cbn [read_value]; [done|]. by rewrite skip_blank. Qed.

Lemma read_elements_blank m d b s :
  all_bytes is_space b = true → read_elements m d (string_app b s) = read_elements m d s.
Proof. intros Hb. destruct m; cbn [read_elements]; [done|]. by rewrite read_value_blank. Qed.

Lemma read_members_blank m d b s :
  all_bytes is_space b = true → read_members m d (string_app b s) = read_members m d s.
Proof. intros Hb. destruct m; cbn [read_members]; [done|]. by rewrite closing_blank. Qed.

Lemma closing_here c rest : is_space c = false → closing c (String c rest) = Some rest.
Proof. intros Hc. unfold closing. simpl. rewrite Hc. by rewrite Ascii.eqb_refl. Qed.

Lemma closing_other c a rest : is_space a = false → (a =? c)%char = false → closing c (String a rest) = None.
Proof. intros Ha Hc. unfold closing. simpl. by rewrite Ha, Hc. Qed.

(** With fuel enough, a text is read as [x], whatever follows it. *)
Definition reads {A} (read : nat → string → option (A * string)) (text : string) (x : A) : Prop :=
  ∃ m0, ∀ m rest, m0 ≤ m → read m (string_app text rest) = Some (x, rest).

Section Items.
Context (d : N) (b b' : string).
Context (Hb : all_bytes is_space b = true) (Hb' : all_bytes is_space b' = true).

Lemma read_elements_join {A} (f : A → string) (g : A → value) xs :
  xs ≠ [] → Forall (λ x, reads (λ m, read_value m d) (f x) (g x)) xs →
  reads (λ m, read_elements m d)
    (string_app (join (f <$> xs) (string_app "," b)) (string_app b' "]")) (g <$> xs).
Proof.
  intros Hne Hxs. induction Hxs as [|x xs [m1 Hx] Hxs IH]; [done|]. destruct xs as [|y xs].
  - exists (S m1). intros [|m] rest Hm; [lia|]. cbn [fmap list_fmap join read_elements].
    rewrite <- string_app_assoc, Hx by lia. cbn [mbind option_bind].
    rewrite <- string_app_assoc, (closing_blank ","), (closing_blank "]") by done. cbn [string_app].
    rewrite closing_other, closing_here by done. done.
  - destruct IH as [m2 IH]; [done|]. exists (S (m1 + m2)). intros [|m] rest Hm; [lia|].
    change (join (f <$> x :: y :: xs) (string_app "," b))
      with (string_app (f x) (string_app (string_app "," b) (join (f <$> y :: xs) (string_app "," b)))).
    cbn [read_elements]. rewrite <- !string_app_assoc, Hx by lia. cbn [mbind option_bind string_app].
    rewrite closing_here by done. rewrite read_elements_blank by done.
    pose proof (IH m rest ltac:(lia)) as E. rewrite <- !string_app_assoc in E. by setoid_rewrite E.
Qed.

Lemma read_members_join {A} (key : A → string) (f : A → string) (g : A → value) space xs :
  all_bytes is_space space = true →
  xs ≠ [] → Forall (λ x, reads (λ m, read_value m d) (f x) (g x)) xs →
  reads (λ m, read_members m d)
    (string_app (join ((λ x, string_app (json_string (key x))
       (string_app ":" (string_app space (f x)))) <$> xs) (string_app "," b)) (string_app b' "}"))
    ((λ x, (valid_text (key x), g x)) <$> xs).
Proof.
  intros Hs Hne Hxs. set (h x := string_app (json_string (key x)) (string_app ":" (string_app space (f x)))).
  assert (Hmember : ∀ x m1 m rest,
    (∀ m rest, m1 ≤ m → read_value m d (string_app (f x) rest) = Some (g x, rest)) → m1 ≤ m →
    read_members (S m) d (string_app (h x) rest)
    = match closing "," rest with
      | Some s5 => '(fs, rest) ← read_members m d s5; Some ((valid_text (key x), g x) :: fs, rest)
      | None => rest ← closing "}" rest; Some ([(valid_text (key x), g x)], rest)
      end).
  { intros x m1 m rest Hx Hm. unfold h. rewrite <- !string_app_assoc, json_string_body.
    cbn [read_members]. rewrite closing_here by done. cbn [mbind option_bind].
    rewrite scan_escaped. cbn [mbind option_bind string_app]. rewrite closing_here by done.
    cbn [mbind option_bind]. rewrite read_value_blank, Hx by done. cbn [mbind option_bind].
    by rewrite text_of_escaped. }
  induction Hxs as [|x xs [m1 Hx] Hxs IH]; [done|]. destruct xs as [|y xs].
  - exists (S m1). intros [|m] rest Hm; [lia|]. cbn [fmap list_fmap join].
    rewrite <- !string_app_assoc, (Hmember x m1) by (done || lia).
    rewrite (closing_blank ","), (closing_blank "}") by done. cbn [string_app].
    by rewrite closing_other, closing_here by done.
  - destruct IH as [m2 IH]; [done|]. exists (S (m1 + m2)). intros [|m] rest Hm; [lia|].
    change (join (h <$> x :: y :: xs) (string_app "," b))
      with (string_app (h x) (string_app (string_app "," b) (join (h <$> y :: xs) (string_app "," b)))).
    rewrite <- !string_app_assoc, (Hmember x m1) by (done || lia). cbn [string_app].
    rewrite closing_here by done. rewrite read_members_blank by done.
    pose proof (IH m rest ltac:(lia)) as E. rewrite <- !string_app_assoc in E. by setoid_rewrite E.
Qed.
End Items.


Lemma read_value_quote n d s1 :
  read_value (S n) d (String (chr 34) s1) = '(raw, rest) ← scan_string s1; Some (VText raw, rest).
Proof. reflexivity. Qed.

Lemma read_value_array n d s1 :
  (maxNestingDepth <=? d)%N = false →
  read_value (S n) d (String "[" s1)
  = match closing "]" s1 with
    | Some rest => Some (VArray [], rest)
    | None => '(vs, rest) ← read_elements n (N.succ d) s1; Some (VArray vs, rest)
    end.
Proof. intros Hd. change (skip_space (String "[" ?s)) with (String "[" s). cbn -[read_elements maxNestingDepth closing]. by rewrite Hd. Qed.

Lemma read_value_object n d s1 :
  (maxNestingDepth <=? d)%N = false →
  read_value (S n) d (String "{" s1)
  = match closing "}" s1 with
    | Some rest => Some (VObject [], rest)
    | None => '(fs, rest) ← read_members n (N.succ d) s1; Some (VObject fs, rest)
    end.
Proof. intros Hd. cbn -[read_members maxNestingDepth closing]. by rewrite Hd. Qed.

Lemma block_open L depth o c x xs tail :
  string_app (block L depth o c (x :: xs)) tail
  = string_app o (string_app (break L (S depth)) (string_app
      (join (x :: xs) (string_app "," (break L (S depth))))
      (string_app (break L depth) (string_app c tail)))).
Proof. unfold block. by rewrite <- !string_app_assoc. Qed.

Lemma closing_items c b x xs sep tail :
  all_bytes is_space b = true →
  (∃ a t, x = String a t ∧ is_space a = false ∧ (a =? c)%char = false) →
  closing c (string_app b (string_app (join (x :: xs) sep) tail)) = None.
Proof.
  intros Hb (a & t & -> & Ha & Hc). rewrite closing_blank by done.
  destruct xs; by apply closing_other.
Qed.

Section Layout.
Context (L : layout).
Context (Hbreak : ∀ n, all_bytes is_space (break L n) = true).
Context (Hgap : all_bytes is_space (gap L) = true).

Lemma lay_head depth v n :
  fits n v = true → ∃ a s, lay L depth v = String a s ∧ (a = chr 34 ∨ a = "["%char ∨ a = "{"%char).
Proof using.
  destruct v as [s|k|vs|fs], n; try done; intros _; cbn [lay block].
  1-2: pose proof (json_string_body s "") as E; rewrite string_app_nil_r in E; rewrite E; eauto.
  all: destruct (map _ _); cbn [block string_app]; eauto 6.
Qed.

(** A value printed with white space is read back, at any depth and whatever
follows it. *)
Lemma read_lay n : ∀ v, fits n v = true →
  ∀ depth d, (d + N.of_nat n <= maxNestingDepth)%N →
  reads (λ m, read_value m d) (lay L depth v) (read_back v).
Proof using Hbreak Hgap.
  assert (Hstr : ∀ s d, reads (λ m, read_value m d) (json_string s) (VText (escaped s))).
  { intros s d. exists 1. intros [|m] rest Hm; [lia|]. by rewrite json_string_body, read_value_quote, scan_escaped. }
  induction n as [|n IH]; intros [s|k|vs|fs] Hf depth d Hd; try done; try apply Hstr;
    assert (Hmax : (maxNestingDepth <=? d)%N = false) by (apply N.leb_gt; lia);
    cbn [fits] in Hf; rewrite forallb_forall in Hf; cbn [lay read_back].
  - destruct vs as [|v vs].
    { exists 1. intros [|m] rest Hm; [lia|]. by setoid_rewrite read_value_array. }
    destruct (read_elements_join (N.succ d) (break L (S depth)) (break L depth) (Hbreak _) (Hbreak _)
      (lay L (S depth)) read_back (v :: vs)) as [m0 Hm0]; [done| |].
    { apply Forall_forall. intros x Hx%list_elem_of_In. apply IH; [by apply Hf|lia]. }
    exists (S m0). intros [|m] rest Hm; [lia|]. cbn [map]. rewrite block_open.
    setoid_rewrite read_value_array; [|done]. rewrite closing_items; [|done|].
    2:{ destruct (lay_head (S depth) v n) as (a & t & -> & Ha); [apply Hf; by left|].
        exists a, t. by destruct Ha as [-> | [-> | ->]]. }
    rewrite read_elements_blank by done. specialize (Hm0 m rest ltac:(lia)).
    rewrite <- !string_app_assoc in Hm0. cbn [string_app] in *. by setoid_rewrite Hm0.
  - destruct fs as [|f fs].
    { exists 1. intros [|m] rest Hm; [lia|]. by setoid_rewrite read_value_object. }
    destruct (read_members_join (N.succ d) (break L (S depth)) (break L depth) (Hbreak _) (Hbreak _)
      fst (λ f, lay L (S depth) f.2) (λ f, read_back f.2) (gap L) (f :: fs)) as [m0 Hm0]; [done..| |].
    { apply Forall_forall. intros x Hx%list_elem_of_In. apply IH; [by apply (Hf x)|lia]. }
    exists (S m0). intros [|m] rest Hm; [lia|]. cbn [map]. rewrite block_open.
    setoid_rewrite read_value_object; [|done]. rewrite closing_items; [|done|].
    2:{ cbn [fst snd]. rewrite json_string_body. by eexists _, _. }
    rewrite read_members_blank by done. specialize (Hm0 m rest ltac:(lia)).
    rewrite <- !string_app_assoc in Hm0. cbn [string_app] in *. by setoid_rewrite Hm0.
Qed.

(** A printed document, with white space after it, is read back. *)
Lemma read_document_lay n v tail :
  fits n v = true → (N.of_nat n <= maxNestingDepth)%N → skip_space tail = "" →
  read_document (string_app (lay L 0 v) tail) = Some (read_back v).
Proof using Hbreak Hgap.
  intros Hf Hn Ht. destruct (read_lay n v Hf 0 0) as [m0 Hm]; [lia|]. unfold read_document.
  set (s := string_app _ tail). rewrite <- (read_document_fuel s (S (2 * len s + m0))) by lia.
  unfold s at 2. rewrite Hm by lia. cbv iota. by rewrite Ht, bool_decide_true.
Qed.
End Layout.

Lemma read_document_print n v tail :
  fits n v = true → (N.of_nat n <= maxNestingDepth)%N → skip_space tail = "" →
  read_document (string_app (print v) tail) = Some (read_back v).
Proof. rewrite <- (lay_compact v 0). by apply read_document_lay. Qed.

Lemma indent_blank n : all_bytes is_space (indent n) = true.
Proof. by induction n. Qed.

Lemma read_document_indent n v tail :
  fits n v = true → (N.of_nat n <= maxNestingDepth)%N → skip_space tail = "" →
  read_document (string_app (MarshalIndent v) tail) = Some (read_back v).
Proof. intros Hf Hn. eapply read_document_lay; try done. intros k. apply (indent_blank k). Qed.
End json_decode.
