(* ===== verification/JsonTypes.v ===== *)
(** * JSON texts of Go types

What [encoding/json] makes of strings, byte slices (base64), instants, slices,
maps and structs when it encodes and decodes them: the types of the columns of
events and of the entries of the file store. Every decoder takes a value that is
read and the value the destination holds, which a null leaves; an error of any
part is one of the whole. What is encoded is decoded to itself. *)

From Stdlib Require Import Ascii.
From S2P Require Import Prelude GoStrings GoTime Json JsonDecode.
Import json_decode.
#[local] Open Scope go_scope.

Module json_types.

(** ** Base64: [base64.StdEncoding] *)

Definition base64_char (n : N) : ascii :=
  chr (if n <? 26 then 65 + n else if n <? 52 then 71 + n else if n <? 62 then n - 4
       else if n =? 62 then 43 else 47)%N.

Definition base64_val (a : ascii) : option N :=
  let n := code a in
  (if (65 <=? n) && (n <=? 90) then Some (n - 65)
   else if (97 <=? n) && (n <=? 122) then Some (n - 71)
   else if (48 <=? n) && (n <=? 57) then Some (n + 4)
   else if n =? 43 then Some 62 else if n =? 47 then Some 63 else None)%N.

Fixpoint base64_encode (s : string) : string :=
  match s with
  | EmptyString => ""
  | String a EmptyString =>
      let v := (code a * 65536)%N in
      String (base64_char (v / 262144)) (String (base64_char (v / 4096 mod 64)) "==")
  | String a (String b EmptyString) =>
      let v := (code a * 65536 + code b * 256)%N in
      String (base64_char (v / 262144)) (String (base64_char (v / 4096 mod 64))
        (String (base64_char (v / 64 mod 64)) "="))
  | String a (String b (String c s')) =>
      let v := (code a * 65536 + code b * 256 + code c)%N in
      String (base64_char (v / 262144)) (String (base64_char (v / 4096 mod 64))
        (String (base64_char (v / 64 mod 64)) (String (base64_char (v mod 64)) (base64_encode s'))))
  end.

(** The groups of four; the bits of a last group that make no byte are ignored. *)
Fixpoint base64_groups (l : list ascii) : option string :=
  match l with
  | [] => Some ""
  | c1 :: c2 :: c3 :: c4 :: l' =>
      v1 ← base64_val c1; v2 ← base64_val c2;
      let byte1 := chr (v1 * 4 + v2 / 16) in
      if c3 == "="%char then
        if (c4 == "="%char) && (l' == []) then Some (String byte1 "") else None
      else
        v3 ← base64_val c3;
        let byte2 := chr (v2 mod 16 * 16 + v3 / 4) in
        if c4 == "="%char then
          if l' == [] then Some (String byte1 (String byte2 "")) else None
        else
          v4 ← base64_val c4; rest ← base64_groups l';
          Some (String byte1 (String byte2 (String (chr (v3 mod 4 * 64 + v4)) rest)))
  | _ => None
  end.

(** Line ends are skipped. *)
Definition base64_decode (s : string) : option string :=
  base64_groups (filter (λ a, code a ≠ 10%N ∧ code a ≠ 13%N) (to_list s)).

(** ** Encoders *)

Definition bytes_json (s : string) : json := JString (base64_encode s).
Definition strings_json (l : list string) : json := JArray (JString <$> l).

(** [Time.MarshalJSON]. *)
Definition time_json (t : Z) : option json :=
  if year_encodes t then Some (JString (format_RFC3339Nano t)) else None.

(** The keys of a map are sorted. *)
Definition map_json {A} (to_json : A → option json) (m : gmap string A) : option json :=
  JObject <$> mapM (λ k, x ← m !! k; v ← to_json x; Some (k, v)) (sort_strings (elements (dom m))).

(** ** Decoders *)

Definition decode_string (v : value) (old : string) : option string :=
  match v with VText raw => Some (text_of raw) | VNull => Some old | _ => None end.

(** [Time.UnmarshalJSON] takes the text between the quotes as it is. *)
Definition decode_time (v : value) (old : Z) : option Z :=
  match v with VText raw => parse_RFC3339 raw | VNull => Some old | _ => None end.

(** A byte is a number; [strconv.ParseUint] takes no sign, fraction or exponent. *)
Definition decode_byte (v : value) (old : ascii) : option ascii :=
  match v with
  | VNull => Some old
  | VNumber literal =>
      if all_bytes is_digit literal then
        let n := foldl (λ n a, 10 * n + Z.of_N (code a - 48))%Z 0%Z (to_list literal) in
        if (n <? 256)%Z then Some (chr (Z.to_N n)) else None
      else None
  | _ => None
  end.

Fixpoint decode_byte_array (vs : list value) (old : string) : option string :=
  match vs with
  | [] => Some ""
  | v :: vs' =>
      let '(a, old') := match old with String a old' => (a, old') | EmptyString => (Ascii.zero, "") end in
      b ← decode_byte v a; rest ← decode_byte_array vs' old'; Some (String b rest)
  end.

(** Byte slices: base64, or an array of numbers. *)
Definition decode_bytes (v : value) (old : string) : option string :=
  match v with
  | VText raw => base64_decode (text_of raw)
  | VArray vs => decode_byte_array vs old
  | VNull => Some ""
  | _ => None
  end.

(** Into a nil slice and a nil map: a null leaves them nil, the null elements are
zero values. *)
Definition decode_list {A} (decode : value → option A) (v : value) : option (option (list A)) :=
  match v with
  | VArray vs => Some <$> mapM decode vs
  | VNull => Some None
  | _ => None
  end.
Definition decode_strings : value → option (option (list string)) :=
  decode_list (λ v, decode_string v "").

Fixpoint decode_entries {A} (decode : value → option A) (members : list (string * value))
    (m : gmap string A) : option (gmap string A) :=
  match members with
  | [] => Some m
  | (k, v) :: members' => x ← decode v; decode_entries decode members' (<[k:=x]> m)
  end.

Definition decode_map {A} (decode : value → option A) (v : value)
    : option (option (gmap string A)) :=
  match v with
  | VObject members => Some <$> decode_entries decode members ∅
  | VNull => Some None
  | _ => None
  end.

(** A struct, one decoder for each field; keys are matched without regard to
case, unknown ones skipped. *)
Fixpoint decode_fields {R} (fields : list (string * (value → R → option R)))
    (members : list (string * value)) (r : R) : option R :=
  match members with
  | [] => Some r
  | (k, v) :: members' =>
      match list_find (λ f, fold_name f.1 = fold_name k) fields with
      | None => decode_fields fields members' r
      | Some (_, (_, decode)) => r' ← decode v r; decode_fields fields members' r'
      end
  end.

Definition decode_struct {R} (fields : list (string * (value → R → option R)))
    (v : value) (r : R) : option R :=
  match v with
  | VObject members => decode_fields fields members r
  | VNull => Some r
  | _ => None
  end.

(** [json.Unmarshal] of a text. *)
Definition unmarshal {A} (decode : value → option A) (s : string) : option A :=
  v ← read_document s; decode v.

Example base64_tests :
  base64_encode "Man" = "TWFu" ∧ base64_encode "Ma" = "TWE=" ∧ base64_encode "M" = "TQ=="
  ∧ base64_decode (string_app "TW" (string_app newline "FuTQ==")) = Some "ManM"
  ∧ base64_decode "TQ=" = None ∧ base64_decode "TQ==TQ==" = None ∧ base64_decode "T===" = None.
Proof. vm_compute. done. Qed.

Example decode_types_tests :
  decode_bytes (VArray [VNumber "77"; VNull; VNumber "255"]) "ab"
    = Some (String "M" (String "b" (String (chr 255) "")))
  ∧ decode_bytes (VArray [VNumber "256"]) "" = None ∧ decode_byte (VNumber "1e1") "a" = None
  ∧ decode_strings (VArray [VNull; VText "\u0041"]) = Some (Some [""; "A"])
  ∧ decode_strings (VText "a") = None
  ∧ decode_time (VText "1970-01-01T00:00:00Z") 0 = Some (62135596800 * Second)%Z
  ∧ decode_time (VText "\u00310") 0 = None.
Proof. vm_compute. done. Qed.
(** ** What is encoded is decoded *)

Lemma base64_val_char n : (n < 64)%N → base64_val (base64_char n) = Some n ∧ base64_char n ≠ "="%char.
Proof.
  intros Hn. rewrite <- (N2Z.id n).
  apply (below_spec 64 (λ z, base64_val (base64_char (Z.to_N z)) = Some (Z.to_N z)
    ∧ base64_char (Z.to_N z) ≠ "="%char)); [by vm_compute|lia].
Qed.

Definition base64_byte (a : ascii) : bool := bool_decide (is_Some (base64_val a)) || (a =? "=")%char.

Lemma base64_byte_clean a :
  base64_byte a = true → is_ascii a = true ∧ code a ≠ 10%N ∧ code a ≠ 13%N.
Proof. by revert a; intros [[] [] [] [] [] [] [] []]. Qed.

Lemma chr_code n a : n = code a → chr n = a.
Proof. intros ->. apply ascii_N_embedding. Qed.

Ltac base64_step :=
  repeat match goal with
  | |- context [base64_val (base64_char ?n)] =>
      let H := fresh in let H' := fresh in
      destruct (base64_val_char n ltac:(lia)) as [H H']; rewrite !H; clear H;
      cbn [mbind option_bind]; try (rewrite (bool_decide_false _ H'); clear H')
  end.

Lemma base64_groups_encode s : base64_groups (to_list (base64_encode s)) = Some s.
Proof.
  revert s. fix IH 1. intros [|a [|b [|c s]]]; [done|..];
    pose proof (N_ascii_bounded a); try pose proof (N_ascii_bounded b);
    try pose proof (N_ascii_bounded c); cbn [base64_encode to_list base64_groups]; unfold code in *;
    base64_step; cbn -[N.div N.modulo N.mul N.add chr];
    try (rewrite IH; cbn [mbind option_bind]); do 2 f_equal; repeat f_equal; apply chr_code; unfold code; lia.
Qed.
Lemma base64_encode_bytes s : all_bytes base64_byte (base64_encode s) = true.
Proof.
  assert (Hc : ∀ n, (n < 64)%N → base64_byte (base64_char n) = true).
  { intros n Hn. unfold base64_byte. by destruct (base64_val_char n Hn) as [-> _]. }
  revert s. fix IH 1. intros [|a [|b [|c s]]]; [done|..];
    pose proof (N_ascii_bounded a); try pose proof (N_ascii_bounded b);
    try pose proof (N_ascii_bounded c); cbn [base64_encode all_bytes]; unfold code in *;
    rewrite !Hc by lia; rewrite ?IH; done.
Qed.

Lemma base64_roundtrip s : base64_decode (base64_encode s) = Some s.
Proof.
  unfold base64_decode. rewrite <- base64_groups_encode. f_equal.
  pose proof (base64_encode_bytes s) as Hs. rewrite all_bytes_spec in Hs.
  induction (to_list (base64_encode s)) as [|a l IH]; [done|].
  rewrite filter_cons_True by (apply base64_byte_clean, Hs; by left).
  by rewrite IH by (intros; apply Hs; by right).
Qed.

(** A value is read, with arrays and objects at most [n] deep, and decoded. *)
Definition decodes {A} (n : nat) (j : json) (decode : value → option A) (x : A) : Prop :=
  fits n j = true ∧ decode (read_back j) = Some x.

Lemma unmarshal_print {A} n (decode : value → option A) j x :
  decodes n j decode x → (N.of_nat n <= maxNestingDepth)%N → unmarshal decode (print j) = Some x.
Proof.
  intros [Hf Hd] Hn. unfold unmarshal. rewrite <- (string_app_nil_r (print j)).
  by rewrite (read_document_print n) by done.
Qed.

Lemma unmarshal_indent_tail {A} n (decode : value → option A) j x tail :
  decodes n j decode x → (N.of_nat n <= maxNestingDepth)%N → skip_space tail = "" →
  unmarshal decode (string_app (MarshalIndent j) tail) = Some x.
Proof. intros [Hf Hd] Hn Ht. unfold unmarshal. by rewrite (read_document_indent n) by done. Qed.

Lemma unmarshal_indent {A} n (decode : value → option A) j x :
  decodes n j decode x → (N.of_nat n <= maxNestingDepth)%N → unmarshal decode (MarshalIndent j) = Some x.
Proof. intros. rewrite <- (string_app_nil_r (MarshalIndent j)). by apply (unmarshal_indent_tail n). Qed.

Lemma decode_string_print s old : valid_utf8 s → decodes 0 (JString s) (λ v, decode_string v old) s.
Proof. intros Hs. split; [done|]. simpl. by rewrite text_of_escaped, valid_text_id. Qed.

Lemma decode_bytes_print s old : decodes 0 (bytes_json s) (λ v, decode_bytes v old) s.
Proof.
  split; [done|]. simpl. rewrite text_of_escaped, valid_text_id, base64_roundtrip; [done|].
  apply valid_utf8_ascii. eapply all_bytes_impl; [|apply base64_encode_bytes].
  intros a Ha. by apply base64_byte_clean.
Qed.

(** Bytes that are written as they are. *)
Definition verbatim (a : ascii) : bool := is_ascii a && bool_decide (escape_ascii a = String a "").

Lemma escaped_verbatim s : all_bytes verbatim s = true → escaped s = s.
Proof.
  unfold escaped. induction s as [|a s IH]; [done|]. cbn [all_bytes runes]. unfold verbatim at 1.
  intros [[Ha He%bool_decide_eq_true]%andb_true_iff Hs]%andb_true_iff. rewrite Ha.
  cbn [fmap list_fmap concat_strings escape_rune]. rewrite He. cbn [string_app]. f_equal. by apply IH.
Qed.

Lemma time_byte_verbatim a : time_byte a = true → verbatim a = true.
Proof. by revert a; intros [[] [] [] [] [] [] [] []]. Qed.

Lemma time_json_ok t :
  formattable t → ∃ j, time_json t = Some j ∧ ∀ old, decodes 0 j (λ v, decode_time v old) t.
Proof.
  intros Ht. exists (JString (format_RFC3339Nano t)). unfold time_json.
  rewrite formattable_year_encodes by done. split_and!; [done|]. intros old. split; [done|]. simpl.
  rewrite escaped_verbatim; [by apply parse_format_nano|].
  eapply all_bytes_impl; [|apply format_nano_time]. apply time_byte_verbatim.
Qed.

(** A list is decoded to itself when its elements are. *)
Lemma list_json_ok {A} n (to_json : A → option json) decode l :
  Forall (λ x, ∃ j, to_json x = Some j ∧ decodes n j decode x) l →
  ∃ js, mapM to_json l = Some js ∧ decodes (S n) (JArray js) (decode_list decode) (Some l).
Proof.
  induction 1 as [|x l (j & Ej & Hf & Hd) _ (js & Ejs & Hfs & Hds)]; [by exists []|].
  exists (j :: js). cbn [mapM]. rewrite Ej. cbn [mbind option_bind]. rewrite Ejs. split; [done|].
  split; cbn [fits decode_list read_back map] in *.
  - cbn [forallb]. by rewrite Hf, Hfs.
  - cbn [mapM]. rewrite Hd. cbn [mbind option_bind]. destruct (mapM decode (map read_back js)) as [l'|]; [|done].
    by injection Hds as ->.
Qed.

Lemma decode_strings_print l :
  Forall valid_utf8 l → decodes 1 (strings_json l) decode_strings (Some l).
Proof.
  intros Hl. unfold decodes, strings_json. split.
  - cbn [fits]. apply forallb_forall. intros j (s & <- & _)%in_map_iff. done.
  - cbn [read_back]. unfold decode_strings, decode_list. rewrite fmap_Some. exists l. split; [|done].
    apply mapM_Some. induction Hl as [|s l Hs Hl IH]; constructor; [|exact IH].
    by apply (decode_string_print s "").
Qed.

Lemma decode_entries_list {A} (decode : value → option A) (f : string → value) (m : gmap string A) l acc :
  Forall (λ k, valid_text k = k) l → Forall (λ k, decode (f k) = m !! k ∧ is_Some (m !! k)) l →
  (∀ k x, acc !! k = Some x → m !! k = Some x) →
  ∃ m', decode_entries decode ((λ k, (valid_text k, f k)) <$> l) acc = Some m'
    ∧ (∀ k x, m' !! k = Some x → m !! k = Some x)
    ∧ (∀ k, k ∈ l ∨ is_Some (acc !! k) → is_Some (m' !! k)).
Proof.
  intros Hv Hd. revert acc. induction l as [|k l IH]; intros acc Hacc.
  - exists acc. split_and!; [done..|]. by intros k [?%elem_of_nil|].
  - apply Forall_cons in Hv as [Hk Hv]. apply Forall_cons in Hd as [[Hf [x Hx]] Hd].
    cbn [fmap list_fmap decode_entries]. rewrite Hf, Hx, Hk. cbn [mbind option_bind].
    destruct (IH Hv Hd (<[k:=x]> acc)) as (m' & Em & Hs & Hi).
    { intros k' y. rewrite lookup_insert. case_decide; naive_solver. }
    exists m'. split_and!; [exact Em|done|]. intros k' [[->|Hk']%elem_of_cons|Hk']; apply Hi; [right|by left|right].
    + by rewrite lookup_insert_eq.
    + rewrite lookup_insert. by case_decide.
Qed.

(** One member of a struct. *)
Lemma decode_field {R} fields k v members (r : R) i name decode r' :
  list_find (λ f, fold_name f.1 = fold_name k) fields = Some (i, (name, decode)) →
  decode v r = Some r' →
  decode_fields fields ((k, v) :: members) r = decode_fields fields members r'.
Proof. intros Hf Hd. cbn [decode_fields]. by rewrite Hf, Hd. Qed.

(** A map is decoded to itself when its elements are. *)
Lemma map_json_ok {A} n (to_json : A → option json) decode (P : A → Prop) m :
  (∀ x, P x → ∃ j, to_json x = Some j ∧ decodes n j decode x) →
  map_Forall (λ k x, valid_utf8 k ∧ P x) m →
  ∃ j, map_json to_json m = Some j ∧ decodes (S n) j (decode_map decode) (Some m).
Proof.
  intros Hj Hm. set (keys := sort_strings (elements (dom m))).
  set (item k := default (JString "") (x ← m !! k; to_json x)).
  assert (Hkeys : ∀ k, k ∈ keys ↔ is_Some (m !! k)).
  { intros k. unfold keys. by rewrite sort_strings_elem_of, elem_of_elements, elem_of_dom. }
  assert (Hitem : ∀ k, k ∈ keys → ∃ x, m !! k = Some x ∧ to_json x = Some (item k)
    ∧ decodes n (item k) decode x ∧ valid_utf8 k).
  { intros k [x Hx]%Hkeys. destruct (Hm _ _ Hx) as [Hk (j & Ej & Hd)%Hj].
    exists x. unfold item. rewrite Hx. cbn [mbind option_bind]. by rewrite Ej. }
  exists (JObject ((λ k, (k, item k)) <$> keys)). split; [|split].
  - unfold map_json. fold keys. rewrite fmap_Some. eexists. split; [|reflexivity].
    apply mapM_Some, Forall2_fmap_r, Forall_Forall2_diag, Forall_forall. intros k Hk.
    destruct (Hitem k Hk) as (x & -> & Ex & _). cbn [mbind option_bind]. by rewrite Ex.
  - cbn [fits]. apply forallb_forall. intros f (k & <- & Hk%list_elem_of_In)%in_map_iff.
    by destruct (Hitem k Hk) as (x & _ & _ & [Hf _] & _).
  - cbn [read_back]. change (map ?f (?g <$> keys)) with (f <$> (g <$> keys)). rewrite <- list_fmap_compose.
    cbn [decode_map].
    destruct (decode_entries_list decode (λ k, read_back (item k)) m keys ∅) as (m' & E & Hs & Hi).
    + apply Forall_forall. intros k Hk. apply valid_text_id. by destruct (Hitem k Hk) as (? & ? & ? & ? & ?).
    + apply Forall_forall. intros k Hk. by destruct (Hitem k Hk) as (x & -> & _ & [_ ->] & _).
    + intros k x. by rewrite lookup_empty.
    + unfold compose. cbn [fst snd]. setoid_rewrite E. cbn. do 2 f_equal. apply map_eq. intros k.
      destruct (m !! k) as [x|] eqn:Ek.
      * destruct (Hi k) as [y Hy]; [left; apply Hkeys; by eexists|]. rewrite Hy. apply Hs in Hy. congruence.
      * destruct (m' !! k) as [y|] eqn:Ey; [|done]. apply Hs in Ey. congruence.
Qed.
End json_types.
