(* ===== verification/Os.v ===== *)
(** * The operating system

What the program uses of Go's [path/filepath] and [os]: lexical path
operations, and files as a file system with inodes keeps them, under faults
and crashes. A program that uses them is a computation that may fail ([EM])
over the state of a [machine]; the faults of the system calls, the random
parts of the names of temporary files and the clock are streams, of which the
[n]-th draw of a run reads the [n]-th element.

A path names a file by its text: links, and different spellings of a path, are
left out, as are directories, which exist once [MkdirAll] made them. *)

From Stdlib Require Import Ascii.
From S2P Require Import Prelude GoStrings.
#[local] Open Scope go_scope.

Module os.

(** ** path/filepath *)

(** One element of a path, onto the elements kept so far, last first. *)
Definition clean_step (rooted : bool) (out : list string) (elem : string) : list string :=
  if (elem == "") || (elem == ".") then out
  else if elem == ".." then
    match out with
    | [] => if rooted then [] else [".."]
    | last :: rest => if last == ".." then ".." :: out else rest
    end
  else elem :: out.

Definition Clean (path : string) : string :=
  if path == "" then "."
  else
    let rooted := has_prefix path "/" in
    let out := join (rev (foldl (clean_step rooted) [] (split_byte "/"%char path))) "/" in
    if rooted then String "/" out else if out == "" then "." else out.

(** Up to the last separator, included. *)
Fixpoint dir_part (path : string) : string :=
  match path with
  | EmptyString => ""
  | String a path' =>
      let d := dir_part path' in
      if d == "" then (if a == "/"%char then "/" else "") else String a d
  end.

Definition Dir (path : string) : string := Clean (dir_part path).

Definition Join (a b : string) : string :=
  if a == "" then (if b == "" then "" else Clean b)
  else Clean (string_app a (String "/" b)).

Example Clean_tests :
  Clean "a//b/./c/.." = "a/b" ∧ Clean "/../x" = "/x" ∧ Clean "../../x" = "../../x"
  ∧ Clean "a/.." = "." ∧ Clean "/" = "/" ∧ Dir "/etc/certplane/api.pem" = "/etc/certplane"
  ∧ Dir "api.pem" = "." ∧ Join "/var/lib/certplane/" "agent.lock" = "/var/lib/certplane/agent.lock".
Proof. vm_compute. done. Qed.

(** ** Files *)

(** A file: its content, its permissions, and whether a crash keeps both. *)
Record inode := mkInode { data : string; perm : Z; flushed : bool }.

(** The names in the directories, the inodes by number, and the bindings a crash
may bring back: those replaced since the directory was last synced. *)
Record disk := mkDisk {
  names : gmap string nat;
  inodes : list inode;
  unsynced : list (string * option nat) }.

(** Permissions: [0o600] and [0o644]. *)
Definition mode_600 : Z := 384.
Definition mode_644 : Z := 420.

(** A content and permissions. *)
Definition file : Type := string * Z.

Definition inode_file (i : inode) : file := (data i, perm i).

(** What a reader of the path finds. *)
Definition read_file (d : disk) (p : string) : option file :=
  i ← names d !! p; inode_file <$> inodes d !! i.

(** What the path may hold after a crash: any binding of the path since the last
sync of its directory, and of a file that was not synced any content at all. *)
Definition may_be (d : disk) (p : string) (o : option file) : Prop :=
  ∃ b, (b = names d !! p ∨ (p, b) ∈ unsynced d) ∧
    match b with
    | None => o = None
    | Some i => ∃ node f, inodes d !! i = Some node ∧ o = Some f
        ∧ (flushed node = true → f = inode_file node)
    end.

(** A name is bound anew, or removed. *)
Definition bind_name (p : string) (b : option nat) (d : disk) : disk :=
  mkDisk (partial_alter (λ _, b) p (names d)) (inodes d) (unsynced d ++ [(p, names d !! p)]).

Definition add_inode (n : inode) (d : disk) : disk :=
  mkDisk (names d) (inodes d ++ [n]) (unsynced d).
Definition set_inode (i : nat) (n : inode) (d : disk) : disk :=
  mkDisk (names d) (<[i:=n]> (inodes d)) (unsynced d).
Definition sync_names (dir : string) (d : disk) : disk :=
  mkDisk (names d) (inodes d) (filter (λ pb, Dir (pb.1) ≠ dir) (unsynced d)).

(** ** Machines *)

(** What a run asks of the world outside its files. *)
Inductive action :=
  | Exec (command : string)
  | Call (service : string) (args : list string).

(** The files, the files at each moment of the run so far, the requests made, the
draws made. *)
Record machine := mkMachine {
  m_disk : disk;
  m_past : list disk;
  m_log : list action;
  m_draws : nat }.

(** A fault is the text of the error and, for a write, the number of bytes written
before it. *)
Record environment := mkEnvironment {
  env_fault : nat → option (string * nat);
  env_temp : nat → string;
  env_rand : nat → string;
  env_clock : nat → Z;
  env_pid : Z }.

Inductive errno := ErrNotExist | ErrExist | Failed (e : string).

#[export] Instance errno_eq_dec : EqDecision errno.
Proof. solve_decision. Defined.

(** ** Computations *)

Definition EM (X T : Type) : Type := machine → result X T * machine.

#[export] Instance EM_ret {X} : MRet (EM X) := λ T x m, (Ok x, m).
#[export] Instance EM_bind {X} : MBind (EM X) := λ T U f c m,
  let '(r, m1) := c m in
  match r with Ok x => f x m1 | Err e => (Err e, m1) end.

Definition fail {X T} (e : X) : EM X T := λ m, (Err e, m).
Definition lift {X T} (r : result X T) : EM X T := λ m, (r, m).
(** The error of a callee, wrapped by the caller. *)
Definition wrapM {X Y T} (f : X → Y) (c : EM X T) : EM Y T :=
  λ m, let '(r, m1) := c m in (wrap_err f r, m1).
(** [x, err := c()], where the caller looks at the error. *)
Definition attempt {X Y T} (c : EM X T) : EM Y (result X T) :=
  λ m, let '(r, m1) := c m in (Ok r, m1).
(** [_ = c()]. *)
Definition ignore {X Y T} (c : EM X T) : EM Y unit :=
  λ m, let '(_, m1) := c m in (Ok tt, m1).
(** The clean-up runs when the computation fails. *)
Definition on_error {X Y T U} (cleanup : EM Y U) (c : EM X T) : EM X T :=
  λ m, let '(r, m1) := c m in
       match r with Ok _ => (r, m1) | Err _ => (r, snd (cleanup m1)) end.
(** [defer]: the clean-up runs in any case. *)
Definition defer {X Y T U} (cleanup : EM Y U) (c : EM X T) : EM X T :=
  λ m, let '(r, m1) := c m in (r, snd (cleanup m1)).

Definition set_disk (d : disk) (m : machine) : machine :=
  mkMachine d (m_past m ++ [d]) (m_log m) (m_draws m).
Definition next_draw (m : machine) : machine :=
  mkMachine (m_disk m) (m_past m) (m_log m) (S (m_draws m)).
Definition add_log (a : action) (m : machine) : machine :=
  mkMachine (m_disk m) (m_past m) (m_log m ++ [a]) (m_draws m).

Definition draw {X T} (stream : nat → T) : EM X T :=
  λ m, (Ok (stream (m_draws m)), next_draw m).
Definition change {X} (f : disk → disk) : EM X unit :=
  λ m, (Ok tt, set_disk (f (m_disk m)) m).
Definition look {X T} (f : disk → T) : EM X T := λ m, (Ok (f (m_disk m)), m).
Definition log {X} (a : action) : EM X unit := λ m, (Ok tt, add_log a m).

(** ** System calls *)

Section Calls.
Context (env : environment).

(** The call fails before it does anything, or goes on. *)
Definition syscall {T} (c : EM errno T) : EM errno T :=
  f ← draw (env_fault env);
  match f with Some (e, _) => fail (Failed e) | None => c end.

Definition Stat (path : string) : EM errno unit :=
  syscall (b ← look (λ d, names d !! path);
           match b with Some _ => mret tt | None => fail ErrNotExist end).

Definition ReadFile (path : string) : EM errno string :=
  syscall (f ← look (λ d, read_file d path);
           match f with Some (text, _) => mret text | None => fail ErrNotExist end).

Definition MkdirAll (dir : string) : EM errno unit := syscall (mret tt).

(** [os.OpenFile] with [O_CREATE|O_EXCL|O_WRONLY]: the number of the new inode. *)
Definition CreateExclusive (path : string) (mode : Z) : EM errno nat :=
  syscall (d ← look (λ d, d);
           match names d !! path with
           | Some _ => fail ErrExist
           | None =>
               _ ← change (λ d, bind_name path (Some (length (inodes d)))
                                  (add_inode (mkInode "" mode false) d));
               mret (length (inodes d))
           end).

(** A file open for writing. *)
Record File := mkFile { file_name : string; file_inode : nat }.

Definition joinPath (dir name : string) : string :=
  if has_suffix dir "/" then string_app dir name
  else string_app dir (String "/" name).

(** [os.CreateTemp] with a pattern that ends in the asterisk: it tries random
suffixes until the name is new, ten thousand times at most. *)
Fixpoint create_temp (tries : nat) (dir prefix : string) : EM errno File :=
  suffix ← draw (env_temp env);
  let name := joinPath dir (string_app prefix suffix) in
  created ← attempt (CreateExclusive name mode_600);
  match created with
  | Ok i => mret (mkFile name i)
  | Err ErrExist =>
      match tries with O => fail ErrExist | S tries' => create_temp tries' dir prefix end
  | Err e => fail e
  end.
Definition create_tries : nat := N.to_nat 9999.
Arguments create_tries : simpl never.
Definition CreateTemp (dir prefix : string) : EM errno File :=
  create_temp create_tries dir prefix.

Definition on_inode (i : nat) (f : inode → inode) (d : disk) : disk :=
  match inodes d !! i with Some n => set_inode i (f n) d | None => d end.

Definition append_data (text : string) (n : inode) : inode :=
  mkInode (string_app (data n) text) (perm n) false.

Fixpoint take_bytes (n : nat) (s : string) : string :=
  match n, s with S n', String a s' => String a (take_bytes n' s') | _, _ => "" end.

Definition Write (f : File) (text : string) : EM errno unit :=
  fault ← draw (env_fault env);
  match fault with
  | Some (e, n) =>
      _ ← change (on_inode (file_inode f) (append_data (take_bytes n text)));
      fail (Failed e)
  | None => change (on_inode (file_inode f) (append_data text))
  end.

Definition Chmod (f : File) (mode : Z) : EM errno unit :=
  syscall (change (on_inode (file_inode f) (λ n, mkInode (data n) mode false))).

Definition Sync (f : File) : EM errno unit :=
  syscall (change (on_inode (file_inode f) (λ n, mkInode (data n) (perm n) true))).

Definition Close (f : File) : EM errno unit := syscall (mret tt).

Definition Rename (old new : string) : EM errno unit :=
  syscall (b ← look (λ d, names d !! old);
           match b with
           | None => fail ErrNotExist
           | Some i =>
               if old == new then mret tt
               else change (λ d, bind_name old None (bind_name new (Some i) d))
           end).

Definition Remove (path : string) : EM errno unit :=
  syscall (b ← look (λ d, names d !! path);
           match b with
           | None => fail ErrNotExist
           | Some _ => change (bind_name path None)
           end).

(** Opening a directory, and [Sync] on the handle. *)
Definition OpenDir (dir : string) : EM errno unit := syscall (mret tt).
Definition SyncDir (dir : string) : EM errno unit := syscall (change (sync_names dir)).

Definition time_Now {X} : EM X Z := draw (env_clock env).
End Calls.
End os.
