(* ===== verification/OsLogic.v ===== *)
(** * Reasoning about computations over files

A weakest precondition for the computations of [Os]: [wp I c Q d l] says that
[c], from the files [d] and the log [l], passes only through files where [I]
holds and ends in [Q]. The rules follow the shape of the program. *)

From S2P Require Import Prelude GoStrings Os.
Import os.
#[local] Open Scope go_scope.

Module os_logic.

Definition wp {X T} (I : disk → Prop) (c : EM X T)
    (Q : result X T → disk → list action → Prop) (d : disk) (l : list action) : Prop :=
  ∀ m, m_disk m = d → m_log m = l →
    ∃ new, m_past (snd (c m)) = m_past m ++ new ∧ Forall I new
      ∧ Q (fst (c m)) (m_disk (snd (c m))) (m_log (snd (c m))).

Section Rules.
Context (env : environment) (I : disk → Prop).

Lemma wp_consequence {X T} (c : EM X T) (Q Q' : result X T → disk → list action → Prop) d l :
  wp I c Q d l → (∀ r d l, Q r d l → Q' r d l) → wp I c Q' d l.
Proof using. intros H HQ m Hd Hl. destruct (H m Hd Hl) as (new & ? & ? & ?). eauto. Qed.

Lemma wp_ret {X T} (x : T) (Q : result X T → disk → list action → Prop) d l :
  Q (Ok x) d l → wp I (mret x) Q d l.
Proof using. intros HQ m <- <-. exists []. by rewrite app_nil_r. Qed.

Lemma wp_fail {X T} (e : X) (Q : result X T → disk → list action → Prop) d l :
  Q (Err e) d l → wp I (fail e) Q d l.
Proof using. intros HQ m <- <-. exists []. by rewrite app_nil_r. Qed.

Lemma wp_lift {X T} (r : result X T) (Q : result X T → disk → list action → Prop) d l :
  Q r d l → wp I (lift r) Q d l.
Proof using. intros HQ m <- <-. exists []. by rewrite app_nil_r. Qed.

Lemma wp_bind {X T U} (c : EM X T) (f : T → EM X U) Q d l :
  wp I c (λ r d l, match r with Ok x => wp I (f x) Q d l | Err e => Q (Err e) d l end) d l →
  wp I (c ≫= f) Q d l.
Proof using.
  intros H m Hd Hl. destruct (H m Hd Hl) as (new & Hp & HI & HQ).
  unfold mbind, EM_bind. destruct (c m) as [[x|e] m1]; simpl in *; [|by exists new].
  destruct (HQ m1 eq_refl eq_refl) as (new' & Hp' & HI' & HQ').
  exists (new ++ new'). rewrite Hp', Hp, app_assoc. split_and!; [done| |done].
  by apply Forall_app.
Qed.

Lemma wp_wrapM {X Y T} (g : X → Y) (c : EM X T) Q d l :
  wp I c (λ r, Q (wrap_err g r)) d l → wp I (wrapM g c) Q d l.
Proof using.
  intros H m Hd Hl. specialize (H m Hd Hl). unfold wrapM. by destruct (c m).
Qed.

Lemma wp_attempt {X Y T} (c : EM X T) (Q : result Y (result X T) → disk → list action → Prop) d l :
  wp I c (λ r, Q (Ok r)) d l → wp I (attempt c) Q d l.
Proof using.
  intros H m Hd Hl. specialize (H m Hd Hl). unfold attempt. by destruct (c m).
Qed.

Lemma wp_ignore {X Y T} (c : EM X T) (Q : result Y unit → disk → list action → Prop) d l :
  wp I c (λ _, Q (Ok tt)) d l → wp I (ignore c) Q d l.
Proof using.
  intros H m Hd Hl. specialize (H m Hd Hl). unfold ignore. by destruct (c m).
Qed.

(** The clean-up, whose result is dropped. *)
Lemma wp_after {X Y T U} (run : result X T → bool) (cleanup : EM Y U) (c : EM X T) Q d l :
  wp I c (λ r d l, if run r then wp I cleanup (λ _, Q r) d l else Q r d l) d l →
  wp I (λ m, let '(r, m1) := c m in (r, if run r then snd (cleanup m1) else m1)) Q d l.
Proof using.
  intros H m Hd Hl. destruct (H m Hd Hl) as (new & Hp & HI & HQ).
  destruct (c m) as [r m1]. simpl in *. destruct (run r); [|by exists new].
  destruct (HQ m1 eq_refl eq_refl) as (new' & Hp' & HI' & HQ').
  exists (new ++ new'). rewrite Hp', Hp, app_assoc. split_and!; [done| |done].
  by apply Forall_app.
Qed.

Lemma wp_on_error {X Y T U} (cleanup : EM Y U) (c : EM X T) Q d l :
  wp I c (λ r d l, match r with
                   | Ok _ => Q r d l
                   | Err _ => wp I cleanup (λ _, Q r) d l end) d l →
  wp I (on_error cleanup c) Q d l.
Proof using.
  intros H m. pose proof (wp_after (λ r, negb (is_ok r)) cleanup c Q d l) as Ha.
  assert (Hw : wp I c (λ r d l, if negb (is_ok r) then wp I cleanup (λ _, Q r) d l else Q r d l) d l).
  { eapply wp_consequence; [done|]. by intros []. }
  specialize (Ha Hw m). revert Ha. unfold on_error. by destruct (c m) as [[x|e] m1].
Qed.

Lemma wp_defer {X Y T U} (cleanup : EM Y U) (c : EM X T) Q d l :
  wp I c (λ r d l, wp I cleanup (λ _, Q r) d l) d l → wp I (defer cleanup c) Q d l.
Proof using.
  intros H m. pose proof (wp_after (λ _, true) cleanup c Q d l H m) as Ha.
  revert Ha. unfold defer. by destruct (c m).
Qed.

Lemma wp_draw {X T} (stream : nat → T) (Q : result X T → disk → list action → Prop) d l :
  (∀ n, Q (Ok (stream n)) d l) → wp I (draw stream) Q d l.
Proof using. intros HQ m <- <-. exists []. rewrite app_nil_r. split_and!; [done..|]. apply HQ. Qed.

Lemma wp_look {X T} (f : disk → T) (Q : result X T → disk → list action → Prop) d l :
  Q (Ok (f d)) d l → wp I (look f) Q d l.
Proof using. intros HQ m <- <-. exists []. by rewrite app_nil_r. Qed.

Lemma wp_change {X} (f : disk → disk) (Q : result X unit → disk → list action → Prop) d l :
  I (f d) → Q (Ok tt) (f d) l → wp I (change f) Q d l.
Proof using.
  intros HI HQ m <- <-. exists [f (m_disk m)]. split_and!; [done| |done]. by constructor.
Qed.

Lemma wp_log {X} (a : action) (Q : result X unit → disk → list action → Prop) d l :
  Q (Ok tt) d (l ++ [a]) → wp I (log a) Q d l.
Proof using. intros HQ m <- <-. exists []. by rewrite app_nil_r. Qed.

Lemma wp_syscall {T} (c : EM errno T) Q d l :
  (∀ e, Q (Err (Failed e)) d l) → wp I c Q d l → wp I (syscall env c) Q d l.
Proof using.
  intros He Hc. unfold syscall. apply wp_bind, wp_draw. intros n.
  destruct (env_fault env n) as [[e k]|]; [by apply wp_fail | done].
Qed.

Lemma wp_syscall_calm {T} (c : EM errno T) Q d l :
  (∀ n, env_fault env n = None) → wp I c Q d l → wp I (syscall env c) Q d l.
Proof using.
  intros He Hc. unfold syscall. apply wp_bind, wp_draw. intros n. by rewrite He.
Qed.
End Rules.

(** What a computation whose [wp] is proved does from a machine. *)
Lemma wp_run {X T} (I : disk → Prop) (c : EM X T) Q m :
  wp I c Q (m_disk m) (m_log m) →
  ∃ new, m_past (snd (c m)) = m_past m ++ new ∧ Forall I new
    ∧ Q (fst (c m)) (m_disk (snd (c m))) (m_log (snd (c m))).
Proof. intros H. by apply H. Qed.

(** A computation that changes no file. *)
Lemma wp_quiet {X T} (I : disk → Prop) (c : EM X T) Q d l : wp (λ _, False) c Q d l → wp I c Q d l.
Proof.
  intros H m Hd Hl. destruct (H m Hd Hl) as (new & Hp & HF & HQ). exists new. split_and!; [done| |done].
  eapply Forall_impl; [exact HF | done].
Qed.

(** One rule for each construct of the program. *)
Ltac wp_step :=
  lazymatch goal with
  | |- wp _ (mret _) _ _ _ => apply wp_ret
  | |- wp _ (fail _) _ _ _ => apply wp_fail
  | |- wp _ (lift _) _ _ _ => apply wp_lift
  | |- wp _ (mbind _ _) _ _ _ => apply wp_bind
  | |- wp _ (wrapM _ _) _ _ _ => apply wp_wrapM
  | |- wp _ (attempt _) _ _ _ => apply wp_attempt
  | |- wp _ (ignore _) _ _ _ => apply wp_ignore
  | |- wp _ (on_error _ _) _ _ _ => apply wp_on_error
  | |- wp _ (defer _ _) _ _ _ => apply wp_defer
  | |- wp _ (draw _) _ _ _ => apply wp_draw; intros ?
  | |- wp _ (look _) _ _ _ => apply wp_look
  | |- wp _ (change _) _ _ _ => apply wp_change
  | |- wp _ (log _) _ _ _ => apply wp_log
  | |- wp _ (syscall _ _) _ _ _ => apply wp_syscall; [intros ?|]
  end; simpl.

(** ** What changes for a reader *)

(** The names are of inodes that exist. *)
Definition wf_disk (d : disk) : Prop :=
  ∀ p i, names d !! p = Some i ∨ (p, Some i) ∈ unsynced d → i < length (inodes d).

(** A reader of the path finds the same file, and a crash leaves nothing it could
not have left before. *)
Definition keeps (d d' : disk) (p : string) : Prop :=
  read_file d' p = read_file d p ∧ ∀ o, may_be d' p o → may_be d p o.

(** A reader finds the file [f]; a crash leaves it, or what it could have left
before. *)
Definition replaced (d d' : disk) (p : string) (f : file) : Prop :=
  read_file d' p = Some f ∧ ∀ o, may_be d' p o → may_be d p o ∨ o = Some f.

(** The path holds [f], whatever happens. *)
Definition durable (d : disk) (p : string) (f : file) : Prop :=
  read_file d p = Some f ∧ ∀ o, may_be d p o → o = Some f.

Lemma keeps_refl d p : keeps d d p.
Proof. done. Qed.
Lemma keeps_trans d1 d2 d3 p : keeps d1 d2 p → keeps d2 d3 p → keeps d1 d3 p.
Proof. intros [H1 H2] [H3 H4]. split; [congruence | auto]. Qed.
Lemma durable_keeps d d' p f : keeps d d' p → durable d p f → durable d' p f.
Proof. intros [Hr Hm] [Hd Hc]. split; [congruence | auto]. Qed.
#[export] Hint Resolve keeps_refl : certplane.

Lemma wf_lookup d p i : wf_disk d → names d !! p = Some i → ∃ n, inodes d !! i = Some n.
Proof. intros Hwf Hi. apply lookup_lt_is_Some_2, (Hwf p). by left. Qed.

Lemma read_file_lookup d p i n :
  names d !! p = Some i → inodes d !! i = Some n → read_file d p = Some (inode_file n).
Proof. intros Hi Hn. unfold read_file. rewrite Hi. simpl. by rewrite Hn. Qed.

Lemma names_on_inode i f d : names (on_inode i f d) = names d.
Proof. unfold on_inode. by destruct (inodes d !! i). Qed.

(** Files are only added, and the bindings of the path are the ones it had. *)
Lemma keeps_frame d d' p :
  wf_disk d → inodes d `prefix_of` inodes d' → names d' !! p = names d !! p →
  (∀ b, (p, b) ∈ unsynced d' → (p, b) ∈ unsynced d ∨ b = names d !! p) →
  keeps d d' p.
Proof.
  intros Hwf [more Hmore] Hn Hu.
  assert (Hi : ∀ i, names d !! p = Some i ∨ (p, Some i) ∈ unsynced d →
    inodes d' !! i = inodes d !! i).
  { intros i Hi. rewrite Hmore, lookup_app_l; [done|]. by apply (Hwf p). }
  split.
  - unfold read_file. rewrite Hn. destruct (names d !! p) as [i|] eqn:E; simpl; [|done].
    rewrite Hi by auto. done.
  - intros o (b & Hb & Ho). exists b.
    assert (Hb' : b = names d !! p ∨ (p, b) ∈ unsynced d).
    { destruct Hb as [->|Hb]; [by left|]. destruct (Hu b Hb); auto. }
    split; [done|]. destruct b as [i|]; [|done]. rewrite Hi in Ho; [done|].
    destruct Hb' as [<-|]; auto.
Qed.

(** ** Specifications of the system calls *)

Section Calls.
Context (env : environment) (I : disk → Prop).

Lemma wp_Stat p (Q : result errno unit → disk → list action → Prop) d l :
  (∀ e, Q (Err (Failed e)) d l) →
  (is_Some (names d !! p) → Q (Ok tt) d l) →
  (names d !! p = None → Q (Err ErrNotExist) d l) →
  wp I (Stat env p) Q d l.
Proof using.
  intros Hf Hs Hn. unfold Stat. wp_step; [done|]. do 2 wp_step.
  destruct (names d !! p); [apply wp_ret | apply wp_fail]; eauto.
Qed.

Lemma wp_ReadFile p (Q : result errno string → disk → list action → Prop) d l :
  (∀ e, Q (Err (Failed e)) d l) →
  (∀ f, read_file d p = Some f → Q (Ok (fst f)) d l) →
  (read_file d p = None → Q (Err ErrNotExist) d l) →
  wp I (ReadFile env p) Q d l.
Proof using.
  intros Hf Hs Hn. unfold ReadFile. wp_step; [done|]. do 2 wp_step.
  destruct (read_file d p) as [[t o]|]; [apply wp_ret, (Hs (t, o)) | apply wp_fail]; eauto.
Qed.

Lemma wp_CreateExclusive p mode (Q : result errno nat → disk → list action → Prop) d l :
  (∀ e, Q (Err (Failed e)) d l) →
  (is_Some (names d !! p) → Q (Err ErrExist) d l) →
  (names d !! p = None →
     let d' := bind_name p (Some (length (inodes d))) (add_inode (mkInode "" mode false) d) in
     I d' ∧ Q (Ok (length (inodes d))) d' l) →
  wp I (CreateExclusive env p mode) Q d l.
Proof using.
  intros Hf Hs Hn. unfold CreateExclusive. wp_step; [done|]. do 2 wp_step.
  destruct (names d !! p); [apply wp_fail; eauto|]. destruct (Hn eq_refl).
  do 2 wp_step; [done|]. by apply wp_ret.
Qed.

Lemma wp_Remove p (Q : result errno unit → disk → list action → Prop) d l :
  (∀ e, Q (Err (Failed e)) d l) →
  (names d !! p = None → Q (Err ErrNotExist) d l) →
  (is_Some (names d !! p) → I (bind_name p None d) ∧ Q (Ok tt) (bind_name p None d) l) →
  wp I (Remove env p) Q d l.
Proof using.
  intros Hf Hn Hs. unfold Remove. wp_step; [done|]. do 2 wp_step.
  destruct (names d !! p); [|apply wp_fail; eauto]. destruct Hs; [eauto|]. by wp_step.
Qed.

(** The temporary file has a new name of the directory with the prefix. *)
Lemma wp_CreateTemp dir prefix (Q : result errno File → disk → list action → Prop) d l :
  (∀ e, Q (Err e) d l) →
  (∀ suffix, let p := joinPath dir (string_app prefix suffix) in
     names d !! p = None →
     let d' := bind_name p (Some (length (inodes d))) (add_inode (mkInode "" mode_600 false) d) in
     I d' ∧ Q (Ok (mkFile p (length (inodes d)))) d' l) →
  wp I (CreateTemp env dir prefix) Q d l.
Proof using.
  intros Hf Hn. unfold CreateTemp. generalize create_tries. intros tries.
  induction tries as [|tries IH]; simpl.
  all: wp_step; apply wp_draw; intros n; wp_step; wp_step.
  all: apply wp_CreateExclusive; [intros e; by apply wp_fail | intros _; first [by apply wp_fail | done] |].
  all: intros Hnew d'; destruct (Hn _ Hnew); split; [done | by apply wp_ret].
Qed.

Lemma wp_CreateTemp_calm dir prefix (Q : result errno File → disk → list action → Prop) d l :
  (∀ n, env_fault env n = None) →
  (∀ n, names d !! joinPath dir (string_app prefix (env_temp env n)) = None) →
  (∀ suffix, let p := joinPath dir (string_app prefix suffix) in
     names d !! p = None →
     let d' := bind_name p (Some (length (inodes d))) (add_inode (mkInode "" mode_600 false) d) in
     I d' ∧ Q (Ok (mkFile p (length (inodes d)))) d' l) →
  wp I (CreateTemp env dir prefix) Q d l.
Proof using.
  intros Hc Hn HQ. unfold CreateTemp. destruct create_tries as [|tries]; simpl.
  all: wp_step; apply wp_draw; intros n; do 2 wp_step; unfold CreateExclusive.
  all: apply wp_syscall_calm; [done|]; do 2 wp_step; rewrite Hn.
  all: destruct (HQ _ (Hn n)); do 2 wp_step; [done|]; by do 2 wp_step.
Qed.

(** Writes to a file touch its inode only, and may stop half way. *)
Lemma wp_Write f text (Q : result errno unit → disk → list action → Prop) d l :
  (∀ e k, I (on_inode (file_inode f) (append_data (take_bytes k text)) d)
     ∧ Q (Err (Failed e)) (on_inode (file_inode f) (append_data (take_bytes k text)) d) l) →
  I (on_inode (file_inode f) (append_data text) d) →
  Q (Ok tt) (on_inode (file_inode f) (append_data text) d) l →
  wp I (Write env f text) Q d l.
Proof using.
  intros Hf HI HQ. unfold Write. do 2 wp_step.
  destruct (env_fault env _) as [[e k]|]; [|by wp_step].
  destruct (Hf e k). wp_step. wp_step; [done|]. by apply wp_fail.
Qed.
End Calls.

(** ** Safety *)

(** [I] holds of the files at each moment and [J] of the log in the end, whatever
the result; a result without error satisfies [P]. *)
Definition safe {X T} (I : disk → Prop) (J : list action → Prop) (c : EM X T)
    (P : T → disk → list action → Prop) (d : disk) (l : list action) : Prop :=
  wp I c (λ r d' l', I d' ∧ J l' ∧ match r with Ok x => P x d' l' | Err _ => True end) d l.

Section Safe.
Context (env : environment) (I : disk → Prop) (J : list action → Prop).

Lemma safe_consequence {X T} (c : EM X T) (P P' : T → disk → list action → Prop) d l :
  safe I J c P d l → (∀ x d l, I d → J l → P x d l → P' x d l) → safe I J c P' d l.
Proof using.
  intros H HP. eapply wp_consequence; [exact H|]. intros [x|e] d' l' (HI & HJ & Hx); auto.
Qed.

Lemma safe_ret {X T} (x : T) (P : T → disk → list action → Prop) d l :
  I d → J l → P x d l → safe (X:=X) I J (mret x) P d l.
Proof using. intros. by apply wp_ret. Qed.

Lemma safe_fail {X T} (e : X) (P : T → disk → list action → Prop) d l :
  I d → J l → safe I J (fail e) P d l.
Proof using. intros. by apply wp_fail. Qed.

Lemma safe_lift {X T} (r : result X T) (P : T → disk → list action → Prop) d l :
  I d → J l → (∀ x, r = Ok x → P x d l) → safe I J (lift r) P d l.
Proof using. intros ? ? HP. apply wp_lift. destruct r; auto. Qed.

Lemma safe_bind {X T U} (c : EM X T) (f : T → EM X U) (P : U → disk → list action → Prop) d l :
  safe I J c (λ x d l, safe I J (f x) P d l) d l → safe I J (c ≫= f) P d l.
Proof using.
  intros H. apply wp_bind. eapply wp_consequence; [exact H|].
  intros [x|e] d' l' (HI & HJ & Hx); [exact Hx | done].
Qed.

Lemma safe_wrapM {X Y T} (g : X → Y) (c : EM X T) (P : T → disk → list action → Prop) d l :
  safe I J c P d l → safe I J (wrapM g c) P d l.
Proof using.
  intros H. apply wp_wrapM. eapply wp_consequence; [exact H|]. by intros [].
Qed.

(** Nothing is known of the value drawn but that it is one of the stream. *)
Lemma safe_draw {X T} (stream : nat → T) (P : T → disk → list action → Prop) d l :
  I d → J l → (∀ n, P (stream n) d l) → safe (X:=X) I J (draw stream) P d l.
Proof using. intros. apply wp_draw. auto. Qed.

Lemma safe_log {X} (a : action) (P : unit → disk → list action → Prop) d l :
  I d → J (l ++ [a]) → P tt d (l ++ [a]) → safe (X:=X) I J (log a) P d l.
Proof using. intros. by apply wp_log. Qed.

Lemma safe_Stat p (P : unit → disk → list action → Prop) d l :
  I d → J l → (is_Some (names d !! p) → P tt d l) → safe I J (Stat env p) P d l.
Proof using. intros. apply wp_Stat; auto. Qed.

Lemma safe_ReadFile p (P : string → disk → list action → Prop) d l :
  I d → J l → (∀ text mode, read_file d p = Some (text, mode) → P text d l) →
  safe I J (ReadFile env p) P d l.
Proof using. intros ? ? HP. apply wp_ReadFile; auto. intros [text mode] Hf. eauto. Qed.

Lemma safe_Remove p (P : unit → disk → list action → Prop) d l :
  I d → J l → (is_Some (names d !! p) → I (bind_name p None d)) →
  (is_Some (names d !! p) → P tt (bind_name p None d) l) →
  safe I J (Remove env p) P d l.
Proof using. intros. apply wp_Remove; auto. Qed.

Lemma safe_run {X T} (c : EM X T) (P : T → disk → list action → Prop) m :
  safe I J c P (m_disk m) (m_log m) →
  ∃ new, m_past (snd (c m)) = m_past m ++ new ∧ Forall I (m_disk (snd (c m)) :: new)
    ∧ J (m_log (snd (c m)))
    ∧ ∀ x, fst (c m) = Ok x → P x (m_disk (snd (c m))) (m_log (snd (c m))).
Proof using.
  intros (new & Hp & Hn & HI & HJ & HP)%wp_run. exists new. split_and!; [done| |done|].
  - by constructor.
  - intros x Hx. by rewrite Hx in HP.
Qed.
End Safe.

(** One rule for each construct; the invariants are found among the hypotheses. *)
Ltac safe_step :=
  lazymatch goal with
  | |- safe _ _ (mret _) _ _ _ => apply safe_ret; [try done..|]
  | |- safe _ _ (fail _) _ _ _ => apply safe_fail; try done
  | |- safe _ _ (lift _) _ _ _ => apply safe_lift; [try done..|]
  | |- safe _ _ (mbind _ _) _ _ _ => apply safe_bind
  | |- safe _ _ (wrapM _ _) _ _ _ => apply safe_wrapM
  | |- safe _ _ (draw _) _ _ _ => apply safe_draw; [try done..|intros ?]
  | |- safe _ _ (time_Now _) _ _ _ => apply safe_draw; [try done..|intros ?]
  | |- safe _ _ (Stat _ _) _ _ _ => apply safe_Stat; [try done..|]
  | |- safe _ _ (ReadFile _ _) _ _ _ => apply safe_ReadFile; [try done..|]
  end; cbv beta.
End os_logic.
