(* ===== verification/FileUtil.v ===== *)
(** * Files and locks ([internal/fileutil])

[fs.go] and [lock.go]. The specification of [WriteFileAtomic] lists the moments
its run passes through ([moment]); what a reader finds and what a crash may
leave at each of them follows. Locks exclude each other between processes. *)

From Stdlib Require Import Ascii.
From S2P Require Import Prelude GoStrings GoTime Json Os OsLogic.
Import os os_logic.
#[local] Open Scope go_scope.

Module fileutil.

Inductive file_error :=
  | StatFailed (path : string) (e : errno)
  | CreatingDirectory (dir : string) (e : errno)
  | CreatingTemp (dir : string) (e : errno)
  | WritingTemp (name : string) (e : errno)
  | ChmodTemp (name : string) (e : errno)
  | SyncTemp (name : string) (e : errno)
  | ClosingTemp (name : string) (e : errno)
  | Renaming (old new : string) (e : errno)
  | OpeningDirectory (dir : string) (e : errno)
  | SyncingDirectory (dir : string) (e : errno)
  | AfterRename (e : file_error)
  | CreatingLockDirectory (e : errno)
  | LockExists (path : string)
  | CreatingLock (path : string) (e : errno).

Section FileUtil.
Context (env : environment).

(** ** fs.go *)

Definition FileExists (path : string) : EM file_error bool :=
  r ← attempt (Stat env path);
  match r with
  | Ok _ => mret true
  | Err ErrNotExist => mret false
  | Err e => fail (StatFailed path e)
  end.

Definition syncDir (dir : string) : EM file_error unit :=
  _ ← wrapM (OpeningDirectory dir) (OpenDir env dir);
  wrapM (SyncingDirectory dir) (SyncDir env dir).

(** The temporary file is removed when the function returns before the rename
succeeded ([removeTemp]). *)
Definition WriteFileAtomic (path text : string) (mode : Z) : EM file_error unit :=
  let dir := Dir path in
  _ ← wrapM (CreatingDirectory dir) (MkdirAll env dir);
  tmp ← wrapM (CreatingTemp dir) (CreateTemp env dir ".certplane-");
  let tmpName := file_name tmp in
  _ ← on_error (Remove env tmpName) (
    _ ← on_error (Close env tmp) (wrapM (WritingTemp tmpName) (Write env tmp text));
    _ ← on_error (Close env tmp) (wrapM (ChmodTemp tmpName) (Chmod env tmp mode));
    _ ← on_error (Close env tmp) (wrapM (SyncTemp tmpName) (Sync env tmp));
    _ ← wrapM (ClosingTemp tmpName) (Close env tmp);
    wrapM (Renaming tmpName path) (Rename env tmpName path));
  wrapM AfterRename (syncDir dir).

(** ** lock.go *)

Record Lock := mkLock { lock_path : string; lock_file : option File }.

Definition AcquireLock (path : string) : EM file_error Lock :=
  _ ← wrapM CreatingLockDirectory (MkdirAll env (Dir path));
  file ← attempt (CreateExclusive env path mode_600);
  match file with
  | Err ErrExist => fail (LockExists path)
  | Err e => fail (CreatingLock path e)
  | Ok i =>
      let f := mkFile path i in
      _ ← ignore (Write env f (string_app (itoa (env_pid env)) newline));
      mret (mkLock path (Some f))
  end.

(** The error of [Close] goes first; a lock that is gone is no error. *)
Definition Release (l : option Lock) : EM errno unit :=
  match l with
  | None => mret tt
  | Some l =>
      closed ← match lock_file l with
               | Some f => attempt (Close env f)
               | None => mret (Ok tt)
               end;
      removed ← attempt (Remove env (lock_path l));
      match removed with
      | Err e => if (e != ErrNotExist) && is_ok closed then fail e else lift closed
      | Ok _ => lift closed
      end
  end.

(** ** The moments of an atomic write *)

(** Names the temporary files may have. *)
Definition temp_like (p : string) : bool := contains p ".certplane-".

Definition temp_of (dir tmp : string) : Prop :=
  ∃ suffix, tmp = joinPath dir (string_app ".certplane-" suffix).

Lemma temp_of_like dir tmp : temp_of dir tmp → temp_like tmp = true.
Proof using.
  intros [suffix ->]. unfold temp_like, joinPath. destruct (has_suffix dir "/"); [apply contains_middle|].
  change (String "/" (string_app ".certplane-" suffix))
    with (string_app "/" (string_app ".certplane-" suffix)).
  rewrite string_app_assoc. apply contains_middle.
Qed.

Section Moments.
Context (d0 : disk) (path text : string) (mode : Z).

Definition number : nat := length (inodes d0).
(** The temporary file exists, with this inode. *)
Definition begun (tmp : string) (node : inode) : disk :=
  bind_name tmp (Some number) (add_inode node d0).
Definition given_up (tmp : string) (node : inode) : disk := bind_name tmp None (begun tmp node).
Definition renamed (tmp : string) : disk :=
  bind_name tmp None (bind_name path (Some number) (begun tmp (mkInode text mode true))).
Definition synced (tmp : string) : disk := sync_names (Dir path) (renamed tmp).

Definition fresh_temp (tmp : string) : Prop := names d0 !! tmp = None ∧ temp_of (Dir path) tmp.

Inductive moment (tmp : string) : disk → Prop :=
  | at_begun node : moment tmp (begun tmp node)
  | at_given_up node : moment tmp (given_up tmp node)
  | at_renamed : moment tmp (renamed tmp)
  | at_synced : moment tmp (synced tmp).

(** How a write ends. *)
Inductive write_result : result file_error unit → disk → Prop :=
  | write_done tmp : fresh_temp tmp → write_result (Ok tt) (synced tmp)
  | write_unsynced tmp e : fresh_temp tmp → write_result (Err (AfterRename e)) (renamed tmp)
  | write_not_begun e : (∀ e', e ≠ AfterRename e') → write_result (Err e) d0
  | write_given_up tmp node e : fresh_temp tmp → (∀ e', e ≠ AfterRename e') →
      write_result (Err e) (given_up tmp node)
  | write_left tmp node e : fresh_temp tmp → (∀ e', e ≠ AfterRename e') →
      write_result (Err e) (begun tmp node).

Lemma on_inode_begun f tmp node :
  on_inode number f (begun tmp node) = begun tmp (f node).
Proof using.
  unfold on_inode, begun, bind_name, add_inode, set_inode, number. simpl.
  rewrite list_lookup_middle by done. simpl. f_equal.
  rewrite insert_app_r_alt by lia. by rewrite Nat.sub_diag.
Qed.

Lemma wp_syncDir I dir (Q : result file_error unit → disk → list action → Prop) d l :
  (∀ e, Q (Err e) d l) → I (sync_names dir d) → Q (Ok tt) (sync_names dir d) l →
  wp I (syncDir dir) Q d l.
Proof using.
  intros He HI HQ. unfold syncDir, OpenDir, SyncDir. do 2 wp_step.
  wp_step; [done|]. do 2 wp_step. wp_step; [done|]. by wp_step.
Qed.

(** Removing the temporary file, or failing to. *)
Lemma wp_remove_temp I tmp node (Q : disk → list action → Prop) l :
  I (given_up tmp node) → Q (given_up tmp node) l → Q (begun tmp node) l →
  wp I (Remove env tmp) (λ _, Q) (begun tmp node) l.
Proof using. intros. apply wp_Remove; auto. Qed.

(** A step on the open temporary file changes its inode; an error closes it. *)
Lemma wp_temp_step I (c : EM errno unit) (f : inode → inode) g tmp
    (Q : result file_error unit → disk → list action → Prop) node l :
  (∀ node, I (begun tmp node)) →
  (∀ (R : result errno unit → disk → list action → Prop) node l,
     (∀ e node', R (Err e) (begun tmp node') l) → R (Ok tt) (begun tmp (f node)) l →
     wp I c R (begun tmp node) l) →
  (∀ e node', Q (Err (g e)) (begun tmp node') l) →
  Q (Ok tt) (begun tmp (f node)) l →
  wp I (on_error (Close env (mkFile tmp number)) (wrapM g c)) Q (begun tmp node) l.
Proof using.
  intros HI Hc He HQ. do 2 wp_step. apply Hc; [|done]. intros e node'. simpl.
  unfold Close. apply wp_syscall; [done|]. by apply wp_ret.
Qed.

Lemma wp_WriteFileAtomic I (Q : result file_error unit → disk → list action → Prop) l :
  temp_like path = false →
  (∀ tmp d, fresh_temp tmp → moment tmp d → I d) →
  (∀ r d, write_result r d → Q r d l) →
  wp I (WriteFileAtomic path text mode) Q d0 l.
Proof using.
  intros Hpath HI HQ. unfold WriteFileAtomic, MkdirAll.
  do 2 wp_step. wp_step; [intros; apply HQ; by constructor|]. do 3 wp_step.
  apply wp_CreateTemp; [intros; apply HQ; by constructor|].
  intros suffix tmp Hnew d'.
  assert (Hfresh : fresh_temp tmp) by (split; [done | by exists suffix]).
  assert (HIb : ∀ node, I (begun tmp node)) by (intros; eapply HI; [done | constructor]).
  assert (tmp ≠ path) as Hne.
  { intros ->. destruct Hfresh as [_ Ht%temp_of_like]. congruence. }
  split; [apply HIb|]. simpl. do 2 wp_step.
  assert (Herr : ∀ e node, (∀ e', e ≠ AfterRename e') →
    wp I (Remove env tmp) (λ _, Q (Err e)) (begun tmp node) l).
  { intros e node He. apply wp_remove_temp.
    - eapply HI; [done | constructor].
    - apply HQ. by eapply write_given_up.
    - apply HQ. by eapply write_left. }
  wp_step. apply (wp_temp_step _ _ (append_data text)); [done| |auto|].
  { intros R node l' He Ho. apply wp_Write.
    - intros e k. simpl. rewrite on_inode_begun. auto.
    - simpl. by rewrite on_inode_begun.
    - simpl. by rewrite on_inode_begun. }
  wp_step. apply (wp_temp_step _ _ (λ n, mkInode (data n) mode false)); [done| |auto|].
  { intros R node l' He Ho. unfold Chmod. wp_step; [done|].
    wp_step; simpl; by rewrite on_inode_begun. }
  wp_step. apply (wp_temp_step _ _ (λ n, mkInode (data n) (perm n) true)); [done| |auto|].
  { intros R node l' He Ho. unfold Sync. wp_step; [done|].
    wp_step; simpl; by rewrite on_inode_begun. }
  unfold Close, Rename. do 2 wp_step. wp_step; [auto|]. do 2 wp_step. wp_step; [auto|].
  do 2 wp_step. unfold begun at 1. unfold bind_name at 1. simpl.
  rewrite lookup_partial_alter_eq, bool_decide_false by done.
  wp_step; [eapply HI; [done | apply at_renamed]|].
  wp_step. apply wp_syncDir.
  - intros e. apply HQ. by constructor.
  - eapply HI; [done | apply at_synced].
  - apply HQ. by constructor.
Qed.

(** What the moments show. *)
Lemma moment_names tmp d q :
  moment tmp d → q ≠ path → q ≠ tmp →
  names d !! q = names d0 !! q ∧ ∀ b, (q, b) ∈ unsynced d → (q, b) ∈ unsynced d0.
Proof using.
  intros Hm Hp Ht.
  destruct Hm; simpl; rewrite ?lookup_partial_alter_ne by done; (split; [done|]); intros b;
    rewrite ?list_elem_of_filter, ?elem_of_app, ?list_elem_of_singleton; naive_solver.
Qed.

Lemma moment_inodes tmp d : moment tmp d → ∃ node, inodes d = inodes d0 ++ [node].
Proof using. intros []; simpl; by eexists. Qed.

Lemma moment_wf tmp d : wf_disk d0 → moment tmp d → wf_disk d.
Proof using.
  intros Hwf Hm p i Hi. destruct (moment_inodes _ _ Hm) as [node ->]. rewrite length_app. simpl.
  fold number. cut (i < number ∨ i = number); [unfold number; lia|].
  assert (Hold : names d0 !! p = Some i ∨ (p, Some i) ∈ unsynced d0 → i < number).
  { intros H. by apply (Hwf p). }
  destruct Hm; simpl in Hi.
  all: rewrite ?list_elem_of_filter, ?elem_of_app, ?list_elem_of_singleton, ?lookup_partial_alter in Hi.
  all: repeat case_decide; naive_solver.
Qed.

Lemma moment_keeps tmp d q :
  wf_disk d0 → moment tmp d → q ≠ path → q ≠ tmp → keeps d0 d q.
Proof using.
  intros Hwf Hm Hp Ht. destruct (moment_names _ _ _ Hm Hp Ht) as [Hn Hu].
  apply keeps_frame; auto. destruct (moment_inodes _ _ Hm) as [node ->]. by exists [node].
Qed.

Lemma renamed_lookup tmp :
  tmp ≠ path → names (renamed tmp) !! path = Some number
  ∧ inodes (renamed tmp) !! number = Some (mkInode text mode true)
  ∧ ∀ b, (path, b) ∈ unsynced (renamed tmp) → (path, b) ∈ unsynced d0 ∨ b = names d0 !! path.
Proof using.
  intros Hne. split_and!; simpl.
  - by rewrite lookup_partial_alter_ne, lookup_partial_alter_eq.
  - unfold number. by rewrite list_lookup_middle.
  - intros b. rewrite lookup_partial_alter_ne by done.
    rewrite !elem_of_app, !list_elem_of_singleton. naive_solver.
Qed.

(** What a path bound to the complete file may hold. *)
Lemma may_be_renamed tmp u o :
  wf_disk d0 → tmp ≠ path → (∀ b, (path, b) ∈ u → (path, b) ∈ unsynced (renamed tmp)) →
  may_be (mkDisk (names (renamed tmp)) (inodes (renamed tmp)) u) path o →
  o = Some (text, mode) ∨ may_be d0 path o ∧ ∃ b, (path, b) ∈ u.
Proof using.
  intros Hwf Hne Hu. destruct (renamed_lookup tmp Hne) as (Hn & Hi & Hb0).
  assert (Hino : inodes (renamed tmp) = inodes d0 ++ [mkInode text mode true]) by done.
  intros (b & [Hb|Hb] & Ho).
  - left. revert Hb Ho. cbn [names inodes]. rewrite Hn. intros ->.
    rewrite Hi. intros (node & f & [= <-] & -> & Hf). by rewrite Hf.
  - right. split; [|by exists b]. exists b. specialize (Hb0 _ (Hu _ Hb)). split; [naive_solver|].
    destruct b as [i|]; [|done]. revert Ho. cbn [inodes]. rewrite Hino, lookup_app_l; [done|].
    apply (Hwf path). naive_solver.
Qed.

Lemma renamed_replaced tmp : wf_disk d0 → tmp ≠ path → replaced d0 (renamed tmp) path (text, mode).
Proof using.
  intros Hwf Hne. destruct (renamed_lookup tmp Hne) as (Hn & Hi & Hb0). split.
  - by rewrite (read_file_lookup _ _ _ _ Hn Hi).
  - intros o Ho. apply (may_be_renamed tmp (unsynced (renamed tmp))) in Ho; naive_solver.
Qed.

Lemma synced_durable tmp : wf_disk d0 → tmp ≠ path → durable (synced tmp) path (text, mode).
Proof using.
  intros Hwf Hne. destruct (renamed_lookup tmp Hne) as (Hn & Hi & Hb0). split.
  - by rewrite (read_file_lookup (synced tmp) _ _ _ Hn Hi).
  - intros o Ho. apply (may_be_renamed tmp) in Ho as [->|[_ [b Hb]]]; [done| |done|done|].
    + apply list_elem_of_filter in Hb. naive_solver.
    + intros b Hb. by apply list_elem_of_filter in Hb as [_ Hb].
Qed.

Lemma unnamed_keeps tmp node d :
  wf_disk d0 → tmp ≠ path → d = begun tmp node ∨ d = given_up tmp node → keeps d0 d path.
Proof using.
  intros Hwf Hne Hd. apply keeps_frame; [done| | |]; destruct Hd as [-> | ->]; simpl.
  1,2: by exists [node].
  1,2: by rewrite ?lookup_partial_alter_ne.
  all: intros b; rewrite ?elem_of_app, ?list_elem_of_singleton; naive_solver.
Qed.

Lemma moment_path tmp d :
  wf_disk d0 → moment tmp d → tmp ≠ path →
  keeps d0 d path ∨ replaced d0 d path (text, mode).
Proof using.
  intros Hwf Hm Hne. destruct Hm as [node|node| |].
  1,2: left; apply (unnamed_keeps tmp node); auto.
  - right. by apply renamed_replaced.
  - right. destruct (synced_durable tmp Hwf Hne) as [? Hd]. split; [done|]. auto.
Qed.
End Moments.

(** ** What an atomic write does to the files *)

Record atomically (d0 d : disk) (path : string) (f : file) : Prop := {
  at_path : keeps d0 d path ∨ replaced d0 d path f;
  at_others : ∀ q, q ≠ path → temp_like q = false → keeps d0 d q;
  at_wf : wf_disk d }.

Lemma moment_atomically d0 path text mode tmp d :
  wf_disk d0 → temp_like path = false → fresh_temp d0 path tmp →
  moment d0 path text mode tmp d → atomically d0 d path (text, mode).
Proof using.
  intros Hwf Hp [_ Ht%temp_of_like] Hm. constructor.
  - eapply moment_path; [done..|congruence].
  - intros q Hq Hl. eapply moment_keeps; [done..|congruence].
  - by eapply moment_wf.
Qed.

Record write_ends (d0 d : disk) (path : string) (f : file) (r : result file_error unit) : Prop := {
  we_done : r = Ok tt → durable d path f
    ∧ ∀ q, q ≠ path → names d !! q = names d0 !! q;
  we_failed : ∀ e, r = Err e → keeps d0 d path ∨ ∃ e', e = AfterRename e' ∧ replaced d0 d path f }.

Lemma write_result_ends d0 path text mode r d :
  wf_disk d0 → temp_like path = false → write_result d0 path text mode r d →
  (d = d0 ∨ ∃ tmp, fresh_temp d0 path tmp ∧ moment d0 path text mode tmp d)
  ∧ write_ends d0 d path (text, mode) r.
Proof using.
  intros Hwf Hp Hr.
  assert (Hne : ∀ tmp, fresh_temp d0 path tmp → tmp ≠ path).
  { intros tmp [_ Ht%temp_of_like] ->. congruence. }
  split; [|constructor].
  - destruct Hr; eauto 7 using moment.
  - intros Hok. destruct Hr as [tmp Hf| | | |]; try discriminate. specialize (Hne _ Hf).
    split; [by apply synced_durable|]. intros q Hq. destruct Hf as [Hnew _].
    destruct (decide (q = tmp)) as [->|].
    + simpl. by rewrite lookup_partial_alter_eq.
    + by apply (moment_names d0 path text mode tmp); [constructor|..].
  - intros e0 He. destruct Hr as [tmp Hf|tmp e Hf|e Ha|tmp node e Hf Ha|tmp node e Hf Ha].
    + discriminate.
    + right. exists e. split; [congruence|]. by apply renamed_replaced, Hne.
    + by left.
    + left. apply (unnamed_keeps d0 path tmp node); auto.
    + left. apply (unnamed_keeps d0 path tmp node); auto.
Qed.

(** The rule for clients: the files at each moment, and in the end. *)
Lemma wp_WriteFile I d path text mode (Q : result file_error unit → disk → list action → Prop) l :
  wf_disk d → temp_like path = false →
  (∀ d', atomically d d' path (text, mode) → I d') →
  (∀ r d', atomically d d' path (text, mode) → write_ends d d' path (text, mode) r → Q r d' l) →
  wp I (WriteFileAtomic path text mode) Q d l.
Proof using.
  intros Hwf Hp HI HQ. apply wp_WriteFileAtomic; [done| |].
  - intros tmp d' Hf Hm. apply HI. by eapply moment_atomically.
  - intros r d' Hr. destruct (write_result_ends d path text mode r d' Hwf Hp Hr) as [Hd He].
    apply HQ; [|done]. destruct Hd as [-> | (tmp & Hf & Hm)].
    + constructor; [by left|done..].
    + by eapply moment_atomically.
Qed.

(** ** Locks *)

Lemma wp_FileExists I p (Q : result file_error bool → disk → list action → Prop) d l :
  (∀ e, Q (Err e) d l) → Q (Ok (bool_decide (is_Some (names d !! p)))) d l →
  wp I (FileExists p) Q d l.
Proof using.
  intros He HQ. unfold FileExists. do 2 wp_step.
  apply wp_Stat; [intros; by apply wp_fail| |]; intros Hn; apply wp_ret.
  - by rewrite bool_decide_true in HQ.
  - rewrite bool_decide_false in HQ; [done|]. rewrite Hn. by intros [? ?].
Qed.

Lemma safe_FileExists I J p (P : bool → disk → list action → Prop) d l :
  I d → J l → P (bool_decide (is_Some (names d !! p))) d l → safe I J (FileExists p) P d l.
Proof using. intros. apply wp_FileExists; auto. Qed.

(** A file written without error is the new one whatever happens. *)
Lemma safe_WriteFile I J d path text mode (P : unit → disk → list action → Prop) l :
  I d → J l → wf_disk d → temp_like path = false →
  (∀ d', atomically d d' path (text, mode) → I d') →
  (∀ d', atomically d d' path (text, mode) → durable d' path (text, mode) →
     (∀ q, q ≠ path → names d' !! q = names d !! q) → P tt d' l) →
  safe I J (WriteFileAtomic path text mode) P d l.
Proof using.
  intros HI HJ Hwf Hp Hat HP. apply wp_WriteFile; [done..|].
  intros r d' Ha [Hd _]. split_and!; [auto|done|]. destruct r as [[]|]; [|done].
  destruct (Hd eq_refl). auto.
Qed.

(** No file but the one at [p], and temporary ones, is any different. *)
Record elsewhere (p : string) (d d' : disk) : Prop := {
  else_wf : wf_disk d';
  else_keeps : ∀ q, q ≠ p → temp_like q = false → keeps d d' q }.

Lemma atomically_elsewhere d d' path f : atomically d d' path f → elsewhere path d d'.
Proof using. intros [? ? ?]. by constructor. Qed.

(** The lock file, with any content. *)
Definition locked (path : string) (node : inode) (d : disk) : disk :=
  bind_name path (Some (length (inodes d))) (add_inode node d).

Lemma locked_elsewhere path node d : wf_disk d → elsewhere path d (locked path node d).
Proof using.
  intros Hwf. constructor.
  - intros p i Hi. simpl in *. rewrite length_app. simpl.
    rewrite lookup_partial_alter, elem_of_app, list_elem_of_singleton in Hi.
    assert (Hold : names d !! p = Some i ∨ (p, Some i) ∈ unsynced d → i < length (inodes d))
      by (apply Hwf).
    cut (i < length (inodes d) ∨ i = length (inodes d)); [lia|]. case_decide; naive_solver.
  - intros q Hq _. apply keeps_frame; [done| | |]; simpl.
    + by exists [node].
    + by rewrite lookup_partial_alter_ne.
    + intros b. rewrite elem_of_app, list_elem_of_singleton. intros [?|[= -> _]]; [by left|done].
Qed.

Lemma unbound_elsewhere path d : wf_disk d → elsewhere path d (bind_name path None d).
Proof using.
  intros Hwf. constructor.
  - intros p i Hi. apply (Hwf p). simpl in Hi.
    rewrite lookup_partial_alter, elem_of_app, list_elem_of_singleton in Hi.
    case_decide; naive_solver.
  - intros q Hq _. apply keeps_frame; [done|done| |]; simpl.
    + by rewrite lookup_partial_alter_ne.
    + intros b. rewrite elem_of_app, list_elem_of_singleton. intros [?|[= -> _]]; [by left|done].
Qed.

Lemma wp_AcquireLock I path (Q : result file_error Lock → disk → list action → Prop) d l :
  (∀ e, Q (Err e) d l) →
  (names d !! path = None → ∀ node, I (locked path node d)) →
  (names d !! path = None → ∀ node f,
     Q (Ok (mkLock path (Some f))) (locked path node d) l) →
  wp I (AcquireLock path) Q d l.
Proof using.
  intros He HI HQ. unfold AcquireLock, MkdirAll. do 2 wp_step. wp_step; [done|]. do 3 wp_step.
  apply wp_CreateExclusive; [intros; by apply wp_fail | intros _; by apply wp_fail|].
  intros Hn d'. split; [by apply HI|]. do 2 wp_step.
  assert (Hw : ∀ t, on_inode (length (inodes d)) (append_data t) d'
    = locked path (append_data t (mkInode "" mode_600 false)) d) by (intros; apply on_inode_begun).
  apply wp_Write; simpl.
  - intros e k. rewrite Hw. split; [by apply HI|]. apply wp_ret. by apply HQ.
  - rewrite Hw. by apply HI.
  - rewrite Hw. apply wp_ret. by apply HQ.
Qed.

Lemma wp_Release I path f (Q : result errno unit → disk → list action → Prop) d l :
  (is_Some (names d !! path) → I (bind_name path None d)) →
  (∀ r, Q r d l) →
  (is_Some (names d !! path) → ∀ r, Q r (bind_name path None d) l) →
  wp I (Release (Some (mkLock path (Some f)))) Q d l.
Proof using.
  intros HI Hs HQ. unfold Release, Close. simpl lock_file. simpl lock_path.
  do 2 wp_step. wp_step; [intros|wp_step]; do 2 wp_step.
  all: apply wp_Remove; intros;
    repeat case_match; first [apply wp_fail | apply wp_lift | idtac]; auto.
  all: split; [auto|]; apply wp_lift; auto.
Qed.
End FileUtil.

(** ** Processes that share a lock *)

(** The files, and the locks that processes hold. *)
Record lock_state := mkLockState { ls_machine : machine; ls_holders : list (nat * Lock) }.

(** Each call runs to its end: only one system call of each touches the name of
the lock. Other work leaves that name alone; a process may die at any time. *)
Inductive lock_step (path : string) : lock_state → lock_state → Prop :=
  | acquires env m hs pid l m' :
      AcquireLock env path m = (Ok l, m') →
      lock_step path (mkLockState m hs) (mkLockState m' ((pid, l) :: hs))
  | refused env m hs e m' :
      AcquireLock env path m = (Err e, m') →
      lock_step path (mkLockState m hs) (mkLockState m' hs)
  | releases env m hs1 pid l hs2 r m' :
      Release env (Some l) m = (r, m') →
      lock_step path (mkLockState m (hs1 ++ (pid, l) :: hs2)) (mkLockState m' (hs1 ++ hs2))
  | dies m hs1 h hs2 :
      lock_step path (mkLockState m (hs1 ++ h :: hs2)) (mkLockState m (hs1 ++ hs2))
  | works m m' hs :
      names (m_disk m') !! path = names (m_disk m) !! path →
      lock_step path (mkLockState m hs) (mkLockState m' hs).

(** At most one process holds the lock, and its file exists. *)
Definition exclusive (path : string) (s : lock_state) : Prop :=
  match ls_holders s with
  | [] => True
  | [(_, l)] => is_Some (names (m_disk (ls_machine s)) !! path)
      ∧ lock_path l = path ∧ is_Some (lock_file l)
  | _ => False
  end.

Lemma AcquireLock_result env path m :
  match AcquireLock env path m with
  | (Ok l, m') => names (m_disk m) !! path = None ∧ is_Some (names (m_disk m') !! path)
      ∧ lock_path l = path ∧ is_Some (lock_file l)
  | (Err _, m') => m_disk m' = m_disk m
  end.
Proof.
  destruct (wp_run (λ _, True) (AcquireLock env path)
    (λ r d _, match r with
     | Ok l => names (m_disk m) !! path = None ∧ is_Some (names d !! path)
         ∧ lock_path l = path ∧ is_Some (lock_file l)
     | Err _ => d = m_disk m end) m) as (new & _ & _ & H).
  - apply wp_AcquireLock; [done..|]. intros Hn node f. split_and!; [done| |done|by eexists].
    simpl. rewrite lookup_partial_alter_eq. by eexists.
  - destruct (AcquireLock env path m) as [[l|e] m']; done.
Qed.

Lemma lock_step_exclusive path s s' : exclusive path s → lock_step path s s' → exclusive path s'.
Proof.
  intros Hs Hstep. destruct Hstep as [env m hs pid l m' Ha|env m hs e m' Ha|env m hs1 pid l hs2 r m' Hr|m hs1 h hs2|m m' hs Hn].
  - pose proof (AcquireLock_result env path m) as H. rewrite Ha in H. destruct H as (Hn & H).
    unfold exclusive in *. simpl in *.
    destruct hs as [|[? ?] [|]]; [done| |done]. destruct Hs as [[? ?] _]. congruence.
  - pose proof (AcquireLock_result env path m) as H. rewrite Ha in H.
    unfold exclusive in *. simpl in *. by rewrite H.
  - unfold exclusive in *. simpl in *. destruct hs1 as [|[? ?] [|]]; [|done..].
    simpl in *. by destruct hs2.
  - unfold exclusive in *. simpl in *. destruct hs1 as [|[? ?] [|]]; [|done..].
    simpl in *. destruct h. by destruct hs2.
  - unfold exclusive in *. simpl in *. by rewrite Hn.
Qed.

Lemma lock_run_exclusive path s s' :
  rtc (lock_step path) s s' → exclusive path s → exclusive path s'.
Proof. induction 1; eauto using lock_step_exclusive. Qed.

(** ** Without faults *)

Section Calm.
Context (env : environment) (calm : ∀ n, env_fault env n = None).

Lemma WriteFileAtomic_calm path text mode m :
  temp_like path = false →
  (∀ n, names (m_disk m) !! joinPath (Dir path) (string_app ".certplane-" (env_temp env n)) = None) →
  fst (WriteFileAtomic env path text mode m) = Ok tt.
Proof using calm.
  intros Hp Hn.
  destruct (wp_run (λ _, True) (WriteFileAtomic env path text mode) (λ r _ _, r = Ok tt) m)
    as (new & _ & _ & H); [|done].
  unfold WriteFileAtomic, MkdirAll, Write, Chmod, Sync, Close, Rename, syncDir, OpenDir, SyncDir.
  do 2 wp_step. apply wp_syscall_calm; [done|]. wp_step. do 2 wp_step.
  apply wp_CreateTemp_calm; [done..|]. intros suffix tmp Hnew d'. split; [done|]. simpl.
  assert (tmp ≠ path) as Hne.
  { intros Ht. rewrite <- Ht, (temp_of_like (Dir path) tmp) in Hp; [done|]. by exists suffix. }
  repeat first [apply wp_syscall_calm; [done|] | rewrite calm | progress wp_step; try done].
  rewrite !names_on_inode. unfold d'. simpl. rewrite lookup_partial_alter_eq.
  rewrite bool_decide_false by done.
  by repeat first [apply wp_syscall_calm; [done|] | progress wp_step; try done].
Qed.

(** The rule for clients, without faults. *)
Lemma wp_WriteFile_calm d path text mode (Q : result file_error unit → disk → list action → Prop) l :
  wf_disk d → temp_like path = false →
  (∀ n, names d !! joinPath (Dir path) (string_app ".certplane-" (env_temp env n)) = None) →
  (∀ d', durable d' path (text, mode) → Q (Ok tt) d' l) →
  wp (λ _, True) (WriteFileAtomic env path text mode) Q d l.
Proof using calm.
  intros Hwf Hp Hn HQ m Hd Hl. subst d l.
  pose proof (WriteFileAtomic_calm path text mode m Hp Hn) as Hok.
  destruct (wp_WriteFile env (λ _, True) (m_disk m) path text mode
    (λ r d' l', l' = m_log m ∧ write_ends (m_disk m) d' path (text, mode) r) (m_log m)) with (m := m)
    as (new & Hpast & HI & Hlog & He); [done..|].
  exists new. split_and!; [done..|]. rewrite Hok, Hlog. apply HQ. by apply He.
Qed.

Lemma Release_calm path f m :
  is_Some (names (m_disk m) !! path) →
  fst (Release env (Some (mkLock path (Some f))) m) = Ok tt
  ∧ names (m_disk (snd (Release env (Some (mkLock path (Some f))) m))) !! path = None.
Proof using calm.
  intros [i Hi].
  destruct (wp_run (λ _, True) (Release env (Some (mkLock path (Some f))))
    (λ r d _, r = Ok tt ∧ names d !! path = None) m) as (new & _ & _ & H); [|done].
  unfold Release, Close, Remove. simpl lock_file. simpl lock_path.
  repeat first [apply wp_syscall_calm; [done|] | rewrite Hi | progress wp_step; try done].
  split; [done|]. apply lookup_partial_alter_eq.
Qed.

Lemma AcquireLock_calm path m :
  names (m_disk m) !! path = None → is_ok (fst (AcquireLock env path m)) = true.
Proof using calm.
  intros Hn.
  destruct (wp_run (λ _, True) (AcquireLock env path) (λ r _ _, is_ok r = true) m)
    as (new & _ & _ & H); [|done].
  unfold AcquireLock, MkdirAll, CreateExclusive, Write.
  by repeat first [apply wp_syscall_calm; [done|] | rewrite Hn | rewrite calm
                   | progress wp_step; try done].
Qed.
End Calm.

(** ** Properties *)

(** C11: Whatever system calls fail, and wherever: at each moment of an atomic
write a reader finds at the path the file that was there or the complete new
one, and so does a machine that crashes at that moment; no other file changes.
When the function returns no error, the new file is there whatever crash
follows and no temporary name is left; when it returns an error, the old file
is there, or the new one, if it was only the directory that could not be
synced. Without faults, it returns no error. *)
Theorem WriteFileAtomic_atomic env path text mode m :
  wf_disk (m_disk m) → temp_like path = false →
  let '(r, m') := WriteFileAtomic env path text mode m in
  (∃ moments, m_past m' = m_past m ++ moments
     ∧ ∀ d, d ∈ m_disk m' :: moments → atomically (m_disk m) d path (text, mode))
  ∧ (r = Ok tt → durable (m_disk m') path (text, mode)
       ∧ ∀ q, q ≠ path → names (m_disk m') !! q = names (m_disk m) !! q)
  ∧ (∀ e, r = Err e → keeps (m_disk m) (m_disk m') path
       ∨ ∃ e', e = AfterRename e' ∧ replaced (m_disk m) (m_disk m') path (text, mode))
  ∧ ((∀ n, env_fault env n = None) →
     (∀ n, names (m_disk m) !! joinPath (Dir path) (string_app ".certplane-" (env_temp env n)) = None) →
     r = Ok tt).
Proof.
  intros Hwf Hp.
  pose proof (λ calm, WriteFileAtomic_calm env calm path text mode m Hp) as Hcalm.
  destruct (wp_run (λ d, atomically (m_disk m) d path (text, mode))
    (WriteFileAtomic env path text mode)
    (λ r d _, atomically (m_disk m) d path (text, mode)
              ∧ write_ends (m_disk m) d path (text, mode) r) m) as (new & Hpast & Hnew & Hd & He).
  { by apply wp_WriteFile. }
  destruct (WriteFileAtomic env path text mode m) as [r m']. simpl in *. split_and!.
  - exists new. split; [done|]. intros d [->|Hin]%elem_of_cons; [done|].
    by apply (proj1 (Forall_forall _ _) Hnew).
  - apply He.
  - apply He.
  - done.
Qed.

(** C37: However processes that share a lock file interleave, fail and die, at
most one of them holds the lock, and while one does its file exists; once it is
released without a fault, the file is gone and the next process to come, if it
meets no fault, acquires it. *)
Theorem lock_exclusion path m s :
  rtc (lock_step path) (mkLockState m []) s →
  length (ls_holders s) ≤ 1
  ∧ (ls_holders s ≠ [] → is_Some (names (m_disk (ls_machine s)) !! path))
  ∧ ∀ env pid l, (∀ n, env_fault env n = None) → ls_holders s = [(pid, l)] →
      let '(r, m1) := Release env (Some l) (ls_machine s) in
      r = Ok tt ∧ is_ok (fst (AcquireLock env path m1)) = true.
Proof.
  intros Hrun.
  assert (Hex : exclusive path s) by (by eapply lock_run_exclusive).
  unfold exclusive in Hex. destruct (ls_holders s) as [|[pid l] [|? ?]]; [| |done].
  - simpl. split_and!; [lia|done|done].
  - destruct Hex as (Hn & Hl & f & Hf). split_and!; [simpl; lia|done|].
    intros env pid2 l2 Hc E. injection E as <- <-. destruct l as [lp lf].
    simpl in Hl, Hf. subst lp lf.
    destruct (Release_calm env Hc path f (ls_machine s) Hn) as [Hr Hgone].
    destruct (Release env _ _) as [r m1]. split; [exact Hr|]. by apply AcquireLock_calm.
Qed.

(** ** A machine without files *)

Definition test_env : environment :=
  mkEnvironment (λ _, None) (λ n, itoa (Z.of_nat n)) (λ _, "") (λ n, Z.of_nat n) 42.
Definition empty_disk : disk := mkDisk ∅ [] [].
Definition empty_machine : machine := mkMachine empty_disk [] [] 0.

Lemma empty_disk_wf : wf_disk empty_disk.
Proof. intros p i [H|H]; simpl in H; [by rewrite lookup_empty in H | by apply elem_of_nil in H]. Qed.

Lemma WriteFileAtomic_atomic_witness :
  durable (m_disk (snd (WriteFileAtomic test_env "/etc/api.pem" "cert" mode_644 empty_machine)))
    "/etc/api.pem" ("cert", mode_644).
Proof.
  pose proof (WriteFileAtomic_atomic test_env "/etc/api.pem" "cert" mode_644 empty_machine
    empty_disk_wf eq_refl) as H.
  destruct (WriteFileAtomic test_env _ _ _ _) as [r m'] eqn:E. destruct H as (_ & Hd & _ & Hc).
  apply Hd, Hc; [done|]. intros n. apply lookup_empty.
Defined.

Lemma lock_exclusion_witness :
  let '(_, m) := AcquireLock test_env "/run/agent.lock" empty_machine in
  ∃ l s, ls_holders s = [(1, l)] ∧ ls_machine s = m ∧ length (ls_holders s) ≤ 1.
Proof.
  destruct (AcquireLock test_env "/run/agent.lock" empty_machine) as [[l|e] m] eqn:E; [|by vm_compute in E].
  exists l, (mkLockState m [(1, l)]). split_and!; [done..|].
  refine (proj1 (lock_exclusion "/run/agent.lock" empty_machine (mkLockState m [(1, l)]) _)).
  apply rtc_once. by apply (acquires _ test_env).
Defined.
End fileutil.
