(* ===== verification/Config.v ===== *)
(** * Configuration ([config])

[agent.go], [broker.go], [logging.go] and [load.go]: the configuration files of
the agent and of the broker, their defaults and their validation. YAML decoding
and [url.ParseRequestURI] are parameters. *)

From Stdlib Require Import Ascii.
From S2P Require Import Prelude GoStrings DnsName GoTime Os OsLogic.
Import dnsname os os_logic.
#[local] Open Scope go_scope.
#[local] Open Scope Z_scope.

Module config.

(** One value per message of [Validate]; [Join] collects them in order. *)
Inductive config_error :=
  | Required (field : string)
  | MustBePositive (field : string)
  | CannotBeNegative (field : string)
  | InvalidURL (field : string)
  | OneOf (field : string)
  | CertRequired (cert field : string)
  | CertNameRequired (index : nat)
  | DuplicateName (name : string)
  | CertDNSNames (cert : string) (e : dnsname.error)
  | SamePath (cert : string)
  | CertPositive (cert field : string).

(** [if cond { errs = append(errs, err) }]. *)
Definition reject (cond : bool) (e : config_error) : list config_error := if cond then [e] else [].
(** [if x == zero { x = value }]. *)
Definition or_string (x value : string) : string := if x == "" then value else x.
Definition or_duration (x value : Z) : Z := if x =? 0 then value else x.

(** ** logging.go *)

Record LoggingConfig := mkLogging { Level : string; Format : string; Destination : string }.

Definition Logging_ApplyDefaults (level format destination : string) (c : LoggingConfig) :=
  mkLogging (or_string (Level c) level) (or_string (Format c) format)
    (or_string (Destination c) destination).

Definition one_of (x : string) (l : list string) : bool := bool_decide (x ∈ l).

Definition Logging_Validate (c : LoggingConfig) : list config_error :=
  reject (negb (one_of (Level c) ["debug"; "info"; "warn"; "error"])) (OneOf "logging.level")
  ++ reject (negb (one_of (Format c) ["text"; "json"])) (OneOf "logging.format")
  ++ reject (negb (one_of (Destination c) ["stdout"; "stderr"])) (OneOf "logging.destination").

(** ** agent.go *)

Record StepCAConfig := mkStepCA {
  StepCA_URL : string; Fingerprint : string; RootCABundle : string; StepCA_Timeout : Z }.

Record AgentIdentityConfig := mkIdentity {
  Identity_Name : string;
  Identity_Provider : string;
  Identity_Cert : string;
  Identity_Key : string;
  IssuerCABundle : string;
  BootstrapToken : string;
  Identity_RenewBefore : Z;
  WarnBefore : Z;
  StepCA : StepCAConfig }.

Record AgentBrokerConfig := mkAgentBroker {
  Broker_URL : string; ServerCABundle : string; Broker_Timeout : Z }.

Record CertConfig := mkCert {
  Cert_Name : string;
  Cert_Profile : string;
  Cert_DNSNames : list string;
  Key : string;
  Cert : string;
  Chain : string;
  FullChain : string;
  ReloadCommand : string;
  ReloadTimeout : Z;
  Cert_RenewBefore : Z }.

Record AgentConfig := mkAgentConfig {
  StateDir : string;
  Identity : AgentIdentityConfig;
  Broker : AgentBrokerConfig;
  Certificates : list CertConfig;
  Agent_Logging : LoggingConfig }.

Definition Cert_ApplyDefaults (c : CertConfig) : CertConfig :=
  mkCert (Cert_Name c) (Cert_Profile c) (Cert_DNSNames c) (Key c) (Cert c) (Chain c) (FullChain c)
    (ReloadCommand c) (or_duration (ReloadTimeout c) (30 * Second))
    (or_duration (Cert_RenewBefore c) (30 * 24 * Hour)).

Definition Agent_ApplyDefaults (c : AgentConfig) : AgentConfig :=
  let i := Identity c in
  let s := StepCA i in
  let b := Broker c in
  mkAgentConfig
    (or_string (StateDir c) "/var/lib/certplane/agent")
    (mkIdentity (Identity_Name i) (or_string (Identity_Provider i) "step-ca") (Identity_Cert i)
      (Identity_Key i) (IssuerCABundle i) (BootstrapToken i)
      (or_duration (Identity_RenewBefore i) (8 * Hour)) (or_duration (WarnBefore i) (24 * Hour))
      (mkStepCA (StepCA_URL s) (Fingerprint s) (RootCABundle s)
        (or_duration (StepCA_Timeout s) (10 * Second))))
    (mkAgentBroker (Broker_URL b) (ServerCABundle b) (or_duration (Broker_Timeout b) (30 * Second)))
    (Cert_ApplyDefaults <$> Certificates c)
    (Logging_ApplyDefaults "info" "text" "stderr" (Agent_Logging c)).

Section Validate.
(** [url.ParseRequestURI] accepts the text. *)
Context (request_uri : string → bool).

Definition Identity_Validate (i : AgentIdentityConfig) : list config_error :=
  reject (Identity_Name i == "") (Required "identity.name")
  ++ reject ((Identity_Cert i == "") || (Identity_Key i == "")) (Required "identity.cert")
  ++ reject (IssuerCABundle i == "") (Required "identity.issuer_ca_bundle")
  ++ reject (Identity_RenewBefore i <=? 0) (MustBePositive "identity.renew_before")
  ++ reject (WarnBefore i <=? 0) (MustBePositive "identity.warn_before")
  ++ (if Identity_Provider i == "step-ca" then
        reject (StepCA_URL (StepCA i) == "") (Required "identity.step_ca.url")
        ++ reject (negb (request_uri (StepCA_URL (StepCA i)))) (InvalidURL "identity.step_ca.url")
        ++ reject ((Fingerprint (StepCA i) == "") && (RootCABundle (StepCA i) == ""))
             (Required "identity.step_ca.fingerprint")
      else [OneOf "identity.provider"]).

Definition names_errors (name : string) (names : list string) : list config_error :=
  if bool_decide (names = []) then [CertRequired name "dns_names"]
  else match CanonicalList names with
       | Err e => [CertDNSNames name e]
       | Ok _ => []
       end.

(** A certificate of the list, with its index and the names seen before it. *)
Definition Cert_Validate (i : nat) (seen : gset string) (c : CertConfig) : list config_error :=
  let name := if Cert_Name c == "" then string_app "index " (itoa (Z.of_nat i)) else Cert_Name c in
  reject (Cert_Name c == "") (CertNameRequired i)
  ++ reject ((Cert_Name c != "") && bool_decide (Cert_Name c ∈ seen)) (DuplicateName (Cert_Name c))
  ++ reject (Cert_Profile c == "") (CertRequired name "profile")
  ++ names_errors name (Cert_DNSNames c)
  ++ reject ((Key c == "") || (Cert c == "") || (Chain c == "") || (FullChain c == ""))
       (CertRequired name "key/cert/chain/fullchain")
  ++ reject ((Key c != "") && (Cert c != "") && (Clean (Key c) == Clean (Cert c))) (SamePath name)
  ++ reject (Cert_RenewBefore c <=? 0) (CertPositive name "renew_before")
  ++ reject ((ReloadCommand c != "") && (ReloadTimeout c <=? 0)) (CertPositive name "reload_timeout").

Fixpoint Certs_Validate (i : nat) (seen : gset string) (l : list CertConfig) : list config_error :=
  match l with
  | [] => []
  | c :: l' =>
      Cert_Validate i seen c
      ++ Certs_Validate (S i) (if Cert_Name c == "" then seen else {[Cert_Name c]} ∪ seen) l'
  end.

Definition Agent_Validate (c : AgentConfig) : list config_error :=
  Identity_Validate (Identity c)
  ++ (if Broker_URL (Broker c) == "" then [Required "broker.url"]
      else reject (negb (request_uri (Broker_URL (Broker c)))) (InvalidURL "broker.url"))
  ++ reject (ServerCABundle (Broker c) == "") (Required "broker.server_ca_bundle")
  ++ reject (Broker_Timeout (Broker c) <=? 0) (MustBePositive "broker.timeout")
  ++ reject (bool_decide (Certificates c = [])) (Required "certificates")
  ++ Certs_Validate 0 ∅ (Certificates c)
  ++ Logging_Validate (Agent_Logging c).
End Validate.

(** ** broker.go *)

Record BrokerServerConfig := mkServer {
  Address : string;
  TLS_Cert : string;
  TLS_Key : string;
  TLS_MinVersion : string;
  AgentCABundle : string;
  ReadHeaderTimeout : Z;
  ReadTimeout : Z;
  WriteTimeout : Z;
  IdleTimeout : Z }.

Record HTTPReqACMEConfig := mkHTTPReq {
  Endpoint : string;
  Mode : string;
  UsernameSecret : string;
  PasswordSecret : string;
  PropagationTimeout : Z;
  PollingInterval : Z;
  HTTPTimeout : Z;
  RecursiveNameservers : list string }.

Record IssuerConfig := mkIssuer {
  Issuer_Provider : string;
  DirectoryURL : string;
  AccountEmail : string;
  AccountKey : string;
  DNSProvider : string;
  PreferredChain : string;
  HTTPReq : HTTPReqACMEConfig }.

Record SecretsConfig := mkSecrets {
  Secrets_Provider : string;
  Vault_Address : string;
  Vault_Token : string;
  Vault_TokenFile : string;
  Vault_MountPath : string;
  Vault_KVVersion : Z;
  Vault_Key : string;
  Vault_Timeout : Z;
  Vault_Namespace : string }.

(** [Audit_Enabled] is a pointer in the code. *)
Record BrokerConfig := mkBrokerConfig {
  Server : BrokerServerConfig;
  Policy_Path : string;
  Policy_Watch : bool;
  Issuer : IssuerConfig;
  Secrets : SecretsConfig;
  Store_Driver : string;
  Store_Path : string;
  Audit_Enabled : option bool;
  FailureMode : string;
  MirrorToLog : bool;
  PerIdentityPerHour : Z;
  PerIdentityProfilePerHour : Z;
  Broker_Logging : LoggingConfig }.

Definition Server_ApplyDefaults (s : BrokerServerConfig) : BrokerServerConfig :=
  mkServer (or_string (Address s) ":8443") (TLS_Cert s) (TLS_Key s)
    (or_string (TLS_MinVersion s) "1.2") (AgentCABundle s)
    (or_duration (ReadHeaderTimeout s) (5 * Second)) (or_duration (ReadTimeout s) (10 * Second))
    (or_duration (WriteTimeout s) (60 * Second)) (or_duration (IdleTimeout s) (120 * Second)).

Definition Issuer_ApplyDefaults (i : IssuerConfig) : IssuerConfig :=
  let h := HTTPReq i in
  mkIssuer (or_string (Issuer_Provider i) "acme") (DirectoryURL i) (AccountEmail i) (AccountKey i)
    (DNSProvider i) (PreferredChain i)
    (mkHTTPReq (Endpoint h) (Mode h) (UsernameSecret h) (PasswordSecret h)
      (or_duration (PropagationTimeout h) (30 * Second))
      (or_duration (PollingInterval h) (2 * Second)) (or_duration (HTTPTimeout h) (10 * Second))
      (RecursiveNameservers h)).

Definition Secrets_ApplyDefaults (s : SecretsConfig) : SecretsConfig :=
  mkSecrets (or_string (Secrets_Provider s) "env") (Vault_Address s) (Vault_Token s)
    (Vault_TokenFile s) (or_string (Vault_MountPath s) "secret") (or_duration (Vault_KVVersion s) 2)
    (or_string (Vault_Key s) "value") (or_duration (Vault_Timeout s) (10 * Second))
    (Vault_Namespace s).

(** A limit of 0 is taken for one that is left out: the schema of the file says
that 0 disables it. *)
Definition Broker_ApplyDefaults (c : BrokerConfig) : BrokerConfig :=
  mkBrokerConfig (Server_ApplyDefaults (Server c)) (Policy_Path c) (Policy_Watch c)
    (Issuer_ApplyDefaults (Issuer c)) (Secrets_ApplyDefaults (Secrets c))
    (or_string (Store_Driver c) "sqlite") (or_string (Store_Path c) "/var/lib/certplane/broker.db")
    (Audit_Enabled c) (or_string (FailureMode c) "fail_open") (MirrorToLog c)
    (or_duration (PerIdentityPerHour c) 50) (or_duration (PerIdentityProfilePerHour c) 20)
    (Logging_ApplyDefaults "info" "json" "stdout" (Broker_Logging c)).

Definition AuditEnabled (c : BrokerConfig) : bool :=
  match Audit_Enabled c with None => true | Some b => b end.

Section BrokerValidate.
Context (request_uri : string → bool).

Definition Server_Validate (s : BrokerServerConfig) : list config_error :=
  reject (TLS_Cert s == "") (Required "server.tls.cert")
  ++ reject (TLS_Key s == "") (Required "server.tls.key")
  ++ reject (AgentCABundle s == "") (Required "server.mtls.agent_ca_bundle")
  ++ reject (negb (one_of (TLS_MinVersion s) ["1.2"; "1.3"])) (OneOf "server.tls.min_version")
  ++ reject ((ReadHeaderTimeout s <=? 0) || (ReadTimeout s <=? 0) || (WriteTimeout s <=? 0)
             || (IdleTimeout s <=? 0)) (MustBePositive "server timeouts").

Definition HTTPReq_Validate (h : HTTPReqACMEConfig) : list config_error :=
  (if Endpoint h == "" then [Required "issuer.acme.httpreq.endpoint"]
   else reject (negb (request_uri (Endpoint h))) (InvalidURL "issuer.acme.httpreq.endpoint"))
  ++ reject ((Mode h != "") && (Mode h != "RAW")) (OneOf "issuer.acme.httpreq.mode")
  ++ reject ((PropagationTimeout h <=? 0) || (PollingInterval h <=? 0) || (HTTPTimeout h <=? 0))
       (MustBePositive "issuer.acme.httpreq timeouts").

Definition Issuer_Validate (i : IssuerConfig) : list config_error :=
  if Issuer_Provider i == "acme" then
    (if DirectoryURL i == "" then [Required "issuer.acme.directory_url"]
     else reject (negb (request_uri (DirectoryURL i))) (InvalidURL "issuer.acme.directory_url"))
    ++ reject (AccountEmail i == "") (Required "issuer.acme.account_email")
    ++ reject (AccountKey i == "") (Required "issuer.acme.account_key")
    ++ reject (DNSProvider i == "") (Required "issuer.acme.dns_provider")
    ++ (if DNSProvider i == "cloudflare" then []
        else if DNSProvider i == "httpreq" then HTTPReq_Validate (HTTPReq i)
        else [OneOf "issuer.acme.dns_provider"])
  else [OneOf "issuer.provider"].

Definition Secrets_Validate (s : SecretsConfig) : list config_error :=
  if one_of (Secrets_Provider s) ["env"; "file"] then []
  else if one_of (Secrets_Provider s) ["vault"; "openbao"] then
    reject (Vault_Address s == "") (Required "secrets.vault.address")
    ++ reject (negb ((Vault_KVVersion s =? 1) || (Vault_KVVersion s =? 2)))
         (OneOf "secrets.vault.kv_version")
  else [OneOf "secrets.provider"].

Definition Broker_Validate (c : BrokerConfig) : list config_error :=
  Server_Validate (Server c)
  ++ reject (Policy_Path c == "") (Required "policy.path")
  ++ Issuer_Validate (Issuer c)
  ++ Secrets_Validate (Secrets c)
  ++ (if one_of (Store_Driver c) ["sqlite"; "file"]
      then reject (Store_Path c == "") (Required "store.path") else [OneOf "store.driver"])
  ++ reject (negb (one_of (FailureMode c) ["fail_open"; "fail_closed"])) (OneOf "audit.failure_mode")
  ++ reject (PerIdentityPerHour c <? 0) (CannotBeNegative "rate_limits.per_identity_per_hour")
  ++ reject (PerIdentityProfilePerHour c <? 0)
       (CannotBeNegative "rate_limits.per_identity_profile_per_hour")
  ++ Logging_Validate (Broker_Logging c).
End BrokerValidate.

(** ** load.go *)

Inductive load_error :=
  | ReadingYAML (path : string) (e : errno)
  | ParsingYAML (path : string)
  | Validating (errs : list config_error).

Section Load.
Context (env : environment) (request_uri : string → bool).

(** [errors.Join] is nil when there is no error. *)
Definition validated {C} (validate : C → list config_error) (cfg : C) : result load_error C :=
  match validate cfg with [] => Ok cfg | errs => Err (Validating errs) end.

(** The decoder of YAML refuses unknown fields. *)
Definition loadYAML {C} (decode : string → option C) (path : string) : EM load_error C :=
  text ← wrapM (ReadingYAML path) (ReadFile env path);
  lift (from_option_err (ParsingYAML path) (decode text)).

Definition LoadAgent (decode : string → option AgentConfig) (path : string)
    : EM load_error AgentConfig :=
  cfg ← loadYAML decode path;
  lift (validated (Agent_Validate request_uri) (Agent_ApplyDefaults cfg)).

Definition LoadBroker (decode : string → option BrokerConfig) (path : string)
    : EM load_error BrokerConfig :=
  cfg ← loadYAML decode path;
  lift (validated (Broker_Validate request_uri) (Broker_ApplyDefaults cfg)).
End Load.

(** ** What a valid configuration is *)

Record identity_valid (request_uri : string → bool) (i : AgentIdentityConfig) : Prop := {
  iv_name : Identity_Name i ≠ "";
  iv_cert : Identity_Cert i ≠ "";
  iv_key : Identity_Key i ≠ "";
  iv_ca : IssuerCABundle i ≠ "";
  iv_renew : 0 < Identity_RenewBefore i;
  iv_warn : 0 < WarnBefore i;
  iv_provider : Identity_Provider i = "step-ca";
  iv_url : StepCA_URL (StepCA i) ≠ "" ∧ request_uri (StepCA_URL (StepCA i)) = true;
  iv_root : Fingerprint (StepCA i) ≠ "" ∨ RootCABundle (StepCA i) ≠ "" }.

Record cert_valid (c : CertConfig) : Prop := {
  cv_name : Cert_Name c ≠ "";
  cv_profile : Cert_Profile c ≠ "";
  cv_names : Cert_DNSNames c ≠ [] ∧ ∃ l, CanonicalList (Cert_DNSNames c) = Ok l;
  cv_paths : Key c ≠ "" ∧ Cert c ≠ "" ∧ Chain c ≠ "" ∧ FullChain c ≠ "";
  cv_differ : Clean (Key c) ≠ Clean (Cert c);
  cv_renew : 0 < Cert_RenewBefore c;
  cv_reload : ReloadCommand c ≠ "" → 0 < ReloadTimeout c }.

Definition logging_valid (c : LoggingConfig) : Prop :=
  Level c ∈ ["debug"; "info"; "warn"; "error"] ∧ Format c ∈ ["text"; "json"]
  ∧ Destination c ∈ ["stdout"; "stderr"].

Record agent_valid (request_uri : string → bool) (c : AgentConfig) : Prop := {
  av_identity : identity_valid request_uri (Identity c);
  av_broker : Broker_URL (Broker c) ≠ "" ∧ request_uri (Broker_URL (Broker c)) = true;
  av_ca : ServerCABundle (Broker c) ≠ "";
  av_timeout : 0 < Broker_Timeout (Broker c);
  av_some : Certificates c ≠ [];
  av_certs : Forall cert_valid (Certificates c);
  av_distinct : NoDup (Cert_Name <$> Certificates c);
  av_logging : logging_valid (Agent_Logging c) }.

Lemma reject_nil b e : reject b e = [] ↔ b = false.
Proof. by destruct b. Qed.

Lemma one_of_false x l : negb (one_of x l) = false ↔ x ∈ l.
Proof. unfold one_of. by rewrite negb_false_iff, bool_decide_eq_true. Qed.

Lemma not_eqb_false x y : bool_decide (x = y :> string) = false ↔ x ≠ y.
Proof. apply bool_decide_eq_false. Qed.

Lemma leb_false x : (x <=? 0) = false ↔ 0 < x.
Proof. apply Z.leb_gt. Qed.

(** Tests of a validation, as propositions. *)
Ltac valid_simpl :=
  rewrite ?app_nil, ?reject_nil, ?one_of_false, ?orb_false_iff, ?negb_false_iff,
    ?not_eqb_false, ?leb_false.

Lemma Logging_Validate_nil c : Logging_Validate c = [] ↔ logging_valid c.
Proof. unfold Logging_Validate, logging_valid. valid_simpl. tauto. Qed.

Lemma Identity_Validate_nil uri i : Identity_Validate uri i = [] ↔ identity_valid uri i.
Proof.
  unfold Identity_Validate. valid_simpl. case_bool_decide as Hp.
  - valid_simpl. rewrite andb_false_iff. valid_simpl. split; [|intros []; tauto].
    intros (? & [? ?] & ? & ? & ? & ? & ? & ?). by constructor.
  - split; [naive_solver | by intros []].
Qed.

Lemma names_errors_nil name names :
  names_errors name names = [] ↔ names ≠ [] ∧ ∃ l, CanonicalList names = Ok l.
Proof.
  unfold names_errors. case_bool_decide; [naive_solver|].
  destruct (CanonicalList names); naive_solver.
Qed.

Lemma Cert_Validate_nil i seen c :
  Cert_Validate i seen c = [] ↔ cert_valid c ∧ Cert_Name c ∉ seen.
Proof.
  unfold Cert_Validate. valid_simpl. rewrite !andb_false_iff, !negb_false_iff.
  rewrite !bool_decide_eq_true, !bool_decide_eq_false. valid_simpl.
  rewrite names_errors_nil. split.
  - intros (H1 & H2 & H3 & H4 & H5 & H6 & H7 & H8). split; [constructor|]; try tauto.
  - intros [[] Hs]. split_and!; try tauto.
    destruct (decide (ReloadCommand c = "")); [by left|right; auto].
Qed.

Lemma Certs_Validate_nil i seen l :
  Certs_Validate i seen l = [] ↔
  Forall cert_valid l ∧ NoDup (Cert_Name <$> l) ∧ ∀ c, c ∈ l → Cert_Name c ∉ seen.
Proof.
  revert i seen. induction l as [|c l IH]; intros i seen; simpl.
  - split; [|done]. intros _. split_and!; [constructor..|]. by intros c ?%not_elem_of_nil.
  - rewrite app_nil, Cert_Validate_nil, IH, Forall_cons. csimpl. rewrite NoDup_cons.
    rewrite list_elem_of_fmap. setoid_rewrite elem_of_cons. split.
    + intros [[Hc Hs] (Hl & Hn & Hseen)].
      assert (Hne : Cert_Name c ≠ "") by apply Hc. rewrite (bool_decide_false _ Hne) in Hseen.
      set_solver.
    + intros ([Hc Hl] & [Hd Hn] & Hseen).
      assert (Hne : Cert_Name c ≠ "") by apply Hc. rewrite (bool_decide_false _ Hne).
      set_solver.
Qed.

Lemma url_nil url (request_uri : string → bool) e e' :
  (if bool_decide (url = "") then [e] else reject (negb (request_uri url)) e') = []
  ↔ url ≠ "" ∧ request_uri url = true.
Proof. case_bool_decide; valid_simpl; naive_solver. Qed.

Lemma Agent_Validate_nil uri c : Agent_Validate uri c = [] ↔ agent_valid uri c.
Proof.
  unfold Agent_Validate. valid_simpl.
  rewrite Identity_Validate_nil, url_nil, Certs_Validate_nil, Logging_Validate_nil, bool_decide_eq_false.
  split; [|intros []; split_and!; try tauto; set_solver].
  intros (H1 & H2 & H3 & H4 & H5 & (H6 & H7 & _) & H8). by constructor.
Qed.

(** *** The broker *)

Record server_valid (s : BrokerServerConfig) : Prop := {
  sv_cert : TLS_Cert s ≠ "";
  sv_key : TLS_Key s ≠ "";
  sv_ca : AgentCABundle s ≠ "";
  sv_version : TLS_MinVersion s ∈ ["1.2"; "1.3"];
  sv_timeouts : 0 < ReadHeaderTimeout s ∧ 0 < ReadTimeout s ∧ 0 < WriteTimeout s
    ∧ 0 < IdleTimeout s }.

Record httpreq_valid (request_uri : string → bool) (h : HTTPReqACMEConfig) : Prop := {
  hv_endpoint : Endpoint h ≠ "" ∧ request_uri (Endpoint h) = true;
  hv_mode : Mode h ∈ [""; "RAW"];
  hv_timeouts : 0 < PropagationTimeout h ∧ 0 < PollingInterval h ∧ 0 < HTTPTimeout h }.

Record issuer_valid (request_uri : string → bool) (i : IssuerConfig) : Prop := {
  is_provider : Issuer_Provider i = "acme";
  is_directory : DirectoryURL i ≠ "" ∧ request_uri (DirectoryURL i) = true;
  is_account : AccountEmail i ≠ "" ∧ AccountKey i ≠ "";
  is_dns : DNSProvider i = "cloudflare"
    ∨ DNSProvider i = "httpreq" ∧ httpreq_valid request_uri (HTTPReq i) }.

Definition secrets_valid (s : SecretsConfig) : Prop :=
  Secrets_Provider s ∈ ["env"; "file"]
  ∨ Secrets_Provider s ∈ ["vault"; "openbao"] ∧ Vault_Address s ≠ ""
    ∧ (Vault_KVVersion s = 1 ∨ Vault_KVVersion s = 2).

Record broker_valid (request_uri : string → bool) (c : BrokerConfig) : Prop := {
  bv_server : server_valid (Server c);
  bv_policy : Policy_Path c ≠ "";
  bv_issuer : issuer_valid request_uri (Issuer c);
  bv_secrets : secrets_valid (Secrets c);
  bv_store : Store_Driver c ∈ ["sqlite"; "file"] ∧ Store_Path c ≠ "";
  bv_audit : FailureMode c ∈ ["fail_open"; "fail_closed"];
  bv_limits : 0 ≤ PerIdentityPerHour c ∧ 0 ≤ PerIdentityProfilePerHour c;
  bv_logging : logging_valid (Broker_Logging c) }.

Lemma Server_Validate_nil s : Server_Validate s = [] ↔ server_valid s.
Proof.
  unfold Server_Validate. valid_simpl. split; [|intros []; tauto].
  intros (? & ? & ? & ? & [[? ?] ?] & ?). by constructor.
Qed.

Lemma HTTPReq_Validate_nil uri h : HTTPReq_Validate uri h = [] ↔ httpreq_valid uri h.
Proof.
  unfold HTTPReq_Validate. valid_simpl. rewrite url_nil, andb_false_iff. valid_simpl.
  rewrite !bool_decide_eq_true. split.
  - intros (? & Hm & [? ?] & ?). constructor; [done| |done].
    rewrite !elem_of_cons. tauto.
  - intros [? Hm ?]. rewrite !elem_of_cons in Hm. split_and!; try tauto.
    destruct Hm as [?|[?|?%not_elem_of_nil]]; [by left|by right|done].
Qed.

Lemma Issuer_Validate_nil uri i : Issuer_Validate uri i = [] ↔ issuer_valid uri i.
Proof.
  unfold Issuer_Validate. case_bool_decide as Hp; [|split; [done | by intros []]].
  valid_simpl. rewrite url_nil.
  assert (Hd : (if bool_decide (DNSProvider i = "cloudflare") then []
      else if bool_decide (DNSProvider i = "httpreq") then HTTPReq_Validate uri (HTTPReq i)
      else [OneOf "issuer.acme.dns_provider"]) = []
    ↔ DNSProvider i = "cloudflare" ∨ DNSProvider i = "httpreq" ∧ httpreq_valid uri (HTTPReq i)).
  { rewrite <- HTTPReq_Validate_nil. repeat case_bool_decide; naive_solver. }
  rewrite Hd. split.
  - intros (? & ? & ? & ? & ?). by constructor.
  - intros [_ ? [? ?] Hdns]. split_and!; try tauto.
    intros E. rewrite E in Hdns. by destruct Hdns as [?|[? _]].
Qed.

Lemma Secrets_Validate_nil s : Secrets_Validate s = [] ↔ secrets_valid s.
Proof.
  unfold Secrets_Validate, secrets_valid, one_of.
  case_bool_decide as H1; [naive_solver|]. case_bool_decide as H2; [|naive_solver].
  valid_simpl. rewrite orb_true_iff, !Z.eqb_eq. naive_solver.
Qed.

Lemma Broker_Validate_nil uri c : Broker_Validate uri c = [] ↔ broker_valid uri c.
Proof.
  unfold Broker_Validate. valid_simpl.
  rewrite Server_Validate_nil, Issuer_Validate_nil, Secrets_Validate_nil, Logging_Validate_nil, !Z.ltb_ge.
  assert (Hs : (if one_of (Store_Driver c) ["sqlite"; "file"]
      then reject (bool_decide (Store_Path c = "")) (Required "store.path")
      else [OneOf "store.driver"]) = []
    ↔ Store_Driver c ∈ ["sqlite"; "file"] ∧ Store_Path c ≠ "").
  { unfold one_of. case_bool_decide; valid_simpl; naive_solver. }
  rewrite Hs. split; [|intros []; tauto].
  intros (? & ? & ? & ? & ? & ? & ? & ? & ?). by constructor.
Qed.

(** ** Properties *)

(** What a file is loaded as: its content, decoded, with the defaults; it is
refused when the file cannot be read, does not decode or is not valid. *)
Lemma load_Ok {C} env (decode : string → option C) (finish : C → result load_error C) path m cfg :
  fst ((cfg ← loadYAML env decode path; lift (finish cfg)) m) = Ok cfg →
  ∃ text mode c, read_file (m_disk m) path = Some (text, mode) ∧ decode text = Some c
    ∧ finish c = Ok cfg.
Proof.
  intros H.
  destruct (wp_run (λ _, True) (cfg ← loadYAML env decode path; lift (finish cfg))
    (λ r _ _, ∀ cfg, r = Ok cfg → ∃ text mode c, read_file (m_disk m) path = Some (text, mode)
       ∧ decode text = Some c ∧ finish c = Ok cfg) m) as (_ & _ & _ & HQ); [|by apply HQ].
  unfold loadYAML. wp_step. do 2 wp_step. apply wp_ReadFile; [done| |done].
  intros [text mode] Hf. simpl. wp_step. destruct (decode text) as [c|] eqn:Ed; simpl; [|done].
  wp_step. intros cfg' Hc. by exists text, mode, c.
Qed.

Lemma LoadAgent_Ok env uri decode path m cfg :
  fst (LoadAgent env uri decode path m) = Ok cfg →
  agent_valid uri cfg
  ∧ ∃ text mode c, read_file (m_disk m) path = Some (text, mode) ∧ decode text = Some c
    ∧ cfg = Agent_ApplyDefaults c.
Proof.
  intros (text & mode & c & Hf & Hd & Hv)%load_Ok.
  unfold validated in Hv. destruct (Agent_Validate uri _) eqn:E; [|done]. injection Hv as <-.
  apply Agent_Validate_nil in E. eauto 7.
Qed.

(** The limit in force for the number [n] of a file: none is left out or zero,
and then the default holds. *)
Definition limit_in_force (default n limit : Z) : Prop :=
  n = 0 ∧ limit = default ∨ 0 < n ∧ limit = n.

Definition limits_in_force (c cfg : BrokerConfig) : Prop :=
  limit_in_force 50 (PerIdentityPerHour c) (PerIdentityPerHour cfg)
  ∧ limit_in_force 20 (PerIdentityProfilePerHour c) (PerIdentityProfilePerHour cfg).

(** The schema of the file says of both limits that 0 disables them; the
defaults take a zero for a limit that is left out. *)
Lemma zero_limits_are_defaults c :
  PerIdentityPerHour c = 0 → PerIdentityProfilePerHour c = 0 →
  PerIdentityPerHour (Broker_ApplyDefaults c) = 50
  ∧ PerIdentityProfilePerHour (Broker_ApplyDefaults c) = 20.
Proof. simpl. by intros -> ->. Qed.

Lemma limits_of_defaults uri c :
  broker_valid uri (Broker_ApplyDefaults c) → limits_in_force c (Broker_ApplyDefaults c).
Proof.
  intros [H1 H2]%bv_limits. unfold limits_in_force, limit_in_force. simpl in *. unfold or_duration in *.
  split; [destruct (PerIdentityPerHour c =? 0) eqn:E1; lia|].
  destruct (PerIdentityProfilePerHour c =? 0) eqn:E1; lia.
Qed.

Lemma LoadBroker_Ok env uri decode path m cfg :
  fst (LoadBroker env uri decode path m) = Ok cfg →
  broker_valid uri cfg
  ∧ ∃ text mode c, read_file (m_disk m) path = Some (text, mode) ∧ decode text = Some c
    ∧ cfg = Broker_ApplyDefaults c ∧ limits_in_force c cfg.
Proof.
  intros (text & mode & c & Hf & Hd & Hv)%load_Ok.
  unfold validated in Hv. destruct (Broker_Validate uri _) eqn:E; [|done]. injection Hv as <-.
  apply Broker_Validate_nil in E. split; [done|]. exists text, mode, c.
  split_and!; [done..|]. by eapply limits_of_defaults.
Qed.

(** C35: The agent's configuration that is loaded is that of the file with the
defaults, and it is accepted exactly when it is valid: the names of its
certificates are distinct, their DNS names canonicalize, keys and certificates
have different paths, every renewal margin and the time-out of the broker's
client are positive, and so is that of a reload command where there is one. The
time-out of the step-ca client is not checked. *)
Theorem LoadAgent_correct env uri decode path m :
  (∀ c, Agent_Validate uri c = [] ↔ agent_valid uri c)
  ∧ ∀ cfg, fst (LoadAgent env uri decode path m) = Ok cfg →
      agent_valid uri cfg
      ∧ ∃ text mode c, read_file (m_disk m) path = Some (text, mode) ∧ decode text = Some c
        ∧ cfg = Agent_ApplyDefaults c.
Proof.
  split; [apply Agent_Validate_nil | intros cfg; apply LoadAgent_Ok].
Qed.

(** The broker's configuration is accepted exactly when it is valid. One that
is loaded has the limits of the file, where they are positive, and the defaults
50 and 20, where they are left out or zero: a negative limit is refused, and
there is no number that disables a limit, though the schema of the file says
that 0 does. *)
Theorem LoadBroker_correct env uri decode path m :
  (∀ c, Broker_Validate uri c = [] ↔ broker_valid uri c)
  ∧ ∀ cfg, fst (LoadBroker env uri decode path m) = Ok cfg →
      broker_valid uri cfg
      ∧ ∃ text mode c, read_file (m_disk m) path = Some (text, mode) ∧ decode text = Some c
        ∧ cfg = Broker_ApplyDefaults c ∧ limits_in_force c cfg.
Proof.
  split; [apply Broker_Validate_nil | intros cfg; apply LoadBroker_Ok].
Qed.

(** ** Two files *)

Definition calm_env : environment :=
  mkEnvironment (λ _, None) (λ _, "") (λ _, "") (λ _, 0) 1.
Definition machine_with (path text : string) : machine :=
  mkMachine (mkDisk {[path := 0%nat]} [mkInode text mode_600 true] []) [] [] 0.

Definition agent_file : AgentConfig :=
  mkAgentConfig "" (mkIdentity "web01" "" "/id/cert.pem" "/id/key.pem" "/id/ca.pem" "/id/token" 0 0
      (mkStepCA "https://ca" "ab12" "" 0))
    (mkAgentBroker "https://broker" "/id/broker.pem" 0)
    [mkCert "api" "api" ["api.whisper.cl"] "/tls/key.pem" "/tls/cert.pem" "/tls/chain.pem"
       "/tls/full.pem" "" 0 0]
    (mkLogging "" "" "").

Definition broker_file : BrokerConfig :=
  mkBrokerConfig (mkServer "" "/tls/cert.pem" "/tls/key.pem" "" "/tls/agents.pem" 0 0 0 0)
    "/etc/policy.yml" true
    (mkIssuer "" "https://acme" "ops@whisper.cl" "/acme/key.pem" "cloudflare" ""
      (mkHTTPReq "" "" "" "" 0 0 0 []))
    (mkSecrets "" "" "" "" "" 0 "" 0 "") "" "" None "" false 0 0 (mkLogging "" "" "").

Lemma LoadAgent_correct_witness :
  agent_valid (λ _, true) (Agent_ApplyDefaults agent_file).
Proof.
  refine (proj1 (proj2 (LoadAgent_correct calm_env (λ _, true)
    (λ t, if t == "agent" then Some agent_file else None) "/etc/agent.yml"
    (machine_with "/etc/agent.yml" "agent")) _ _)).
  vm_compute. reflexivity.
Defined.

Lemma LoadBroker_correct_witness :
  broker_valid (λ _, true) (Broker_ApplyDefaults broker_file).
Proof.
  refine (proj1 (proj2 (LoadBroker_correct calm_env (λ _, true)
    (λ t, if t == "broker" then Some broker_file else None) "/etc/broker.yml"
    (machine_with "/etc/broker.yml" "broker")) _ _)).
  vm_compute. reflexivity.
Defined.
End config.
