(* ===== verification/Secrets.v ===== *)
(** * Secret providers ([internal/secrets])

[secrets.go] and the providers of [env], [file] and [vault]: the interface
[Provider] with its laws, which is all the issuer knows of them, and its three
instances. The variables of the process and the answers of Vault's client
library are inputs, collected in [host]. *)

From Stdlib Require Import Ascii.
From S2P Require Import Prelude GoStrings GoTime Json Os OsLogic FileUtil.
Import os os_logic.
#[local] Open Scope go_scope.

Module secrets.

(** ** secrets.go *)

(** [ErrSecretNotFound] and [ErrSecretEmpty] are wrapped with what they are of. *)
Inductive secret_error :=
  | ErrSecretNotFound (what : string)
  | ErrSecretEmpty (what : string)
  | ReadingSecretFile (name : string) (e : errno)
  | VaultNameEmpty
  | VaultNotAString (name key : string)
  | UnsupportedKVVersion (version : Z)
  | VaultFailed (e : string).

#[export] Instance secret_error_eq_dec : EqDecision secret_error.
Proof. solve_decision. Defined.

(** The client of Vault: where it sends its requests, and with what. *)
Record vault_client := mkVaultClient { vc_address : string; vc_token : string; vc_namespace : string }.

(** A read of the engine of the given version mounted at the path. *)
Record vault_request := mkVaultRequest {
  vr_client : vault_client; vr_version : Z; vr_mount : string; vr_name : string }.

(** A value of a secret; only strings are of use. *)
Inductive vault_value := VString (s : string) | VOther.

(** An error of the library: its status when it is a [ResponseError]. *)
Record vault_failure := mkVaultFailure { vf_status : option Z; vf_text : string }.

(** The [n]-th draw of a run that reads from Vault meets the [n]-th answer; an
answer without data is [None]. [new_client] is the error of making a client. *)
Record host := mkHost {
  getenv : string → option string;
  new_client : string → option string;
  vault_answer : nat → vault_request → result vault_failure (option (gmap string vault_value)) }.

Class Provider (env : environment) (h : host) (P : Type) :=
  Get : P → string → EM secret_error string.

(** ** env/provider.go *)

Record EnvProvider := mkEnvProvider {}.

Section Env.
Context (env : environment) (h : host).

Definition Env_Get (p : EnvProvider) (name : string) : EM secret_error string :=
  match getenv h name with
  | None => fail (ErrSecretNotFound name)
  | Some val => if val == "" then fail (ErrSecretEmpty name) else mret val
  end.

(** ** file/provider.go *)

Record FileProvider := mkFileProvider { trim_space : bool }.

Definition File_New : FileProvider := mkFileProvider true.

Definition File_Get (p : FileProvider) (name : string) : EM secret_error string :=
  data ← attempt (ReadFile env name);
  match data with
  | Err ErrNotExist => fail (ErrSecretNotFound name)
  | Err e => fail (ReadingSecretFile name e)
  | Ok data =>
      let val := if trim_space p then TrimSpace data else data in
      if val == "" then fail (ErrSecretEmpty name) else mret val
  end.

(** ** vault/provider.go *)

Record VaultConfig := mkVaultConfig {
  v_Address : string;
  v_Token : string;
  v_TokenFile : string;
  v_MountPath : string;
  v_KVVersion : Z;
  v_Key : string;
  v_Timeout : Z;
  v_Namespace : string }.

Record VaultProvider := mkVaultProvider { v_cfg : VaultConfig; v_client : vault_client }.

Inductive vault_error :=
  | AddressRequired
  | ReadingTokenFile (path : string) (e : errno)
  | TokenEmpty
  | CreatingClient (e : string).

Definition resolveToken (cfg : VaultConfig) : EM vault_error string :=
  token ← (if v_Token cfg != "" then mret (v_Token cfg)
           else if v_TokenFile cfg != "" then
             wrapM (ReadingTokenFile (v_TokenFile cfg)) (ReadFile env (v_TokenFile cfg))
           else
             let token := default "" (getenv h "VAULT_TOKEN") in
             mret (if token == "" then default "" (getenv h "BAO_TOKEN") else token));
  let token := TrimSpace token in
  if token == "" then fail TokenEmpty else mret token.

Definition vault_defaults (cfg : VaultConfig) : VaultConfig :=
  mkVaultConfig (v_Address cfg) (v_Token cfg) (v_TokenFile cfg)
    (if v_MountPath cfg == "" then "secret" else v_MountPath cfg)
    (if (v_KVVersion cfg =? 0)%Z then 2 else v_KVVersion cfg)%Z
    (if v_Key cfg == "" then "value" else v_Key cfg)
    (if (v_Timeout cfg =? 0)%Z then (10 * Second)%Z else v_Timeout cfg)
    (v_Namespace cfg).

Definition Vault_New (cfg : VaultConfig) : EM vault_error VaultProvider :=
  if v_Address cfg == "" then fail AddressRequired
  else
    let cfg := vault_defaults cfg in
    token ← resolveToken cfg;
    let address := trim_right_byte "/"%char (v_Address cfg) in
    match new_client h address with
    | Some e => fail (CreatingClient e)
    | None => mret (mkVaultProvider cfg (mkVaultClient address token (v_Namespace cfg)))
    end.

Definition normalizeError (e : vault_failure) (name : string) : secret_error :=
  match vf_status e with
  | Some status => if (status =? 404)%Z then ErrSecretNotFound name else VaultFailed (vf_text e)
  | None => VaultFailed (vf_text e)
  end.

(** The two cases of the switch differ in the engine they read from. *)
Definition Vault_read (p : VaultProvider) (name : string)
    : EM secret_error (gmap string vault_value) :=
  let version := v_KVVersion (v_cfg p) in
  if (version =? 1)%Z || (version =? 2)%Z then
    _ ← log (Call "vault" [itoa version; v_MountPath (v_cfg p); name]);
    answer ← draw (vault_answer h);
    match answer (mkVaultRequest (v_client p) version (v_MountPath (v_cfg p)) name) with
    | Err e => fail (normalizeError e name)
    | Ok None => fail (ErrSecretNotFound name)
    | Ok (Some data) => mret data
    end
  else fail (UnsupportedKVVersion version).

Definition vault_name (name : string) : string := trim_byte "/"%char (TrimSpace name).

Definition Vault_Get (p : VaultProvider) (name : string) : EM secret_error string :=
  let name := vault_name name in
  if name == "" then fail VaultNameEmpty
  else
    data ← Vault_read p name;
    match data !! v_Key (v_cfg p) with
    | None => fail (ErrSecretNotFound name)
    | Some VOther => fail (VaultNotAString name (v_Key (v_cfg p)))
    | Some (VString raw) =>
        let val := TrimSpace raw in
        if val == "" then fail (ErrSecretEmpty name) else mret val
    end.

#[export] Instance EnvProvider_ops : Provider env h EnvProvider := Env_Get.
#[export] Instance FileProvider_ops : Provider env h FileProvider := File_Get.
#[export] Instance VaultProvider_ops : Provider env h VaultProvider := Vault_Get.
End Env.

(** ** The interface *)

Definition vault_call (a : action) : Prop := ∃ args, a = Call "vault" args.

(** A provider changes no file, asks at most Vault, and answers with a secret that
is not empty and that its backend holds. *)
Class ProviderLaws (env : environment) (h : host) (P : Type) `{Provider env h P} := {
  holds_secret : P → disk → string → string → Prop;
  get_spec p name d l :
    wp (λ _, False) (Get p name) (λ r d' l', d' = d
      ∧ (∃ asked, l' = l ++ asked ∧ Forall vault_call asked)
      ∧ match r with Ok v => v ≠ "" ∧ holds_secret p d name v | Err _ => True end) d l }.

Section Laws.
Context (env : environment) (h : host).

Definition env_holds (p : EnvProvider) (d : disk) (name v : string) : Prop := getenv h name = Some v.

Definition file_holds (p : FileProvider) (d : disk) (name v : string) : Prop :=
  ∃ text mode, read_file d name = Some (text, mode)
    ∧ v = if trim_space p then TrimSpace text else text.

(** An answer to the request the provider makes for the name. *)
Definition vault_request_of (p : VaultProvider) (name : string) : vault_request :=
  mkVaultRequest (v_client p) (v_KVVersion (v_cfg p)) (v_MountPath (v_cfg p)) (vault_name name).
Definition vault_holds (p : VaultProvider) (d : disk) (name v : string) : Prop :=
  ∃ n data raw, vault_answer h n (vault_request_of p name) = Ok (Some data)
    ∧ data !! v_Key (v_cfg p) = Some (VString raw) ∧ v = TrimSpace raw.

Lemma Env_Get_eq p name m :
  Env_Get h p name m
  = (match getenv h name with
     | None => Err (ErrSecretNotFound name)
     | Some v => if v == "" then Err (ErrSecretEmpty name) else Ok v
     end, m).
Proof using. unfold Env_Get. destruct (getenv h name) as [v|]; [|done]. by destruct (v == ""). Qed.

Lemma no_calls l : ∃ asked, l = l ++ asked ∧ Forall vault_call asked.
Proof using. exists []. by rewrite app_nil_r. Qed.

Lemma wp_Env_Get I p name (Q : result secret_error string → disk → list action → Prop) d l :
  (∀ e, Q (Err e) d l) → (∀ v, v ≠ "" → getenv h name = Some v → Q (Ok v) d l) →
  wp I (Env_Get h p name) Q d l.
Proof using.
  intros He Hv. unfold Env_Get. destruct (getenv h name) as [v|] eqn:E; [|by wp_step].
  case_bool_decide; wp_step; auto.
Qed.

Lemma wp_File_Get I p name (Q : result secret_error string → disk → list action → Prop) d l :
  (∀ e, Q (Err e) d l) → (∀ v, v ≠ "" → file_holds p d name v → Q (Ok v) d l) →
  wp I (File_Get env p name) Q d l.
Proof using.
  intros He Hv. unfold File_Get. do 2 wp_step. apply wp_ReadFile; simpl; [intros; by wp_step| |intros; by wp_step].
  intros [text mode] Hf. case_bool_decide; wp_step; [done|].
  apply Hv; [done|]. by exists text, mode.
Qed.

Lemma wp_Vault_Get I p name (Q : result secret_error string → disk → list action → Prop) d l :
  (∀ e l1, (∃ asked, l1 = l ++ asked ∧ Forall vault_call asked) → Q (Err e) d l1) →
  (∀ v, v ≠ "" → vault_holds p d name v →
     Q (Ok v) d (l ++ [Call "vault" [itoa (v_KVVersion (v_cfg p)); v_MountPath (v_cfg p); vault_name name]])) →
  wp I (Vault_Get h p name) Q d l.
Proof using.
  intros He Hv. pose proof (no_calls l) as Hl. unfold Vault_Get.
  case_bool_decide; [wp_step; auto|]. wp_step. unfold Vault_read.
  destruct (_ || _); [|wp_step; auto]. do 2 wp_step. do 2 wp_step.
  assert (Hask : ∃ asked, l ++ [Call "vault" [itoa (v_KVVersion (v_cfg p)); v_MountPath (v_cfg p); vault_name name]]
    = l ++ asked ∧ Forall vault_call asked).
  { eexists. split; [done|]. repeat constructor. by eexists. }
  destruct (vault_answer h n _) as [[data|]|e] eqn:Ea; wp_step; auto.
  destruct (data !! _) as [[raw|]|] eqn:Ed; [|wp_step; auto..].
  case_bool_decide; wp_step; [auto|]. apply Hv; [done|]. by exists n, data, raw.
Qed.

#[export] Program Instance EnvProvider_laws : ProviderLaws env h EnvProvider :=
  {| holds_secret := env_holds |}.
Next Obligation. intros. apply wp_Env_Get; eauto using no_calls. Qed.
#[export] Program Instance FileProvider_laws : ProviderLaws env h FileProvider :=
  {| holds_secret := file_holds |}.
Next Obligation. intros. apply wp_File_Get; eauto using no_calls. Qed.
#[export] Program Instance VaultProvider_laws : ProviderLaws env h VaultProvider :=
  {| holds_secret := vault_holds |}.
Next Obligation.
  intros. apply wp_Vault_Get; [by auto|]. intros v Hv Hh. split_and!; [done| |done..].
  eexists. split; [done|]. repeat constructor. by eexists.
Qed.

(** ** The token of Vault *)

(** Where the token comes from: the first of the sources that is set. *)
Definition token_source (cfg : VaultConfig) (d : disk) (text : string) : Prop :=
  if v_Token cfg != "" then text = v_Token cfg
  else if v_TokenFile cfg != "" then ∃ mode, read_file d (v_TokenFile cfg) = Some (text, mode)
  else if default "" (getenv h "VAULT_TOKEN") != "" then text = default "" (getenv h "VAULT_TOKEN")
  else text = default "" (getenv h "BAO_TOKEN").

Lemma wp_resolveToken I cfg (Q : result vault_error string → disk → list action → Prop) d l :
  (∀ path e, v_Token cfg = "" → path = v_TokenFile cfg → Q (Err (ReadingTokenFile path e)) d l) →
  (∀ text, token_source cfg d text →
     Q (if TrimSpace text == "" then Err TokenEmpty else Ok (TrimSpace text)) d l) →
  wp I (resolveToken env h cfg) Q d l.
Proof using.
  intros He Ht. unfold resolveToken. unfold token_source in Ht.
  assert (Hend : ∀ text, (Q (if TrimSpace text == "" then Err TokenEmpty else Ok (TrimSpace text)) d l) →
    wp I (if TrimSpace text == "" then fail TokenEmpty else mret (TrimSpace text)) Q d l).
  { intros text. destruct (TrimSpace text == ""); intros; by wp_step. }
  wp_step. case_bool_decide as H1; simpl in *; [|wp_step; auto].
  case_bool_decide as H2; simpl in *.
  - wp_step. case_bool_decide as H3; simpl in *; auto.
  - wp_step. apply wp_ReadFile; simpl; [intros; by apply He| |intros; by apply He].
    intros [text mode] Hf. apply Hend, Ht. by exists mode.
Qed.
End Laws.

(** ** Properties *)

Lemma Vault_Get_answer h p name m v :
  fst (Vault_Get h p name m) = Ok v →
  m_disk (snd (Vault_Get h p name m)) = m_disk m ∧ v ≠ "" ∧ vault_holds h p (m_disk m) name v
  ∧ m_log (snd (Vault_Get h p name m)) = m_log m ++
      [Call "vault" [itoa (v_KVVersion (v_cfg p)); v_MountPath (v_cfg p); vault_name name]].
Proof.
  destruct (wp_run (λ _, True) (Vault_Get h p name)
    (λ r d l, ∀ v, r = Ok v → d = m_disk m ∧ v ≠ "" ∧ vault_holds h p (m_disk m) name v
       ∧ l = m_log m ++ [Call "vault" [itoa (v_KVVersion (v_cfg p)); v_MountPath (v_cfg p); vault_name name]]) m)
    as (new & _ & _ & H); [|by apply H].
  apply wp_Vault_Get; [done|]. intros v0 Hv Hh v1 [= <-]. done.
Qed.

(** What the three providers answer. The secret of a variable or of a file is
its value, trimmed for a file when so configured; it is not found exactly when
there is no such variable or, unless a system call fails, no such file. A secret
of Vault is the trimmed text under the configured key of an answer to the one
request made, for the name without its outer white space and slashes. No
provider ever answers with an empty secret or changes a file. *)
Theorem providers_correct env h name m :
  (∀ p r m', Env_Get h p name m = (r, m') → m' = m
     ∧ (∀ v, r = Ok v ↔ getenv h name = Some v ∧ v ≠ "")
     ∧ (r = Err (ErrSecretNotFound name) ↔ getenv h name = None))
  ∧ (∀ p r m', File_Get env p name m = (r, m') → m_disk m' = m_disk m ∧ m_past m' = m_past m
     ∧ (∀ v, r = Ok v → v ≠ "" ∧ file_holds p (m_disk m) name v)
     ∧ ((∀ n, env_fault env n = None) →
        (∀ v, v ≠ "" → file_holds p (m_disk m) name v → r = Ok v)
        ∧ (r = Err (ErrSecretNotFound name) ↔ read_file (m_disk m) name = None)))
  ∧ (∀ p v m', Vault_Get h p name m = (Ok v, m') → m_disk m' = m_disk m
     ∧ v ≠ "" ∧ TrimSpace v = v ∧ vault_holds h p (m_disk m) name v
     ∧ m_log m' = m_log m ++
         [Call "vault" [itoa (v_KVVersion (v_cfg p)); v_MountPath (v_cfg p); vault_name name]]).
Proof.
  split_and!.
  - intros p r m'. rewrite Env_Get_eq. intros [= <- <-]. split; [done|].
    destruct (getenv h name) as [v|]; [|split; [split|]; by intuition].
    case_bool_decide; split; [|done| |done]; intros; split; naive_solver.
  - intros p r m' E. unfold File_Get, ReadFile, syscall, attempt in E.
    unfold mbind, EM_bind, mret, EM_ret, draw, look, fail, file_holds in *. simpl in E.
    destruct (env_fault env (m_draws m)) as [[e k]|] eqn:Ef; simpl in E.
    { injection E as <- <-. split_and!; [done..|]. intros Hc. by rewrite Hc in Ef. }
    destruct (read_file (m_disk m) name) as [[text mode]|]; simpl in E.
    2:{ injection E as <- <-. split_and!; [done..|]. intros _. split; [naive_solver|done]. }
    case_bool_decide as Hv; injection E as <- <-; split_and!; try done; naive_solver.
  - intros p v m' E. pose proof (Vault_Get_answer h p name m v) as H. rewrite E in H. simpl in H.
    destruct (H eq_refl) as (H1 & H2 & H3 & H4). split_and!; try done.
    destruct H3 as (n & data & raw & _ & _ & ->). apply TrimSpace_idemp.
Qed.

(** What making a provider of Vault may result in. *)
Definition vault_outcome (h : host) (cfg : VaultConfig) (d : disk)
    (r : result vault_error VaultProvider) : Prop :=
  match r with
  | Ok p => v_Address cfg ≠ "" ∧ v_cfg p = vault_defaults cfg
      ∧ vc_address (v_client p) = trim_right_byte "/"%char (v_Address cfg)
      ∧ vc_namespace (v_client p) = v_Namespace cfg
      ∧ vc_token (v_client p) ≠ ""
      ∧ ∃ text, token_source h cfg d text ∧ vc_token (v_client p) = TrimSpace text
  | Err AddressRequired => v_Address cfg = ""
  | Err TokenEmpty => ∃ text, token_source h cfg d text ∧ TrimSpace text = ""
  | Err (ReadingTokenFile path _) => v_Token cfg = "" ∧ path = v_TokenFile cfg
  | Err (CreatingClient e) => new_client h (trim_right_byte "/"%char (v_Address cfg)) = Some e
  end.

(** A provider of Vault that is made has the defaults for what its
configuration leaves out, an address without a slash at its end, and a token that
is not empty: that of the configuration, or else of the token file, or else of
VAULT_TOKEN, or else of BAO_TOKEN, without its outer white space. None is made
without an address, when that token is blank, when the token file is what is to
be read and cannot be, or when the library refuses the address. *)
Theorem Vault_New_correct env h cfg m :
  let '(r, m') := Vault_New env h cfg m in
  m_disk m' = m_disk m ∧ m_log m' = m_log m
  ∧ vault_outcome h cfg (m_disk m) r.
Proof.
  destruct (wp_run (λ _, True) (Vault_New env h cfg) (λ r d l, d = m_disk m ∧ l = m_log m
    ∧ vault_outcome h cfg (m_disk m) r) m) as (new & _ & _ & H).
  - unfold Vault_New. case_bool_decide as Ha; [by wp_step|]. wp_step.
    apply wp_resolveToken; [done|]. intros text Ht.
    case_bool_decide as Hn; [by eauto|]. destruct (new_client h _) eqn:Ec; wp_step; [done|].
    split_and!; [done..|]. by exists text.
  - by destruct (Vault_New env h cfg m) as [r m'].
Qed.
End secrets.
