(* ===== verification/X509.v ===== *)
(** * Certificates and certificate requests

The fields of the [crypto/x509] values the program reads. A public key is
represented by its PKIX encoding, the only thing the program does with one;
[None] stands for a key [x509.MarshalPKIXPublicKey] refuses. *)

From S2P Require Import Prelude.

Module x509.

Record PublicKey := mkPublicKey { pkix_der : option string }.

Inductive ExtKeyUsage := ExtKeyUsageAny | ExtKeyUsageServerAuth | ExtKeyUsageClientAuth
  | ExtKeyUsageOther (n : N).

Record CertificateRequest := mkCertificateRequest {
  csr_CommonName : string;
  csr_DNSNames : list string;
  csr_PublicKey : PublicKey }.

Record Certificate := mkCertificate {
  cert_Raw : string;
  cert_SerialNumber : option Z;
  cert_CommonName : string;
  cert_DNSNames : list string;
  cert_PublicKey : PublicKey;
  cert_IsCA : bool;
  cert_ExtKeyUsage : list ExtKeyUsage;
  cert_NotBefore : Z;
  cert_NotAfter : Z }.

#[export] Instance PublicKey_eq_dec : EqDecision PublicKey.
Proof. solve_decision. Defined.
#[export] Instance ExtKeyUsage_eq_dec : EqDecision ExtKeyUsage.
Proof. solve_decision. Defined.
#[export] Instance CertificateRequest_eq_dec : EqDecision CertificateRequest.
Proof. solve_decision. Defined.
#[export] Instance Certificate_eq_dec : EqDecision Certificate.
Proof. solve_decision. Defined.

End x509.
