(* ===== verification/Policy.v ===== *)
(** * Certificate policy ([internal/broker/policy])

[types.go], [compile.go], [hash.go] and [authorize.go]: the compilation of a
policy file into the maps the broker consults, the hashes that identify it,
and the authorization of a certificate request; [load.go] and [manager.go]:
the policy the server holds and its reloads. *)

From S2P Require Import Prelude GoStrings DnsName Sha256 GoTime Json X509.
Import dnsname sha256 x509.
#[local] Open Scope go_scope.

Module policy.

(** ** types.go *)

Definition CurrentVersion : Z := 1.

Inductive auth_error :=
  | ErrUnknownIdentity
  | ErrUnknownProfile
  | ErrProfileNotAllowed
  | ErrCSRNamesMismatch
  | ErrInvalidCSR (cause : option dnsname.error).

Record ACMEProfile := mkACMEProfile { ACME_Challenge : string; ACME_Credentials : string }.

Record Profile := mkProfile {
  Profile_Type : string;
  Profile_DNSNames : list string;
  Profile_ACME : ACMEProfile;
  Profile_RenewBefore : Z }.

Record Host := mkHost { Host_Identity : string; Host_Profiles : list string }.

Record Config := mkConfig {
  Config_Version : Z;
  Config_Profiles : gmap string Profile;
  Config_Hosts : gmap string Host }.

Record CompiledProfile := mkCompiledProfile {
  Name : string;
  Type_ : string;
  DNSNames : list string;
  ACME : ACMEProfile;
  RenewBefore : Z;
  Hash : string }.

(** [ProfileSet] is [map[string]bool]. *)
Notation ProfileSet := (gmap string bool) (only parsing).

Record CompiledHost := mkCompiledHost {
  Host_Name : string;
  Identity : string;
  Profiles : ProfileSet }.

Record CompiledPolicy := mkCompiledPolicy {
  Version : Z;
  Policy_Profiles : gmap string CompiledProfile;
  HostsByName : gmap string CompiledHost;
  HostsByIdentity : gmap string CompiledHost;
  Policy_Hash : string;
  LoadedAt : Z }.

Definition NewProfileSet (names : list string) : ProfileSet :=
  foldl (λ set name, <[name:=true]> set) ∅ names.

(** A missing key reads as the zero value [false]. *)
Definition Contains (s : ProfileSet) (name : string) : bool := default false (s !! name).

(** The keys, in map order: here the order of [elements]. *)
Definition Names (s : ProfileSet) : list string := elements (dom s).

Definition AllowsProfile (h : CompiledHost) (name : string) : bool :=
  Contains (Profiles h) name.

(** ** hash.go *)

Definition sortedMapKeys {T} (m : gmap string T) : list string :=
  sort_strings (elements (dom m)).

(** [json.Marshal] does not fail on these values: they hold strings, one
integer and slices of such structs. *)
Definition hashCanonical (value : json) : string := hex_sha256 (print value).

Definition acme_json (a : ACMEProfile) : json :=
  JObject [("challenge", JString (ACME_Challenge a)); ("credentials", JString (ACME_Credentials a))].

Definition profileHashInput (p : CompiledProfile) : json :=
  JObject [("type", JString (Type_ p));
           ("dns_names", JArray (JString <$> DNSNames p));
           ("acme", acme_json (ACME p));
           ("renew_before", JString (duration_String (RenewBefore p)))].

Definition computeProfileHash (p : CompiledProfile) : string :=
  hashCanonical (profileHashInput p).

Definition zeroCompiledProfile : CompiledProfile :=
  mkCompiledProfile "" "" [] (mkACMEProfile "" "") 0 "".
Definition zeroCompiledHost : CompiledHost := mkCompiledHost "" "" ∅.

Definition profileHashRecord (p : CompiledProfile) : json :=
  JObject [("name", JString (Name p)); ("hash", JString (Hash p))].

Definition hostHashRecord (h : CompiledHost) : json :=
  JObject [("name", JString (Host_Name h)); ("identity", JString (Identity h));
           ("profiles", JArray (JString <$> sortedMapKeys (Profiles h)))].

Definition computePolicyHash (version : Z) (profiles : gmap string CompiledProfile)
    (hostsByName : gmap string CompiledHost) : string :=
  hashCanonical (JObject [
    ("version", JInt version);
    ("profiles", JArray ((λ name,
       profileHashRecord (default zeroCompiledProfile (profiles !! name)))
       <$> sortedMapKeys profiles));
    ("hosts", JArray ((λ name,
       hostHashRecord (default zeroCompiledHost (hostsByName !! name)))
       <$> sortedMapKeys hostsByName))]).

(** ** compile.go *)

Definition defaultRenewBefore : Z := 30 * 24 * Hour.

Inductive profile_error :=
  | ProfileNameRequired
  | TypeRequired
  | DNSNamesInvalid (e : dnsname.error)
  | DNSNamesRequired
  | ChallengeRequired
  | NonWildcardName (name : string)
  | WildcardRequiresDNS01
  | WildcardName (name : string)
  | MultiSANRequiresDNS01
  | UnsupportedProfileType (profileType : string)
  | RenewBeforeNegative.

Inductive compile_error :=
  | UnsupportedVersion (version : Z)
  | NoProfiles
  | NoHosts
  | InProfile (name : string) (e : profile_error)
  | HostNameRequired
  | HostIdentityRequired (host : string)
  | HostWithoutProfiles (host : string)
  | EmptyProfileReference (host : string)
  | UnknownProfileReference (host profile : string)
  | DuplicateIdentity (identity : string).

(** The loops of [validateProfileType]: the first name on which the test has
the refused outcome. *)
Fixpoint first_name (p : string → bool) (names : list string) : option string :=
  match names with
  | [] => None
  | n :: ns => if p n then Some n else first_name p ns
  end.

(** Both types require dns-01; the schema of the file allows http-01 for
multi_san. *)
Definition validateProfileType (profileType : string) (dnsNames : list string)
    (acme : ACMEProfile) : result profile_error unit :=
  if ACME_Challenge acme == "" then Err ChallengeRequired
  else if profileType == "wildcard" then
    match first_name (λ n, negb (IsValidWildcard n)) dnsNames with
    | Some n => Err (NonWildcardName n)
    | None => if ACME_Challenge acme != "dns-01" then Err WildcardRequiresDNS01 else Ok tt
    end
  else if profileType == "multi_san" then
    match first_name IsValidWildcard dnsNames with
    | Some n => Err (WildcardName n)
    | None => if ACME_Challenge acme != "dns-01" then Err MultiSANRequiresDNS01 else Ok tt
    end
  else Err (UnsupportedProfileType profileType).

Definition with_Hash (p : CompiledProfile) (h : string) : CompiledProfile :=
  mkCompiledProfile (Name p) (Type_ p) (DNSNames p) (ACME p) (RenewBefore p) h.

Definition compileProfile (name : string) (raw : Profile)
    : result profile_error CompiledProfile :=
  let name := TrimSpace name in
  if name == "" then Err ProfileNameRequired
  else
    let profileType := TrimSpace (Profile_Type raw) in
    if profileType == "" then Err TypeRequired
    else
      canonicalNames ← wrap_err DNSNamesInvalid (CanonicalList (Profile_DNSNames raw));
      if (length canonicalNames =? 0)%nat then Err DNSNamesRequired
      else
        let acme := mkACMEProfile (TrimSpace (ACME_Challenge (Profile_ACME raw)))
                                  (TrimSpace (ACME_Credentials (Profile_ACME raw))) in
        _ ← validateProfileType profileType canonicalNames acme;
        let renewBefore := if (Profile_RenewBefore raw =? 0)%Z then defaultRenewBefore
                           else Profile_RenewBefore raw in
        if (renewBefore <? 0)%Z then Err RenewBeforeNegative
        else
          let profile :=
            mkCompiledProfile name profileType canonicalNames acme renewBefore "" in
          Ok (with_Hash profile (computeProfileHash profile)).

(** The loop of [compileHost] over the profile references. *)
Fixpoint host_profiles (host : string) (refs : list string)
    (profiles : gmap string CompiledProfile) (allowed : ProfileSet)
    : result compile_error ProfileSet :=
  match refs with
  | [] => Ok allowed
  | ref :: refs' =>
      let profileName := TrimSpace ref in
      if profileName == "" then Err (EmptyProfileReference host)
      else match profiles !! profileName with
           | None => Err (UnknownProfileReference host profileName)
           | Some _ => host_profiles host refs' profiles (<[profileName:=true]> allowed)
           end
  end.

Definition compileHost (name : string) (raw : Host) (profiles : gmap string CompiledProfile)
    : result compile_error CompiledHost :=
  let name := TrimSpace name in
  if name == "" then Err HostNameRequired
  else
    let identity := TrimSpace (Host_Identity raw) in
    if identity == "" then Err (HostIdentityRequired name)
    else if (length (Host_Profiles raw) =? 0)%nat then Err (HostWithoutProfiles name)
    else
      allowedProfiles ← host_profiles name (Host_Profiles raw) profiles ∅;
      mret (mkCompiledHost name identity allowedProfiles).

Definition zeroProfile : Profile := mkProfile "" [] (mkACMEProfile "" "") 0.
Definition zeroHost : Host := mkHost "" [].

(** The first loop of [Compile]; [compiled.Profiles] is keyed by the name as
it is in the file. *)
Fixpoint compile_profiles (names : list string) (raw : gmap string Profile)
    (compiled : gmap string CompiledProfile)
    : result compile_error (gmap string CompiledProfile) :=
  match names with
  | [] => Ok compiled
  | name :: names' =>
      profile ← wrap_err (InProfile name)
        (compileProfile name (default zeroProfile (raw !! name)));
      compile_profiles names' raw (<[name:=profile]> compiled)
  end.

(** The second loop of [Compile]. *)
Fixpoint compile_hosts (names : list string) (raw : gmap string Host)
    (profiles : gmap string CompiledProfile) (byName byIdentity : gmap string CompiledHost)
    : result compile_error (gmap string CompiledHost * gmap string CompiledHost) :=
  match names with
  | [] => Ok (byName, byIdentity)
  | name :: names' =>
      host ← compileHost name (default zeroHost (raw !! name)) profiles;
      match byIdentity !! Identity host with
      | Some _ => Err (DuplicateIdentity (Identity host))
      | None => compile_hosts names' raw profiles
                  (<[name:=host]> byName) (<[Identity host:=host]> byIdentity)
      end
  end.

Definition Compile (now : Z) (cfg : Config) : result compile_error CompiledPolicy :=
  let version := if (Config_Version cfg =? 0)%Z then CurrentVersion else Config_Version cfg in
  if negb (version =? CurrentVersion)%Z then Err (UnsupportedVersion version)
  else if (size (Config_Profiles cfg) =? 0)%nat then Err NoProfiles
  else if (size (Config_Hosts cfg) =? 0)%nat then Err NoHosts
  else
    profiles ← compile_profiles (sortedMapKeys (Config_Profiles cfg)) (Config_Profiles cfg) ∅;
    hosts ← compile_hosts (sortedMapKeys (Config_Hosts cfg)) (Config_Hosts cfg) profiles ∅ ∅;
    let '(byName, byIdentity) := hosts in
    mret (mkCompiledPolicy version profiles byName byIdentity
            (computePolicyHash version profiles byName) now).

(** ** authorize.go *)

Fixpoint same_elements (a b : list string) : bool :=
  match a, b with
  | x :: a', y :: b' => if x != y then false else same_elements a' b'
  | _, _ => true
  end.

Definition sameStringSet (a b : list string) : bool :=
  if negb (length a =? length b)%nat then false else same_elements a b.

(** The profile is returned with some of the errors, as the code does. *)
Definition Authorize (p : CompiledPolicy) (identity profileName : string)
    (csr : option CertificateRequest) : option CompiledProfile * option auth_error :=
  match csr with
  | None => (None, Some (ErrInvalidCSR None))
  | Some csr =>
      match HostsByIdentity p !! identity with
      | None => (None, Some ErrUnknownIdentity)
      | Some host =>
          if negb (AllowsProfile host profileName) then (None, Some ErrProfileNotAllowed)
          else match Policy_Profiles p !! profileName with
               | None => (None, Some ErrUnknownProfile)
               | Some profile =>
                   match CanonicalList (csr_DNSNames csr) with
                   | Err e => (Some profile, Some (ErrInvalidCSR (Some e)))
                   | Ok csrNames =>
                       if negb (sameStringSet csrNames (DNSNames profile))
                       then (Some profile, Some ErrCSRNamesMismatch)
                       else (Some profile, None)
                   end
               end
      end
  end.

(** ** Profiles *)

Lemma first_name_None q names :
  first_name q names = None ↔ Forall (λ n, q n = false) names.
Proof.
  induction names as [|n ns IH]; simpl; [done|].
  rewrite Forall_cons. destruct (q n); naive_solver.
Qed.

(** The two shapes of profile [validateProfileType] admits. *)
Definition type_admits (profileType : string) (names : list string) : Prop :=
  profileType = "wildcard" ∧ Forall (λ n, IsValidWildcard n = true) names
  ∨ profileType = "multi_san" ∧ Forall (λ n, IsValidWildcard n = false) names.

Lemma validateProfileType_Ok t names acme :
  validateProfileType t names acme = Ok tt ↔
  ACME_Challenge acme = "dns-01" ∧ type_admits t names.
Proof.
  unfold validateProfileType, type_admits.
  case_bool_decide as E1; [rewrite E1; naive_solver|].
  case_bool_decide as E2.
  { pose proof (first_name_None (λ n, negb (IsValidWildcard n)) names) as H.
    setoid_rewrite negb_false_iff in H.
    destruct (first_name _ names); [naive_solver|].
    case_bool_decide; simpl; naive_solver. }
  case_bool_decide as E3; [|naive_solver].
  pose proof (first_name_None IsValidWildcard names) as H.
  destruct (first_name _ names); [naive_solver|].
  case_bool_decide; simpl; naive_solver.
Qed.

Lemma validateProfileType_unit t names acme u :
  validateProfileType t names acme = Ok u ↔ validateProfileType t names acme = Ok tt.
Proof. by destruct u. Qed.

(** The hash covers neither the name nor the hash field. *)
Lemma computeProfileHash_with_Hash p h :
  computeProfileHash (with_Hash p h) = computeProfileHash p.
Proof. done. Qed.

(** The compiled form of a profile, when there is one. *)
Definition compiled_form (name : string) (raw : Profile) (names : list string)
    : CompiledProfile :=
  let p := mkCompiledProfile (TrimSpace name) (TrimSpace (Profile_Type raw)) names
    (mkACMEProfile (TrimSpace (ACME_Challenge (Profile_ACME raw)))
                   (TrimSpace (ACME_Credentials (Profile_ACME raw))))
    (if (Profile_RenewBefore raw =? 0)%Z then defaultRenewBefore
     else Profile_RenewBefore raw) "" in
  with_Hash p (computeProfileHash p).

Lemma compileProfile_Ok name raw p :
  compileProfile name raw = Ok p ↔
  TrimSpace name ≠ ""
  ∧ (0 ≤ Profile_RenewBefore raw)%Z
  ∧ TrimSpace (ACME_Challenge (Profile_ACME raw)) = "dns-01"
  ∧ ∃ names, CanonicalList (Profile_DNSNames raw) = Ok names ∧ names ≠ []
      ∧ type_admits (TrimSpace (Profile_Type raw)) names
      ∧ p = compiled_form name raw names.
Proof.
  unfold compileProfile, compiled_form.
  case_bool_decide as E1; [naive_solver|].
  case_bool_decide as E2.
  { rewrite E2. split; [done|]. intros (_ & _ & _ & ? & _ & _ & [[? _]|[? _]] & _); done. }
  rewrite bind_Ok. setoid_rewrite wrap_err_Ok. split.
  - intros (names & Hnames & H).
    destruct (length names =? 0)%nat eqn:El; [done|].
    apply bind_Ok in H as ([] & Hv%validateProfileType_Ok & H). simpl in Hv.
    destruct Hv as [Hc Ht].
    destruct (_ <? 0)%Z eqn:Er in H; [done|]. injection H as <-. split_and!; try done.
    + destruct (Z.eqb_spec (Profile_RenewBefore raw) 0); lia.
    + exists names. split_and!; try done. by intros ->.
  - intros (_ & Hr & Hc & names & Hn & Hne & Ht & ->). exists names. split; [done|].
    destruct names as [|n ns]; [done|]. simpl length.
    apply bind_Ok. exists tt. rewrite validateProfileType_Ok. split; [done|].
    destruct (_ <? 0)%Z eqn:Er; [|done]. exfalso. unfold defaultRenewBefore, Hour, Minute, Second in Er.
    destruct (Z.eqb_spec (Profile_RenewBefore raw) 0); lia.
Qed.

(** What every compiled profile satisfies. *)
Record wf_profile (p : CompiledProfile) : Prop := {
  wf_name : Name p ≠ "" ∧ TrimSpace (Name p) = Name p;
  wf_sorted : StronglySorted String.le (DNSNames p) ∧ NoDup (DNSNames p);
  wf_names : DNSNames p ≠ [] ∧ Forall canonical_dns (DNSNames p);
  wf_list : CanonicalList (DNSNames p) = Ok (DNSNames p);
  wf_type : type_admits (Type_ p) (DNSNames p);
  wf_challenge : ACME_Challenge (ACME p) = "dns-01";
  wf_renew : (0 < RenewBefore p)%Z;
  wf_hash : Hash p = computeProfileHash p }.

Lemma compileProfile_wf name raw p :
  compileProfile name raw = Ok p → wf_profile p ∧ Name p = TrimSpace name.
Proof.
  intros (Hn & Hr & Hc & names & Hnames & Hne & Ht & ->)%compileProfile_Ok.
  split; [|done]. apply CanonicalList_Ok in Hnames as H. destruct H as (Hs & Hnd & _).
  constructor; simpl; try done.
  - split; [done | apply TrimSpace_idemp].
  - split; [done | by eapply CanonicalList_canonical].
  - by eapply CanonicalList_fix.
  - unfold defaultRenewBefore, Hour, Minute, Second.
    destruct (Z.eqb_spec (Profile_RenewBefore raw) 0); lia.
Qed.

(** ** The maps *)

Lemma sortedMapKeys_elem {T} (m : gmap string T) k : k ∈ sortedMapKeys m ↔ is_Some (m !! k).
Proof.
  unfold sortedMapKeys. by rewrite sort_strings_elem_of, elem_of_elements, elem_of_dom.
Qed.

Lemma sortedMapKeys_NoDup {T} (m : gmap string T) : NoDup (sortedMapKeys m).
Proof. unfold sortedMapKeys. rewrite sort_strings_NoDup. apply NoDup_elements. Qed.

Lemma compile_profiles_Ok names raw acc out :
  compile_profiles names raw acc = Ok out →
  ∀ k p, out !! k = Some p ↔
    (k ∈ names ∧ compileProfile k (default zeroProfile (raw !! k)) = Ok p)
    ∨ ((k ∉ names) ∧ acc !! k = Some p).
Proof.
  revert acc. induction names as [|n ns IH]; intros acc; simpl.
  { intros [= <-] k p. set_solver. }
  intros (q & Hq%wrap_err_Ok & H)%bind_Ok k p. rewrite (IH _ H).
  rewrite !elem_of_cons.
  destruct (decide (k = n)) as [->|Hne].
  - rewrite lookup_insert_eq. split.
    + intros [[??]|[? [= <-]]]; left; auto.
    + intros [[_ Hp]|[Hno _]]; [|exfalso; auto].
      destruct (decide (n ∈ ns)); [by left | right; split; congruence].
  - rewrite lookup_insert_ne by done. naive_solver.
Qed.

Lemma compile_profiles_all names raw acc out k :
  compile_profiles names raw acc = Ok out → k ∈ names → is_Some (out !! k).
Proof.
  intros H Hk. pose proof (compile_profiles_Ok _ _ _ _ H k) as Hiff.
  revert acc H Hiff. induction names as [|n ns IH]; intros acc H Hiff; [by apply elem_of_nil in Hk|].
  simpl in H. apply bind_Ok in H as (q & Hq%wrap_err_Ok & H).
  pose proof (compile_profiles_Ok _ _ _ _ H k) as Hiff'.
  apply elem_of_cons in Hk as [->|Hk].
  - exists q. apply Hiff. left. split; [left | done].
  - by apply (IH Hk _ H Hiff').
Qed.

Lemma compile_profiles_total names raw acc :
  (∀ k, k ∈ names → is_ok (compileProfile k (default zeroProfile (raw !! k))) = true) →
  is_ok (compile_profiles names raw acc) = true.
Proof.
  revert acc. induction names as [|n ns IH]; intros acc H; [done|]. simpl.
  pose proof (H n (list_elem_of_here _ _)). destruct (compileProfile n _); [|done].
  apply IH. intros. apply H. by right.
Qed.

(** *** Hosts *)

Lemma host_profiles_Ok host refs profiles allowed out :
  host_profiles host refs profiles allowed = Ok out ↔
  (∀ ref, ref ∈ refs → TrimSpace ref ≠ "" ∧ is_Some (profiles !! TrimSpace ref))
  ∧ out = foldl (λ set ref, <[TrimSpace ref:=true]> set) allowed refs.
Proof.
  revert allowed. induction refs as [|r rs IH]; intros allowed; simpl.
  - split; [intros [= <-]; set_solver | by intros [_ ->]].
  - setoid_rewrite elem_of_cons. case_bool_decide as E; [naive_solver|].
    destruct (profiles !! TrimSpace r) as [q|] eqn:Eq.
    + rewrite IH. naive_solver.
    + split; [done|]. intros [H _]. destruct (H r (or_introl eq_refl)) as [_ [? ?]].
      naive_solver.
Qed.

Lemma foldl_Contains refs allowed n :
  Contains (foldl (λ set ref, <[TrimSpace ref:=true]> set) allowed refs) n = true ↔
  Contains allowed n = true ∨ ∃ ref, ref ∈ refs ∧ TrimSpace ref = n.
Proof.
  revert allowed. induction refs as [|r rs IH]; intros allowed; simpl.
  - set_solver.
  - rewrite IH. setoid_rewrite elem_of_cons. unfold Contains.
    destruct (decide (TrimSpace r = n)) as [<-|Hne].
    + rewrite lookup_insert_eq. naive_solver.
    + rewrite lookup_insert_ne by done. naive_solver.
Qed.

Lemma foldl_no_false refs (allowed : ProfileSet) n :
  allowed !! n ≠ Some false →
  foldl (λ set ref, <[TrimSpace ref:=true]> set) allowed refs !! n ≠ Some false.
Proof.
  revert allowed. induction refs as [|r rs IH]; intros allowed H; [done|].
  simpl. apply IH. rewrite lookup_insert_Some. naive_solver.
Qed.

(** The compiled form of a host over a set of profiles, when there is one. *)
Definition compiled_host (name : string) (raw : Host) : CompiledHost :=
  mkCompiledHost (TrimSpace name) (TrimSpace (Host_Identity raw))
    (foldl (λ set ref, <[TrimSpace ref:=true]> set) ∅ (Host_Profiles raw)).

Definition host_admitted (name : string) (raw : Host)
    (profiles : gmap string CompiledProfile) : Prop :=
  TrimSpace name ≠ "" ∧ TrimSpace (Host_Identity raw) ≠ "" ∧ Host_Profiles raw ≠ []
  ∧ ∀ ref, ref ∈ Host_Profiles raw →
      TrimSpace ref ≠ "" ∧ is_Some (profiles !! TrimSpace ref).

Lemma compileHost_Ok name raw profiles h :
  compileHost name raw profiles = Ok h ↔
  host_admitted name raw profiles ∧ h = compiled_host name raw.
Proof.
  unfold compileHost, host_admitted, compiled_host.
  case_bool_decide as E1; [naive_solver|]. case_bool_decide as E2; [naive_solver|].
  destruct (Host_Profiles raw) as [|r rs] eqn:Er; [naive_solver|]. rewrite <- Er.
  replace (length (Host_Profiles raw) =? 0)%nat with false by (rewrite Er; done).
  rewrite bind_Ok. setoid_rewrite host_profiles_Ok. unfold mret, result_ret.
  split; [|naive_solver congruence].
  intros (a & [? ->] & [= <-]). split_and!; try done. by rewrite Er.
Qed.

Definition wf_host (profiles : gmap string CompiledProfile) (h : CompiledHost) : Prop :=
  Identity h ≠ "" ∧ TrimSpace (Identity h) = Identity h
  ∧ (∃ n, AllowsProfile h n = true)
  ∧ ∀ n, AllowsProfile h n = true → TrimSpace n = n ∧ is_Some (profiles !! n).

Lemma compiled_host_wf name raw profiles :
  host_admitted name raw profiles → wf_host profiles (compiled_host name raw).
Proof.
  intros (_ & Hi & Hne & Hrefs). unfold wf_host, AllowsProfile, compiled_host; simpl.
  split_and!; [done | apply TrimSpace_idemp | |].
  - destruct (Host_Profiles raw) as [|r rs] eqn:Er; [done|]. rewrite <- Er.
    exists (TrimSpace r). apply foldl_Contains. right. exists r.
    split; [rewrite Er; left | done].
  - intros n [H|(ref & Hin & <-)]%foldl_Contains; [done|].
    split; [apply TrimSpace_idemp | by apply Hrefs].
Qed.

(** The two host maps agree: [byIdentity] inverts [byName]. *)
Definition host_maps_agree (byName byIdentity : gmap string CompiledHost) : Prop :=
  (∀ i h, byIdentity !! i = Some h ↔ Identity h = i ∧ ∃ k, byName !! k = Some h)
  ∧ (∀ k k' h h', byName !! k = Some h → byName !! k' = Some h' →
      Identity h = Identity h' → k = k').

Lemma host_maps_agree_insert byName byIdentity name host :
  host_maps_agree byName byIdentity → byName !! name = None →
  byIdentity !! Identity host = None →
  host_maps_agree (<[name:=host]> byName) (<[Identity host:=host]> byIdentity).
Proof.
  intros [Hi Hu] Hn Hid.
  assert (Hfresh : ∀ k h, byName !! k = Some h → Identity h ≠ Identity host).
  { intros k h Hk E. assert (byIdentity !! Identity h = Some h) by (apply Hi; eauto).
    congruence. }
  split.
  - intros i h. destruct (decide (Identity host = i)) as [<-|Hne].
    + rewrite lookup_insert_eq. split.
      * intros [= <-]. split; [done|]. exists name. apply lookup_insert_eq.
      * intros [E [k Hk]]. apply lookup_insert_Some in Hk as [[_ ->]|[_ Hk]]; [done|].
        by apply Hfresh in Hk.
    + rewrite lookup_insert_ne by done. rewrite Hi. split.
      * intros [? [k Hk]]. split; [done|]. exists k.
        rewrite lookup_insert_ne; [done|]. by intros ->; rewrite Hn in Hk.
      * intros [? [k Hk]]. apply lookup_insert_Some in Hk as [[_ ->]|[_ Hk]]; [done|].
        eauto.
  - intros k k' h h' Hk Hk' E.
    apply lookup_insert_Some in Hk as [[<- <-]|[? Hk]];
      apply lookup_insert_Some in Hk' as [[<- <-]|[? Hk']]; [done|..].
    + symmetry in E. by apply Hfresh in Hk'.
    + by apply Hfresh in Hk.
    + eauto.
Qed.

Lemma compile_hosts_Ok names raw profiles byName byIdentity outN outI :
  NoDup names → (∀ k, k ∈ names → byName !! k = None) →
  host_maps_agree byName byIdentity →
  compile_hosts names raw profiles byName byIdentity = Ok (outN, outI) →
  host_maps_agree outN outI
  ∧ ∀ k h, outN !! k = Some h ↔
      byName !! k = Some h
      ∨ (k ∈ names ∧ host_admitted k (default zeroHost (raw !! k)) profiles
         ∧ h = compiled_host k (default zeroHost (raw !! k))).
Proof.
  intros Hnd. revert byName byIdentity.
  induction Hnd as [|n ns Hn Hnd IH]; intros byName byIdentity Hfresh Hag; simpl.
  { intros [= <- <-]. split; [done|]. set_solver. }
  intros (host & Hhost%compileHost_Ok & H)%bind_Ok. destruct Hhost as [Hadm Eh].
  destruct (byIdentity !! Identity host) eqn:Eid; [done|].
  apply IH in H as [Hag' Hout].
  - split; [done|]. intros k h. rewrite Hout, lookup_insert_Some, elem_of_cons.
    destruct (decide (k = n)) as [->|Hne]; [|naive_solver].
    rewrite (Hfresh n) by left. naive_solver.
  - intros k Hk. rewrite lookup_insert_ne by (by intros ->). apply Hfresh. by right.
  - apply host_maps_agree_insert; [done| |done]. apply Hfresh. left.
Qed.

Lemma compile_hosts_all names raw profiles byName byIdentity out k :
  compile_hosts names raw profiles byName byIdentity = Ok out → k ∈ names →
  host_admitted k (default zeroHost (raw !! k)) profiles.
Proof.
  revert byName byIdentity. induction names as [|n ns IH]; intros byName byIdentity; simpl.
  { set_solver. }
  intros (host & Hhost%compileHost_Ok & H)%bind_Ok.
  destruct (byIdentity !! Identity host); [done|].
  intros [->|Hk]%elem_of_cons; [apply Hhost | by eapply IH].
Qed.

(** The identities of the hosts of a file, white space trimmed. *)
Definition host_identity (raw : gmap string Host) (k : string) : string :=
  TrimSpace (Host_Identity (default zeroHost (raw !! k))).

Lemma compile_hosts_total names raw profiles byName byIdentity :
  NoDup (host_identity raw <$> names) →
  (∀ k, k ∈ names → host_admitted k (default zeroHost (raw !! k)) profiles
                    ∧ byIdentity !! host_identity raw k = None) →
  is_ok (compile_hosts names raw profiles byName byIdentity) = true.
Proof.
  revert byName byIdentity. induction names as [|n ns IH]; intros byName byIdentity; [done|].
  rewrite fmap_cons, NoDup_cons. intros [Hn Hnd] H. simpl.
  destruct (H n (list_elem_of_here _ _)) as [Hadm Hid].
  assert (compileHost n (default zeroHost (raw !! n)) profiles
          = Ok (compiled_host n (default zeroHost (raw !! n)))) as ->
    by (by apply compileHost_Ok).
  simpl. fold (host_identity raw n). rewrite Hid. apply IH; [done|].
  intros k Hk. destruct (H k) as [? ?]; [by right|]. split; [done|].
  rewrite lookup_insert_ne; [done|]. intros E. apply Hn. rewrite E.
  by apply list_elem_of_fmap_2.
Qed.

Lemma host_maps_agree_empty : host_maps_agree ∅ ∅.
Proof. split; set_solver. Qed.

(** Every outcome of [Compile], on the maps. *)
Lemma Compile_Ok now cfg p :
  Compile now cfg = Ok p →
  (∀ k q, Policy_Profiles p !! k = Some q ↔
    ∃ raw, Config_Profiles cfg !! k = Some raw ∧ compileProfile k raw = Ok q)
  ∧ (∀ k, is_Some (Config_Profiles cfg !! k) → is_Some (Policy_Profiles p !! k))
  ∧ host_maps_agree (HostsByName p) (HostsByIdentity p)
  ∧ (∀ k h, HostsByName p !! k = Some h ↔
      ∃ raw, Config_Hosts cfg !! k = Some raw
        ∧ host_admitted k raw (Policy_Profiles p) ∧ h = compiled_host k raw)
  ∧ (∀ k raw, Config_Hosts cfg !! k = Some raw → host_admitted k raw (Policy_Profiles p))
  ∧ Policy_Hash p = computePolicyHash (Version p) (Policy_Profiles p) (HostsByName p)
  ∧ Version p = CurrentVersion ∧ LoadedAt p = now.
Proof.
  unfold Compile. set (v := if (_ =? 0)%Z then _ else _).
  destruct (Z.eqb_spec v CurrentVersion) as [Hv|]; [|done]. simpl.
  destruct (size (Config_Profiles cfg) =? 0)%nat; [done|].
  destruct (size (Config_Hosts cfg) =? 0)%nat; [done|].
  intros (profiles & Hp & H)%bind_Ok.
  apply bind_Ok in H as ([outN outI] & Hh & [= <-]). simpl.
  pose proof (compile_profiles_Ok _ _ _ _ Hp) as Hprof.
  pose proof (λ k, compile_profiles_all _ _ _ _ k Hp) as Hall.
  pose proof (λ k, compile_hosts_all _ _ _ _ _ _ k Hh) as Hadm.
  apply compile_hosts_Ok in Hh as [Hag Hhosts];
    [|apply sortedMapKeys_NoDup|done|apply host_maps_agree_empty].
  split_and!; try done.
  - intros k q. rewrite Hprof, sortedMapKeys_elem.
    destruct (Config_Profiles cfg !! k) as [raw|]; simpl; [naive_solver|].
    split; [intros [[[? [=]] _]|[_ [=]]] | by intros (? & [=] & _)].
  - intros k Hk. apply Hall. by apply sortedMapKeys_elem.
  - intros k h. rewrite Hhosts, sortedMapKeys_elem.
    destruct (Config_Hosts cfg !! k) as [raw|]; simpl.
    + split; [intros [[=]|(_ & ? & ?)]; eauto|]. intros (? & [= <-] & ? & ?). eauto.
    + split; [intros [[=]|([? [=]] & _)] | by intros (? & [=] & _)].
  - intros k raw Hk. specialize (Hadm k). rewrite sortedMapKeys_elem, Hk in Hadm. by apply Hadm.
Qed.

(** ** Well-formed policies *)

Record wf_policy (p : CompiledPolicy) : Prop := {
  wf_profiles : ∀ k q, Policy_Profiles p !! k = Some q → wf_profile q ∧ Name q = TrimSpace k;
  wf_hosts : ∀ i h, HostsByIdentity p !! i = Some h →
    Identity h = i ∧ wf_host (Policy_Profiles p) h;
  wf_agree : host_maps_agree (HostsByName p) (HostsByIdentity p);
  wf_policy_hash :
    Policy_Hash p = computePolicyHash (Version p) (Policy_Profiles p) (HostsByName p) }.

Lemma Compile_wf now cfg p : Compile now cfg = Ok p → wf_policy p.
Proof.
  intros (Hp & _ & Hag & Hh & _ & Hhash & _)%Compile_Ok. constructor; try done.
  - intros k q (raw & _ & Hq)%Hp. by apply compileProfile_wf in Hq.
  - intros i h Hi. destruct Hag as [Hag _]. apply Hag in Hi as [? [k Hk]].
    split; [done|]. apply Hh in Hk as (raw & _ & Hadm & ->). by apply compiled_host_wf.
Qed.
#[export] Hint Resolve Compile_wf : certplane.

(** ** Authorization *)

Lemma sameStringSet_eq a b : sameStringSet a b = true ↔ a = b.
Proof.
  unfold sameStringSet.
  assert (Hs : ∀ a b, length a = length b → same_elements a b = true ↔ a = b).
  { induction a0 as [|x a0 IH]; intros [|y b0]; simpl; try done.
    intros [= Hl]. case_bool_decide; simpl; [rewrite IH by done|]; naive_solver. }
  destruct (Nat.eqb_spec (length a) (length b)) as [E|E]; simpl; [by apply Hs|].
  split; [done | by intros ->].
Qed.

Lemma Authorize_Ok p identity profileName csr q :
  Authorize p identity profileName (Some csr) = (Some q, None) ↔
  (∃ host, HostsByIdentity p !! identity = Some host ∧ AllowsProfile host profileName = true)
  ∧ Policy_Profiles p !! profileName = Some q
  ∧ CanonicalList (csr_DNSNames csr) = Ok (DNSNames q).
Proof.
  unfold Authorize.
  destruct (HostsByIdentity p !! identity) as [host|]; [|naive_solver].
  destruct (AllowsProfile host profileName) eqn:Ea; simpl.
  2: { split; [done|]. intros ((h & [= <-] & ?) & _). congruence. }
  destruct (Policy_Profiles p !! profileName) as [q'|]; [|naive_solver].
  destruct (CanonicalList (csr_DNSNames csr)) as [names|e]; [|naive_solver].
  pose proof (sameStringSet_eq names (DNSNames q')) as Hs.
  destruct (sameStringSet names (DNSNames q')); simpl; naive_solver.
Qed.

Lemma Authorize_result p identity profileName csr :
  match Authorize p identity profileName (Some csr) with
  | (Some q, None) => True
  | (_, Some _) => True
  | (None, None) => False
  end.
Proof. unfold Authorize. by repeat case_match. Qed.
End policy.
