(* ===== verification/PolicyHash.v ===== *)
(** * What the policy hashes determine

The canonical JSON text hashed by [hash.go] determines the fields it renders,
so that two profiles, or two policies, with the same hash agree on these
fields or exhibit a SHA-256 collision. *)

From Stdlib Require Import Ascii.
From S2P Require Import Prelude GoStrings DnsName Sha256 GoTime Json X509 Policy.
Import dnsname sha256 x509 policy.
#[local] Open Scope go_scope.

Module policy_hash.

Definition any {A} (_ : A) : Prop := True.

(** ** Encodings of the hashed values *)

Definition strings_text (l : list string) : string := print (JArray (JString <$> l)).

Lemma strings_prefix_free : prefix_free (Forall valid_utf8) strings_text.
Proof.
  intros a b r1 r2 Ha Hb H. unfold strings_text in H. rewrite !print_array in H.
  rewrite <- !list_fmap_compose in H.
  change (print ∘ JString) with json_string in H.
  eapply json_array_prefix_free in H; eauto using json_string_prefix_free, json_string_no_close.
Qed.

(** Two texts built of the same literals and of prefix-free encodings are
compared piece by piece. *)
Ltac peel H :=
  repeat (rewrite <- ?string_app_assoc in H;
    match type of H with
    | string_app ?s _ = string_app ?s _ => apply string_app_inj_l in H
    | string_app (json_string _) _ = string_app (json_string _) _ =>
        apply json_string_prefix_free in H as [? H]; [|by auto..]
    | string_app (strings_text _) _ = string_app (strings_text _) _ =>
        apply strings_prefix_free in H as [? H]; [|by auto..]
    end).

Definition acme_text (a : ACMEProfile) : string :=
  string_app "{" (string_app (json_string "challenge") (string_app ":"
   (string_app (json_string (ACME_Challenge a)) (string_app "," (string_app (json_string "credentials")
   (string_app ":" (string_app (json_string (ACME_Credentials a)) "}"))))))).

Lemma profile_text p :
  print (profileHashInput p) =
  string_app "{" (string_app (json_string "type") (string_app ":"
   (string_app (json_string (Type_ p)) (string_app "," (string_app (json_string "dns_names")
   (string_app ":" (string_app (strings_text (DNSNames p)) (string_app "," (string_app (json_string "acme")
   (string_app ":" (string_app (acme_text (ACME p)) (string_app "," (string_app (json_string "renew_before")
   (string_app ":" (string_app (json_string (duration_String (RenewBefore p))) "}"))))))))))))))).
Proof.
  unfold profileHashInput, acme_text, acme_json, strings_text. cbn [print join fst snd].
  by rewrite <- ?string_app_assoc.
Qed.

Definition profile_record_text (q : string * string) : string :=
  string_app "{" (string_app (json_string "name") (string_app ":"
   (string_app (json_string (q.1)) (string_app "," (string_app (json_string "hash")
   (string_app ":" (string_app (json_string (q.2)) "}"))))))).

Lemma profile_record_print p : print (profileHashRecord p) = profile_record_text (Name p, Hash p).
Proof. unfold profileHashRecord, profile_record_text. cbn [print join fst snd]. by rewrite <- ?string_app_assoc. Qed.

Definition host_record_text (h : string * string * list string) : string :=
  string_app "{" (string_app (json_string "name") (string_app ":"
   (string_app (json_string (h.1.1)) (string_app "," (string_app (json_string "identity")
   (string_app ":" (string_app (json_string (h.1.2)) (string_app "," (string_app (json_string "profiles")
   (string_app ":" (string_app (strings_text (h.2)) "}"))))))))))).

Lemma host_record_print h : 
  print (hostHashRecord h)
  = host_record_text (Host_Name h, Identity h, sortedMapKeys (Profiles h)).
Proof.
  unfold hostHashRecord, host_record_text, strings_text. cbn [print join fst snd].
  by rewrite <- ?string_app_assoc.
Qed.

(** ** Profiles *)

Record profile_utf8 (p : CompiledProfile) : Prop := {
  pu_type : valid_utf8 (Type_ p);
  pu_names : Forall valid_utf8 (DNSNames p);
  pu_challenge : valid_utf8 (ACME_Challenge (ACME p));
  pu_credentials : valid_utf8 (ACME_Credentials (ACME p)) }.
#[local] Hint Resolve pu_type pu_names pu_challenge pu_credentials duration_String_valid : core.

Lemma profile_text_inj p q :
  profile_utf8 p → profile_utf8 q → print (profileHashInput p) = print (profileHashInput q) →
  Type_ p = Type_ q ∧ DNSNames p = DNSNames q ∧ ACME p = ACME q
  ∧ duration_String (RenewBefore p) = duration_String (RenewBefore q).
Proof.
  intros Hp Hq H. rewrite !profile_text in H. unfold acme_text in H. peel H.
  destruct (ACME p), (ACME q); simpl in *. by subst.
Qed.

Lemma canonical_valid n : canonical_dns n → valid_utf8 n.
Proof.
  intros H%canonical_bytes. apply valid_utf8_ascii. eapply all_bytes_impl; [|done].
  by intros a (_ & _ & _ & ?)%name_byte_plain.
Qed.

Lemma type_admits_valid t names : type_admits t names → valid_utf8 t.
Proof. intros [[-> _]|[-> _]]; by apply valid_utf8_ascii. Qed.

Lemma wf_profile_utf8 p :
  wf_profile p → valid_utf8 (ACME_Credentials (ACME p)) → profile_utf8 p.
Proof.
  intros [_ _ [_ Hn] _ Ht Hc _ _] Hcred. constructor; [| | |done].
  - by eapply type_admits_valid.
  - eapply Forall_impl; [done | apply canonical_valid].
  - rewrite Hc. by apply valid_utf8_ascii.
Qed.

(** ** Policies *)

Lemma hex_digit_ascii n : (n < 16)%N → is_ascii (hex_digit n) = true.
Proof.
  intros H. unfold hex_digit, is_ascii, code.
  destruct (N.ltb_spec n 10); rewrite N_ascii_embedding by lia; lia.
Qed.

Lemma EncodeToString_ascii l :
  Forall (λ b, b < 256)%N l → all_bytes is_ascii (EncodeToString l) = true.
Proof.
  induction 1 as [|b l Hb H IH]; [done|]. simpl.
  rewrite IH, !hex_digit_ascii; [done | |].
  - change 15%N with (N.ones 4). rewrite N.land_ones. apply N.mod_lt. done.
  - rewrite N.shiftr_div_pow2. apply N.Div0.div_lt_upper_bound. exact Hb.
Qed.

Lemma hex_sha256_ascii s : all_bytes is_ascii (hex_sha256 s) = true.
Proof.
  apply EncodeToString_ascii. unfold Sum256. apply Forall_forall. intros b Hb.
  apply list_elem_of_bind in Hb as (w & Hb & _). unfold be_bytes in Hb.
  apply list_elem_of_fmap in Hb as (i & -> & _).
  change 255%N with (N.ones 8). rewrite N.land_ones. apply N.mod_lt. done.
Qed.

Definition pair_utf8 (q : string * string) : Prop := valid_utf8 (q.1) ∧ valid_utf8 (q.2).
Definition host_utf8 (h : string * string * list string) : Prop :=
  pair_utf8 (h.1) ∧ Forall valid_utf8 (h.2).

Lemma profile_record_prefix_free : prefix_free pair_utf8 profile_record_text.
Proof.
  intros [n h] [n' h'] r1 r2 [Hn Hh] [Hn' Hh'] H. unfold profile_record_text in H.
  cbn [fst snd] in *. peel H. by subst.
Qed.

Lemma host_record_prefix_free : prefix_free host_utf8 host_record_text.
Proof.
  intros [[n i] l] [[n' i'] l'] r1 r2 [[Hn Hi] Hl] [[Hn' Hi'] Hl'] H.
  unfold host_record_text in H. cbn [fst snd] in *. peel H. by subst.
Qed.

Lemma object_no_close s : no_close (string_app "{" s).
Proof. intros r t H. discriminate H. Qed.

Definition records_text {A} (f : A → string) (l : list A) : string :=
  string_app "[" (string_app (join (f <$> l) ",") "]").

Lemma records_prefix_free {A} (P : A → Prop) (f : A → string) :
  prefix_free P f → (∀ a, ∃ s, f a = string_app "{" s) →
  prefix_free (Forall P) (records_text f).
Proof.
  intros Hf Ho. apply json_array_prefix_free; [done|]. intros a _.
  destruct (Ho a) as [s ->]. apply object_no_close.
Qed.

(** The profiles of a policy, with their hashes, and its hosts, in the order
in which they are hashed. *)
Definition profile_pairs (profiles : gmap string CompiledProfile) : list (string * string) :=
  (λ k, let q := default zeroCompiledProfile (profiles !! k) in (Name q, Hash q))
    <$> sortedMapKeys profiles.
Definition host_rows (hosts : gmap string CompiledHost)
    : list (string * string * list string) :=
  (λ k, let h := default zeroCompiledHost (hosts !! k) in
        (Host_Name h, Identity h, sortedMapKeys (Profiles h))) <$> sortedMapKeys hosts.

Definition policy_json (version : Z) (profiles : gmap string CompiledProfile)
    (hosts : gmap string CompiledHost) : json :=
  JObject [
    ("version", JInt version);
    ("profiles", JArray ((λ name,
       profileHashRecord (default zeroCompiledProfile (profiles !! name)))
       <$> sortedMapKeys profiles));
    ("hosts", JArray ((λ name,
       hostHashRecord (default zeroCompiledHost (hosts !! name)))
       <$> sortedMapKeys hosts))].

Lemma policy_text version profiles hosts :
  print (policy_json version profiles hosts) =
  string_app "{" (string_app (json_string "version") (string_app ":" (string_app (itoa version)
   (string_app "," (string_app (json_string "profiles") (string_app ":"
   (string_app (records_text profile_record_text (profile_pairs profiles))
   (string_app "," (string_app (json_string "hosts") (string_app ":"
   (string_app (records_text host_record_text (host_rows hosts)) "}"))))))))))).
Proof.
  unfold policy_json, records_text, profile_pairs, host_rows.
  rewrite print_object. rewrite !fmap_cons, fmap_nil. cbn [fst snd].
  rewrite !print_array, <- !list_fmap_compose.
  rewrite (list_fmap_ext (profile_record_text ∘ _) (print ∘ λ k,
    profileHashRecord (default zeroCompiledProfile (profiles !! k))));
    [|intros; symmetry; apply profile_record_print].
  rewrite (list_fmap_ext (host_record_text ∘ _) (print ∘ λ k,
    hostHashRecord (default zeroCompiledHost (hosts !! k))));
    [|intros; symmetry; apply host_record_print].
  cbn [join print]. by rewrite <- ?string_app_assoc.
Qed.

Definition policy_utf8 (profiles : gmap string CompiledProfile)
    (hosts : gmap string CompiledHost) : Prop :=
  Forall pair_utf8 (profile_pairs profiles) ∧ Forall host_utf8 (host_rows hosts).

Lemma policy_text_inj v profiles hosts profiles' hosts' :
  policy_utf8 profiles hosts → policy_utf8 profiles' hosts' →
  print (policy_json v profiles hosts) = print (policy_json v profiles' hosts') →
  profile_pairs profiles = profile_pairs profiles' ∧ host_rows hosts = host_rows hosts'.
Proof.
  intros [Hp Hh] [Hp' Hh'] H. rewrite !policy_text in H. peel H.
  apply (records_prefix_free _ _ profile_record_prefix_free) in H as [E H];
    [|intros; by eexists | done..].
  peel H. apply (records_prefix_free _ _ host_record_prefix_free) in H as [E' _];
    [done | intros; by eexists | done..].
Qed.
End policy_hash.
