(* ===== verification/PolicySpec.v ===== *)
(** * Properties of the certificate policy

What a policy file means, stated on the file itself, and the theorems that
[Compile] and [Authorize] implement it: acceptance of a file, invariants of
the compiled policy, authorization, its errors, and what the profile hash
determines. *)

From S2P Require Import Prelude GoStrings DnsName Sha256 GoTime Json X509 Policy PolicyHash.
Import dnsname sha256 x509 policy policy_hash.
#[local] Open Scope go_scope.

Module policy_spec.

(** ** The meaning of a policy file *)

(** A profile of the file: every name is a DNS name, all of them are wildcards
or none is, according to the type. *)
Definition names_admitted (profileType : string) (names : list string) : Prop :=
  profileType = "wildcard"
    ∧ (∀ s, s ∈ names → ∃ n, Canonical s = Ok n ∧ IsValidWildcard n = true)
  ∨ profileType = "multi_san"
    ∧ (∀ s, s ∈ names → ∃ n, Canonical s = Ok n ∧ IsValidWildcard n = false).

Record profile_admitted (name : string) (raw : Profile) : Prop := {
  pa_name : TrimSpace name ≠ "";
  pa_renew : (0 ≤ Profile_RenewBefore raw)%Z;
  pa_challenge : TrimSpace (ACME_Challenge (Profile_ACME raw)) = "dns-01";
  pa_some : Profile_DNSNames raw ≠ [];
  pa_names : names_admitted (TrimSpace (Profile_Type raw)) (Profile_DNSNames raw) }.

(** A host of the file refers, up to white space, to profiles whose name in
the file carries no white space around it. *)
Record host_ok (cfg : Config) (name : string) (raw : Host) : Prop := {
  ho_name : TrimSpace name ≠ "";
  ho_identity : TrimSpace (Host_Identity raw) ≠ "";
  ho_some : Host_Profiles raw ≠ [];
  ho_refs : ∀ ref, ref ∈ Host_Profiles raw →
    TrimSpace ref ≠ "" ∧ is_Some (Config_Profiles cfg !! TrimSpace ref) }.

Record file_ok (cfg : Config) : Prop := {
  fo_version : Config_Version cfg = 0%Z ∨ Config_Version cfg = CurrentVersion;
  fo_profiles : Config_Profiles cfg ≠ ∅;
  fo_hosts : Config_Hosts cfg ≠ ∅;
  fo_profile : ∀ k raw, Config_Profiles cfg !! k = Some raw → profile_admitted k raw;
  fo_host : ∀ k raw, Config_Hosts cfg !! k = Some raw → host_ok cfg k raw;
  fo_identities : ∀ k k' h h', Config_Hosts cfg !! k = Some h → Config_Hosts cfg !! k' = Some h' →
    TrimSpace (Host_Identity h) = TrimSpace (Host_Identity h') → k = k' }.

(** The file lets the host of identity [identity] have a certificate of
profile [profileName] with exactly the names of [csr]. *)
Definition file_authorizes (cfg : Config) (identity profileName : string)
    (csr : CertificateRequest) (q : CompiledProfile) : Prop :=
  ∃ k rawHost rawProfile,
    Config_Hosts cfg !! k = Some rawHost
    ∧ TrimSpace (Host_Identity rawHost) = identity
    ∧ (∃ ref, ref ∈ Host_Profiles rawHost ∧ TrimSpace ref = profileName)
    ∧ Config_Profiles cfg !! profileName = Some rawProfile
    ∧ EqualSet (csr_DNSNames csr) (Profile_DNSNames rawProfile) = true
    ∧ compileProfile profileName rawProfile = Ok q.

(** ** Acceptance *)

Lemma names_admitted_type t raw names :
  CanonicalList raw = Ok names → type_admits t names ↔ names_admitted t raw.
Proof.
  intros (_ & _ & Hel & Hok)%CanonicalList_Ok. unfold type_admits, names_admitted.
  assert (∀ b, Forall (λ n, IsValidWildcard n = b) names ↔
    (∀ s, s ∈ raw → ∃ n, Canonical s = Ok n ∧ IsValidWildcard n = b)) as H.
  { intros b. rewrite Forall_forall. split.
    - intros H s Hs. specialize (Hok s Hs). destruct (Canonical s) as [n|] eqn:E; [|done].
      exists n. split; [done|]. apply H, Hel. eauto.
    - intros H n (s & Hs & En)%Hel. destruct (H s Hs) as (n' & En' & ?). congruence. }
  by rewrite !H.
Qed.

Lemma CanonicalList_total raw :
  (∀ s, s ∈ raw → is_ok (Canonical s) = true) → ∃ names, CanonicalList raw = Ok names.
Proof.
  intros H. pose proof (canonical_loop_total raw ∅ [] H). unfold CanonicalList.
  destruct (canonical_loop raw ∅ []); [|done]. by eexists.
Qed.

Lemma CanonicalList_empty raw names : CanonicalList raw = Ok names → names = [] ↔ raw = [].
Proof.
  intros (_ & _ & Hel & Hok)%CanonicalList_Ok. split; intros ->.
  - destruct raw as [|s raw]; [done|]. specialize (Hok s (list_elem_of_here _ _)).
    destruct (Canonical s) as [n|] eqn:E; [|done].
    assert (n ∈ []) by (apply Hel; exists s; split; [left | done]). set_solver.
  - destruct names as [|n ns]; [done|]. destruct (Hel n) as [(s & Hs & _) _]; [left|]. set_solver.
Qed.

Lemma compileProfile_is_ok name raw :
  is_ok (compileProfile name raw) = true ↔ profile_admitted name raw.
Proof.
  split.
  - destruct (compileProfile name raw) as [p|] eqn:E; [|done]. intros _.
    apply compileProfile_Ok in E as (Hn & Hr & Hc & names & Hl & Hne & Ht & _).
    constructor; try done.
    + intros E. by apply Hne, (CanonicalList_empty (Profile_DNSNames raw)).
    + by apply (names_admitted_type _ _ names).
  - intros [Hn Hr Hc Hne Ht].
    destruct (CanonicalList_total (Profile_DNSNames raw)) as [names Hl].
    { destruct Ht as [[_ Ht]|[_ Ht]]; intros s Hs; by destruct (Ht s Hs) as (? & -> & _). }
    assert (compileProfile name raw = Ok (compiled_form name raw names)) as ->; [|done].
    apply compileProfile_Ok. split_and!; try done. exists names. split_and!; try done.
    + intros E. by apply Hne, (CanonicalList_empty _ names).
    + by apply (names_admitted_type _ (Profile_DNSNames raw)).
Qed.

Lemma host_ok_admitted cfg profiles k raw :
  (∀ n, is_Some (profiles !! n) ↔ is_Some (Config_Profiles cfg !! n)) →
  host_admitted k raw profiles ↔ host_ok cfg k raw.
Proof.
  intros H. unfold host_admitted. setoid_rewrite H. split.
  - intros (? & ? & ? & ?). by constructor.
  - by intros [].
Qed.

Lemma map_size_zero {T} (m : gmap string T) : (size m =? 0)%nat = true ↔ m = ∅.
Proof. rewrite Nat.eqb_eq. apply map_size_empty_iff. Qed.

Lemma compiled_profiles_keys now cfg p :
  Compile now cfg = Ok p →
  ∀ n, is_Some (Policy_Profiles p !! n) ↔ is_Some (Config_Profiles cfg !! n).
Proof.
  intros (Hp & Hall & _)%Compile_Ok n. split; [|apply Hall].
  intros [q (raw & -> & _)%Hp]. by eexists.
Qed.

Lemma Compile_file_ok now cfg p : Compile now cfg = Ok p → file_ok cfg.
Proof.
  intros H. pose proof (compiled_profiles_keys _ _ _ H) as Hkeys.
  apply Compile_Ok in H as Hc. destruct Hc as (Hp & Hall & [Hag Hu] & Hh & Hadm & _).
  unfold Compile in H. set (v := if (_ =? 0)%Z then _ else _) in H.
  destruct (Z.eqb_spec v CurrentVersion) as [Hv|]; [|done]. simpl in H.
  destruct (size (Config_Profiles cfg) =? 0)%nat eqn:E1; [done|].
  destruct (size (Config_Hosts cfg) =? 0)%nat eqn:E2; [done|]. clear H.
  constructor.
  - unfold v in Hv. destruct (Z.eqb_spec (Config_Version cfg) 0); [by left | by right].
  - intros E%map_size_zero. congruence.
  - intros E%map_size_zero. congruence.
  - intros k raw Hk. apply compileProfile_is_ok.
    destruct (Hall k) as [q (raw' & Hk' & Eq)%Hp]; [by eexists|].
    by replace raw with raw' by congruence; rewrite Eq.
  - intros k raw Hk. apply (host_ok_admitted _ _ _ _ Hkeys). by apply Hadm.
  - intros k k' h h' Hk Hk' E. apply (Hu k k' (compiled_host k h) (compiled_host k' h'));
      [apply Hh; eauto.. | done].
Qed.

Lemma file_ok_Compile now cfg : file_ok cfg → is_ok (Compile now cfg) = true.
Proof.
  intros [Hv Hp Hh Hprof Hhost Hid]. unfold Compile.
  set (v := if (_ =? 0)%Z then _ else _).
  assert ((v =? CurrentVersion)%Z = true) as ->.
  { unfold v. destruct Hv as [-> | ->]; reflexivity. }
  simpl. destruct (size (Config_Profiles cfg) =? 0)%nat eqn:E1; [by apply map_size_zero in E1|].
  destruct (size (Config_Hosts cfg) =? 0)%nat eqn:E2; [by apply map_size_zero in E2|].
  pose proof (compile_profiles_total (sortedMapKeys (Config_Profiles cfg)) (Config_Profiles cfg) ∅)
    as Ht.
  destruct (compile_profiles _ _ _) as [profiles|] eqn:Ep.
  2: { apply Ht. intros k [raw Hk]%sortedMapKeys_elem. rewrite Hk. simpl.
       by apply compileProfile_is_ok, Hprof. }
  assert (Hkeys : ∀ n, is_Some (profiles !! n) ↔ is_Some (Config_Profiles cfg !! n)).
  { intros n. rewrite <- (sortedMapKeys_elem (Config_Profiles cfg)). split; [|by apply (compile_profiles_all _ _ _ _ n Ep)].
    intros [q [[? _]|[_ [=]]]%(compile_profiles_Ok _ _ _ _ Ep)]. done. }
  simpl. pose proof (compile_hosts_total (sortedMapKeys (Config_Hosts cfg)) (Config_Hosts cfg)
    profiles ∅ ∅) as Hht.
  destruct (compile_hosts _ _ _ _ _) as [[byName byIdentity]|]; [done|]. apply Hht.
  - apply NoDup_fmap_2_strong, sortedMapKeys_NoDup.
    intros k k' [raw Hk]%sortedMapKeys_elem [raw' Hk']%sortedMapKeys_elem.
    unfold host_identity. rewrite Hk, Hk'. by apply Hid.
  - intros k [raw Hk]%sortedMapKeys_elem. rewrite Hk. split; [|done].
    apply (host_ok_admitted _ _ _ _ Hkeys). by apply Hhost.
Qed.

(** ** Authorization *)

Section Compiled.
Context (now : Z) (cfg : Config) (p : CompiledPolicy).
Hypothesis Hcompile : Compile now cfg = Ok p.

Lemma profile_of_file k q :
  Policy_Profiles p !! k = Some q ↔
  ∃ raw, Config_Profiles cfg !! k = Some raw ∧ compileProfile k raw = Ok q.
Proof using Hcompile. destruct (Compile_Ok _ _ _ Hcompile) as [H _]. apply H. Qed.

Lemma identity_of_file i h :
  HostsByIdentity p !! i = Some h ↔
  ∃ k raw, Config_Hosts cfg !! k = Some raw ∧ TrimSpace (Host_Identity raw) = i
           ∧ h = compiled_host k raw.
Proof using Hcompile.
  destruct (Compile_Ok _ _ _ Hcompile) as (_ & _ & [Hag _] & Hh & Hadm & _). rewrite Hag.
  setoid_rewrite Hh. split.
  - intros [<- (k & raw & Hk & _ & ->)]. by exists k, raw.
  - intros (k & raw & Hk & <- & ->). split; [done|]. exists k, raw. auto.
Qed.

Lemma compiled_host_allows k raw n :
  AllowsProfile (compiled_host k raw) n = true ↔
  ∃ ref, ref ∈ Host_Profiles raw ∧ TrimSpace ref = n.
Proof using.
  unfold AllowsProfile, compiled_host. simpl. rewrite foldl_Contains.
  split; [intros [?|?]; done | by right].
Qed.

(** Every profile a host of a compiled policy may use exists. *)
Lemma allowed_profile_exists i h n :
  HostsByIdentity p !! i = Some h → AllowsProfile h n = true →
  is_Some (Policy_Profiles p !! n).
Proof using Hcompile.
  intros Hi Ha. destruct (Compile_wf _ _ _ Hcompile) as [_ Hh _ _].
  destruct (Hh _ _ Hi) as [_ (_ & _ & _ & H)]. by apply H.
Qed.

Lemma Authorize_file identity profileName csr q :
  Authorize p identity profileName (Some csr) = (Some q, None) ↔
  file_authorizes cfg identity profileName csr q.
Proof using Hcompile.
  rewrite Authorize_Ok. unfold file_authorizes. split.
  - intros ((host & Hi & Ha) & (raw & Hraw & Hq)%profile_of_file & Hcsr).
    apply identity_of_file in Hi as (k & rawHost & Hk & Ei & ->).
    apply compiled_host_allows in Ha. exists k, rawHost, raw. split_and!; try done.
    apply EqualSet_lists. apply compileProfile_Ok in Hq as (_ & _ & _ & names & ? & _ & _ & ->).
    by exists names.
  - intros (k & rawHost & raw & Hk & Ei & Href & Hraw & Hset & Hq). split_and!.
    + exists (compiled_host k rawHost). split; [apply identity_of_file; eauto|].
      by apply compiled_host_allows.
    + apply profile_of_file. eauto.
    + apply EqualSet_lists in Hset as (c & -> & Hc).
      apply compileProfile_Ok in Hq as (_ & _ & _ & names & Hn & _ & _ & ->).
      simpl. congruence.
Qed.
End Compiled.

(** The schema of the policy file allows the challenge http-01 to a profile of
type multi_san; no file with such a profile, or with this challenge at all,
compiles. *)
Lemma http01_refused now cfg k raw :
  Config_Profiles cfg !! k = Some raw →
  ACME_Challenge (Profile_ACME raw) = "http-01" → is_ok (Compile now cfg) = false.
Proof.
  intros Hk Hc. destruct (Compile now cfg) as [p|e] eqn:E; [|done].
  pose proof (fo_profile _ (Compile_file_ok now cfg p E) k raw Hk) as [_ _ Hch _ _].
  rewrite Hc in Hch. by vm_compute in Hch.
Qed.

(** ** The configuration of the repository's tests *)

Definition dns01 : ACMEProfile := mkACMEProfile "dns-01" "cf".
Definition edge_profile : Profile := mkProfile "wildcard" ["*.whisper.cl"] dns01 0.
Definition api_profile : Profile :=
  mkProfile "multi_san" ["api.whisper.cl"; "api-v2.whisper.cl"] dns01 0.
Definition test_config : Config := mkConfig 1
  (<["edge":=edge_profile]> {["api":=api_profile]})
  (<["edge01":=mkHost "edge01" ["edge"]]> {["api01":=mkHost "api01" ["api"]]}).

Definition the_policy (cfg : Config) : CompiledPolicy :=
  match Compile 0 cfg with
  | Ok p => p
  | Err _ => mkCompiledPolicy 0 ∅ ∅ ∅ "" 0
  end.

Lemma test_config_compiles : Compile 0 test_config = Ok (the_policy test_config).
Proof. vm_compute. reflexivity. Qed.

(** The error of a file whose one profile has this challenge. *)
Example multi_san_http01_refused :
  Compile 0 (mkConfig 1
    {["api":=mkProfile "multi_san" ["api.whisper.cl"] (mkACMEProfile "http-01" "cf") 0]}
    {["api01":=mkHost "api01" ["api"]]})
  = Err (InProfile "api" MultiSANRequiresDNS01).
Proof. vm_compute. reflexivity. Qed.

Definition request (names : list string) : CertificateRequest :=
  mkCertificateRequest "" names (mkPublicKey (Some "key")).

(** ** Properties *)

(** C22: [Compile] accepts exactly the policy files that are well formed: a
supported version, at least one profile and one host, profiles whose names are
DNS names of the kind their type requires, with the dns-01 challenge and a
non-negative renewal margin, hosts with an identity that refer to existing
profiles, and no two hosts with the same identity. The challenge is dns-01 for
both types of profile: the schema of the file allows http-01 too, and asks only
wildcard profiles for dns-01, but the code refuses it for each
([http01_refused]). *)
Theorem Compile_accepts now cfg : is_ok (Compile now cfg) = true ↔ file_ok cfg.
Proof.
  split; [|apply file_ok_Compile].
  destruct (Compile now cfg) as [p|] eqn:E; [|done]. intros _. by eapply Compile_file_ok.
Qed.

(** C23: A compiled policy is well formed: its profiles carry sorted,
duplicate-free lists of canonical names of the kind their type requires, the
dns-01 challenge, a positive renewal margin and their hash; its hosts refer to
profiles that exist; the two host maps hold the same hosts, each identity at
most once; its hash is the hash of its content. *)
Theorem Compile_invariant now cfg p : Compile now cfg = Ok p → wf_policy p.
Proof. apply Compile_wf. Qed.

Example Compile_invariant_witness : wf_policy (the_policy test_config).
Proof. apply (Compile_invariant 0 test_config). vm_compute. reflexivity. Defined.

(** C12: With a policy compiled from a file, [Authorize] grants a request if and
only if the file lists a host with the caller's identity, this host refers to
the requested profile, and the names of the request are, as a set of canonical
names, exactly those the file gives to the profile; the profile returned is
the compiled one. *)
Theorem Authorize_iff_file now cfg p identity profileName csr q :
  Compile now cfg = Ok p →
  Authorize p identity profileName (Some csr) = (Some q, None) ↔
  file_authorizes cfg identity profileName csr q.
Proof. intros H. by apply (Authorize_file now). Qed.

Example Authorize_iff_file_witness :
  ∃ q, file_authorizes test_config "edge01" "edge" (request ["*.WHISPER.CL."]) q.
Proof.
  eexists. apply (Authorize_iff_file 0 test_config (the_policy test_config)).
  - vm_compute. reflexivity.
  - vm_compute. reflexivity.
Defined.

(** C38: The refusals of [Authorize] over a compiled policy: an identity no host
of the file has, a profile the host does not refer to, names that are not DNS
names, or other names than the profile's. A host never refers to a profile the
policy lacks, and a nil request is refused. *)
Theorem Authorize_refusals now cfg p identity profileName csr :
  Compile now cfg = Ok p →
  let known := ∃ k raw, Config_Hosts cfg !! k = Some raw
                 ∧ TrimSpace (Host_Identity raw) = identity in
  let allowed := ∃ k raw ref, Config_Hosts cfg !! k = Some raw
                 ∧ TrimSpace (Host_Identity raw) = identity
                 ∧ ref ∈ Host_Profiles raw ∧ TrimSpace ref = profileName in
  match csr, snd (Authorize p identity profileName csr) with
  | None, e => e = Some (ErrInvalidCSR None)
  | Some csr, Some ErrUnknownIdentity => ¬ known
  | Some csr, Some ErrProfileNotAllowed => known ∧ ¬ allowed
  | Some csr, Some ErrUnknownProfile => False
  | Some csr, Some (ErrInvalidCSR e) =>
      allowed ∧ ∃ e', e = Some e' ∧ CanonicalList (csr_DNSNames csr) = Err e'
  | Some csr, Some ErrCSRNamesMismatch =>
      allowed ∧ is_ok (CanonicalList (csr_DNSNames csr)) = true
      ∧ ∀ raw, Config_Profiles cfg !! profileName = Some raw →
          EqualSet (csr_DNSNames csr) (Profile_DNSNames raw) = false
  | Some csr, None => allowed
  end.
Proof.
  intros H known allowed. destruct csr as [csr|]; [|done]. unfold Authorize.
  destruct (HostsByIdentity p !! identity) as [h|] eqn:Eh.
  2: { simpl. intros (k & raw & Hk & Ei).
       assert (HostsByIdentity p !! identity = Some (compiled_host k raw)); [|congruence].
       apply (identity_of_file now cfg p H). eauto. }
  pose proof (λ n, allowed_profile_exists _ _ _ H _ _ n Eh) as Hex.
  apply (identity_of_file now cfg p H) in Eh as (k & raw & Hk & Ei & ->).
  assert (Hallowed : AllowsProfile (compiled_host k raw) profileName = true ↔ allowed).
  { rewrite compiled_host_allows. split.
    - intros (ref & ? & ?). by exists k, raw, ref.
    - intros (k' & raw' & ref & Hk' & Ei' & ? & ?). exists ref.
      assert (k = k') as <-.
      { apply (fo_identities _ (Compile_file_ok _ _ _ H) k k' raw raw'); congruence. }
      replace raw with raw' by congruence. done. }
  destruct (AllowsProfile _ _) eqn:Ea; simpl.
  2: { split; [by exists k, raw|]. rewrite <- Hallowed. done. }
  destruct (Hex profileName Ea) as [q Hq]. rewrite Hq.
  destruct (CanonicalList (csr_DNSNames csr)) as [names|e] eqn:En; simpl.
  2: { split; [by apply Hallowed | eauto]. }
  pose proof (sameStringSet_eq names (DNSNames q)) as Hs.
  destruct (sameStringSet names (DNSNames q)); simpl; [by apply Hallowed|].
  split_and!; [by apply Hallowed | done|]. intros raw' Hraw.
  apply not_true_iff_false. intros (c & Hc & Hc')%EqualSet_lists.
  apply (profile_of_file now cfg p H) in Hq as (raw'' & ? & Hq).
  apply compileProfile_Ok in Hq as (_ & _ & _ & names' & Hn & _ & _ & ->).
  assert (raw'' = raw') as -> by congruence. simpl in Hs.
  destruct Hs as [_ Hs]. specialize (Hs ltac:(congruence)). done.
Qed.

Example Authorize_refusals_witness :
  ¬ ∃ k raw, Config_Hosts test_config !! k = Some raw
      ∧ TrimSpace (Host_Identity raw) = "edge02".
Proof.
  exact (Authorize_refusals 0 test_config (the_policy test_config) "edge02" "edge"
    (Some (request [])) ltac:(vm_compute; reflexivity)).
Defined.

(** A profile whose key in the file carries white space around it is
compiled, under the key as it is, and can be granted to nobody: references to
profiles are trimmed, the keys are not. *)
Theorem untrimmed_profile_unusable now cfg p key identity csr q :
  Compile now cfg = Ok p → TrimSpace key ≠ key → is_Some (Config_Profiles cfg !! key) →
  is_Some (Policy_Profiles p !! key)
  ∧ Authorize p identity key (Some csr) ≠ (Some q, None).
Proof.
  intros H Hkey Hraw. split; [by apply (compiled_profiles_keys _ _ _ H)|].
  intros (k & raw & _ & _ & _ & (ref & _ & E) & _)%(Authorize_file _ _ _ H).
  apply Hkey. rewrite <- E. apply TrimSpace_idemp.
Qed.

Definition padded_config : Config := mkConfig 1
  (<[" edge":=edge_profile]> (Config_Profiles test_config)) (Config_Hosts test_config).

Example untrimmed_profile_unusable_witness :
  is_Some (Policy_Profiles (the_policy padded_config) !! " edge")
  ∧ Authorize (the_policy padded_config) "edge01" " edge" (Some (request ["*.whisper.cl"]))
    ≠ (Some zeroCompiledProfile, None).
Proof.
  apply (untrimmed_profile_unusable 0 padded_config).
  - vm_compute. reflexivity.
  - vm_compute. discriminate.
  - vm_compute. by eexists.
Defined.

(** The hash of a compiled profile determines its type, its names, its ACME
settings and the text of its renewal margin, up to a SHA-256 collision and for
credentials references that are valid UTF-8. *)
Theorem profile_hash_determines name raw p name' raw' p' :
  compileProfile name raw = Ok p → compileProfile name' raw' = Ok p' →
  valid_utf8 (ACME_Credentials (ACME p)) → valid_utf8 (ACME_Credentials (ACME p')) →
  Hash p = Hash p' →
  Type_ p = Type_ p' ∧ DNSNames p = DNSNames p' ∧ ACME p = ACME p'
    ∧ duration_String (RenewBefore p) = duration_String (RenewBefore p')
  ∨ collision (print (profileHashInput p)) (print (profileHashInput p')).
Proof.
  intros [Hp _]%compileProfile_wf [Hp' _]%compileProfile_wf Hu Hu'.
  rewrite (wf_hash _ Hp), (wf_hash _ Hp'). intros E.
  destruct (decide (print (profileHashInput p) = print (profileHashInput p'))) as [Ep|Ep].
  - left. apply profile_text_inj; auto using wf_profile_utf8.
  - by right.
Qed.

Definition edge_compiled (names : list string) : CompiledProfile :=
  compiled_form "edge" (mkProfile "wildcard" names dns01 0) ["*.whisper.cl"].

Example profile_hash_determines_witness :
  DNSNames (edge_compiled ["*.whisper.cl"]) = DNSNames (edge_compiled ["*.WHISPER.cl"])
  ∨ collision (print (profileHashInput (edge_compiled ["*.whisper.cl"])))
              (print (profileHashInput (edge_compiled ["*.WHISPER.cl"]))).
Proof.
  destruct (profile_hash_determines "edge" (mkProfile "wildcard" ["*.whisper.cl"] dns01 0)
    (edge_compiled ["*.whisper.cl"])
    "edge" (mkProfile "wildcard" ["*.WHISPER.cl"] dns01 0) (edge_compiled ["*.WHISPER.cl"]))
    as [(_ & ? & _)|?].
  - vm_compute. reflexivity.
  - vm_compute. reflexivity.
  - by apply valid_utf8_ascii.
  - by apply valid_utf8_ascii.
  - vm_compute. reflexivity.
  - by left.
  - by right.
Defined.

Lemma canonical_pairs_utf8 now cfg p :
  Compile now cfg = Ok p →
  (∀ k, is_Some (Config_Profiles cfg !! k) → valid_utf8 (TrimSpace k)) →
  Forall pair_utf8 (profile_pairs (Policy_Profiles p)).
Proof.
  intros H Hk. apply Forall_forall. intros x (k & -> & [q Hq]%sortedMapKeys_elem)%list_elem_of_fmap.
  rewrite Hq. simpl. apply (profile_of_file _ _ _ H) in Hq as (raw & Hraw & Hq).
  apply compileProfile_wf in Hq as [Hwf En]. split; simpl.
  - rewrite En. apply Hk. by eexists.
  - rewrite (wf_hash _ Hwf). apply valid_utf8_ascii, hex_sha256_ascii.
Qed.

Lemma host_rows_utf8 now cfg p :
  Compile now cfg = Ok p →
  (∀ k h, Config_Hosts cfg !! k = Some h → valid_utf8 (TrimSpace k)
    ∧ valid_utf8 (TrimSpace (Host_Identity h))
    ∧ ∀ ref, ref ∈ Host_Profiles h → valid_utf8 (TrimSpace ref)) →
  Forall host_utf8 (host_rows (HostsByName p)).
Proof.
  intros (_ & _ & _ & Hh & _)%Compile_Ok Hu. apply Forall_forall.
  intros x (k & -> & [h Hk]%sortedMapKeys_elem)%list_elem_of_fmap. rewrite Hk. simpl.
  apply Hh in Hk as (raw & Hraw & _ & ->). destruct (Hu k raw Hraw) as (Hk & Hi & Hr).
  split; [by split|]. apply Forall_forall. simpl. intros n [b Hn]%sortedMapKeys_elem.
  assert (Contains (foldl (λ set ref, <[TrimSpace ref:=true]> set) ∅ (Host_Profiles raw)) n = true
    ∨ b = false) as [Hc|Hb].
  { unfold Contains. rewrite Hn. destruct b; auto. }
  - apply foldl_Contains in Hc as [?|(ref & Hin & <-)]; [done | by apply Hr].
  - subst b. exfalso. revert Hn. apply foldl_no_false. set_solver.
Qed.

(** The names, identities and references of a file are valid UTF-8. *)
Definition file_utf8 (cfg : Config) : Prop :=
  (∀ k, is_Some (Config_Profiles cfg !! k) → valid_utf8 (TrimSpace k))
  ∧ ∀ k h, Config_Hosts cfg !! k = Some h → valid_utf8 (TrimSpace k)
    ∧ valid_utf8 (TrimSpace (Host_Identity h))
    ∧ ∀ ref, ref ∈ Host_Profiles h → valid_utf8 (TrimSpace ref).

Lemma compiled_utf8 now cfg p :
  Compile now cfg = Ok p → file_utf8 cfg → policy_utf8 (Policy_Profiles p) (HostsByName p).
Proof. intros H [??]. split; [by eapply canonical_pairs_utf8 | by eapply host_rows_utf8]. Qed.

(** The hash of a policy determines its profiles, each with its name and
hash, and its hosts, each with its name, its identity and the set of its
profiles, up to a SHA-256 collision; it does not depend on the time of
compilation. *)
Theorem policy_hash_determines now cfg p now' cfg' p' :
  Compile now cfg = Ok p → Compile now' cfg' = Ok p' →
  file_utf8 cfg → file_utf8 cfg' → Policy_Hash p = Policy_Hash p' →
  profile_pairs (Policy_Profiles p) = profile_pairs (Policy_Profiles p')
    ∧ host_rows (HostsByName p) = host_rows (HostsByName p')
  ∨ collision (print (policy_json 1 (Policy_Profiles p) (HostsByName p)))
              (print (policy_json 1 (Policy_Profiles p') (HostsByName p'))).
Proof.
  intros H H' Hu%(compiled_utf8 _ _ _ H) Hu'%(compiled_utf8 _ _ _ H').
  apply Compile_Ok in H as (_ & _ & _ & _ & _ & -> & -> & _).
  apply Compile_Ok in H' as (_ & _ & _ & _ & _ & -> & -> & _). intros E.
  set (t := print (policy_json 1 (Policy_Profiles p) (HostsByName p))).
  set (t' := print (policy_json 1 (Policy_Profiles p') (HostsByName p'))).
  destruct (decide (t = t')) as [Et|Et]; [|by right].
  left. by apply policy_text_inj with (v := 1%Z).
Qed.

Lemma test_config_utf8 : file_utf8 test_config.
Proof.
  unfold file_utf8, test_config. cbn [Config_Profiles Config_Hosts]. split.
  - intros k [raw [[<- _]|[_ [<- _]%lookup_singleton_Some]]%lookup_insert_Some];
      by apply valid_utf8_ascii.
  - intros k h [[<- <-]|[_ [<- <-]%lookup_singleton_Some]]%lookup_insert_Some; simpl;
      (split_and!; [by apply valid_utf8_ascii..|]);
      intros ref ->%list_elem_of_singleton; by apply valid_utf8_ascii.
Qed.

Example policy_hash_determines_witness :
  profile_pairs (Policy_Profiles (the_policy test_config))
    = profile_pairs (Policy_Profiles (the_policy test_config))
    ∧ host_rows (HostsByName (the_policy test_config))
      = host_rows (HostsByName (the_policy test_config))
  ∨ collision (print (policy_json 1 (Policy_Profiles (the_policy test_config))
                                    (HostsByName (the_policy test_config))))
              (print (policy_json 1 (Policy_Profiles (the_policy test_config))
                                    (HostsByName (the_policy test_config)))).
Proof.
  exact (policy_hash_determines 0 test_config (the_policy test_config) 0 test_config
    (the_policy test_config) test_config_compiles test_config_compiles
    test_config_utf8 test_config_utf8 eq_refl).
Defined.

(** The compiled form of a profile, its hash included, depends on its names
only as a set of DNS names: their order, repetitions, case and surrounding
white space do not matter. *)
Theorem compileProfile_names_set name profileType names names' acme renew :
  EqualSet names names' = true →
  compileProfile name (mkProfile profileType names acme renew)
  = compileProfile name (mkProfile profileType names' acme renew).
Proof.
  intros (c & Hc & Hc')%EqualSet_lists. unfold compileProfile. simpl.
  by rewrite Hc, Hc'.
Qed.

Example compileProfile_names_set_witness :
  compileProfile "api" (mkProfile "multi_san" ["b.x.cl"; "a.x.cl"] dns01 0)
  = compileProfile "api" (mkProfile "multi_san" ["A.x.cl."; "b.x.cl"; "a.x.cl "] dns01 0).
Proof. apply (compileProfile_names_set "api"). vm_compute. reflexivity. Defined.
End policy_spec.
