(* ===== verification/PolicyManager.v ===== *)
(** * The policy the broker serves ([load.go], [manager.go])

[Load], [NewManager], [Reload], [Current] and the ticks of [Watch]. Decoding a
YAML document is [gopkg.in/yaml.v3]'s, a parameter; what [os.Stat] and
[os.ReadFile] return is an input of each operation. The loop of [Watch] is the
run of its ticks over the observations made of the file. *)

From S2P Require Import Prelude GoStrings DnsName GoTime X509 Policy PolicySpec.
Import x509 policy policy_spec.
#[local] Open Scope go_scope.

Module policy_manager.

(** An [os.Stat] or [os.ReadFile] that fails. *)
Inductive io_error := IOError.

Section Manager.
Context {yaml_error : Type} (yaml_decode : string → result yaml_error Config).

Inductive load_error :=
  | ReadingPolicy (e : io_error)
  | ParsingYAML (e : yaml_error)
  | Compiling (e : compile_error).

Definition Load (now : Z) (read : result io_error string) : result load_error CompiledPolicy :=
  data ← wrap_err ReadingPolicy read;
  cfg ← wrap_err ParsingYAML (yaml_decode data);
  wrap_err Compiling (Compile now cfg).

(** [current] is an [atomic.Value], empty until the first [Store]. *)
Record Manager := mkManager { current : option CompiledPolicy }.

Definition Reload (now : Z) (read : result io_error string) (m : Manager)
    : option load_error * Manager :=
  match Load now read with
  | Err e => (Some e, m)
  | Ok policy => (None, mkManager (Some policy))
  end.

Definition NewManager (now : Z) (read : result io_error string) : result load_error Manager :=
  match Reload now read (mkManager None) with
  | (Some e, _) => Err e
  | (None, m) => Ok m
  end.

Definition Current (m : Manager) : option CompiledPolicy := current m.

(** *** Watch *)

Definition watchInterval : Z := 5 * Second.

Record watch := mkWatch { watched : Manager; lastMod : Z }.

(** Before the loop: the modification time of the file, the zero time when it
cannot be read. *)
Definition Watch_start (stat : result io_error Z) (m : Manager) : watch :=
  mkWatch m (match stat with Ok t => t | Err _ => 0%Z end).

(** What one tick sees of the file. *)
Record observation := mkObservation {
  obs_now : Z;
  obs_stat : result io_error Z;
  obs_read : result io_error string }.

Definition Watch_tick (w : watch) (o : observation) : watch :=
  match obs_stat o with
  | Err _ => w
  | Ok modTime =>
      if negb (lastMod w <? modTime)%Z then w
      else mkWatch (snd (Reload (obs_now o) (obs_read o) (watched w))) modTime
  end.

Definition Watch_run (w : watch) (os : list observation) : watch := foldl Watch_tick w os.

(** ** Lemmas *)

Lemma Load_Ok now read p :
  Load now read = Ok p ↔
  ∃ data cfg, read = Ok data ∧ yaml_decode data = Ok cfg ∧ Compile now cfg = Ok p.
Proof using.
  unfold Load. rewrite bind_Ok. setoid_rewrite bind_Ok. setoid_rewrite wrap_err_Ok.
  naive_solver.
Qed.

(** Whether a file loads does not depend on the time. *)
Lemma Load_any_time now now' read :
  is_ok (Load now read) = true → is_ok (Load now' read) = true.
Proof using.
  destruct (Load now read) as [p|] eqn:E; [|done]. intros _.
  apply Load_Ok in E as (data & cfg & -> & Hd & Hc).
  unfold Load. simpl. rewrite Hd. simpl.
  pose proof (file_ok_Compile now' cfg (Compile_file_ok _ _ _ Hc)).
  by destruct (Compile now' cfg).
Qed.

Lemma NewManager_Ok now read m :
  NewManager now read = Ok m ↔ ∃ p, Load now read = Ok p ∧ m = mkManager (Some p).
Proof using. unfold NewManager, Reload. destruct (Load now read); naive_solver. Qed.

(** The policy in service comes from one of the contents read. *)
Definition serves (reads : list string) (m : Manager) : Prop :=
  ∃ p now data cfg, Current m = Some p ∧ data ∈ reads ∧ yaml_decode data = Ok cfg
    ∧ Compile now cfg = Ok p.

Definition reads_of (os : list observation) : list string :=
  omap (λ o, match obs_read o with Ok data => Some data | Err _ => None end) os.

Lemma reads_of_cons o os : reads_of (o :: os) = reads_of [o] ++ reads_of os.
Proof using. unfold reads_of. simpl. by destruct (obs_read o). Qed.

Lemma serves_mono l k m : serves l m → (∀ x, x ∈ l → x ∈ k) → serves k m.
Proof using. intros (p & now & data & cfg & ?) Hl. exists p, now, data, cfg. naive_solver. Qed.

(** What a tick reads of the file: its content, when it is newer. *)
Definition tick_reads (w : watch) (o : observation) : list string :=
  match obs_stat o with
  | Ok t => if (lastMod w <? t)%Z then reads_of [o] else []
  | Err _ => []
  end.

Lemma Watch_tick_serves w o l :
  serves l (watched w) → serves (l ++ tick_reads w o) (watched (Watch_tick w o)).
Proof using.
  intros H. assert (Hl : serves (l ++ tick_reads w o) (watched w)).
  { apply (serves_mono l); [done|]. set_solver. }
  unfold Watch_tick, tick_reads in *. destruct (obs_stat o) as [t|]; [|done].
  destruct (lastMod w <? t)%Z; simpl; [|done].
  unfold Reload. destruct (Load (obs_now o) (obs_read o)) as [p|] eqn:E; [|done].
  apply Load_Ok in E as (data & cfg & Hr & Hd & Hc). exists p, (obs_now o), data, cfg.
  split_and!; try done. unfold reads_of. simpl. rewrite Hr. set_solver.
Qed.

Lemma Watch_run_serves os w l :
  serves l (watched w) → serves (l ++ reads_of os) (watched (Watch_run w os)).
Proof using.
  revert w l. induction os as [|o os IH]; intros w l H.
  - by rewrite app_nil_r.
  - rewrite reads_of_cons, app_assoc. apply (IH (Watch_tick w o)).
    apply (serves_mono (l ++ tick_reads w o)); [by apply Watch_tick_serves|].
    intros x. unfold tick_reads. destruct (obs_stat o); [case_match|]; set_solver.
Qed.

(** ** The file over time

The policy file between edits, and the broker's ticks over it: every edit
gives the file a modification time and a content; at a tick both can be read. *)
Record file := mkFile { modified : Z; content : string }.

Inductive file_event := Edit (f : file) | Tick (now : Z).

Definition observe (now : Z) (f : file) : observation :=
  mkObservation now (Ok (modified f)) (Ok (content f)).

Definition file_step (s : file * watch) (e : file_event) : file * watch :=
  match e with
  | Edit f => (f, snd s)
  | Tick now => (fst s, Watch_tick (snd s) (observe now (fst s)))
  end.

Definition file_run (s : file * watch) (es : list file_event) : file * watch :=
  foldl file_step s es.

(** Edits move the modification time forward. *)
Fixpoint edits_forward (last : Z) (es : list file_event) : Prop :=
  match es with
  | [] => True
  | Edit f :: es' => (last < modified f)%Z ∧ edits_forward (modified f) es'
  | Tick _ :: es' => edits_forward last es'
  end.

Definition edits_load (es : list file_event) : Prop :=
  ∀ f, Edit f ∈ es → is_ok (Load 0 (Ok (content f))) = true.

(** [m] serves the policy of the content [data]. *)
Definition serves_content (data : string) (m : Manager) : Prop :=
  ∃ p now, Current m = Some p ∧ Load now (Ok data) = Ok p.

(** Between the ticks: the watcher has seen the file or an older version, and
serves the file when its modification time is the one seen last. *)
Definition up_to_date (s : file * watch) : Prop :=
  (lastMod (snd s) ≤ modified (fst s))%Z
  ∧ (lastMod (snd s) = modified (fst s) → serves_content (content (fst s)) (watched (snd s)))
  ∧ is_ok (Load 0 (Ok (content (fst s)))) = true.

Lemma tick_current now s :
  up_to_date s →
  up_to_date (file_step s (Tick now))
  ∧ lastMod (snd (file_step s (Tick now))) = modified (fst s).
Proof using.
  destruct s as [f w]. intros (Hle & Heq & Hok). unfold file_step, Watch_tick, up_to_date.
  simpl in *. destruct (Z.ltb_spec (lastMod w) (modified f)) as [Hlt|Hge]; simpl.
  - split; [|done]. split_and!; [lia| |done]. intros _. unfold Reload, serves_content.
    pose proof (Load_any_time 0 now _ Hok).
    destruct (Load now (Ok (content f))) as [p|] eqn:E; [|done]. by exists p, now.
  - split; [done|lia].
Qed.

Lemma file_run_up_to_date es s :
  up_to_date s → edits_forward (modified (fst s)) es → edits_load es → up_to_date (file_run s es).
Proof using.
  revert s. induction es as [|[f|now] es IH]; intros s Hs He Hl; [done|..]; simpl in *.
  - destruct He as [Hlt He]. apply IH; [|done|].
    + destruct Hs as [Hle _]. split_and!; simpl; [lia | lia | apply Hl; left].
    + intros g Hg. apply Hl. by right.
  - apply IH; [by apply tick_current | done |]. intros g Hg. apply Hl. by right.
Qed.

Lemma stale_run nows f w :
  lastMod w = modified f → file_run (f, w) (Tick <$> nows) = (f, w).
Proof using.
  intros H. induction nows as [|now nows IH]; [done|]. simpl.
  unfold Watch_tick. simpl. by rewrite H, Z.ltb_irrefl.
Qed.

(** ** Properties *)

(** After a successful start, whatever the ticks of the watcher see, the
manager serves a policy that was compiled from some content read from the
file: never none, never a partial one. *)
Theorem manager_serves_compiled now read m stat os :
  NewManager now read = Ok m →
  serves (reads_of (mkObservation now stat read :: os))
         (watched (Watch_run (Watch_start stat m) os)).
Proof using.
  intros (p & H & ->)%NewManager_Ok. apply Load_Ok in H as (data & cfg & -> & Hd & Hc).
  apply (Watch_run_serves os (Watch_start stat (mkManager (Some p))) [data]).
  exists p, now, data, cfg. split_and!; try done. left.
Qed.

(** A tick replaces the policy exactly when the file can be examined, is
newer than the last version seen, and loads; in every other case, a failed
reload included, the policy in service stays. *)
Theorem Watch_tick_policy w o :
  Current (watched (Watch_tick w o)) =
  match obs_stat o, Load (obs_now o) (obs_read o) with
  | Ok t, Ok p => if (lastMod w <? t)%Z then Some p else Current (watched w)
  | _, _ => Current (watched w)
  end.
Proof using.
  unfold Watch_tick, Reload. destruct (obs_stat o) as [t|]; [|done].
  destruct (lastMod w <? t)%Z; simpl; by destruct (Load _ _).
Qed.

(** C29: The watcher keeps up with the file: when it starts on the version the
manager loaded, every edit moves the modification time forward and every
version loads, then after a tick the policy in service is the one of the
file's content at that time. *)
Theorem watch_keeps_up f p now0 es now :
  Load now0 (Ok (content f)) = Ok p →
  edits_forward (modified f) es → edits_load es →
  let '(f', w') := file_run (f, Watch_start (Ok (modified f)) (mkManager (Some p)))
                            (es ++ [Tick now]) in
  serves_content (content f') (watched w').
Proof using.
  intros Hp He Hl. unfold file_run. rewrite foldl_app. fold (file_run
    (f, Watch_start (Ok (modified f)) (mkManager (Some p))) es).
  assert (H0 : up_to_date (f, Watch_start (Ok (modified f)) (mkManager (Some p)))).
  { split_and!; simpl; [lia | by exists p, now0|].
    apply (Load_any_time now0). by rewrite Hp. }
  pose proof (file_run_up_to_date es _ H0 He Hl) as H.
  destruct (tick_current now _ H) as [(_ & Hs & _) Hm].
  destruct (file_run _ es) as [f' w']. simpl in *. by apply Hs.
Qed.

(** An edit made between the manager's first load and the first look of the
watcher at the file is never picked up, however many ticks follow, until the
file is modified again: the policy in service stays the one loaded first. *)
Theorem edit_before_watch_missed f p nows :
  Current (watched (snd (file_run
    (f, Watch_start (Ok (modified f)) (mkManager (Some p))) (Tick <$> nows)))) = Some p.
Proof using. by rewrite stale_run. Qed.
End Manager.

(** ** Witnesses

A decoder of two documents. *)
Definition two_documents (data : string) : result unit Config :=
  if data == "A" then Ok test_config
  else if data == "B" then Ok padded_config
  else Err tt.

Example manager_serves_compiled_witness :
  serves two_documents ["A"; "B"; "broken"]
    (watched (Watch_run two_documents
      (Watch_start (Ok 1%Z) (mkManager (Some (the_policy test_config))))
      [mkObservation 6 (Ok 2%Z) (Ok "B"); mkObservation 11 (Err IOError) (Err IOError);
       mkObservation 16 (Ok 3%Z) (Ok "broken")])).
Proof.
  apply (manager_serves_compiled two_documents 0 (Ok "A")).
  vm_compute. reflexivity.
Defined.

Example watch_keeps_up_witness :
  serves_content two_documents "B"
    (watched (snd (file_run two_documents
      (mkFile 1 "A", Watch_start (Ok 1%Z) (mkManager (Some (the_policy test_config))))
      [Edit (mkFile 2 "B"); Tick 5]))).
Proof.
  apply (watch_keeps_up two_documents (mkFile 1 "A") (the_policy test_config) 0
    [Edit (mkFile 2 "B")] 5).
  - vm_compute. reflexivity.
  - vm_compute. split; [reflexivity | done].
  - intros f [=->]%list_elem_of_singleton. vm_compute. reflexivity.
Defined.
End policy_manager.
