(* ===== verification/RateLimit.v ===== *)
(** * Rate limits ([internal/broker/ratelimit])

[Limiter], [New], [Allow] and [prune], and a specification of the limiter as a
log of the grants, which the two maps implement. The mutex makes each [Allow]
one step; the clock readings of a sequence of calls do not decrease. *)

From Stdlib Require Import Ascii.
From S2P Require Import Prelude GoStrings GoTime.
#[local] Open Scope go_scope.

Module ratelimit.

(** A zero value of the maps reads as the empty slice. *)
Notation times m k := (default [] (m !! k)) (only parsing).

Record Limiter := mkLimiter {
  perIdentity : Z;
  perIdentityProfile : Z;
  identity : gmap string (list Z);
  profile : gmap string (list Z) }.

Definition New (perIdentity perIdentityProfile : Z) : Limiter :=
  mkLimiter perIdentity perIdentityProfile ∅ ∅.

Inductive rate_error :=
  | IdentityExceeded (identity : string)
  | ProfileExceeded (identity profile : string).

Fixpoint prune (l : list Z) (after : Z) : list Z :=
  match l with
  | [] => []
  | t :: l' => if (after <? t)%Z then t :: prune l' after else prune l' after
  end.

Definition NUL : string := String Ascii.zero "".
Definition profile_key (identity profile : string) : string :=
  string_app identity (string_app NUL profile).

Definition Allow (now : Z) (id prof : string) (l : Limiter) : option rate_error * Limiter :=
  let windowStart := (now - Hour)%Z in
  let ids := <[id:=prune (times (identity l) id) windowStart]> (identity l) in
  let profileKey := profile_key id prof in
  let profs := <[profileKey:=prune (times (profile l) profileKey) windowStart]> (profile l) in
  let l := mkLimiter (perIdentity l) (perIdentityProfile l) ids profs in
  if (0 <? perIdentity l)%Z && (perIdentity l <=? Z.of_nat (length (times ids id)))%Z
  then (Some (IdentityExceeded id), l)
  else if (0 <? perIdentityProfile l)%Z
          && (perIdentityProfile l <=? Z.of_nat (length (times profs profileKey)))%Z
  then (Some (ProfileExceeded id prof), l)
  else (None, mkLimiter (perIdentity l) (perIdentityProfile l)
                (<[id:=times ids id ++ [now]]> ids)
                (<[profileKey:=times profs profileKey ++ [now]]> profs)).

(** ** The specification: a log of grants *)

Record grant := mkGrant { at_time : Z; to_identity : string; for_profile : string }.

Definition identity_times (id : string) (log : list grant) : list Z :=
  at_time <$> filter (λ g, to_identity g = id) log.
Definition profile_times (id prof : string) (log : list grant) : list Z :=
  at_time <$> filter (λ g, to_identity g = id ∧ for_profile g = prof) log.

(** The limit is reached by the grants of the hour before [now]; a limit that
is not positive is no limit. *)
Definition reached (limit now : Z) (ts : list Z) : bool :=
  (0 <? limit)%Z && (limit <=? Z.of_nat (length (prune ts (now - Hour))))%Z.

Definition spec_allow (perId perProf now : Z) (id prof : string) (log : list grant)
    : option rate_error * list grant :=
  if reached perId now (identity_times id log) then (Some (IdentityExceeded id), log)
  else if reached perProf now (profile_times id prof log) then (Some (ProfileExceeded id prof), log)
  else (None, log ++ [mkGrant now id prof]).

(** A sequence of calls, with the clock reading of each. *)
Record call := mkCall { c_now : Z; c_identity : string; c_profile : string }.

Fixpoint Allow_run (calls : list call) (l : Limiter) : list (option rate_error) * Limiter :=
  match calls with
  | [] => ([], l)
  | c :: cs =>
      let '(r, l1) := Allow (c_now c) (c_identity c) (c_profile c) l in
      let '(rs, l2) := Allow_run cs l1 in (r :: rs, l2)
  end.

Fixpoint spec_run (perId perProf : Z) (calls : list call) (log : list grant)
    : list (option rate_error) * list grant :=
  match calls with
  | [] => ([], log)
  | c :: cs =>
      let '(r, log1) := spec_allow perId perProf (c_now c) (c_identity c) (c_profile c) log in
      let '(rs, log2) := spec_run perId perProf cs log1 in (r :: rs, log2)
  end.

Fixpoint clock_ok (last : Z) (calls : list call) : Prop :=
  match calls with
  | [] => True
  | c :: cs => (last ≤ c_now c)%Z ∧ clock_ok (c_now c) cs
  end.

Definition no_nul (s : string) : Prop := (Ascii.zero ∉ to_list s).

(** ** Pruning *)

Lemma prune_app l k ws : prune (l ++ k) ws = prune l ws ++ prune k ws.
Proof. induction l as [|t l IH]; simpl; [done|]. destruct (ws <? t)%Z; simpl; by rewrite IH. Qed.

Lemma prune_prune l ws ws' : (ws' ≤ ws)%Z → prune (prune l ws') ws = prune l ws.
Proof.
  intros H. induction l as [|t l IH]; simpl; [done|].
  destruct (Z.ltb_spec ws' t); simpl; rewrite IH; [done|].
  destruct (Z.ltb_spec ws t); [lia | done].
Qed.

Lemma prune_length l ws : length (prune l ws) ≤ length l.
Proof. induction l as [|t l IH]; simpl; [done|]. destruct (ws <? t)%Z; simpl; lia. Qed.

Lemma prune_mono_length l ws ws' :
  (ws' ≤ ws)%Z → length (prune l ws) ≤ length (prune l ws').
Proof. intros H. rewrite <- (prune_prune l ws ws') by done. apply prune_length. Qed.

(** ** The keys of the profile map *)

Lemma profile_key_inj id prof id' prof' :
  no_nul id → no_nul id' → profile_key id prof = profile_key id' prof' →
  id = id' ∧ prof = prof'.
Proof.
  unfold profile_key, no_nul. revert id'.
  induction id as [|a id IH]; intros [|b id'] Hn Hn' H; simpl in *.
  - by injection H.
  - injection H as <- _. set_solver.
  - injection H as -> _. set_solver.
  - injection H as -> H. destruct (IH id') as [-> ->]; set_solver.
Qed.

(** ** The maps implement the log *)

Record implements (now perId perProf : Z) (l : Limiter) (log : list grant) : Prop := {
  im_perId : perIdentity l = perId;
  im_perProf : perIdentityProfile l = perProf;
  im_identity : ∀ id ws, (now - Hour ≤ ws)%Z →
    prune (times (identity l) id) ws = prune (identity_times id log) ws;
  im_profile : ∀ id prof ws, no_nul id → (now - Hour ≤ ws)%Z →
    prune (times (profile l) (profile_key id prof)) ws = prune (profile_times id prof log) ws }.

Lemma implements_later now now' perId perProf l log :
  (now ≤ now')%Z → implements now perId perProf l log → implements now' perId perProf l log.
Proof. intros H [? ? Hi Hp]. constructor; [done..| |]; intros; [apply Hi | apply Hp]; lia || done. Qed.

Lemma identity_times_app id log g :
  identity_times id (log ++ [g])
  = identity_times id log ++ (if decide (to_identity g = id) then [at_time g] else []).
Proof.
  unfold identity_times. rewrite filter_app, fmap_app. f_equal.
  rewrite filter_cons. by case_decide.
Qed.

Lemma profile_times_app id prof log g :
  profile_times id prof (log ++ [g])
  = profile_times id prof log
    ++ (if decide (to_identity g = id ∧ for_profile g = prof) then [at_time g] else []).
Proof.
  unfold profile_times. rewrite filter_app, fmap_app. f_equal.
  rewrite filter_cons. by case_decide.
Qed.

(** Replacing a slice by its pruned form changes no later window. *)
Lemma pruned_lookup (m : gmap string (list Z)) k k' ws ws' :
  (ws' ≤ ws)%Z →
  prune (times (<[k:=prune (times m k) ws']> m) k') ws = prune (times m k') ws.
Proof.
  intros H. destruct (decide (k = k')) as [<-|Hne].
  - by rewrite lookup_insert_eq; simpl; rewrite prune_prune.
  - by rewrite lookup_insert_ne.
Qed.

Lemma implements_prune now perId perProf l log id key :
  implements now perId perProf l log →
  implements now perId perProf
    (mkLimiter (perIdentity l) (perIdentityProfile l)
       (<[id:=prune (times (identity l) id) (now - Hour)]> (identity l))
       (<[key:=prune (times (profile l) key) (now - Hour)]> (profile l))) log.
Proof.
  intros [? ? Hi Hp]. constructor; simpl; [done..| |]; intros; rewrite pruned_lookup by done; auto.
Qed.

Lemma implements_grant now perId perProf l log id prof :
  no_nul id → implements now perId perProf l log →
  implements now perId perProf
    (mkLimiter (perIdentity l) (perIdentityProfile l)
       (<[id:=times (identity l) id ++ [now]]> (identity l))
       (<[profile_key id prof:=times (profile l) (profile_key id prof) ++ [now]]> (profile l)))
    (log ++ [mkGrant now id prof]).
Proof.
  intros Hid [? ? Hi Hp]. constructor; simpl; [done..| |].
  - intros id' ws Hws. rewrite identity_times_app, prune_app. simpl. case_decide as E.
    + subst. rewrite lookup_insert_eq. simpl. by rewrite prune_app, Hi.
    + rewrite lookup_insert_ne, app_nil_r by done. by apply Hi.
  - intros id' prof' ws Hid' Hws. rewrite profile_times_app, prune_app. simpl.
    case_decide as E.
    + destruct E as [-> ->]. rewrite lookup_insert_eq. simpl. by rewrite prune_app, Hp.
    + rewrite lookup_insert_ne, app_nil_r; [by apply Hp|].
      intros [-> ->]%profile_key_inj; [by apply E | done..].
Qed.

Lemma Allow_implements now perId perProf l log id prof :
  no_nul id → implements now perId perProf l log →
  fst (Allow now id prof l) = fst (spec_allow perId perProf now id prof log)
  ∧ implements now perId perProf (snd (Allow now id prof l))
      (snd (spec_allow perId perProf now id prof log)).
Proof.
  intros Hid H. pose proof (implements_prune now perId perProf l log id (profile_key id prof) H) as Hpr.
  unfold Allow, spec_allow, reached. cbv zeta. cbn [perIdentity perIdentityProfile].
  rewrite !lookup_insert_eq. cbn [default].
  rewrite (im_identity _ _ _ _ _ H) by lia. rewrite (im_profile _ _ _ _ _ H) by (done || lia).
  rewrite (im_perId _ _ _ _ _ H), (im_perProf _ _ _ _ _ H).
  pose proof (implements_grant _ _ _ _ _ id prof Hid Hpr) as Hg. cbn in Hg.
  rewrite !lookup_insert_eq in Hg. cbn [default] in Hg.
  rewrite (im_identity _ _ _ _ _ H), (im_profile _ _ _ _ _ H) in Hg by (done || lia).
  rewrite (im_perId _ _ _ _ _ H), (im_perProf _ _ _ _ _ H) in Hg.
  rewrite (im_perId _ _ _ _ _ H), (im_perProf _ _ _ _ _ H) in Hpr.
  rewrite (im_identity _ _ _ _ _ H), (im_profile _ _ _ _ _ H) in Hpr by (done || lia).
  destruct (_ && _); [done|]. by destruct (_ && _).
Qed.

Lemma New_implements now perId perProf : implements now perId perProf (New perId perProf) [].
Proof. by constructor. Qed.

Lemma Allow_run_implements now perId perProf l log calls :
  implements now perId perProf l log → clock_ok now calls →
  Forall (λ c, no_nul (c_identity c)) calls →
  fst (Allow_run calls l) = fst (spec_run perId perProf calls log).
Proof.
  revert now l log. induction calls as [|c cs IH]; intros now l log H Hc Hn; [done|].
  destruct Hc as [Hle Hc]. inversion Hn as [|? ? Hid Hn']; subst. simpl.
  destruct (Allow_implements (c_now c) perId perProf l log (c_identity c) (c_profile c))
    as [Hr Hi]; [done | by eapply implements_later|].
  destruct (Allow _ _ _ l) as [r l1], (spec_allow _ _ _ _ _ log) as [r' log1]. simpl in *.
  specialize (IH _ _ _ Hi Hc Hn').
  destruct (Allow_run cs l1), (spec_run _ _ cs log1). simpl in *. congruence.
Qed.

(** ** Windows *)

(** The number of instants in the hour that ends at [T]. *)
Definition window_count (ts : list Z) (T : Z) : nat :=
  length (filter (λ t, (T - Hour < t)%Z ∧ (t ≤ T)%Z) ts).

(** The calls a run granted. *)
Fixpoint granted (calls : list call) (rs : list (option rate_error)) : list grant :=
  match calls, rs with
  | c :: cs, None :: rs' => mkGrant (c_now c) (c_identity c) (c_profile c) :: granted cs rs'
  | _ :: cs, Some _ :: rs' => granted cs rs'
  | _, _ => []
  end.

Lemma spec_run_granted perId perProf calls log :
  snd (spec_run perId perProf calls log)
  = log ++ granted calls (fst (spec_run perId perProf calls log)).
Proof.
  revert log. induction calls as [|c cs IH]; intros log; [by rewrite app_nil_r|]. simpl.
  unfold spec_allow. destruct (reached _ _ _); [|destruct (reached _ _ _)].
  - specialize (IH log). by destruct (spec_run perId perProf cs log).
  - specialize (IH log). by destruct (spec_run perId perProf cs log).
  - specialize (IH (log ++ [mkGrant (c_now c) (c_identity c) (c_profile c)])).
    destruct (spec_run _ _ cs _). simpl in *. rewrite IH. by rewrite <- app_assoc.
Qed.

Lemma window_count_prune ts T now :
  (now ≤ T)%Z → window_count ts T ≤ length (prune ts (now - Hour)).
Proof.
  intros H. unfold window_count. induction ts as [|t ts IH]; simpl; [lia|].
  rewrite filter_cons. destruct (Z.ltb_spec (now - Hour) t); case_decide; simpl; lia.
Qed.

Lemma window_count_app ts T now :
  window_count (ts ++ [now]) T
  = (window_count ts T + if decide ((T - Hour < now)%Z ∧ (now ≤ T)%Z) then 1 else 0)%nat.
Proof.
  unfold window_count. rewrite filter_app, length_app, filter_cons. by case_decide.
Qed.

(** Granting while the limit is not reached keeps every window within it. *)
Lemma window_count_grant limit ts now :
  (0 < limit)%Z → reached limit now ts = false →
  (∀ T, (Z.of_nat (window_count ts T) ≤ limit)%Z) →
  ∀ T, (Z.of_nat (window_count (ts ++ [now]) T) ≤ limit)%Z.
Proof.
  unfold reached. intros Hl Hr Hw T. rewrite window_count_app. specialize (Hw T).
  case_decide; [|lia]. pose proof (window_count_prune ts T now). lia.
Qed.

Definition within (perId perProf : Z) (log : list grant) : Prop :=
  ((0 < perId)%Z → ∀ id T, (Z.of_nat (window_count (identity_times id log) T) ≤ perId)%Z)
  ∧ ((0 < perProf)%Z → ∀ id prof T,
      (Z.of_nat (window_count (profile_times id prof log) T) ≤ perProf)%Z).

Lemma spec_allow_within perId perProf now id prof log :
  within perId perProf log → within perId perProf (snd (spec_allow perId perProf now id prof log)).
Proof.
  intros H. unfold spec_allow. destruct (reached perId _ _) eqn:E1; [done|].
  destruct (reached perProf _ _) eqn:E2; [done|]. destruct H as [Hi Hp]. split; intros Hl; intros.
  - simpl. rewrite identity_times_app. case_decide as D; [|rewrite app_nil_r; auto].
    simpl in *. subst. apply window_count_grant; auto.
  - simpl. rewrite profile_times_app. case_decide as D; [|rewrite app_nil_r; auto].
    destruct D as [<- <-]. apply window_count_grant; auto.
Qed.

(** What a call adds to the log. *)
Lemma spec_allow_log perId perProf now id prof log :
  snd (spec_allow perId perProf now id prof log)
  = log ++ match fst (spec_allow perId perProf now id prof log) with
           | None => [mkGrant now id prof] | Some _ => [] end.
Proof.
  unfold spec_allow. by destruct (reached perId _ _); [|destruct (reached perProf _ _)]; rewrite ?app_nil_r.
Qed.

(** A call is refused when the hour before it is full. *)
Lemma reached_window limit ts now :
  (∀ t, t ∈ ts → (t ≤ now)%Z) → reached limit now ts = true →
  (0 < limit)%Z ∧ (limit ≤ Z.of_nat (window_count ts now))%Z.
Proof.
  unfold reached, window_count. intros Hts [Hl Hn]%andb_true_iff. split; [lia|].
  assert (length (prune ts (now - Hour)) ≤ length (filter (λ t, (now - Hour < t)%Z ∧ (t ≤ now)%Z) ts)); [|lia].
  clear Hl Hn. induction ts as [|t ts IH]; simpl; [lia|].
  pose proof (Hts t (list_elem_of_here t ts)) as Ht. specialize (IH (λ x Hx, Hts x (list_elem_of_further x t ts Hx))).
  rewrite filter_cons. destruct (Z.ltb_spec (now - Hour) t); case_decide; simpl; lia.
Qed.

Lemma Allow_refused now perId perProf l log id prof e :
  no_nul id → implements now perId perProf l log → (∀ g, g ∈ log → (at_time g ≤ now)%Z) →
  fst (Allow now id prof l) = Some e →
  ((0 < perId)%Z ∧ (perId ≤ Z.of_nat (window_count (identity_times id log) now))%Z)
  ∨ ((0 < perProf)%Z ∧ (perProf ≤ Z.of_nat (window_count (profile_times id prof log) now))%Z).
Proof.
  intros Hid Hi Hlog. destruct (Allow_implements now perId perProf l log id prof Hid Hi) as [-> _].
  assert (Hts : ∀ Q `{!∀ g, Decision (Q g)} t, t ∈ at_time <$> filter Q log → (t ≤ now)%Z).
  { intros Q ? t (g & -> & [_ Hg]%list_elem_of_filter)%list_elem_of_fmap. by apply Hlog. }
  unfold spec_allow. destruct (reached perId _ _) eqn:E1; [left; by apply reached_window; [apply Hts|]|].
  destruct (reached perProf _ _) eqn:E2; [right; by apply reached_window; [apply Hts|]|done].
Qed.

Lemma spec_run_within perId perProf calls log :
  within perId perProf log → within perId perProf (snd (spec_run perId perProf calls log)).
Proof.
  revert log. induction calls as [|c cs IH]; intros log H; [done|]. simpl.
  pose proof (spec_allow_within _ _ (c_now c) (c_identity c) (c_profile c) _ H) as H1.
  destruct (spec_allow _ _ _ _ _ log) as [r log1]. simpl in H1. specialize (IH _ H1).
  by destruct (spec_run _ _ cs log1).
Qed.

(** ** Properties *)

(** A limiter whose clock does not go back answers every sequence of calls
as the log of its grants does: a call is refused exactly when the grants of
the hour before it, to its identity or to its identity and profile, reach a
positive limit; a refusal consumes nothing. *)
Theorem Limiter_refines_log start perId perProf calls :
  clock_ok start calls → Forall (λ c, no_nul (c_identity c)) calls →
  fst (Allow_run calls (New perId perProf)) = fst (spec_run perId perProf calls []).
Proof. intros. apply (Allow_run_implements start); [apply New_implements | done..]. Qed.

Definition test_calls : list call :=
  [mkCall Hour "edge01" "edge"; mkCall (Hour + 1) "edge01" "edge";
   mkCall (2 * Hour) "edge01" "api"; mkCall (2 * Hour + 1) "edge01" "edge"].

Example Limiter_refines_log_witness :
  fst (spec_run 2 1 test_calls [])
  = [None; Some (ProfileExceeded "edge01" "edge"); None; None]
  ∧ fst (Allow_run test_calls (New 2 1)) = fst (spec_run 2 1 test_calls []).
Proof.
  split; [vm_compute; reflexivity|]. apply (Limiter_refines_log 0).
  - vm_compute. intuition discriminate.
  - unfold test_calls. repeat constructor; unfold no_nul; vm_compute; set_solver.
Defined.

(** C13: In no hour, whenever it ends, does a limiter with a positive limit
grant more calls to an identity, or to an identity and profile, than the
limit. *)
Theorem Limiter_window start perId perProf calls :
  clock_ok start calls → Forall (λ c, no_nul (c_identity c)) calls →
  let grants := granted calls (fst (Allow_run calls (New perId perProf))) in
  ((0 < perId)%Z → ∀ id T, (Z.of_nat (window_count (identity_times id grants) T) ≤ perId)%Z)
  ∧ ((0 < perProf)%Z → ∀ id prof T,
      (Z.of_nat (window_count (profile_times id prof grants) T) ≤ perProf)%Z).
Proof.
  intros Hc Hn grants.
  assert (grants = snd (spec_run perId perProf calls [])) as ->.
  { unfold grants. rewrite (Allow_run_implements start _ _ _ [] _ (New_implements _ _ _)) by done.
    by rewrite spec_run_granted. }
  apply spec_run_within. split; intros Hl; intros; unfold window_count; simpl; lia.
Qed.

Example Limiter_window_witness :
  (Z.of_nat (window_count (identity_times "edge01"
     (granted test_calls (fst (Allow_run test_calls (New 2 1))))) (2 * Hour)) ≤ 2)%Z.
Proof.
  refine (proj1 (Limiter_window 0 2 1 test_calls _ _) _ "edge01" (2 * Hour)%Z).
  - vm_compute. intuition discriminate.
  - unfold test_calls. repeat constructor; unfold no_nul; vm_compute; set_solver.
  - lia.
Defined.
End ratelimit.
