(* ===== verification/Pki.v ===== *)
(** * Certificates, requests and keys ([internal/pki])

[cert.go], [csr.go], [bundle.go] and [key.go], over the operations of
[encoding/pem] and [crypto/x509] they call: the interface [Crypto], whose
laws [CryptoLaws] state that what the library encodes it decodes. Digests and
DNS names are computed. *)

From Stdlib Require Import Ascii HexadecimalString HexadecimalN.
From S2P Require Import Prelude GoStrings DnsName Sha256 GoTime X509.
Import dnsname sha256 x509.
#[local] Open Scope go_scope.

Module pki.

(** ** The library *)

Record Block := mkBlock { Block_Type : string; Block_Bytes : string }.

(** A private key whose type implements [crypto.Signer]. *)
Record Signer := mkSigner { Public : PublicKey; Secret : string }.

(** What [CreateCertificateRequest] is given. *)
Record csr_template := mkTemplate { tpl_CommonName : string; tpl_DNSNames : list string }.

(** The library's errors are opaque texts. [randomness] is what a call reads
from [rand.Reader]. *)
Class Crypto := {
  pem_Decode : string → option Block;
  pem_EncodeToMemory : Block → string;
  ParseCertificate : string → result string Certificate;
  ParseCertificateRequest : string → result string CertificateRequest;
  CheckSignature : CertificateRequest → option string;
  CreateCertificateRequest : string → csr_template → Signer → result string string;
  (** the parsed key, and whether it is a [crypto.Signer] *)
  ParsePKCS8PrivateKey : string → result string (option Signer);
  MarshalPKCS8PrivateKey : Signer → result string string;
  ParseECPrivateKey : string → result string Signer;
  ecdsa_GenerateKey : string → result string Signer }.

Class CryptoLaws `{Crypto} : Prop := {
  pem_decode_encode t bytes :
    t ∈ ["CERTIFICATE"; "CERTIFICATE REQUEST"; "PRIVATE KEY"] →
    pem_Decode (pem_EncodeToMemory (mkBlock t bytes)) = Some (mkBlock t bytes);
  request_decodes rnd tpl key der :
    CreateCertificateRequest rnd tpl key = Ok der →
    ∃ csr, ParseCertificateRequest der = Ok csr ∧ CheckSignature csr = None
      ∧ csr_CommonName csr = tpl_CommonName tpl ∧ csr_DNSNames csr = tpl_DNSNames tpl
      ∧ csr_PublicKey csr = Public key;
  certificate_raw der cert : ParseCertificate der = Ok cert → cert_Raw cert = der;
  pkcs8_decodes key der :
    MarshalPKCS8PrivateKey key = Ok der → ParsePKCS8PrivateKey der = Ok (Some key) }.

(** ** Errors *)

Inductive pki_error :=
  | NoPEMBlock
  | UnexpectedBlockType (t : string)
  | ParsingFailed (e : string)
  | InvalidSignature (e : string)
  | MarshalingCertificateKey
  | MarshalingPrivateKey
  | MarshalingPublicKey
  | MarshalingPKCS8 (e : string)
  | KeyMismatch
  | CanonicalizingCertificate (e : dnsname.error)
  | CanonicalizingExpected (e : dnsname.error)
  | NamesMismatch (actual expected : list string)
  | IdentityRequired
  | CanonicalizingService (e : dnsname.error)
  | NoServiceName
  | CreatingCSR (e : string)
  | GeneratingKey (e : string)
  | NotASigner.

(** ** bundle.go *)

Record Bundle := mkBundle {
  CertPEM : string;
  ChainPEM : string;
  FullChainPEM : string;
  LeafSerialNumber : string;
  NotBefore : Z;
  NotAfter : Z }.

#[export] Instance Bundle_eq_dec : EqDecision Bundle.
Proof. solve_decision. Defined.

(** ** cert.go *)

Section Pki.
Context `{CR : Crypto}.

Definition ParseCertificatePEM (data : string) : result pki_error Certificate :=
  match pem_Decode data with
  | None => Err NoPEMBlock
  | Some block =>
      if Block_Type block != "CERTIFICATE" then Err (UnexpectedBlockType (Block_Type block))
      else wrap_err ParsingFailed (ParseCertificate (Block_Bytes block))
  end.

Definition EncodeCertPEM (cert : Certificate) : string :=
  pem_EncodeToMemory (mkBlock "CERTIFICATE" (cert_Raw cert)).

Definition ExpiresWithin (now : Z) (cert : Certificate) (d : Z) : bool :=
  (time_Until now (cert_NotAfter cert) <=? d)%Z.

Definition IsExpired (now : Z) (cert : Certificate) : bool := (cert_NotAfter cert <? now)%Z.

Definition CertificateMatchesPrivateKey (cert : Certificate) (key : Signer)
    : result pki_error unit :=
  match pkix_der (cert_PublicKey cert) with
  | None => Err MarshalingCertificateKey
  | Some certPubDER =>
      match pkix_der (Public key) with
      | None => Err MarshalingPrivateKey
      | Some keyPubDER => if certPubDER != keyPubDER then Err KeyMismatch else Ok tt
      end
  end.

(** [n.Text(16)]. *)
Definition big_hex (z : Z) : string :=
  let digits := NilEmpty.string_of_uint (N.to_hex_uint (Z.abs_N z)) in
  if (z <? 0)%Z then String "-" digits else digits.

Definition SerialString (n : option Z) : string :=
  match n with None => "" | Some z => big_hex z end.

Definition CertificateHasExactDNSNames (cert : Certificate) (expected : list string)
    : result pki_error unit :=
  actual ← wrap_err CanonicalizingCertificate (CanonicalList (cert_DNSNames cert));
  exp ← wrap_err CanonicalizingExpected (CanonicalList expected);
  if negb (EqualSet actual exp) then Err (NamesMismatch actual exp) else Ok tt.

(** ** csr.go *)

Definition createCSR (rnd : string) (privateKey : Signer) (tpl : csr_template)
    : result pki_error string :=
  der ← wrap_err CreatingCSR (CreateCertificateRequest rnd tpl privateKey);
  mret (pem_EncodeToMemory (mkBlock "CERTIFICATE REQUEST" der)).

Definition GenerateIdentityCSR (rnd : string) (privateKey : Signer) (identity : string)
    : result pki_error string :=
  let identity := TrimSpace identity in
  if identity == "" then Err IdentityRequired
  else createCSR rnd privateKey (mkTemplate identity []).

Definition GenerateServiceCSR (rnd : string) (privateKey : Signer) (names : list string)
    : result pki_error string :=
  canonical ← wrap_err CanonicalizingService (CanonicalList names);
  match canonical with
  | [] => Err NoServiceName
  | first :: _ => createCSR rnd privateKey (mkTemplate first canonical)
  end.

Definition ParseCSRPEM (data : string) : result pki_error CertificateRequest :=
  match pem_Decode data with
  | None => Err NoPEMBlock
  | Some block =>
      if Block_Type block != "CERTIFICATE REQUEST"
      then Err (UnexpectedBlockType (Block_Type block))
      else
        csr ← wrap_err ParsingFailed (ParseCertificateRequest (Block_Bytes block));
        match CheckSignature csr with
        | Some e => Err (InvalidSignature e)
        | None => Ok csr
        end
  end.

Definition PublicKeyFingerprint (publicKey : PublicKey) : result pki_error string :=
  match pkix_der publicKey with
  | None => Err MarshalingPublicKey
  | Some der => Ok (hex_sha256 der)
  end.

Definition CSRFingerprint (csrPEM : string) : string := hex_sha256 csrPEM.

(** ** key.go *)

Definition GenerateECDSAKey (rnd : string) : result pki_error Signer :=
  wrap_err GeneratingKey (ecdsa_GenerateKey rnd).

Definition MarshalPrivateKeyPEM (key : Signer) : result pki_error string :=
  der ← wrap_err MarshalingPKCS8 (MarshalPKCS8PrivateKey key);
  mret (pem_EncodeToMemory (mkBlock "PRIVATE KEY" der)).

Definition ParsePrivateKeyPEM (data : string) : result pki_error Signer :=
  match pem_Decode data with
  | None => Err NoPEMBlock
  | Some block =>
      key ← (if Block_Type block == "PRIVATE KEY"
             then wrap_err ParsingFailed (ParsePKCS8PrivateKey (Block_Bytes block))
             else if Block_Type block == "EC PRIVATE KEY"
             then wrap_err ParsingFailed (Some <$> ParseECPrivateKey (Block_Bytes block))
             else Err (UnexpectedBlockType (Block_Type block)));
      match key with None => Err NotASigner | Some signer => Ok signer end
  end.

(** ** Lemmas *)

Lemma CertificateMatchesPrivateKey_Ok cert key :
  CertificateMatchesPrivateKey cert key = Ok tt ↔
  pkix_der (cert_PublicKey cert) = pkix_der (Public key) ∧ is_Some (pkix_der (Public key)).
Proof using.
  unfold CertificateMatchesPrivateKey.
  destruct (pkix_der (cert_PublicKey cert)) as [a|], (pkix_der (Public key)) as [b|]; simpl.
  - case_bool_decide as E; simpl; [subst; naive_solver|]. split; [done|]. naive_solver.
  - split; [done|]. naive_solver.
  - split; [done|]. naive_solver.
  - split; [done|]. intros [_ [? ?]]. done.
Qed.

Lemma CertificateHasExactDNSNames_Ok cert expected :
  CertificateHasExactDNSNames cert expected = Ok tt ↔
  EqualSet (cert_DNSNames cert) expected = true.
Proof using.
  unfold CertificateHasExactDNSNames. rewrite EqualSet_lists.
  destruct (CanonicalList (cert_DNSNames cert)) as [a|] eqn:Ea; [|naive_solver].
  destruct (CanonicalList expected) as [b|] eqn:Eb; [|naive_solver]. simpl.
  apply CanonicalList_fix in Ea as Fa. apply CanonicalList_fix in Eb as Fb.
  pose proof (EqualSet_lists a b) as Hs. rewrite Fa, Fb in Hs.
  destruct (EqualSet a b); simpl; naive_solver.
Qed.

Lemma big_hex_inj z z' : big_hex z = big_hex z' → (0 ≤ z)%Z → (0 ≤ z')%Z → z = z'.
Proof using.
  unfold big_hex. intros E Hz Hz'.
  destruct (Z.ltb_spec z 0); [lia|]. destruct (Z.ltb_spec z' 0); [lia|].
  assert (Some (N.to_hex_uint (Z.abs_N z)) = Some (N.to_hex_uint (Z.abs_N z'))) as [= E'].
  { by rewrite <- !NilEmpty.usu, E. }
  apply HexadecimalN.Unsigned.to_uint_inj in E'. lia.
Qed.

Lemma createCSR_parses `{CL : !CryptoLaws} rnd key tpl pem :
  createCSR rnd key tpl = Ok pem →
  ∃ csr, ParseCSRPEM pem = Ok csr ∧ csr_CommonName csr = tpl_CommonName tpl
    ∧ csr_DNSNames csr = tpl_DNSNames tpl ∧ csr_PublicKey csr = Public key.
Proof using.
  unfold createCSR. intros (der & Hder%wrap_err_Ok & [= <-])%bind_Ok.
  apply request_decodes in Hder as (csr & Hp & Hs & Hc & Hn & Hk). exists csr.
  split_and!; try done. unfold ParseCSRPEM. rewrite pem_decode_encode by set_solver.
  simpl. by rewrite Hp; simpl; rewrite Hs.
Qed.

Lemma service_csr_parses `{CL : !CryptoLaws} rnd key names pem :
  GenerateServiceCSR rnd key names = Ok pem →
  ∃ csr first rest, CanonicalList names = Ok (first :: rest)
    ∧ ParseCSRPEM pem = Ok csr ∧ csr_CommonName csr = first
    ∧ csr_DNSNames csr = first :: rest ∧ csr_PublicKey csr = Public key.
Proof using.
  unfold GenerateServiceCSR.
  intros (canonical & Hc%wrap_err_Ok & H)%bind_Ok. destruct canonical as [|first rest]; [done|].
  apply createCSR_parses in H as (csr & ? & ? & ? & ?). by exists csr, first, rest.
Qed.

(** ** Properties *)

(** A service request the agent generates parses, with a valid signature:
it asks for the canonical form of the names, the first of them as common name,
and carries the public half of the key. *)
Theorem GenerateServiceCSR_parses `{CL : !CryptoLaws} rnd key names pem :
  GenerateServiceCSR rnd key names = Ok pem →
  ∃ csr first rest, CanonicalList names = Ok (first :: rest)
    ∧ ParseCSRPEM pem = Ok csr ∧ csr_CommonName csr = first
    ∧ csr_DNSNames csr = first :: rest ∧ csr_PublicKey csr = Public key.
Proof using. apply service_csr_parses. Qed.

(** A private key written as PEM is read back as the same key, and the
reader refuses every other kind of block. *)
Theorem private_key_roundtrip `{CL : !CryptoLaws} key pem :
  MarshalPrivateKeyPEM key = Ok pem →
  ParsePrivateKeyPEM pem = Ok key
  ∧ ∀ t bytes, t ∈ ["CERTIFICATE"; "CERTIFICATE REQUEST"] →
      ParsePrivateKeyPEM (pem_EncodeToMemory (mkBlock t bytes)) = Err (UnexpectedBlockType t).
Proof using.
  unfold MarshalPrivateKeyPEM, ParsePrivateKeyPEM. intros (der & E%wrap_err_Ok & [= <-])%bind_Ok. split.
  - rewrite pem_decode_encode by set_solver. simpl. by rewrite (pkcs8_decodes key).
  - intros t bytes Ht. rewrite pem_decode_encode by set_solver. simpl.
    apply list_elem_of_In in Ht. by destruct Ht as [<-|[<-|[]]].
Qed.

(** A certificate has exactly the expected names when the two lists denote
the same set of DNS names, and matches a private key when the two public keys
have the same encoding. *)
Theorem certificate_checks cert key expected :
  (is_ok (CertificateHasExactDNSNames cert expected) = true ↔
     EqualSet (cert_DNSNames cert) expected = true)
  ∧ (is_ok (CertificateMatchesPrivateKey cert key) = true ↔
     ∃ der, pkix_der (cert_PublicKey cert) = Some der ∧ pkix_der (Public key) = Some der).
Proof using.
  assert (Hok : ∀ r : result pki_error unit, is_ok r = true ↔ r = Ok tt).
  { intros [[]|]; naive_solver. }
  rewrite !Hok, CertificateHasExactDNSNames_Ok, CertificateMatchesPrivateKey_Ok.
  unfold is_Some. naive_solver congruence.
Qed.

(** A certificate expires within a margin exactly when its end of validity
is at most the margin away, whatever the margin a duration can hold; an
expired certificate expires within every margin that is not negative; serial
numbers that are not negative have distinct texts. *)
Theorem expiry_and_serial now cert d z z' :
  is_duration d →
  (ExpiresWithin now cert d = true ↔
     (cert_NotAfter cert - now ≤ d)%Z ∨ d = maxDuration)
  ∧ (IsExpired now cert = true → (0 ≤ d)%Z → ExpiresWithin now cert d = true)
  ∧ (SerialString (Some z) = SerialString (Some z') → (0 ≤ z)%Z → (0 ≤ z')%Z → z = z').
Proof using.
  intros Hd. unfold ExpiresWithin, IsExpired, time_Until, time_Sub, clamp_duration.
  unfold is_duration, maxDuration, minDuration in *. split_and!; [lia|lia|].
  apply big_hex_inj.
Qed.
End Pki.

(** ** A library that knows one key, one request and one certificate *)

Definition test_key : Signer := mkSigner (mkPublicKey (Some "pub")) "priv".
Definition test_template : csr_template :=
  mkTemplate "api-v2.whisper.cl" ["api-v2.whisper.cl"; "api.whisper.cl"].
Definition test_request : CertificateRequest :=
  mkCertificateRequest "api-v2.whisper.cl" ["api-v2.whisper.cl"; "api.whisper.cl"]
    (mkPublicKey (Some "pub")).

#[export] Instance csr_template_eq_dec : EqDecision csr_template.
Proof. solve_decision. Defined.
#[export] Instance Signer_eq_dec : EqDecision Signer.
Proof. solve_decision. Defined.

Fixpoint until_colon (s : string) : option (string * string) :=
  match s with
  | "" => None
  | String a s' =>
      if a == ":"%char then Some ("", s')
      else match until_colon s' with Some (t, b) => Some (String a t, b) | None => None end
  end.

Definition test_crypto : Crypto := {|
  pem_Decode s := match until_colon s with Some (t, b) => Some (mkBlock t b) | None => None end;
  pem_EncodeToMemory b := string_app (Block_Type b) (String ":" (Block_Bytes b));
  ParseCertificate der := Err "no certificate";
  ParseCertificateRequest der := if der == "request" then Ok test_request else Err "no request";
  CheckSignature _ := None;
  CreateCertificateRequest _ tpl key :=
    if (tpl == test_template) && (key == test_key) then Ok "request" else Err "cannot sign";
  ParsePKCS8PrivateKey der := if der == "priv" then Ok (Some test_key) else Err "no key";
  MarshalPKCS8PrivateKey key := if key == test_key then Ok "priv" else Err "unknown key";
  ParseECPrivateKey _ := Err "no key";
  ecdsa_GenerateKey _ := Ok test_key |}.

Lemma until_colon_app t b :
  (":"%char ∉ to_list t) → until_colon (string_app t (String ":" b)) = Some (t, b).
Proof.
  induction t as [|a t IH]; simpl; [done|]. intros H.
  rewrite bool_decide_false by set_solver. rewrite IH by set_solver. done.
Qed.

Lemma test_crypto_laws : @CryptoLaws test_crypto.
Proof.
  constructor; simpl.
  - intros t bytes Ht. rewrite until_colon_app; [done|].
    apply list_elem_of_In in Ht. destruct Ht as [<-|[<-|[<-|[]]]]; vm_compute; set_solver.
  - intros rnd tpl key der. case_bool_decide as E1; [|done]. case_bool_decide as E2; [|done].
    intros [= <-]. rewrite E1, E2. exists test_request. by rewrite bool_decide_true.
  - done.
  - intros key der. case_bool_decide as E; [|done]. intros [= <-]. by rewrite E.
Qed.

Example GenerateServiceCSR_parses_witness :
  ∃ csr first rest,
    CanonicalList ["api.whisper.cl"; "API-v2.whisper.cl."] = Ok (first :: rest)
    ∧ @ParseCSRPEM test_crypto "CERTIFICATE REQUEST:request" = Ok csr
    ∧ csr_CommonName csr = first
    ∧ csr_DNSNames csr = first :: rest ∧ csr_PublicKey csr = Public test_key.
Proof.
  apply (@GenerateServiceCSR_parses test_crypto test_crypto_laws "" test_key).
  vm_compute. reflexivity.
Defined.

Example private_key_roundtrip_witness :
  @ParsePrivateKeyPEM test_crypto "PRIVATE KEY:priv" = Ok test_key.
Proof.
  apply (@private_key_roundtrip test_crypto test_crypto_laws).
  vm_compute. reflexivity.
Defined.

Definition test_certificate : Certificate :=
  mkCertificate "der" (Some 255%Z) "edge01" ["*.whisper.cl"] (mkPublicKey (Some "pub")) false
    [ExtKeyUsageClientAuth] 0 100.

Example expiry_and_serial_witness :
  ExpiresWithin 40 test_certificate 60 = true ∧ SerialString (Some 255%Z) = "ff".
Proof.
  split; [|vm_compute; reflexivity].
  refine (proj2 (proj1 (expiry_and_serial 40 test_certificate 60 0 0 _)) _).
  - unfold is_duration, minDuration, maxDuration. lia.
  - left. vm_compute. discriminate.
Defined.
End pki.
