(* ===== verification/PkiFiles.v ===== *)
(** * Keys and bundles on disk ([internal/pki])

The operations of [bundle.go] and [key.go] on files: [WriteToDisk] and
[EnsureECDSAPrivateKey]. *)

From S2P Require Import Prelude GoStrings Os OsLogic FileUtil X509 Pki.
Import os os_logic fileutil x509 pki.
#[local] Open Scope go_scope.

Module pki_files.

Inductive key_error :=
  | KeyStat (e : file_error)
  | ReadingKey (path : string) (e : errno)
  | ParsingKey (path : string) (e : pki_error)
  | NewKey (e : pki_error)
  | WritingKey (path : string) (e : file_error).

(** The file of a bundle that could not be written. *)
Inductive bundle_error := WritingBundle (path : string) (e : file_error).

Section PkiFiles.
Context (env : environment) {CR : Crypto}.

(** ** bundle.go *)

Fixpoint write_files (files : list (string * string)) : EM bundle_error unit :=
  match files with
  | [] => mret tt
  | (path, text) :: files' =>
      _ ← wrapM (WritingBundle path) (WriteFileAtomic env path text mode_644);
      write_files files'
  end.

Definition WriteToDisk (b : Bundle) (certPath chainPath fullchainPath : string)
    : EM bundle_error unit :=
  write_files [(certPath, CertPEM b); (chainPath, ChainPEM b); (fullchainPath, FullChainPEM b)].

(** ** key.go *)

Definition EnsureECDSAPrivateKey (path : string) : EM key_error (Signer * string) :=
  exists_ ← wrapM KeyStat (FileExists env path);
  if (exists_ : bool) then
    text ← wrapM (ReadingKey path) (ReadFile env path);
    key ← lift (wrap_err (ParsingKey path) (ParsePrivateKeyPEM text));
    mret (key, text)
  else
    rnd ← draw (env_rand env);
    key ← lift (wrap_err NewKey (GenerateECDSAKey rnd));
    pemData ← lift (wrap_err NewKey (MarshalPrivateKeyPEM key));
    _ ← wrapM (WritingKey path) (WriteFileAtomic env path pemData mode_600);
    mret (key, pemData).

(** ** Lemmas *)

Lemma marshal_parses `{CL : !CryptoLaws} key pem :
  MarshalPrivateKeyPEM key = Ok pem → ParsePrivateKeyPEM pem = Ok key.
Proof using.
  unfold MarshalPrivateKeyPEM, ParsePrivateKeyPEM. intros (der & E%wrap_err_Ok & [= <-])%bind_Ok.
  rewrite pem_decode_encode by set_solver. simpl. by rewrite (pkcs8_decodes key).
Qed.

(** A key that was there stays; a new one is complete and private. *)
Definition key_kept (d0 d : disk) (p : string) : Prop :=
  match read_file d0 p with
  | Some _ => keeps d0 d p
  | None => ∀ o, may_be d p o → may_be d0 p o
      ∨ ∃ key kt, MarshalPrivateKeyPEM key = Ok kt ∧ o = Some (kt, mode_600)
  end.

Lemma key_kept_frame d0 d d' p : keeps d d' p → key_kept d0 d p → key_kept d0 d' p.
Proof using.
  intros Hk. unfold key_kept. destruct (read_file d0 p).
  - intros H. by eapply keeps_trans.
  - destruct Hk. naive_solver.
Qed.

Lemma key_kept_new d0 d d' p key kt :
  key_kept d0 d p → read_file d p = None → MarshalPrivateKeyPEM key = Ok kt →
  atomically d d' p (kt, mode_600) → read_file d0 p = None ∧ key_kept d0 d' p.
Proof using.
  intros Hkey Hnone Hkt Ha.
  assert (H0 : read_file d0 p = None).
  { unfold key_kept in Hkey. destruct (read_file d0 p) eqn:E; [|done].
    destruct Hkey as [Hr _]. congruence. }
  split; [done|]. unfold key_kept in *. rewrite H0 in *. intros o Ho.
  destruct (at_path _ _ _ _ Ha) as [[_ Hk]|[_ Hk]]; [by apply Hkey, Hk|].
  destruct (Hk o Ho) as [Hold| ->]; [by apply Hkey|]. right. by exists key, kt.
Qed.

(** The key is read, or written where there was none. *)
Lemma safe_EnsureKey I J p (P : Signer * string → disk → list action → Prop) d l :
  I d → J l → wf_disk d → temp_like p = false →
  (∀ key kt d', read_file d p = None → MarshalPrivateKeyPEM key = Ok kt →
     atomically d d' p (kt, mode_600) → I d') →
  (∀ key kt km, read_file d p = Some (kt, km) → ParsePrivateKeyPEM kt = Ok key → P (key, kt) d l) →
  (∀ key kt d', read_file d p = None → MarshalPrivateKeyPEM key = Ok kt →
     atomically d d' p (kt, mode_600) → durable d' p (kt, mode_600) → I d' → P (key, kt) d' l) →
  safe I J (EnsureECDSAPrivateKey p) P d l.
Proof using.
  intros HI HJ Hwf Hp HIn Hold Hnew. unfold EnsureECDSAPrivateKey.
  do 2 safe_step. apply safe_FileExists; [done..|].
  destruct (names d !! p) as [i|] eqn:Ei; case_bool_decide as Hs.
  - do 2 safe_step. safe_step. intros kt km Hf. do 2 safe_step. intros key Hk%wrap_err_Ok.
    safe_step. by eapply Hold.
  - destruct Hs. by eexists.
  - by destruct Hs.
  - assert (Hnone : read_file d p = None) by (unfold read_file; by rewrite Ei).
    do 2 safe_step. do 2 safe_step. intros key _. do 2 safe_step. intros kt Hkt%wrap_err_Ok.
    do 2 safe_step. apply safe_WriteFile; [done..| |]; [eauto|].
    intros d' Ha Hd _. safe_step; eauto.
Qed.
End PkiFiles.
End pki_files.
