(* ===== verification/Agent.v ===== *)
(** * The agent ([internal/agent])

[client.go], [enroll.go], [renew.go], [run.go] and [check.go]: computations over
the files of a host. What the agent meets beyond its files is an input: the
answers of the broker and of the certificate authority, the shell, and the
library that loads key pairs and bundles, collected in [services]. *)

From Stdlib Require Import Ascii.
From S2P Require Import Prelude GoStrings DnsName GoTime Json JsonDecode Os OsLogic.
From S2P Require Import FileUtil Config X509 Pki PkiFiles.
Import dnsname os os_logic fileutil x509 pki pki_files config.
#[local] Open Scope go_scope.

Module agent.

(** The fields of the broker's answer the agent reads. *)
Record issueResponse := mkIssueResponse {
  res_CertPEM : string;
  res_ChainPEM : string;
  res_FullChainPEM : string;
  res_LeafSerialNumber : string;
  res_NotBefore : string;
  res_NotAfter : string;
  res_Cache : string }.

(** [json.Unmarshal] into the struct. *)
Definition decode_issueResponse (text : string) : option issueResponse :=
  fields ← json_decode.Unmarshal ["cert_pem"; "chain_pem"; "fullchain_pem"; "serial_number"; "not_before";
                      "not_after"; "cache"] text;
  match fields with
  | [cert; chain; fullchain; serial; notBefore; notAfter; cache] =>
      Some (mkIssueResponse cert chain fullchain serial notBefore notAfter cache)
  | _ => None
  end.

(** An HTTP response: its status, and its body when reading it succeeds. *)
Record http_response := mkHttp { http_status : Z; http_body : result string string }.

(** What a shell command leaves: its output, its failure, and whether the context
of the reload is done. *)
Record shell_result := mkShell { sh_output : string; sh_error : option string; sh_done : bool }.

(** The [n]-th draw of a run that reaches one of the services meets the [n]-th
answer, which may depend on what it is sent. *)
Record services := mkServices {
  (* [tls.X509KeyPair] and [AppendCertsFromPEM] *)
  X509KeyPair : string → string → option string;
  AppendCertsFromPEM : string → bool;
  (* [http.NewRequest] accepts the URL *)
  valid_url : string → bool;
  env_http : nat → string → string → result string http_response;
  (* the certificate PEM the authority answers *)
  env_enroll : nat → string → string → result string string;
  env_renew : nat → string → string → string → result string string;
  env_shell : nat → string → shell_result }.

Inductive client_error :=
  | InvalidRequestURL
  | CallingBroker (e : string)
  | ReadingResponse (e : string)
  | BrokerReturned (status : Z) (body : string)
  | ParsingResponse
  | ParsingNotBefore
  | ParsingNotAfter.

Inductive agent_error :=
  | LockError (e : file_error)
  | FileError (e : file_error)
  | IdentityExists (path : string)
  | IdentityMissing (path : string)
  | ReadingFile (path : string) (e : errno)
  | LoadingIdentityKeypair (e : string)
  | NoCACertificates
  | EnsuringKey (name : string) (e : key_error)
  | ParsingFile (path : string) (e : pki_error)
  | IdentityExpired
  | BootstrapTokenEmpty
  | GeneratingCSR (name : string) (e : pki_error)
  | AuthorityError (e : string)
  | WritingIdentity (e : file_error)
  | RemovingToken (e : errno)
  | ExistingMismatch (name : string) (e : pki_error)
  | RequestingCertificate (name : string) (e : client_error)
  | ParsingBrokerCertificate (name : string) (e : pki_error)
  | BrokerKeyMismatch (name : string) (e : pki_error)
  | BrokerNamesMismatch (name : string) (e : pki_error)
  | InstallingBundle (name : string) (e : bundle_error)
  | ReloadTimedOut (name : string)
  | ReloadFailed (name : string) (e output : string)
  | CheckFailed (name : string) (e : agent_error).

Section Agent.
Context (env : environment) (sv : services) {CR : Crypto}.

(** ** client.go *)

(** [BrokerClient]: the address; the transport's certificates are in the
services. *)
Record BrokerClient := mkClient { baseURL : string }.

Definition NewBrokerClient (cfg : AgentConfig) : EM agent_error BrokerClient :=
  let i := Identity cfg in
  certData ← wrapM (ReadingFile (Identity_Cert i)) (ReadFile env (Identity_Cert i));
  keyData ← wrapM (ReadingFile (Identity_Key i)) (ReadFile env (Identity_Key i));
  _ ← match X509KeyPair sv certData keyData with
      | Some e => fail (LoadingIdentityKeypair e)
      | None => mret tt
      end;
  caData ← wrapM (ReadingFile (ServerCABundle (Broker cfg)))
             (ReadFile env (ServerCABundle (Broker cfg)));
  if negb (AppendCertsFromPEM sv caData) then fail NoCACertificates
  else mret (mkClient (Broker_URL (Broker cfg))).

(** [io.LimitReader]. *)
Fixpoint limit_read (n : N) (s : string) : string :=
  match s with
  | EmptyString => ""
  | String a s' => if (n =? 0)%N then "" else String a (limit_read (N.pred n) s')
  end.
Definition max_response : N := 2 * 1024 * 1024.

Definition request_payload (profile csrPEM : string) : string :=
  print (JObject [("profile", JString profile); ("csr_pem", JString csrPEM)]).

Definition read_response (r : http_response) : result client_error Bundle :=
  body ← wrap_err ReadingResponse (limit_read max_response <$> http_body r);
  if ((http_status r <? 200) || (300 <=? http_status r))%Z
  then Err (BrokerReturned (http_status r) (TrimSpace body))
  else
    out ← from_option_err ParsingResponse (decode_issueResponse body);
    notBefore ← from_option_err ParsingNotBefore (parse_RFC3339 (res_NotBefore out));
    notAfter ← from_option_err ParsingNotAfter (parse_RFC3339 (res_NotAfter out));
    mret (mkBundle (res_CertPEM out) (res_ChainPEM out) (res_FullChainPEM out)
            (res_LeafSerialNumber out) notBefore notAfter).

Definition BrokerClient_Issue (c : BrokerClient) (profile csrPEM : string)
    : EM client_error Bundle :=
  let url := string_app (baseURL c) "/v1/certificates" in
  let payload := request_payload profile csrPEM in
  if negb (valid_url sv url) then fail InvalidRequestURL
  else
    _ ← log (Call "POST" [url; payload]);
    answer ← draw (env_http sv);
    match answer url payload with
    | Err e => fail (CallingBroker e)
    | Ok r => lift (read_response r)
    end.

(** ** enroll.go *)

Definition lock_file_path (cfg : AgentConfig) : string := Join (StateDir cfg) "agent.lock".

Definition with_lock {T} (cfg : AgentConfig) (c : EM agent_error T) : EM agent_error T :=
  lock ← wrapM LockError (AcquireLock env (lock_file_path cfg));
  defer (Release env (Some lock)) c.

(** From the key on disk to the certificate on disk. *)
Definition enroll_key (cfg : AgentConfig) : EM agent_error unit :=
  let i := Identity cfg in
  keyData ← wrapM (ReadingFile (Identity_Key i)) (ReadFile env (Identity_Key i));
  key ← lift (wrap_err (ParsingFile (Identity_Key i)) (ParsePrivateKeyPEM keyData));
  tokenData ← wrapM (ReadingFile (BootstrapToken i)) (ReadFile env (BootstrapToken i));
  let token := TrimSpace tokenData in
  if token == "" then fail BootstrapTokenEmpty else
  rnd ← draw (env_rand env);
  csrPEM ← lift (wrap_err (GeneratingCSR "identity") (GenerateIdentityCSR rnd key (Identity_Name i)));
  _ ← log (Call "enroll" [csrPEM; token]);
  answer ← draw (env_enroll sv);
  certPEM ← lift (wrap_err AuthorityError (answer csrPEM token));
  _ ← wrapM WritingIdentity (WriteFileAtomic env (Identity_Cert i) certPEM mode_644);
  wrapM RemovingToken (Remove env (BootstrapToken i)).

Definition Enroll (cfg : AgentConfig) : EM agent_error unit :=
  with_lock cfg (
    let i := Identity cfg in
    exists_ ← wrapM FileError (FileExists env (Identity_Cert i));
    if (exists_ : bool) then fail (IdentityExists (Identity_Cert i)) else
    _ ← wrapM (EnsuringKey "identity") (EnsureECDSAPrivateKey env (Identity_Key i));
    enroll_key cfg).

(** ** renew.go *)

(** The warning of an identity that is close to its end goes to the log of the
program only. The clock is read once per test of the code. *)
Definition RenewIdentityIfNeeded (cfg : AgentConfig) : EM agent_error unit :=
  let i := Identity cfg in
  certData ← wrapM (ReadingFile (Identity_Cert i)) (ReadFile env (Identity_Cert i));
  keyData ← wrapM (ReadingFile (Identity_Key i)) (ReadFile env (Identity_Key i));
  rootCAData ← wrapM (ReadingFile (IssuerCABundle i)) (ReadFile env (IssuerCABundle i));
  cert ← lift (wrap_err (ParsingFile (Identity_Cert i)) (ParseCertificatePEM certData));
  now ← time_Now env;
  if IsExpired now cert then fail IdentityExpired else
  now ← time_Now env;
  if negb (ExpiresWithin now cert (Identity_RenewBefore i)) then mret tt
  else
    _ ← log (Call "renew" [certData; keyData; rootCAData]);
    answer ← draw (env_renew sv);
    renewed ← lift (wrap_err AuthorityError (answer certData keyData rootCAData));
    wrapM WritingIdentity (WriteFileAtomic env (Identity_Cert i) renewed mode_644).

(** ** run.go *)

(** A context that is done counts as a time-out, whatever the command returned. *)
Definition runReload (name command : string) : EM agent_error string :=
  _ ← log (Exec command);
  answer ← draw (env_shell sv);
  let r := answer command in
  let trimmed := TrimSpace (sh_output r) in
  if sh_done r then fail (ReloadTimedOut name)
  else match sh_error r with
       | Some e => fail (ReloadFailed name e trimmed)
       | None => mret trimmed
       end.

(** The certificate on disk, when there is one, needs no renewal. *)
Definition still_valid (c : CertConfig) (key : Signer) : EM agent_error bool :=
  exists_ ← wrapM FileError (FileExists env (Cert c));
  if (exists_ : bool) then
    certData ← wrapM (ReadingFile (Cert c)) (ReadFile env (Cert c));
    cert ← lift (wrap_err (ParsingFile (Cert c)) (ParseCertificatePEM certData));
    _ ← lift (wrap_err (ExistingMismatch (Cert_Name c)) (CertificateMatchesPrivateKey cert key));
    now ← time_Now env;
    mret (negb (ExpiresWithin now cert (Cert_RenewBefore c)))
  else mret false.

(** The checks of a certificate the broker returned. *)
Definition check_issued (c : CertConfig) (key : Signer) (bundle : Bundle)
    : result agent_error unit :=
  let name := Cert_Name c in
  cert ← wrap_err (ParsingBrokerCertificate name) (ParseCertificatePEM (CertPEM bundle));
  _ ← wrap_err (BrokerKeyMismatch name) (CertificateMatchesPrivateKey cert key);
  wrap_err (BrokerNamesMismatch name) (CertificateHasExactDNSNames cert (Cert_DNSNames c)).

Definition request_certificate (client : BrokerClient) (c : CertConfig) (key : Signer)
    : EM agent_error Bundle :=
  let name := Cert_Name c in
  rnd ← draw (env_rand env);
  csrPEM ← lift (wrap_err (GeneratingCSR name) (GenerateServiceCSR rnd key (Cert_DNSNames c)));
  bundle ← wrapM (RequestingCertificate name) (BrokerClient_Issue client (Cert_Profile c) csrPEM);
  _ ← lift (check_issued c key bundle);
  mret bundle.

Definition install_certificate (c : CertConfig) (bundle : Bundle) : EM agent_error unit :=
  _ ← wrapM (InstallingBundle (Cert_Name c))
        (WriteToDisk env bundle (Cert c) (Chain c) (FullChain c));
  if TrimSpace (ReloadCommand c) != "" then
    _ ← runReload (Cert_Name c) (ReloadCommand c); mret tt
  else mret tt.

(** The first test of the key's file only chooses a message of the log, but its
error ends the function. *)
Definition ensureServiceCertificate (client : BrokerClient) (c : CertConfig)
    : EM agent_error unit :=
  _ ← wrapM FileError (FileExists env (Key c));
  kp ← wrapM (EnsuringKey (Cert_Name c)) (EnsureECDSAPrivateKey env (Key c));
  let key := fst kp in
  skip ← still_valid c key;
  if (skip : bool) then mret tt
  else
    bundle ← request_certificate client c key;
    install_certificate c bundle.

Fixpoint ensure_all (client : BrokerClient) (l : list CertConfig) : EM agent_error unit :=
  match l with
  | [] => mret tt
  | c :: l' => _ ← ensureServiceCertificate client c; ensure_all client l'
  end.

Definition Run (cfg : AgentConfig) : EM agent_error unit :=
  with_lock cfg (
    exists_ ← wrapM FileError (FileExists env (Identity_Cert (Identity cfg)));
    if negb (exists_ : bool) then fail (IdentityMissing (Identity_Cert (Identity cfg)))
    else
      client ← NewBrokerClient cfg;
      _ ← RenewIdentityIfNeeded cfg;
      ensure_all client (Certificates cfg)).

(** ** check.go *)

Definition check_certificate (c : CertConfig) : EM agent_error unit :=
  keyData ← wrapM (ReadingFile (Key c)) (ReadFile env (Key c));
  key ← lift (wrap_err (ParsingFile (Key c)) (ParsePrivateKeyPEM keyData));
  certData ← attempt (ReadFile env (Cert c));
  match certData with
  | Err ErrNotExist => mret tt
  | Err e => fail (ReadingFile (Cert c) e)
  | Ok certData =>
      cert ← lift (wrap_err (ParsingFile (Cert c)) (ParseCertificatePEM certData));
      lift (wrap_err (ExistingMismatch (Cert_Name c)) (CertificateMatchesPrivateKey cert key))
  end.

Fixpoint check_all (l : list CertConfig) : EM agent_error unit :=
  match l with
  | [] => mret tt
  | c :: l' => _ ← wrapM (CheckFailed (Cert_Name c)) (check_certificate c); check_all l'
  end.

Definition Check (cfg : AgentConfig) : EM agent_error unit :=
  let i := Identity cfg in
  _ ← wrapM (ReadingFile (Identity_Key i)) (Stat env (Identity_Key i));
  _ ← wrapM (ReadingFile (Identity_Cert i)) (Stat env (Identity_Cert i));
  check_all (Certificates cfg).
End Agent.
End agent.
