(* ===== verification/AgentSpec.v ===== *)
(** * Properties of the agent

What the agent may do to the files of its host, whatever fails and whatever
the broker and the certificate authority answer; enrolment, renewal and the
exchange with the broker. *)

From S2P Require Import Prelude GoStrings DnsName GoTime Json Os OsLogic.
From S2P Require Import FileUtil Config X509 Pki PkiFiles Agent.
Import dnsname os os_logic fileutil x509 pki pki_files config agent.
#[local] Open Scope go_scope.

Module agent_spec.

#[export] Instance CertConfig_eq_dec : EqDecision CertConfig.
Proof. solve_decision. Defined.

(** ** Paths *)

Definition cert_paths (c : CertConfig) : list string := [Key c; Cert c; Chain c; FullChain c].

(** The files a run may write. *)
Definition written (cfg : AgentConfig) : list string :=
  lock_file_path cfg :: Identity_Cert (Identity cfg) :: concat (cert_paths <$> Certificates cfg).

(** No two of them are the same file, and none looks like a temporary file. *)
Definition good_paths (cfg : AgentConfig) : Prop :=
  NoDup (written cfg) ∧ Forall (λ p, temp_like p = false) (written cfg).

Section Paths.
Context (cfg : AgentConfig) (Hgood : good_paths cfg).

Lemma path_written c p : c ∈ Certificates cfg → p ∈ cert_paths c → p ∈ written cfg.
Proof using.
  intros Hc Hp. do 2 apply list_elem_of_further. apply elem_of_concat_map.
  by exists c.
Qed.

Lemma path_plain c p : c ∈ Certificates cfg → p ∈ cert_paths c → temp_like p = false.
Proof using Hgood.
  intros Hc Hp. destruct Hgood as [_ Hf]. rewrite Forall_forall in Hf. apply Hf.
  by eapply path_written.
Qed.

Lemma head_plain : temp_like (lock_file_path cfg) = false
  ∧ temp_like (Identity_Cert (Identity cfg)) = false.
Proof using Hgood. destruct Hgood as [_ Hf]. split; apply (proj1 (Forall_forall _ _) Hf); set_solver. Qed.

Lemma paths_nodup c : c ∈ Certificates cfg → NoDup (cert_paths c).
Proof using Hgood.
  destruct Hgood as [Hn _]. intros Hc. unfold written in Hn.
  apply NoDup_cons in Hn as [_ [_ Hn]%NoDup_cons].
  by eapply concat_part.
Qed.

Lemma paths_differ c c' p p' :
  c ∈ Certificates cfg → c' ∈ Certificates cfg → p ∈ cert_paths c → p' ∈ cert_paths c' →
  c ≠ c' → p ≠ p'.
Proof using Hgood.
  destruct Hgood as [Hn _]. apply NoDup_cons in Hn as [_ [_ Hn]%NoDup_cons].
  intros. by eapply (concat_distinct cert_paths (Certificates cfg) c c').
Qed.

Lemma head_differ c p :
  c ∈ Certificates cfg → p ∈ cert_paths c →
  p ≠ lock_file_path cfg ∧ p ≠ Identity_Cert (Identity cfg).
Proof using Hgood.
  intros Hc Hp. destruct Hgood as [Hn _].
  assert (Hin : p ∈ concat (cert_paths <$> Certificates cfg)).
  { apply elem_of_concat_map. by exists c. }
  apply NoDup_cons in Hn as [H1 [H2 _]%NoDup_cons]. split; intros ->; set_solver.
Qed.
End Paths.

(** ** The files of a run *)

Section Run.
Context (env : environment) (sv : services) {CR : Crypto}.

(** A certificate the checks of the agent let through: it parses, matches the key
on disk and has exactly the names of its entry. *)
Definition installed (d : disk) (c : CertConfig) (o : option file) : Prop :=
  ∃ t cert key kt km, o = Some (t, mode_644) ∧ ParseCertificatePEM t = Ok cert
    ∧ read_file d (Key c) = Some (kt, km) ∧ ParsePrivateKeyPEM kt = Ok key
    ∧ CertificateMatchesPrivateKey cert key = Ok tt
    ∧ CertificateHasExactDNSNames cert (Cert_DNSNames c) = Ok tt.

Record entry_ok (d0 d : disk) (c : CertConfig) : Prop := {
  eo_key : key_kept d0 d (Key c);
  eo_cert : ∀ o, may_be d (Cert c) o → may_be d0 (Cert c) o ∨ installed d c o }.

Lemma entry_ok_start d0 c : entry_ok d0 d0 c.
Proof using.
  split; [|by left]. unfold key_kept. destruct (read_file d0 (Key c)); [done|]. by left.
Qed.

Lemma installed_stable d d' c o :
  read_file d' (Key c) = read_file d (Key c) → installed d c o → installed d' c o.
Proof using. unfold installed. by intros ->. Qed.

Lemma entry_ok_frame d0 d d' c :
  keeps d d' (Key c) → keeps d d' (Cert c) → entry_ok d0 d c → entry_ok d0 d' c.
Proof using.
  intros Hk [_ Hc] [Hok Hcert]. split; [by eapply key_kept_frame|].
  intros o Ho. destruct (Hcert o (Hc o Ho)) as [?|Hi]; [by left|right].
  apply (installed_stable d); [apply Hk | done].
Qed.

(** A new certificate that passed the checks. *)
Lemma entry_ok_cert d0 d d' c t :
  Key c ≠ Cert c → temp_like (Key c) = false →
  entry_ok d0 d c → atomically d d' (Cert c) (t, mode_644) → installed d c (Some (t, mode_644)) →
  entry_ok d0 d' c.
Proof using.
  intros Hne Hp Hok Ha Hi.
  assert (Hk : keeps d d' (Key c)) by (by apply Ha).
  destruct (at_path _ _ _ _ Ha) as [Hc|[_ Hc]]; [by apply (entry_ok_frame d0 d)|].
  destruct Hok as [Hkey Hcert]. split; [by eapply key_kept_frame|]. destruct Hk as [Hk _].
  intros o Ho. destruct (Hc o Ho) as [Hold| ->].
  - destruct (Hcert o Hold) as [?|?]; [by left|right]. by apply (installed_stable d).
  - right. by apply (installed_stable d).
Qed.

(** A new key, where there was none: no certificate was installed yet. *)
Lemma entry_ok_key d0 d d' c key kt :
  Cert c ≠ Key c → temp_like (Cert c) = false →
  entry_ok d0 d c → read_file d (Key c) = None → MarshalPrivateKeyPEM key = Ok kt →
  atomically d d' (Key c) (kt, mode_600) → entry_ok d0 d' c.
Proof using.
  intros Hne Hp [Hkey Hcert] Hnone Hkt Ha.
  assert (Hc : keeps d d' (Cert c)) by (by apply Ha).
  split; [by eapply key_kept_new|].
  intros o Ho. left. destruct (Hcert o) as [?|(t & cert & k & kt' & km & _ & _ & Hr & _)];
    [by apply Hc | done|]. congruence.
Qed.

(** ** One certificate *)

(** What a certificate that was dealt with leaves: on disk, it matches the key; it
was not to be renewed, or it was installed with its chains, whatever happens. *)
Definition entry_done (d : disk) (c : CertConfig) : Prop :=
  ∃ key kt km t tm cert, read_file d (Key c) = Some (kt, km) ∧ ParsePrivateKeyPEM kt = Ok key
    ∧ read_file d (Cert c) = Some (t, tm) ∧ ParseCertificatePEM t = Ok cert
    ∧ CertificateMatchesPrivateKey cert key = Ok tt
    ∧ ((∃ n, ExpiresWithin (env_clock env n) cert (Cert_RenewBefore c) = false)
       ∨ CertificateHasExactDNSNames cert (Cert_DNSNames c) = Ok tt
         ∧ ∃ b, CertPEM b = t ∧ durable d (Cert c) (CertPEM b, mode_644)
           ∧ durable d (Chain c) (ChainPEM b, mode_644)
           ∧ durable d (FullChain c) (FullChainPEM b, mode_644)).

Lemma entry_done_frame d d' c :
  (∀ p, p ∈ cert_paths c → keeps d d' p) → entry_done d c → entry_done d' c.
Proof using.
  intros Hk (key & kt & km & t & tm & cert & H1 & H2 & H3 & H4 & H5 & H6).
  assert (Hr : ∀ p, p ∈ cert_paths c → read_file d' p = read_file d p) by (intros; by apply Hk).
  exists key, kt, km, t, tm, cert. rewrite !Hr by set_solver. split_and!; [done..|].
  destruct H6 as [?|(Hn & b & Hb & Hb1 & Hb2 & Hb3)]; [by left|right].
  split; [done|]. exists b. split_and!; [done| | |]; (eapply durable_keeps; [|done]); apply Hk; set_solver.
Qed.

(** Operations that only read. *)
Lemma safe_still_valid I J c key (P : bool → disk → list action → Prop) d l :
  I d → J l →
  (∀ t tm cert n, read_file d (Cert c) = Some (t, tm) → ParseCertificatePEM t = Ok cert →
     CertificateMatchesPrivateKey cert key = Ok tt →
     P (negb (ExpiresWithin (env_clock env n) cert (Cert_RenewBefore c))) d l) →
  (names d !! Cert c = None → P false d l) →
  safe I J (still_valid env c key) P d l.
Proof using.
  intros HI HJ Ht Hf. unfold still_valid. do 2 safe_step. apply safe_FileExists; [done..|].
  destruct (names d !! Cert c) as [i|]; case_bool_decide as Hs.
  - do 2 safe_step. safe_step. intros t tm Hr. do 2 safe_step. intros cert Hp%wrap_err_Ok.
    do 2 safe_step. intros [] Hm%wrap_err_Ok. do 2 safe_step. safe_step. by eapply Ht.
  - destruct Hs. by eexists.
  - by destruct Hs.
  - safe_step. auto.
Qed.

Lemma safe_NewBrokerClient I J cfg (P : BrokerClient → disk → list action → Prop) d l :
  I d → J l → (∀ client, P client d l) → safe I J (NewBrokerClient env sv cfg) P d l.
Proof using.
  intros HI HJ HP. unfold NewBrokerClient.
  do 2 safe_step. safe_step. intros t tm _. do 2 safe_step. safe_step. intros k km _.
  safe_step. destruct (X509KeyPair sv t k); [by safe_step|]. safe_step.
  do 2 safe_step. safe_step. intros ca cm _. destruct (AppendCertsFromPEM sv ca); simpl;
    safe_step; auto.
Qed.

(** Only the files of the entry are any different. *)
Definition only (c : CertConfig) (d d' : disk) : Prop :=
  ∀ p, p ∉ cert_paths c → temp_like p = false → keeps d d' p.

Lemma only_trans c d1 d2 d3 : only c d1 d2 → only c d2 d3 → only c d1 d3.
Proof using. intros H1 H2 p Hp Ht. by eapply keeps_trans; [apply H1|apply H2]. Qed.

Lemma atomically_only c p d d' f : p ∈ cert_paths c → atomically d d' p f → only c d d'.
Proof using. intros Hp Ha q Hq Ht. apply Ha; [set_solver|done]. Qed.

(** The three writes of an installation, one after the other. *)
Lemma written_done c key kt km cert b d d1 d2 d3 :
  NoDup (cert_paths c) → (∀ p, p ∈ cert_paths c → temp_like p = false) →
  read_file d (Key c) = Some (kt, km) → ParsePrivateKeyPEM kt = Ok key →
  ParseCertificatePEM (CertPEM b) = Ok cert → CertificateMatchesPrivateKey cert key = Ok tt →
  CertificateHasExactDNSNames cert (Cert_DNSNames c) = Ok tt →
  atomically d d1 (Cert c) (CertPEM b, mode_644) → durable d1 (Cert c) (CertPEM b, mode_644) →
  atomically d1 d2 (Chain c) (ChainPEM b, mode_644) → durable d2 (Chain c) (ChainPEM b, mode_644) →
  atomically d2 d3 (FullChain c) (FullChainPEM b, mode_644) →
  durable d3 (FullChain c) (FullChainPEM b, mode_644) →
  entry_done d3 c.
Proof using.
  unfold cert_paths. intros Hn Hplain Hkt Hkey Hp Hm Hx Ha1 Hd1 Ha2 Hd2 Ha3 Hd3.
  rewrite !NoDup_cons, !not_elem_of_cons in Hn.
  destruct Hn as ((Hkc & Hkch & Hkf & _) & (Hcch & Hcf & _) & (Hchf & _) & _).
  assert (Pk : temp_like (Key c) = false) by (apply Hplain; set_solver).
  assert (Pc : temp_like (Cert c) = false) by (apply Hplain; set_solver).
  assert (Pch : temp_like (Chain c) = false) by (apply Hplain; set_solver).
  assert (Hk : keeps d d3 (Key c)).
  { eapply keeps_trans; [by apply Ha1|]. eapply keeps_trans; [by apply Ha2|]. by apply Ha3. }
  assert (Hc3 : durable d3 (Cert c) (CertPEM b, mode_644)).
  { eapply durable_keeps; [by apply Ha3|]. eapply durable_keeps; [by apply Ha2|]. done. }
  exists key, kt, km, (CertPEM b), mode_644, cert.
  split_and!; [destruct Hk as [-> _]; done|done|exact (proj1 Hc3)|done|done|].
  right. split; [done|]. exists b. split_and!; [done|done| |done].
  eapply durable_keeps; [by apply Ha3|done].
Qed.

Section Config.
Context (cfg : AgentConfig) (Hgood : good_paths cfg) (d0 : disk).

Definition run_inv (d : disk) : Prop :=
  wf_disk d ∧ ∀ c, c ∈ Certificates cfg → entry_ok d0 d c.
Definition any_log (l : list action) : Prop := True.

Lemma run_inv_elsewhere p d d' :
  (∀ c, c ∈ Certificates cfg → p ≠ Key c ∧ p ≠ Cert c) →
  run_inv d → elsewhere p d d' → run_inv d'.
Proof using Hgood.
  intros Hp [Hwf Hok] [Hwf' Hk]. split; [done|]. intros c Hc. destruct (Hp c Hc).
  apply (entry_ok_frame d0 d); [| |by apply Hok]; apply Hk; try done;
    eapply path_plain; eauto; set_solver.
Qed.

(** Another certificate's files, or another file of this one. *)
Lemma entry_path_differs c c' p :
  c ∈ Certificates cfg → c' ∈ Certificates cfg → p ∈ cert_paths c → c ≠ c' →
  p ≠ Key c' ∧ p ≠ Cert c'.
Proof using Hgood.
  intros Hc Hc' Hp Hne. split; eapply (paths_differ cfg Hgood c c'); eauto; set_solver.
Qed.

Lemma chain_differs c p c' :
  c ∈ Certificates cfg → c' ∈ Certificates cfg → p = Chain c ∨ p = FullChain c →
  p ≠ Key c' ∧ p ≠ Cert c'.
Proof using Hgood.
  intros Hc Hc' Hp. destruct (decide (c = c')) as [<-|Hne].
  - pose proof (paths_nodup cfg Hgood c Hc) as Hn. unfold cert_paths in Hn.
    rewrite !NoDup_cons, !not_elem_of_cons in Hn. naive_solver.
  - apply (entry_path_differs c c'); [done..|set_solver|done].
Qed.

(** One entry changes as allowed, the others do not. *)
Lemma run_inv_entry c p d d' f :
  c ∈ Certificates cfg → p ∈ cert_paths c → run_inv d → atomically d d' p f →
  entry_ok d0 d' c → run_inv d'.
Proof using Hgood.
  intros Hc Hp [Hwf Hok] Ha Hc'. split; [apply Ha|]. intros e He.
  destruct (decide (c = e)) as [<-|Hne]; [done|].
  destruct (entry_path_differs c e p) as [Hk Hce]; [done..|].
  apply (entry_ok_frame d0 d); [| |by apply Hok]; apply Ha; try done;
    eapply path_plain; eauto; set_solver.
Qed.

Notation safe_run c := (safe run_inv any_log c).

Lemma safe_ensure_key `{CL : !CryptoLaws} c (P : Signer * string → disk → list action → Prop) d l :
  c ∈ Certificates cfg → run_inv d →
  (∀ key kt km d', run_inv d' → only c d d' → read_file d' (Key c) = Some (kt, km) →
     ParsePrivateKeyPEM kt = Ok key → P (key, kt) d' l) →
  safe_run (EnsureECDSAPrivateKey env (Key c)) P d l.
Proof using Hgood.
  intros Hc HI HP. destruct (HI) as [Hwf Hok].
  assert (HIn : ∀ key kt d', read_file d (Key c) = None → MarshalPrivateKeyPEM key = Ok kt →
    atomically d d' (Key c) (kt, mode_600) → run_inv d').
  { intros key kt d' Hnone Hkt Ha. eapply (run_inv_entry c (Key c)); [done|set_solver|done..|].
    pose proof (paths_nodup cfg Hgood c Hc) as Hn.
    eapply (entry_ok_key d0 d d' c key kt); try done.
    - apply NoDup_cons in Hn as [Hn _]. intros E. apply Hn. rewrite <- E. set_solver.
    - eapply path_plain; [done..|set_solver].
    - by apply Hok. }
  apply safe_EnsureKey; try done.
  - eapply path_plain; [done..|set_solver].
  - intros key kt km Hr Hk. eapply HP; [done| |done..]. intros p _ _. apply keeps_refl.
  - intros key kt d' Hn Hkt Ha [Hr _] HI'. eapply HP; [done| |done|by apply marshal_parses].
    eapply atomically_only; [|done]. set_solver.
Qed.

Lemma safe_request_certificate client c key (P : Bundle → disk → list action → Prop) d l :
  run_inv d → (∀ b l', check_issued c key b = Ok tt → P b d l') →
  safe_run (request_certificate env sv client c key) P d l.
Proof using.
  intros HI HP. unfold request_certificate, BrokerClient_Issue.
  do 2 safe_step. do 2 safe_step. intros csr _. do 2 safe_step.
  destruct (valid_url sv _); simpl; [|by safe_step].
  safe_step. apply safe_log; [done..|]. do 2 safe_step.
  destruct (env_http sv _ _ _) as [r|]; [|by safe_step].
  safe_step. intros b _. do 2 safe_step. intros [] Hb. safe_step. auto.
Qed.

Lemma check_issued_Ok c key b :
  check_issued c key b = Ok tt →
  ∃ cert, ParseCertificatePEM (CertPEM b) = Ok cert
    ∧ CertificateMatchesPrivateKey cert key = Ok tt
    ∧ CertificateHasExactDNSNames cert (Cert_DNSNames c) = Ok tt.
Proof using.
  unfold check_issued.
  intros (cert & Hp%wrap_err_Ok & ([] & Hm%wrap_err_Ok & Hn%wrap_err_Ok)%bind_Ok)%bind_Ok. eauto.
Qed.

Lemma safe_reload name command (P : unit → disk → list action → Prop) d l :
  run_inv d → (∀ l', P tt d l') →
  safe_run (if TrimSpace command != "" then _ ← runReload sv name command; mret tt else mret tt) P d l.
Proof using.
  intros HI HP. destruct (TrimSpace command != ""); [|by safe_step].
  unfold runReload. do 2 safe_step. apply safe_log; [done..|]. do 2 safe_step.
  destruct (sh_done _); [by safe_step|]. destruct (sh_error _); [by safe_step|].
  do 2 safe_step; done.
Qed.

Lemma safe_install c key kt km bundle (P : unit → disk → list action → Prop) d l :
  c ∈ Certificates cfg → run_inv d →
  read_file d (Key c) = Some (kt, km) → ParsePrivateKeyPEM kt = Ok key →
  check_issued c key bundle = Ok tt →
  (∀ d' l', run_inv d' → only c d d' → entry_done d' c → P tt d' l') →
  safe_run (install_certificate env sv c bundle) P d l.
Proof using Hgood.
  intros Hc HI Hkt Hkey Hcheck HP.
  destruct (check_issued_Ok _ _ _ Hcheck) as (cert & Hp & Hm & Hn).
  pose proof (paths_nodup cfg Hgood c Hc) as Hnd.
  assert (Hkc : Key c ≠ Cert c).
  { apply NoDup_cons in Hnd as [Hnd _]. intros E. apply Hnd. rewrite E. left. }
  assert (Hplain : ∀ p, p ∈ cert_paths c → temp_like p = false) by (intros; by eapply path_plain).
  assert (Hi : installed d c (Some (CertPEM bundle, mode_644))).
  { by exists (CertPEM bundle), cert, key, kt, km. }
  assert (HI1 : ∀ d1, atomically d d1 (Cert c) (CertPEM bundle, mode_644) → run_inv d1).
  { intros d1 Ha. eapply (run_inv_entry c (Cert c)); [done|set_solver|done..|].
    eapply entry_ok_cert; [done|apply Hplain; left|by apply HI|done..]. }
  assert (HIc : ∀ p d1 d2 f, p = Chain c ∨ p = FullChain c → run_inv d1 →
    atomically d1 d2 p f → run_inv d2).
  { intros p d1 d2 f Hpc H1 Ha. eapply (run_inv_elsewhere p d1); [|done|by eapply atomically_elsewhere].
    intros e He. by apply (chain_differs c p e). }
  unfold install_certificate, WriteToDisk. simpl write_files.
  do 2 safe_step. do 2 safe_step.
  apply safe_WriteFile; [done|done|apply HI|apply Hplain; set_solver|done|].
  intros d1 Ha1 Hd1 _. do 2 safe_step.
  assert (H1 := HI1 _ Ha1).
  apply safe_WriteFile; [done|done|apply H1|apply Hplain; set_solver| |].
  { intros d2 Ha2. eapply (HIc (Chain c)); [by left|done..]. }
  intros d2 Ha2 Hd2 _. do 2 safe_step.
  assert (H2 : run_inv d2) by (eapply (HIc (Chain c)); [by left|done..]).
  apply safe_WriteFile; [done|done|apply H2|apply Hplain; set_solver| |].
  { intros d3 Ha3. eapply (HIc (FullChain c)); [by right|done..]. }
  intros d3 Ha3 Hd3 _.
  assert (HI3 : run_inv d3) by (eapply (HIc (FullChain c)); [by right|done..]).
  safe_step.
  apply safe_reload; [done|]. intros l'. apply HP; [done| |].
  - eapply only_trans; [by eapply (atomically_only _ (Cert c)); [set_solver|]|].
    eapply only_trans; [by eapply (atomically_only _ (Chain c)); [set_solver|]|].
    by eapply (atomically_only _ (FullChain c)); [set_solver|].
  - by eapply (written_done c key kt km cert bundle d d1 d2 d3).
Qed.

Lemma safe_ensureServiceCertificate `{CL : !CryptoLaws} client c
    (P : unit → disk → list action → Prop) d l :
  c ∈ Certificates cfg → run_inv d →
  (∀ d' l', run_inv d' → only c d d' → entry_done d' c → P tt d' l') →
  safe_run (ensureServiceCertificate env sv client c) P d l.
Proof using Hgood.
  intros Hc HI HP. unfold ensureServiceCertificate.
  do 2 safe_step. apply safe_FileExists; [done..|].
  do 2 safe_step. apply safe_ensure_key; [done..|]. intros key kt km d1 HI1 Ho1 Hkt Hkey.
  assert (Hask : ∀ l1, safe_run
    (bundle ← request_certificate env sv client c key; install_certificate env sv c bundle) P d1 l1).
  { intros l1. safe_step. apply safe_request_certificate; [done|]. intros b l' Hb.
    eapply safe_install; [done..|]. intros d2 l2 HI2 Ho2 He. apply HP; [done| |done].
    by eapply only_trans. }
  safe_step. apply safe_still_valid; [done|done| |intros; apply Hask].
  intros t tm cert n Hr Hp Hm. destruct (ExpiresWithin _ cert _) eqn:Ev; simpl; [apply Hask|].
  safe_step. apply HP; [done..|]. exists key, kt, km, t, tm, cert. eauto 10.
Qed.

Lemma safe_ensure_all `{CL : !CryptoLaws} client certs (P : unit → disk → list action → Prop) d l :
  (∀ c, c ∈ certs → c ∈ Certificates cfg) → NoDup (concat (cert_paths <$> certs)) → run_inv d →
  (∀ d' l', run_inv d' →
     (∀ p, p ∉ concat (cert_paths <$> certs) → temp_like p = false → keeps d d' p) →
     (∀ c, c ∈ certs → entry_done d' c) → P tt d' l') →
  safe_run (ensure_all env sv client certs) P d l.
Proof using Hgood.
  revert d l P. induction certs as [|c certs IH]; intros d l P Hsub Hn HI HP; simpl.
  - safe_step. apply HP; [done| |by intros c ?%not_elem_of_nil]. intros. apply keeps_refl.
  - change (NoDup (cert_paths c ++ concat (cert_paths <$> certs))) in Hn.
    apply NoDup_app in Hn as (_ & Hdis & Hn).
    safe_step. apply safe_ensureServiceCertificate; [apply Hsub; left|done|].
    intros d1 l1 HI1 Ho1 Hc1. apply IH; [intros; apply Hsub; by right|done|done|].
    intros d2 l2 HI2 Hk2 Hdone. apply HP; [done| |].
    + intros p Hp Ht. change (p ∉ cert_paths c ++ concat (cert_paths <$> certs)) in Hp.
      apply not_elem_of_app in Hp as [Hp1 Hp2].
      eapply keeps_trans; [by apply Ho1|by apply Hk2].
    + intros e [->|He]%elem_of_cons; [|by apply Hdone].
      eapply entry_done_frame; [|exact Hc1]. intros p Hp. apply Hk2; [by apply Hdis|].
      eapply path_plain; [done| |done]. apply Hsub. left.
Qed.

Lemma identity_elsewhere d d' : run_inv d → elsewhere (Identity_Cert (Identity cfg)) d d' → run_inv d'.
Proof using Hgood.
  apply run_inv_elsewhere. intros c Hc.
  split; apply not_eq_sym; eapply head_differ; try done; set_solver.
Qed.

Lemma lock_elsewhere d d' : run_inv d → elsewhere (lock_file_path cfg) d d' → run_inv d'.
Proof using Hgood.
  apply run_inv_elsewhere. intros c Hc.
  split; apply not_eq_sym; eapply head_differ; try done; set_solver.
Qed.

Lemma safe_renew_identity (P : unit → disk → list action → Prop) d l :
  run_inv d → (∀ d' l', run_inv d' → P tt d' l') →
  safe_run (RenewIdentityIfNeeded env sv cfg) P d l.
Proof using Hgood.
  intros HI HP. unfold RenewIdentityIfNeeded.
  do 2 safe_step. safe_step. intros t tm _. do 2 safe_step. safe_step. intros k km _.
  do 2 safe_step. safe_step. intros ca cm _. do 2 safe_step. intros cert _. do 2 safe_step.
  destruct (IsExpired _ _); [by safe_step|]. do 2 safe_step.
  destruct (ExpiresWithin _ _ _); simpl; [|safe_step; auto].
  safe_step. apply safe_log; [done..|]. do 2 safe_step. do 2 safe_step. intros new _. safe_step.
  apply safe_WriteFile; [done|done|apply HI|apply (head_plain cfg Hgood)| |].
  - intros d' Ha. eapply identity_elsewhere; [done|by eapply atomically_elsewhere].
  - intros d' Ha _ _. apply HP. eapply identity_elsewhere; [done|by eapply atomically_elsewhere].
Qed.
End Config.

(** The files while a lock is held. *)
Lemma safe_with_lock {T} I J cfg (c : EM agent_error T) (P : T → disk → list action → Prop) d l :
  I d → J l → (∀ d, I d → wf_disk d) →
  (∀ d d', I d → elsewhere (lock_file_path cfg) d d' → I d') →
  (∀ x d d' l, I d → P x d l → elsewhere (lock_file_path cfg) d d' → P x d' l) →
  (∀ d', I d' → elsewhere (lock_file_path cfg) d d' → safe I J c P d' l) →
  safe I J (with_lock env cfg c) P d l.
Proof using.
  intros HI HJ Hwf Helse HP Hc. unfold with_lock.
  assert (Hlocked : ∀ node, elsewhere (lock_file_path cfg) d (locked (lock_file_path cfg) node d))
    by (intros; apply locked_elsewhere; auto).
  safe_step. apply safe_wrapM, wp_AcquireLock; [done|eauto|].
  intros Hn node f. split_and!; [eauto|done|].
  apply wp_defer. eapply wp_consequence; [apply Hc; eauto|].
  intros r d1 l1 (HI1 & HJ1 & HP1).
  assert (Hun : elsewhere (lock_file_path cfg) d1 (bind_name (lock_file_path cfg) None d1))
    by (apply unbound_elsewhere; auto).
  apply wp_Release; [eauto|done|]. intros _ _. split_and!; [eauto|done|].
  destruct r; [by eapply HP|done].
Qed.

Lemma safe_Run `{CL : !CryptoLaws} cfg d0 l :
  good_paths cfg → wf_disk d0 →
  safe (run_inv cfg d0) any_log (Run env sv cfg)
    (λ _ d _, ∀ c, c ∈ Certificates cfg → entry_done d c) d0 l.
Proof using.
  intros Hgood Hwf0. unfold Run.
  apply safe_with_lock; [split; [done|intros; apply entry_ok_start]|done|by intros ? []| | |].
  - intros d d'. by apply lock_elsewhere.
  - intros [] d d' _ HI Hd He c Hc. eapply entry_done_frame; [|by apply Hd].
    intros p Hp. apply He; [by eapply head_differ | by eapply path_plain].
  - intros d HI _. do 2 safe_step. apply safe_FileExists; [done..|].
    destruct (bool_decide _); simpl; [|by safe_step].
    safe_step. apply safe_NewBrokerClient; [done..|]. intros client.
    safe_step. apply safe_renew_identity; [done..|]. intros d1 l1 HI1.
    apply safe_ensure_all; try done.
    destruct Hgood as [Hn _]. by apply NoDup_cons in Hn as [_ [_ Hn]%NoDup_cons].
Qed.

(** ** A run with nothing to do *)

(** The certificate is far from its end whenever the clock is read. *)
Definition far (cert : Certificate) (margin : Z) : Prop :=
  ∀ n, ExpiresWithin (env_clock env n) cert margin = false.

Record settled_entry (d : disk) (c : CertConfig) : Prop := {
  se_key : ∃ kt km key, read_file d (Key c) = Some (kt, km) ∧ ParsePrivateKeyPEM kt = Ok key;
  se_cert : ∃ t tm cert, read_file d (Cert c) = Some (t, tm) ∧ ParseCertificatePEM t = Ok cert
    ∧ far cert (Cert_RenewBefore c) }.

Record settled (cfg : AgentConfig) (d : disk) : Prop := {
  set_identity : ∃ t tm cert, read_file d (Identity_Cert (Identity cfg)) = Some (t, tm)
    ∧ ParseCertificatePEM t = Ok cert ∧ far cert (Identity_RenewBefore (Identity cfg));
  set_entries : ∀ c, c ∈ Certificates cfg → settled_entry d c }.

Definition untouched (cfg : AgentConfig) (d0 d : disk) : Prop :=
  wf_disk d ∧ ∀ q, q ≠ lock_file_path cfg → temp_like q = false → keeps d0 d q.

Section Quiet.
Context (cfg : AgentConfig) (Hgood : good_paths cfg) (d0 : disk) (l0 : list action).
Context (Hset : settled cfg d0).
Notation quiet c P d := (safe (untouched cfg d0) (eq l0) c P d l0).

Lemma untouched_read d p :
  untouched cfg d0 d → p ∈ written cfg → p ≠ lock_file_path cfg → read_file d p = read_file d0 p.
Proof using Hgood.
  intros [_ Hk] Hp Hl. apply Hk; [done|]. destruct Hgood as [_ Hf].
  by apply (proj1 (Forall_forall _ _) Hf).
Qed.

Lemma quiet_renew (P : unit → disk → list action → Prop) d :
  untouched cfg d0 d → P tt d l0 → quiet (RenewIdentityIfNeeded env sv cfg) P d.
Proof using Hgood Hset.
  intros HI HP. destruct (set_identity _ _ Hset) as (t & tm & cert & Hr & Hp & Hfar).
  assert (Hr' : read_file d (Identity_Cert (Identity cfg)) = Some (t, tm)).
  { rewrite untouched_read; [done|done|set_solver|]. destruct Hgood as [Hn _].
    apply NoDup_cons in Hn as [Hn _]. set_solver. }
  unfold RenewIdentityIfNeeded.
  do 2 safe_step. safe_step. intros t' tm' Hrt. rewrite Hr' in Hrt. injection Hrt as <- <-.
  do 2 safe_step. safe_step. intros k km _. do 2 safe_step. safe_step. intros ca cm _.
  do 2 safe_step. intros cert' Hp'%wrap_err_Ok. rewrite Hp in Hp'. injection Hp' as <-.
  do 2 safe_step. destruct (IsExpired _ _); [by safe_step|]. do 2 safe_step.
  rewrite Hfar. simpl. by safe_step.
Qed.

Lemma quiet_ensure client c (P : unit → disk → list action → Prop) d :
  c ∈ Certificates cfg → untouched cfg d0 d → P tt d l0 →
  quiet (ensureServiceCertificate env sv client c) P d.
Proof using Hgood Hset.
  intros Hc HI HP.
  destruct (set_entries _ _ Hset c Hc) as [(kt & km & key & Hk & Hkp) (t & tm & cert & Hr & Hp & Hfar)].
  assert (Hread : ∀ p, p ∈ cert_paths c → read_file d p = read_file d0 p).
  { intros p Hpc. apply untouched_read; [done|by eapply path_written|by eapply head_differ]. }
  assert (Hk' : read_file d (Key c) = Some (kt, km)) by (rewrite Hread; [done|set_solver]).
  assert (Hr' : read_file d (Cert c) = Some (t, tm)) by (rewrite Hread; [done|set_solver]).
  unfold ensureServiceCertificate. do 2 safe_step. apply safe_FileExists; [done..|].
  do 2 safe_step. apply safe_EnsureKey; [done|done|apply HI|eapply path_plain; [done..|set_solver]| | |].
  1,3: intros; congruence.
  intros key' kt' km' _ _. safe_step. apply safe_still_valid; [done|done| |].
  - intros t' tm' cert' n Hrt Hpt _. rewrite Hr' in Hrt. injection Hrt as <- <-.
    rewrite Hp in Hpt. injection Hpt as <-. rewrite Hfar. simpl. by safe_step.
  - intros Hn. unfold read_file in Hr'. by rewrite Hn in Hr'.
Qed.

Lemma quiet_Run : wf_disk d0 → quiet (Run env sv cfg) (λ _ _ _, True) d0.
Proof using Hgood Hset.
  intros Hwf. unfold Run.
  apply safe_with_lock; [split; auto with certplane|done|by intros ? []| |done|].
  - intros d d' [_ Hk] [Hwf' He]. split; [done|]. intros q Hq Ht.
    eapply keeps_trans; [by apply Hk|by apply He].
  - intros d HI _. do 2 safe_step. apply safe_FileExists; [done..|].
    destruct (bool_decide _); simpl; [|by safe_step].
    safe_step. apply safe_NewBrokerClient; [done..|]. intros client.
    safe_step. apply quiet_renew; [done|].
    assert (Hsub : ∀ c, c ∈ Certificates cfg → c ∈ Certificates cfg) by done. revert Hsub.
    generalize (Certificates cfg) at 1 3. intros certs.
    induction certs as [|c certs IH]; intros Hsub; simpl; [by safe_step|].
    safe_step. apply quiet_ensure; [apply Hsub; left|done|].
    apply IH. intros e He. apply Hsub. by right.
Qed.
End Quiet.

(** ** Renewal of the identity *)

(** What a renewal reads. *)
Record identity_files (cfg : AgentConfig) (d : disk) (certData keyData caData : string)
    (cert : Certificate) : Prop := {
  if_cert : ∃ mode, read_file d (Identity_Cert (Identity cfg)) = Some (certData, mode);
  if_key : ∃ mode, read_file d (Identity_Key (Identity cfg)) = Some (keyData, mode);
  if_ca : ∃ mode, read_file d (IssuerCABundle (Identity cfg)) = Some (caData, mode);
  if_parsed : ParseCertificatePEM certData = Ok cert }.

(** The certificate is due for renewal: still valid, and inside the window. *)
Definition due (cfg : AgentConfig) (cert : Certificate) : Prop :=
  ∃ n n', IsExpired (env_clock env n) cert = false
    ∧ ExpiresWithin (env_clock env n') cert (Identity_RenewBefore (Identity cfg)) = true.

(** How a renewal ends, from the files [d]: the result, the files, what was sent. *)
Inductive renewal (cfg : AgentConfig) (d : disk)
    : result agent_error unit → disk → list action → Prop :=
  | not_sent e : renewal cfg d (Err e) d []
  | not_due c k ca cert n n' :
      identity_files cfg d c k ca cert → IsExpired (env_clock env n) cert = false →
      ExpiresWithin (env_clock env n') cert (Identity_RenewBefore (Identity cfg)) = false →
      renewal cfg d (Ok tt) d []
  | refused_by_ca c k ca cert n e :
      identity_files cfg d c k ca cert → due cfg cert → env_renew sv n c k ca = Err e →
      renewal cfg d (Err (AuthorityError e)) d [Call "renew" [c; k; ca]]
  | renewed c k ca cert n new r d' :
      identity_files cfg d c k ca cert → due cfg cert → env_renew sv n c k ca = Ok new →
      atomically d d' (Identity_Cert (Identity cfg)) (new, mode_644) →
      write_ends d d' (Identity_Cert (Identity cfg)) (new, mode_644) r →
      renewal cfg d (wrap_err WritingIdentity r) d' [Call "renew" [c; k; ca]].

Lemma wp_file {T} I p (Q : result agent_error T → disk → list action → Prop)
    (f : string → EM agent_error T) d l :
  (∀ e, Q (Err (ReadingFile p e)) d l) →
  (∀ t mode, read_file d p = Some (t, mode) → wp I (f t) Q d l) →
  wp I (t ← wrapM (ReadingFile p) (ReadFile env p); f t) Q d l.
Proof using.
  intros He Hf. apply wp_bind, wp_wrapM, wp_ReadFile; simpl; [auto| |auto].
  intros [t mode] Hr. eauto.
Qed.

Lemma wp_Renew cfg d l :
  wf_disk d → temp_like (Identity_Cert (Identity cfg)) = false →
  wp (λ _, True) (RenewIdentityIfNeeded env sv cfg)
    (λ r d' l', ∃ sent, l' = l ++ sent ∧ renewal cfg d r d' sent) d l.
Proof using.
  intros Hwf Hp. unfold RenewIdentityIfNeeded, time_Now.
  assert (Hnot : ∀ e, ∃ sent, l = l ++ sent ∧ renewal cfg d (Err e) d sent).
  { intros e. exists []. rewrite app_nil_r. split; [done | constructor]. }
  apply wp_file; [done|]. intros c mc Hc. apply wp_file; [done|]. intros k mk Hk.
  apply wp_file; [done|]. intros ca mca Hca. do 2 wp_step.
  destruct (ParseCertificatePEM c) as [cert|] eqn:Ecert; simpl; [|done].
  assert (Hfiles : identity_files cfg d c k ca cert) by (constructor; eauto).
  do 2 wp_step. destruct (IsExpired _ cert) eqn:Ee; [by wp_step|].
  do 2 wp_step. destruct (ExpiresWithin _ cert _) eqn:Ew; simpl.
  - assert (Hdue : due cfg cert) by (by eexists _, _).
    do 2 wp_step. do 2 wp_step. do 2 wp_step.
    destruct (env_renew sv _ c k ca) as [new|e] eqn:Er; simpl.
    + wp_step. apply wp_WriteFile; [done..|]. intros r d' Ha Hw.
      exists [Call "renew" [c; k; ca]]. split; [done|]. by eapply renewed.
    + exists [Call "renew" [c; k; ca]]. split; [done|]. by eapply refused_by_ca.
  - wp_step. exists []. rewrite app_nil_r. split; [done|]. by eapply not_due.
Qed.

(** ** Enrolment *)

Definition enroll_paths (cfg : AgentConfig) : list string :=
  [lock_file_path cfg; Identity_Cert (Identity cfg); Identity_Key (Identity cfg);
   BootstrapToken (Identity cfg)].

Definition good_enroll_paths (cfg : AgentConfig) : Prop :=
  NoDup (enroll_paths cfg) ∧ Forall (λ p, temp_like p = false) (enroll_paths cfg).

Section Enroll.
Context (cfg : AgentConfig) (Hgood : good_enroll_paths cfg) (d0 : disk).
#[local] Notation cert_path := (Identity_Cert (Identity cfg)).
#[local] Notation key_path := (Identity_Key (Identity cfg)).
#[local] Notation token_path := (BootstrapToken (Identity cfg)).

(** The text is what the authority answers to a request for the configured name
with a key, and the token. *)
Definition enrolled (key : Signer) (token t : string) : Prop :=
  ∃ n n' csr, GenerateIdentityCSR (env_rand env n) key (Identity_Name (Identity cfg)) = Ok csr
    ∧ env_enroll sv n' csr token = Ok t.

(** The files at each moment of an enrolment. *)
Record enroll_inv (d : disk) : Prop := {
  en_wf : wf_disk d;
  en_key : key_kept d0 d key_path;
  en_cert : ∀ o, may_be d cert_path o → may_be d0 cert_path o
    ∨ read_file d0 cert_path = None
      ∧ ∃ key token t, enrolled key token t ∧ o = Some (t, mode_644);
  en_token : keeps d0 d token_path
    ∨ ∃ key token t, enrolled key token t ∧ durable d cert_path (t, mode_644) }.

Lemma enroll_distinct :
  cert_path ≠ lock_file_path cfg ∧ key_path ≠ lock_file_path cfg
  ∧ token_path ≠ lock_file_path cfg ∧ key_path ≠ cert_path ∧ token_path ≠ cert_path
  ∧ token_path ≠ key_path.
Proof using Hgood.
  destruct Hgood as [Hn _]. unfold enroll_paths in Hn.
  rewrite !NoDup_cons, !not_elem_of_cons in Hn. naive_solver.
Qed.

Lemma enroll_plain :
  temp_like cert_path = false ∧ temp_like key_path = false ∧ temp_like token_path = false.
Proof using Hgood.
  destruct Hgood as [_ Hf]. unfold enroll_paths in Hf. rewrite !Forall_cons in Hf. naive_solver.
Qed.

Lemma enroll_inv_start : wf_disk d0 → enroll_inv d0.
Proof using.
  intros Hwf. split; [done| |by left|by left].
  unfold key_kept. destruct (read_file d0 key_path); [done | by left].
Qed.

(** A change that leaves the three files alone. *)
Lemma enroll_inv_elsewhere p d d' :
  p ≠ cert_path → p ≠ key_path → p ≠ token_path → enroll_inv d → elsewhere p d d' → enroll_inv d'.
Proof using Hgood.
  intros H1 H2 H3 [Hwf Hkey Hcert Htoken] [Hwf' Hk].
  destruct enroll_plain as (P1 & P2 & P3).
  assert (Kc : keeps d d' cert_path) by auto. assert (Kt : keeps d d' token_path) by auto.
  split; [done| | |].
  - eapply key_kept_frame; [|done]. auto.
  - intros o Ho. by apply Hcert, Kc.
  - destruct Htoken as [Ht|(key & tok & t & He & Hd)]; [left; by eapply keeps_trans|].
    right. exists key, tok, t. split; [done|]. by eapply durable_keeps.
Qed.

Lemma enroll_inv_key d d' key kt :
  enroll_inv d → read_file d key_path = None → MarshalPrivateKeyPEM key = Ok kt →
  atomically d d' key_path (kt, mode_600) → enroll_inv d'.
Proof using Hgood.
  intros [Hwf Hkey Hcert Htoken] Hn Hkt Ha.
  destruct enroll_plain as (P1 & P2 & P3). destruct enroll_distinct as (_ & _ & _ & D1 & D2 & D3).
  assert (Kc : keeps d d' cert_path) by (apply Ha; auto).
  assert (Kt : keeps d d' token_path) by (apply Ha; auto).
  split; [apply Ha| | |].
  - by eapply key_kept_new.
  - intros o Ho. by apply Hcert, Kc.
  - destruct Htoken as [Ht|(k & tok & t & He & Hd)]; [left; by eapply keeps_trans|].
    right. exists k, tok, t. split; [done|]. by eapply durable_keeps.
Qed.

(** The certificate is written while the token is still there. *)
Lemma enroll_inv_cert d d' key token t :
  enroll_inv d → keeps d0 d token_path → read_file d0 cert_path = None → enrolled key token t →
  atomically d d' cert_path (t, mode_644) → enroll_inv d'.
Proof using Hgood.
  intros [Hwf Hkey Hcert _] Hkt Hn He Ha.
  destruct enroll_plain as (P1 & P2 & P3). destruct enroll_distinct as (_ & _ & _ & D1 & D2 & D3).
  split; [apply Ha| | |].
  - eapply key_kept_frame; [apply Ha; auto|done].
  - intros o Ho. destruct (at_path _ _ _ _ Ha) as [[_ Hk]|[_ Hk]]; [by apply Hcert, Hk|].
    destruct (Hk o Ho) as [Hold| ->]; [by apply Hcert|]. right. split; [done|]. by exists key, token, t.
  - left. eapply keeps_trans; [done|]. apply Ha; auto.
Qed.

Lemma enroll_inv_token d d' key token t :
  enroll_inv d → elsewhere token_path d d' → enrolled key token t →
  durable d cert_path (t, mode_644) → enroll_inv d'.
Proof using Hgood.
  intros [Hwf Hkey Hcert _] [Hwf' Hk] He Hd.
  destruct enroll_plain as (P1 & P2 & P3). destruct enroll_distinct as (_ & _ & _ & D1 & D2 & D3).
  assert (Kc : keeps d d' cert_path) by (apply Hk; auto).
  split; [done| | |].
  - eapply key_kept_frame; [|done]. auto.
  - intros o Ho. by apply Hcert, Kc.
  - right. exists key, token, t. split; [done|]. by eapply durable_keeps.
Qed.

(** What an enrolment that succeeds leaves: the key, the certificate the authority
answered to a request for it, whatever happens, and no token. *)
Definition enroll_done (d : disk) : Prop :=
  ∃ key kt km tokenData tm t,
    read_file d key_path = Some (kt, km) ∧ ParsePrivateKeyPEM kt = Ok key
    ∧ read_file d0 token_path = Some (tokenData, tm) ∧ TrimSpace tokenData ≠ ""
    ∧ enrolled key (TrimSpace tokenData) t ∧ durable d cert_path (t, mode_644)
    ∧ read_file d token_path = None ∧ read_file d0 cert_path = None.

Lemma enroll_done_lock d d' :
  enroll_done d → elsewhere (lock_file_path cfg) d d' → enroll_done d'.
Proof using Hgood.
  intros (key & kt & km & td & tm & t & H1 & H2 & H3 & H4 & H5 & H6 & H7 & H8) [_ Hk].
  destruct enroll_plain as (P1 & P2 & P3). destruct enroll_distinct as (D1 & D2 & D3 & _).
  exists key, kt, km, td, tm, t.
  destruct (Hk key_path) as [-> _]; [auto..|]. destruct (Hk token_path) as [-> _]; [auto..|].
  split_and!; try done; eapply durable_keeps; eauto; split; apply H6.
Qed.

(** The end of an enrolment, once the authority has answered. *)
Lemma safe_enroll_end key kt km tokenData tm t d l :
  enroll_inv d → keeps d0 d token_path → read_file d0 cert_path = None →
  read_file d key_path = Some (kt, km) → ParsePrivateKeyPEM kt = Ok key →
  read_file d token_path = Some (tokenData, tm) → TrimSpace tokenData ≠ "" →
  enrolled key (TrimSpace tokenData) t →
  safe enroll_inv any_log
    (_ ← wrapM WritingIdentity (WriteFileAtomic env cert_path t mode_644);
     wrapM RemovingToken (Remove env token_path)) (λ _ d _, enroll_done d) d l.
Proof using Hgood.
  intros HI Hkt Hn Hkey Hp Htok Hne He.
  destruct enroll_plain as (P1 & P2 & P3). destruct enroll_distinct as (_ & _ & _ & D1 & D2 & D3).
  do 2 safe_step. apply safe_WriteFile; [done|done|apply HI|done| |].
  { intros d' Ha. by eapply enroll_inv_cert. }
  intros d' Ha Hd _.
  assert (HI' : enroll_inv d') by (by eapply enroll_inv_cert).
  assert (Hun : elsewhere token_path d' (bind_name token_path None d')).
  { apply unbound_elsewhere, HI'. }
  safe_step. apply safe_Remove; [done|done| |].
  { intros _. by eapply enroll_inv_token. }
  intros _. exists key, kt, km, tokenData, tm, t. destruct Hkt as [<- _].
  assert (Hkey' : keeps d' (bind_name token_path None d') key_path) by (apply Hun; auto).
  destruct Hkey' as [-> _]. destruct (at_others _ _ _ _ Ha key_path) as [-> _]; [done..|].
  split_and!; try done; try (eapply durable_keeps; [apply Hun; auto | done]).
  unfold read_file. simpl. by rewrite lookup_partial_alter_eq.
Qed.

Lemma safe_enroll_key d l :
  enroll_inv d → keeps d0 d token_path → read_file d0 cert_path = None →
  safe enroll_inv any_log (enroll_key env sv cfg) (λ _ d _, enroll_done d) d l.
Proof using Hgood.
  intros HI Ht Hn. unfold enroll_key.
  do 2 safe_step. safe_step. intros kt km Hkt. do 2 safe_step. intros key Hkey%wrap_err_Ok.
  do 2 safe_step. safe_step. intros td tm Htd. case_bool_decide as Hne; [by safe_step|].
  do 2 safe_step. do 2 safe_step. intros csr Hcsr%wrap_err_Ok.
  safe_step. apply safe_log; [done..|]. do 2 safe_step. do 2 safe_step.
  intros t Ht'%wrap_err_Ok.
  eapply safe_enroll_end; [done|done|done|done|done|done|done|by eexists _, _, _].
Qed.

Lemma safe_Enroll `{CL : !CryptoLaws} l :
  wf_disk d0 → safe enroll_inv any_log (Enroll env sv cfg) (λ _ d _, enroll_done d) d0 l.
Proof using Hgood.
  intros Hwf0. pose proof (enroll_inv_start Hwf0) as HI0. unfold Enroll.
  destruct enroll_plain as (P1 & P2 & P3). destruct enroll_distinct as (D1 & D2 & D3 & D4 & D5 & D6).
  apply safe_with_lock; [done|done|by intros ? []| | |].
  { intros d d'. apply enroll_inv_elsewhere; auto. }
  { intros [] d d' _ _. apply enroll_done_lock. }
  intros d HI Hel. destruct (else_keeps _ _ _ Hel cert_path) as [Hc0 _]; [done..|].
  assert (Ht0 : keeps d0 d token_path) by (by apply Hel).
  do 2 safe_step. apply safe_FileExists; [done..|].
  case_bool_decide as Hex; [by safe_step|].
  assert (Hn : read_file d0 cert_path = None).
  { rewrite <- Hc0. unfold read_file. destruct (names d !! cert_path); [by destruct Hex|done]. }
  do 2 safe_step. apply safe_EnsureKey; [done|done|apply HI|done| | |].
  { intros key kt d' Hk Hkt Ha. by eapply enroll_inv_key. }
  - intros _ _ _ _ _. by apply safe_enroll_key.
  - intros key kt d1 _ _ Ha _ HI1. apply safe_enroll_key; [done| |done].
    eapply keeps_trans; [done|]. apply Ha; auto.
Qed.
End Enroll.
End Run.

(** ** A host *)

Definition test_names : list string := ["api.whisper.cl"; "api-v2.whisper.cl"].
Definition test_certificate (der : string) (notAfter : Z) : Certificate :=
  mkCertificate der (Some 7%Z) "api-v2.whisper.cl" ["api-v2.whisper.cl"; "api.whisper.cl"]
    (mkPublicKey (Some "pub")) false [] 0 notAfter.

(** The library of [Pki], with two certificates. *)
Definition agent_crypto : Crypto := {|
  pem_Decode := @pem_Decode test_crypto;
  pem_EncodeToMemory := @pem_EncodeToMemory test_crypto;
  ParseCertificate der :=
    if der == "cert" then Ok (test_certificate der (90 * 24 * Hour))
    else if der == "identity" then Ok (test_certificate der (2 * 24 * Hour))
    else Err "no certificate";
  ParseCertificateRequest der :=
    if der == "identity request" then Ok (mkCertificateRequest "web01" [] (mkPublicKey (Some "pub")))
    else @ParseCertificateRequest test_crypto der;
  CheckSignature := @CheckSignature test_crypto;
  CreateCertificateRequest rnd tpl key :=
    if (tpl == mkTemplate "web01" []) && (key == test_key) then Ok "identity request"
    else @CreateCertificateRequest test_crypto rnd tpl key;
  ParsePKCS8PrivateKey := @ParsePKCS8PrivateKey test_crypto;
  MarshalPKCS8PrivateKey := @MarshalPKCS8PrivateKey test_crypto;
  ParseECPrivateKey := @ParseECPrivateKey test_crypto;
  ecdsa_GenerateKey := @ecdsa_GenerateKey test_crypto |}.

Lemma agent_crypto_laws : @CryptoLaws agent_crypto.
Proof.
  constructor.
  - exact (@pem_decode_encode test_crypto test_crypto_laws).
  - intros rnd tpl key der. simpl.
    destruct (decide (tpl = mkTemplate "web01" [])) as [->|E1]; [|rewrite (bool_decide_false _ E1); simpl].
    + destruct (decide (key = test_key)) as [->|E2]; [|rewrite (bool_decide_false _ E2)].
      * intros [= <-]. exists (mkCertificateRequest "web01" [] (mkPublicKey (Some "pub"))). by vm_compute.
      * by rewrite andb_false_r.
    + intros H. apply (@request_decodes test_crypto test_crypto_laws rnd) in H as (csr & Hp & H).
      exists csr. split; [|done]. revert Hp. simpl. by repeat case_bool_decide; subst.
  - intros der cert. simpl. repeat case_bool_decide; [by intros [= <-]..|done].
  - exact (@pkcs8_decodes test_crypto test_crypto_laws).
Qed.

Definition test_entry : CertConfig :=
  mkCert "api" "api" test_names "/tls/key.pem" "/tls/cert.pem" "/tls/chain.pem"
    "/tls/fullchain.pem" "systemctl reload nginx" (30 * Second) (30 * 24 * Hour).
Definition test_agent : AgentConfig :=
  mkAgentConfig "/state"
    (mkIdentity "web01" "step-ca" "/id/cert.pem" "/id/key.pem" "/id/ca.pem" "/id/token"
      (8 * Hour) (24 * Hour) (mkStepCA "https://ca" "" "/id/ca.pem" (10 * Second)))
    (mkAgentBroker "https://broker" "/id/broker.pem" (30 * Second)) [test_entry]
    (mkLogging "info" "text" "stderr").

Definition test_answer : string :=
  print (JObject [("cert_pem", JString "CERTIFICATE:cert"); ("chain_pem", JString "chain");
    ("fullchain_pem", JString "full"); ("serial_number", JString "7");
    ("not_before", JString "2024-01-01T00:00:00Z"); ("not_after", JString "2024-03-31T00:00:00Z");
    ("cache", JString "miss")]).

Definition test_services : services := {|
  X509KeyPair _ _ := None;
  AppendCertsFromPEM _ := true;
  valid_url _ := true;
  env_http _ _ _ := Ok (mkHttp 200 (Ok test_answer));
  env_enroll _ _ _ := Ok "CERTIFICATE:identity";
  env_renew _ _ _ _ := Ok "CERTIFICATE:identity";
  env_shell _ _ := mkShell "" None false |}.

(** Files that are all synced. *)
Definition place (files : list (string * string)) : disk :=
  mkDisk (list_to_map (imap (λ i f, (fst f, i)) files))
    ((λ f, mkInode (snd f) mode_600 true) <$> files) [].
Definition booted (d : disk) : machine := mkMachine d [] [] 0.

Lemma wf_synced d :
  unsynced d = [] → bool_decide (map_Forall (λ _ i, i < length (inodes d)) (names d)) = true →
  wf_disk d.
Proof.
  intros Hu Hn p i [Hi|Hi]; [|rewrite Hu in Hi; by apply not_elem_of_nil in Hi].
  apply bool_decide_eq_true in Hn. by apply (Hn p).
Qed.

(** A host with an identity, and one before its enrolment. *)
Definition enrolled_host : disk :=
  place [("/id/cert.pem", "CERTIFICATE:identity"); ("/id/key.pem", "PRIVATE KEY:priv");
         ("/id/ca.pem", "ca"); ("/id/broker.pem", "ca")].
Definition new_host : disk := place [("/id/token", "secret"); ("/id/ca.pem", "ca")].

Definition run_on (env : environment) (m : machine) : result agent_error unit * machine :=
  Run (CR:=agent_crypto) env test_services test_agent m.

(** A fault at one draw. *)
Definition fault_at (n : nat) : environment :=
  mkEnvironment (λ i, if decide (i = n) then Some ("no space left on device", 0) else None)
    (env_temp test_env) (env_rand test_env) (env_clock test_env) 42.

Example first_run : fst (run_on test_env (booted enrolled_host)) = Ok tt.
Proof. vm_compute. reflexivity. Qed.

Definition tls_files (d : disk) : list (option string) :=
  (λ p, fst <$> read_file d p) <$> ["/tls/cert.pem"; "/tls/chain.pem"; "/tls/fullchain.pem"].

(** The disk fills up while the chain is written: the run fails with the new
certificate installed. The next run finds that certificate fresh and succeeds:
the chain is never written, and the service never reloaded. *)
Lemma interrupted_installation_not_repaired :
  let '(r1, m1) := run_on (fault_at 41) (booted enrolled_host) in
  let '(r2, m2) := run_on (fault_at 41) m1 in
  is_ok r1 = false ∧ r2 = Ok tt
  ∧ tls_files (m_disk m1) = [Some "CERTIFICATE:cert"; None; None]
  ∧ tls_files (m_disk m2) = [Some "CERTIFICATE:cert"; None; None]
  ∧ m_log m2 = m_log m1 ∧ Exec (ReloadCommand test_entry) ∉ m_log m2.
Proof. vm_compute. split_and!; try done. set_solver. Qed.

(** ** Properties *)

(** C9: Whatever fails, and whatever the broker and the authority answer: at each
moment of a run, and after a crash at that moment, each configured private key
is the one that was there, or a complete new one where there was none; and each
configured certificate is the one that was there, or one that parses, matches
the key on disk and has exactly the names of its entry. *)
Theorem Run_keeps_files {CR : Crypto} {CL : CryptoLaws} env sv cfg m :
  good_paths cfg → wf_disk (m_disk m) →
  let '(r, m') := Run env sv cfg m in
  ∃ moments, m_past m' = m_past m ++ moments
    ∧ ∀ d c, d ∈ m_disk m' :: moments → c ∈ Certificates cfg → entry_ok (m_disk m) d c.
Proof.
  intros Hgood Hwf. pose proof (safe_run _ _ _ _ _ (safe_Run env sv cfg _ (m_log m) Hgood Hwf)) as H.
  destruct (Run env sv cfg m) as [r m']. destruct H as (new & Hp & Hn & _). exists new.
  split; [done|]. intros d c Hd Hc. rewrite Forall_forall in Hn. by apply Hn.
Qed.

(** C18: When a run succeeds, each configured certificate is on disk and matches the
key on disk; it is not to be renewed yet, or it was installed by the run, with
exactly its names and with its chains, so that no crash loses it. *)
Theorem Run_done {CR : Crypto} {CL : CryptoLaws} env sv cfg m m' :
  good_paths cfg → wf_disk (m_disk m) → Run env sv cfg m = (Ok tt, m') →
  ∀ c, c ∈ Certificates cfg → entry_done env (m_disk m') c.
Proof.
  intros Hgood Hwf Hrun.
  pose proof (safe_run _ _ _ _ _ (safe_Run env sv cfg _ (m_log m) Hgood Hwf)) as H.
  rewrite Hrun in H. destruct H as (_ & _ & _ & _ & HP). by apply (HP tt).
Qed.

(** C19: When the identity and each certificate on disk are far from their end, a
run, whether it fails or not, asks nothing of the broker or of the authority,
runs no command, and leaves every file but its lock as it is. *)
Theorem Run_quiet {CR : Crypto} env sv cfg m :
  good_paths cfg → wf_disk (m_disk m) → settled env cfg (m_disk m) →
  let '(r, m') := Run env sv cfg m in
  m_log m' = m_log m
  ∧ ∃ moments, m_past m' = m_past m ++ moments
    ∧ ∀ d, d ∈ m_disk m' :: moments → untouched cfg (m_disk m) d.
Proof.
  intros Hgood Hwf Hset.
  pose proof (safe_run _ _ _ _ _ (quiet_Run env sv cfg Hgood _ (m_log m) Hset Hwf)) as H.
  destruct (Run env sv cfg m) as [r m']. destruct H as (new & Hp & Hn & Hl & _).
  split; [done|]. exists new. split; [done|]. by apply Forall_forall.
Qed.

(** C20: Whatever fails: an enrolment never replaces an identity certificate or a
private key that is there; it writes only what the authority answered to a
request for the configured name, and removes the bootstrap token only once that
certificate is safe from a crash. An enrolment that succeeds leaves the key, the
certificate for it and no token. *)
Theorem Enroll_safe {CR : Crypto} {CL : CryptoLaws} env sv cfg m :
  good_enroll_paths cfg → wf_disk (m_disk m) →
  let '(r, m') := Enroll env sv cfg m in
  (∃ moments, m_past m' = m_past m ++ moments
     ∧ ∀ d, d ∈ m_disk m' :: moments → enroll_inv env sv cfg (m_disk m) d)
  ∧ (r = Ok tt → enroll_done env sv cfg (m_disk m) (m_disk m')).
Proof.
  intros Hgood Hwf.
  pose proof (safe_run _ _ _ _ _ (safe_Enroll env sv cfg Hgood _ (m_log m) Hwf)) as H.
  destruct (Enroll env sv cfg m) as [r m']. destruct H as (new & Hp & Hn & _ & HP).
  split; [|apply HP]. exists new. split; [done|]. by apply Forall_forall.
Qed.

(** C39: The renewal of the identity follows [renewal]: it sends the certificate
and the key on disk to the authority at most once, only when the certificate
has not expired and is inside the renewal window, and writes what the authority
answered; otherwise no file changes. It succeeds only with a certificate that is
not due, or with a new one that no crash loses. *)
Theorem RenewIdentityIfNeeded_correct {CR : Crypto} env sv cfg m :
  wf_disk (m_disk m) → temp_like (Identity_Cert (Identity cfg)) = false →
  let '(r, m') := RenewIdentityIfNeeded env sv cfg m in
  ∃ sent, m_log m' = m_log m ++ sent ∧ renewal env sv cfg (m_disk m) r (m_disk m') sent.
Proof.
  intros Hwf Hp.
  destruct (wp_run _ _ _ m (wp_Renew env sv cfg (m_disk m) (m_log m) Hwf Hp)) as (_ & _ & _ & HQ).
  by destruct (RenewIdentityIfNeeded env sv cfg m) as [r m'].
Qed.

(** *** Witnesses *)

Lemma test_good_paths : good_paths test_agent.
Proof. split; [|by repeat constructor]. apply (bool_decide_unpack _). vm_compute. exact I. Qed.

Lemma test_good_enroll : good_enroll_paths test_agent.
Proof. split; [|by repeat constructor]. apply (bool_decide_unpack _). vm_compute. exact I. Qed.

Lemma enrolled_host_wf : wf_disk enrolled_host.
Proof. apply wf_synced; vm_compute; reflexivity. Qed.
Lemma new_host_wf : wf_disk new_host.
Proof. apply wf_synced; vm_compute; reflexivity. Qed.

Lemma Run_keeps_files_witness :
  entry_ok (CR:=agent_crypto) enrolled_host
    (m_disk (snd (run_on (fault_at 57) (booted enrolled_host)))) test_entry.
Proof.
  pose proof (Run_keeps_files (CL:=agent_crypto_laws) (fault_at 57) test_services test_agent
    (booted enrolled_host) test_good_paths enrolled_host_wf) as H.
  unfold run_on. destruct (Run _ _ _ _) as [r m']. destruct H as (moments & _ & H).
  apply H; left.
Defined.

Lemma Run_done_witness :
  entry_done (CR:=agent_crypto) test_env (m_disk (snd (run_on test_env (booted enrolled_host))))
    test_entry.
Proof.
  apply (Run_done (CL:=agent_crypto_laws) test_env test_services test_agent (booted enrolled_host) _
    test_good_paths enrolled_host_wf); [|left].
  pose proof first_run as Hr. unfold run_on in *. destruct (Run _ _ _ _) as [r m'].
  simpl in *. by rewrite Hr.
Defined.

(** After a first run there is nothing to do. *)
Definition settled_host : disk :=
  place [("/id/cert.pem", "CERTIFICATE:identity"); ("/id/key.pem", "PRIVATE KEY:priv");
         ("/id/ca.pem", "ca"); ("/id/broker.pem", "ca"); ("/tls/key.pem", "PRIVATE KEY:priv");
         ("/tls/cert.pem", "CERTIFICATE:cert")].
Definition still_env : environment :=
  mkEnvironment (λ _, None) (λ n, itoa (Z.of_nat n)) (λ _, "") (λ _, Hour) 42.

Lemma still_settled : settled (CR:=agent_crypto) still_env test_agent settled_host.
Proof.
  constructor.
  - eexists _, _, _. split_and!; [vm_compute; reflexivity..|]. intros n. vm_compute. reflexivity.
  - intros c Hc. apply list_elem_of_singleton in Hc as ->. constructor.
    + eexists _, _, _. split; vm_compute; reflexivity.
    + eexists _, _, _. split_and!; [vm_compute; reflexivity..|]. intros n. vm_compute. reflexivity.
Qed.

Lemma Run_quiet_witness :
  m_log (snd (Run (CR:=agent_crypto) still_env test_services test_agent (booted settled_host))) = [].
Proof.
  pose proof (Run_quiet (CR:=agent_crypto) still_env test_services test_agent (booted settled_host)
    test_good_paths ltac:(apply wf_synced; vm_compute; reflexivity) still_settled) as H.
  destruct (Run _ _ _ _) as [r m']. apply H.
Defined.

Lemma Enroll_safe_witness :
  enroll_done (CR:=agent_crypto) test_env test_services test_agent new_host
    (m_disk (snd (Enroll (CR:=agent_crypto) test_env test_services test_agent (booted new_host)))).
Proof.
  pose proof (Enroll_safe (CL:=agent_crypto_laws) test_env test_services test_agent
    (booted new_host) test_good_enroll new_host_wf) as H.
  assert (Hr : fst (Enroll (CR:=agent_crypto) test_env test_services test_agent (booted new_host)) = Ok tt)
    by (vm_compute; reflexivity).
  destruct (Enroll _ _ _ _) as [r m']. by apply H.
Defined.

(** The identity of the host is due a day and a half later. *)
Definition late_env : environment :=
  mkEnvironment (λ _, None) (λ n, itoa (Z.of_nat n)) (λ _, "") (λ _, (42 * Hour)%Z) 42.

Lemma RenewIdentityIfNeeded_correct_witness :
  ∃ sent, sent = [Call "renew" ["CERTIFICATE:identity"; "PRIVATE KEY:priv"; "ca"]]
    ∧ renewal (CR:=agent_crypto) late_env test_services test_agent enrolled_host (Ok tt)
        (m_disk (snd (RenewIdentityIfNeeded (CR:=agent_crypto) late_env test_services test_agent
           (booted enrolled_host)))) sent.
Proof.
  pose proof (RenewIdentityIfNeeded_correct (CR:=agent_crypto) late_env test_services test_agent
    (booted enrolled_host) enrolled_host_wf eq_refl) as H.
  assert (Hr : let '(r, m') := RenewIdentityIfNeeded (CR:=agent_crypto) late_env test_services
      test_agent (booted enrolled_host) in
    r = Ok tt ∧ m_log m' = [Call "renew" ["CERTIFICATE:identity"; "PRIVATE KEY:priv"; "ca"]])
    by (vm_compute; done).
  destruct (RenewIdentityIfNeeded _ _ _ _) as [r m']. destruct Hr as [-> Hl].
  destruct H as (sent & Hs & H). exists sent. split; [|done]. rewrite Hl in Hs. by rewrite Hs.
Defined.
End agent_spec.
