(* ===== verification/StepCa.v ===== *)
(** * The certificate authority of identities ([internal/ca])

[identity.go], the requests and answers the agent exchanges with an authority,
and [providers/stepca/provider.go], the client of step-ca. The library that
speaks to step-ca and the loading of key pairs are inputs, collected in
[library]; time-outs are errors of the library. *)

From Stdlib Require Import Ascii.
From S2P Require Import Prelude GoStrings GoTime Os OsLogic FileUtil.
From S2P Require Import Config X509 Pki PkiFiles Agent AgentSpec.
Import os os_logic fileutil x509 pki pki_files agent agent_spec.
#[local] Open Scope go_scope.

Module stepca.

(** ** identity.go *)

Record EnrollmentRequest := mkEnrollment { en_CSRPEM : string; en_Token : string }.
Record RenewalRequest := mkRenewal { rn_CertPEM : string; rn_KeyPEM : string; rn_IssuerCAPEM : string }.

Record IdentityCertificate := mkIdentityCertificate {
  id_Certificate : Certificate;
  id_CertPEM : string;
  id_ChainPEM : string;
  id_NotBefore : Z;
  id_NotAfter : Z }.

(** ** The library *)

(** How a client knows the authority, and the key pair it shows. *)
Inductive root := RootFile (path : string) | RootSHA256 (fingerprint : string).
Record client := mkClient {
  cl_url : string;
  cl_root : root;
  cl_timeout : Z;
  cl_certificate : option (string * string) }.

Record SignRequest := mkSign { sr_csr : CertificateRequest; sr_OTT : string }.

(** A response of the authority; certificates may be nil. *)
Record SignResponse := mkSignResponse {
  ServerPEM : option Certificate;
  CaPEM : option Certificate;
  CertChainPEM : list (option Certificate) }.

(** The errors and answers of one use of the library; a nil response is [None]. *)
Record library := mkLibrary {
  step_NewClient : client → option string;
  step_X509KeyPair : string → string → option string;
  SignWithContext : client → SignRequest → result string (option SignResponse);
  RenewWithContext : client → result string (option SignResponse) }.

Inductive stepca_error :=
  | URLRequired
  | RootRequired
  | CreatingClient (e : string)
  | TokenEmpty
  | ParsingIdentityCSR (e : pki_error)
  | InvalidCSRSignature (e : string)
  | Signing (e : string)
  | KeyPairRequired
  | LoadingKeyPair (e : string)
  | Renewing (e : string)
  | NilResponse
  | NoLeaf.

(** ** provider.go *)

Record Config := mkConfig { URL : string; Fingerprint : string; RootCAPath : string; Timeout : Z }.

Record Provider := mkProvider { cfg : Config; cli : client }.

Section StepCa.
Context (lib : library) {CR : Crypto}.

Definition root_of (c : Config) : root :=
  if RootCAPath c != "" then RootFile (RootCAPath c) else RootSHA256 (Fingerprint c).

Definition make_client (c : client) : result stepca_error client :=
  match step_NewClient lib c with Some e => Err (CreatingClient e) | None => Ok c end.
Definition newClient (c : Config) : result stepca_error client :=
  make_client (mkClient (URL c) (root_of c) (Timeout c) None).
Definition newClientWithCertificate (c : Config) (cert : string * string) : result stepca_error client :=
  make_client (mkClient (URL c) (root_of c) (Timeout c) (Some cert)).

Definition with_Timeout (c : Config) : Config :=
  mkConfig (URL c) (Fingerprint c) (RootCAPath c)
    (if (Timeout c =? 0)%Z then (10 * Second)%Z else Timeout c).

Definition New (c : Config) : result stepca_error Provider :=
  if URL c == "" then Err URLRequired
  else if (Fingerprint c == "") && (RootCAPath c == "") then Err RootRequired
  else
    let c := with_Timeout c in
    client ← newClient c;
    mret (mkProvider c client).

Definition certToPEM (cert : Certificate) : string :=
  pem_EncodeToMemory (mkBlock "CERTIFICATE" (cert_Raw cert)).

(** [c.Equal(cert)] compares the encodings. *)
Definition same_certificate (a b : Certificate) : bool := cert_Raw a == cert_Raw b.

Fixpoint chain_text (leaf : Certificate) (chain : list (option Certificate)) : string :=
  match chain with
  | [] => ""
  | None :: chain' => chain_text leaf chain'
  | Some c :: chain' =>
      if same_certificate c leaf then chain_text leaf chain'
      else string_app (certToPEM c) (chain_text leaf chain')
  end.

(** The leaf: the server's certificate, or the first of the chain. *)
Definition leaf_of (resp : SignResponse) : option Certificate :=
  match ServerPEM resp with
  | Some cert => Some cert
  | None => match CertChainPEM resp with first :: _ => first | [] => None end
  end.

Definition identityFromSignResponse (resp : option SignResponse)
    : result stepca_error IdentityCertificate :=
  match resp with
  | None => Err NilResponse
  | Some resp =>
      match leaf_of resp with
      | None => Err NoLeaf
      | Some cert =>
          let ca := match CaPEM resp with Some c => certToPEM c | None => "" end in
          Ok (mkIdentityCertificate cert (certToPEM cert)
                (string_app ca (chain_text cert (CertChainPEM resp)))
                (cert_NotBefore cert) (cert_NotAfter cert))
      end
  end.

Definition Enroll (p : Provider) (req : EnrollmentRequest) : result stepca_error IdentityCertificate :=
  let token := TrimSpace (en_Token req) in
  if token == "" then Err TokenEmpty
  else
    csr ← wrap_err ParsingIdentityCSR (ParseCSRPEM (en_CSRPEM req));
    match CheckSignature csr with
    | Some e => Err (InvalidCSRSignature e)
    | None =>
        resp ← wrap_err Signing (SignWithContext lib (cli p) (mkSign csr token));
        identityFromSignResponse resp
    end.

Definition Renew (p : Provider) (req : RenewalRequest) : result stepca_error IdentityCertificate :=
  if (rn_CertPEM req == "") || (rn_KeyPEM req == "") then Err KeyPairRequired
  else
    match step_X509KeyPair lib (rn_CertPEM req) (rn_KeyPEM req) with
    | Some e => Err (LoadingKeyPair e)
    | None =>
        client ← newClientWithCertificate (cfg p) (rn_CertPEM req, rn_KeyPEM req);
        resp ← wrap_err Renewing (RenewWithContext lib client);
        identityFromSignResponse resp
    end.

(** ** Lemmas *)

(** The certificates of a response that are in no error: not nil, and not the leaf. *)
Definition others (leaf : Certificate) (chain : list (option Certificate)) : list Certificate :=
  filter (λ c, cert_Raw c ≠ cert_Raw leaf) (omap id chain).

Lemma chain_text_others leaf chain :
  chain_text leaf chain = foldr (λ c, string_app (certToPEM c)) "" (others leaf chain).
Proof using.
  unfold others. induction chain as [|[c|] chain IH]; simpl; [done| |done].
  unfold same_certificate. rewrite filter_cons. rewrite IH.
  by case_bool_decide; case_decide.
Qed.

(** What the library parsed, it parses again. *)
Definition parsed (cert : Certificate) : Prop := ParseCertificate (cert_Raw cert) = Ok cert.

Lemma certToPEM_parses `{CL : !CryptoLaws} cert :
  parsed cert → ParseCertificatePEM (certToPEM cert) = Ok cert.
Proof using.
  intros Hp. unfold ParseCertificatePEM, certToPEM. rewrite pem_decode_encode by set_solver.
  simpl. by rewrite Hp.
Qed.

Lemma identity_Ok resp id :
  identityFromSignResponse resp = Ok id ↔
  ∃ r leaf, resp = Some r ∧ leaf_of r = Some leaf
    ∧ id = mkIdentityCertificate leaf (certToPEM leaf)
        (string_app (match CaPEM r with Some c => certToPEM c | None => "" end)
           (foldr (λ c, string_app (certToPEM c)) "" (others leaf (CertChainPEM r))))
        (cert_NotBefore leaf) (cert_NotAfter leaf).
Proof using.
  unfold identityFromSignResponse. split.
  - destruct resp as [r|]; [|done]. destruct (leaf_of r) as [leaf|] eqn:El; [|done].
    intros [= <-]. exists r, leaf. by rewrite chain_text_others.
  - intros (r & leaf & -> & -> & ->). by rewrite chain_text_others.
Qed.

Lemma Enroll_Ok p req id :
  Enroll p req = Ok id →
  ∃ csr r, TrimSpace (en_Token req) ≠ "" ∧ ParseCSRPEM (en_CSRPEM req) = Ok csr
    ∧ SignWithContext lib (cli p) (mkSign csr (TrimSpace (en_Token req))) = Ok r
    ∧ identityFromSignResponse r = Ok id.
Proof using.
  unfold Enroll. case_bool_decide as Ht; [done|].
  intros (csr & Hcsr%wrap_err_Ok & H)%bind_Ok. destruct (CheckSignature csr); [done|].
  apply bind_Ok in H as (r & Hr%wrap_err_Ok & Hid). by exists csr, r.
Qed.
End StepCa.

(** ** An agent with this authority *)

(** The [n]-th draw of a run that reaches the authority meets the [n]-th library. *)
Definition with_step_ca {CR : Crypto} (libs : nat → library) (p : Provider)
    (text : stepca_error → string) (sv : services) : services := {|
  X509KeyPair := X509KeyPair sv;
  AppendCertsFromPEM := AppendCertsFromPEM sv;
  valid_url := valid_url sv;
  env_http := env_http sv;
  env_enroll n csr token :=
    wrap_err text (id_CertPEM <$> Enroll (libs n) p (mkEnrollment csr token));
  env_renew n cert key ca :=
    wrap_err text (id_CertPEM <$> Renew (libs n) p (mkRenewal cert key ca));
  env_shell := env_shell sv |}.

(** The authority signs the key it is asked to: its leaf certificates parse and
carry the public key of the request. *)
Definition certifies {CR : Crypto} (libs : nat → library) : Prop :=
  ∀ n c req r leaf, SignWithContext (libs n) c req = Ok (Some r) → leaf_of r = Some leaf →
    parsed leaf ∧ cert_PublicKey leaf = csr_PublicKey (sr_csr req)
    ∧ is_Some (pkix_der (csr_PublicKey (sr_csr req))).

Lemma identity_csr_parses {CR : Crypto} {CL : CryptoLaws} rnd key name pem :
  GenerateIdentityCSR rnd key name = Ok pem →
  ∃ csr, ParseCSRPEM pem = Ok csr ∧ csr_PublicKey csr = Public key.
Proof.
  unfold GenerateIdentityCSR. case_bool_decide; [done|].
  intros (csr & ? & _ & _ & ?)%createCSR_parses. eauto.
Qed.

Lemma enrolled_leaf {CR : Crypto} {CL : CryptoLaws} libs p text sv env cfg key token t :
  certifies libs → enrolled env (with_step_ca libs p text sv) cfg key token t →
  ∃ leaf, t = certToPEM leaf ∧ parsed leaf ∧ CertificateMatchesPrivateKey leaf key = Ok tt
    ∧ ∃ n c req r, SignWithContext (libs n) c req = Ok (Some r) ∧ leaf_of r = Some leaf.
Proof.
  intros Hca (n & n' & pem & Hpem & Hans). simpl in Hans. apply wrap_err_Ok in Hans.
  destruct (identity_csr_parses _ _ _ _ Hpem) as (csr & Hcsr & Hpub).
  destruct (Enroll _ _ _) as [id|] eqn:Een; [|done]. injection Hans as <-.
  apply Enroll_Ok in Een as (csr' & r & _ & Hcsr' & Hsign & Hid).
  apply identity_Ok in Hid as (r' & leaf & -> & Hleaf & ->).
  destruct (Hca _ _ _ _ _ Hsign Hleaf) as (Hp & Hk & Hs). simpl in *.
  assert (csr' = csr) as -> by congruence. exists leaf. split_and!; [done|done| |by eauto 6].
  apply CertificateMatchesPrivateKey_Ok. rewrite <- Hpub, <- Hk. split; [done|]. by rewrite Hk.
Qed.

(** ** Properties *)

(** C21: An agent that enrols with step-ca and meets no error has an identity that
works: the certificate on its disk, which no crash takes away, parses, is the
leaf the authority answered, and matches the private key on its disk; the
bootstrap token is gone. The authority is only trusted to sign the public key of
the request it is sent. *)
Theorem Enroll_matches {CR : Crypto} {CL : CryptoLaws} libs p text sv env cfg m :
  certifies libs → good_enroll_paths cfg → wf_disk (m_disk m) →
  let '(r, m') := agent.Enroll env (with_step_ca libs p text sv) cfg m in
  r = Ok tt →
  let i := config.Identity cfg in
  ∃ key kt km leaf, read_file (m_disk m') (config.Identity_Key i) = Some (kt, km)
    ∧ ParsePrivateKeyPEM kt = Ok key
    ∧ durable (m_disk m') (config.Identity_Cert i) (certToPEM leaf, mode_644)
    ∧ ParseCertificatePEM (certToPEM leaf) = Ok leaf
    ∧ CertificateMatchesPrivateKey leaf key = Ok tt
    ∧ (∃ n c req r, SignWithContext (libs n) c req = Ok (Some r) ∧ leaf_of r = Some leaf)
    ∧ read_file (m_disk m') (config.BootstrapToken i) = None.
Proof.
  intros Hca Hgood Hwf.
  pose proof (safe_run _ _ _ _ _
    (safe_Enroll env (with_step_ca libs p text sv) cfg Hgood _ (m_log m) Hwf)) as H.
  destruct (agent.Enroll _ _ _ m) as [r m']. destruct H as (_ & _ & _ & _ & H). intros Hr.
  destruct (H tt Hr) as (key & kt & km & td & tm & t & H1 & H2 & _ & _ & He & Hd & H3 & _).
  destruct (enrolled_leaf _ _ _ _ _ _ _ _ _ Hca He) as (leaf & -> & Hp & Hm & Hs).
  exists key, kt, km, leaf. split_and!; try done. by apply certToPEM_parses.
Qed.

(** ** An authority *)

Definition test_leaf : Certificate := test_certificate "identity" (2 * 24 * Hour).
Definition test_ca : Certificate :=
  mkCertificate "ca" (Some 1%Z) "ca" [] (mkPublicKey (Some "ca pub")) true [] 0 (10 * 24 * Hour).
Definition test_response : SignResponse :=
  mkSignResponse (Some test_leaf) (Some test_ca) [Some test_leaf; Some test_ca].
Definition test_library : library := {|
  step_NewClient _ := None;
  step_X509KeyPair _ _ := None;
  SignWithContext _ req :=
    if csr_PublicKey (sr_csr req) == mkPublicKey (Some "pub") then Ok (Some test_response) else Err "no";
  RenewWithContext _ := Ok (Some test_response) |}.
Definition test_provider : Provider :=
  mkProvider (mkConfig "https://ca" "" "/ca.pem" (10 * Second))
    (mkClient "https://ca" (RootFile "/ca.pem") (10 * Second) None).

Lemma test_certifies : certifies (CR:=agent_crypto) (λ _, test_library).
Proof.
  intros n c req r leaf. simpl. case_bool_decide as E; [|done]. intros [= <-] [= <-].
  rewrite E. split_and!; [done|done|by eexists].
Qed.

(** step-ca lists its intermediate certificate twice, and so does the chain. *)
Example chain_twice :
  id_ChainPEM <$> identityFromSignResponse (CR:=agent_crypto) (Some test_response)
  = Ok "CERTIFICATE:caCERTIFICATE:ca".
Proof. vm_compute. reflexivity. Qed.

Definition test_enrolment : result agent_error unit * machine :=
  agent.Enroll (CR:=agent_crypto) test_env
    (with_step_ca (CR:=agent_crypto) (λ _, test_library) test_provider (λ _, "") test_services)
    test_agent (booted new_host).

Lemma Enroll_matches_witness :
  ∃ key leaf, ParsePrivateKeyPEM (CR:=agent_crypto) "PRIVATE KEY:priv" = Ok key
    ∧ durable (m_disk (snd test_enrolment)) "/id/cert.pem" (certToPEM (CR:=agent_crypto) leaf, mode_644)
    ∧ CertificateMatchesPrivateKey leaf key = Ok tt.
Proof.
  pose proof (Enroll_matches (CR:=agent_crypto) (CL:=agent_crypto_laws) (λ _, test_library)
    test_provider (λ _, "") test_services test_env test_agent (booted new_host)
    test_certifies test_good_enroll new_host_wf) as H.
  fold test_enrolment in H.
  assert (Hr : fst test_enrolment = Ok tt) by (vm_compute; reflexivity).
  assert (Hk : fst <$> read_file (m_disk (snd test_enrolment)) "/id/key.pem" = Some "PRIVATE KEY:priv")
    by (vm_compute; reflexivity).
  destruct test_enrolment as [r m']. cbn [fst snd] in *.
  destruct (H Hr) as (key & kt & km & leaf & Hf & Hp & Hd & _ & Hm & _).
  exists key, leaf. split_and!; [|exact Hd|exact Hm].
  change (config.Identity_Key (config.Identity test_agent)) with "/id/key.pem" in Hf.
  rewrite Hf in Hk. injection Hk as ->. exact Hp.
Defined.
End stepca.
