(* ===== verification/AuditLog.v ===== *)
(** * Audit events and recorders ([internal/broker/audit])

[event.go], [id.go] and [recorder.go]: the event, its JSON text, the recorders
that write it as JSON lines, and the recorder that fans out to several others.
A recorder is what the interface [RecorderOps] asks of it: the broker and
[MultiRecorder] know nothing else of it. Failures of the operating system are
inputs of the operations. *)

From S2P Require Import Prelude GoStrings GoTime Json.
#[local] Open Scope go_scope.

Module audit.

(** ** event.go *)

Definition SeverityInfo := "info".
Definition SeverityWarn := "warn".
Definition SeverityError := "error".

Definition EventBrokerStarted := "broker_started".
Definition EventCertificateRequestReceived := "certificate_request_received".
Definition EventCertificateAuthorized := "certificate_authorized".
Definition EventCertificateDenied := "certificate_denied".
Definition EventCertificateCacheHit := "certificate_cache_hit".
Definition EventCertificateIssued := "certificate_issued".
Definition EventCertificateIssueFailed := "certificate_issue_failed".

Definition DecisionAllow := "allow".
Definition DecisionDeny := "deny".
Definition DecisionIssue := "issue".
Definition DecisionCacheHit := "cache_hit".
Definition DecisionError := "error".

Definition ReasonOK := "ok".
Definition ReasonInvalidClientCertificate := "invalid_client_certificate".
Definition ReasonUnknownIdentity := "unknown_identity".
Definition ReasonProfileNotAllowed := "profile_not_allowed".
Definition ReasonUnknownProfile := "unknown_profile".
Definition ReasonInvalidRequest := "invalid_request".
Definition ReasonInvalidCSR := "invalid_csr".
Definition ReasonCSRNamesMismatch := "csr_names_mismatch".
Definition ReasonRateLimited := "rate_limited".
Definition ReasonCacheHit := "cache_hit".
Definition ReasonCacheMiss := "cache_miss".
Definition ReasonIssuerFailed := "issuer_failed".

(** A nil slice and a nil map are [None]; the values of [Metadata] are strings,
the only ones the program stores there. *)
Record Event := mkEvent {
  EventID : string;
  RequestID : string;
  Timestamp : Z;
  Type_ : string;
  Severity : string;
  Decision_ : string;
  Identity : string;
  ProfileName : string;
  ProfileHash : string;
  PolicyHash : string;
  ReasonCode : string;
  Reason : string;
  Error : string;
  SourceIP : string;
  UserAgent : string;
  CSRSHA256 : string;
  CSRPublicKeySHA256 : string;
  CSRDNSNames : option (list string);
  ExpectedDNSNames : option (list string);
  IssuerName : string;
  IssuerDirectory : string;
  ACMEOrderURL : string;
  CertSerialNumber : string;
  CertNotBefore : option Z;
  CertNotAfter : option Z;
  CacheResult : string;
  Metadata : option (gmap string string) }.

#[export] Instance Event_eq_dec : EqDecision Event.
Proof. solve_decision. Defined.

(** *** The JSON text of an event *)

Definition omitempty (key value : string) : list (string * json) :=
  if value == "" then [] else [(key, JString value)].
Definition omitempty_list (key : string) (value : option (list string)) : list (string * json) :=
  match value with
  | None | Some [] => []
  | Some l => [(key, JArray (JString <$> l))]
  end.
Definition omitempty_time (key : string) (value : option Z) : list (string * json) :=
  match value with None => [] | Some t => [(key, JString (format_RFC3339Nano t))] end.
Definition omitempty_map (key : string) (value : option (gmap string string))
    : list (string * json) :=
  match value with
  | None => []
  | Some m =>
      if (size m =? 0)%nat then []
      else [(key, JObject ((λ k, (k, JString (default "" (m !! k))))
              <$> sort_strings (elements (dom m))))]
  end.

Definition event_json (e : Event) : json :=
  JObject ([("event_id", JString (EventID e));
            ("request_id", JString (RequestID e));
            ("timestamp", JString (format_RFC3339Nano (Timestamp e)));
            ("event_type", JString (Type_ e));
            ("severity", JString (Severity e));
            ("decision", JString (Decision_ e))]
    ++ omitempty "identity" (Identity e)
    ++ omitempty "profile_name" (ProfileName e)
    ++ omitempty "profile_hash" (ProfileHash e)
    ++ omitempty "policy_hash" (PolicyHash e)
    ++ omitempty "reason_code" (ReasonCode e)
    ++ omitempty "reason" (Reason e)
    ++ omitempty "error" (Error e)
    ++ omitempty "source_ip" (SourceIP e)
    ++ omitempty "user_agent" (UserAgent e)
    ++ omitempty "csr_sha256" (CSRSHA256 e)
    ++ omitempty "csr_public_key_sha256" (CSRPublicKeySHA256 e)
    ++ omitempty_list "csr_dns_names" (CSRDNSNames e)
    ++ omitempty_list "expected_dns_names" (ExpectedDNSNames e)
    ++ omitempty "issuer_name" (IssuerName e)
    ++ omitempty "issuer_directory" (IssuerDirectory e)
    ++ omitempty "acme_order_url" (ACMEOrderURL e)
    ++ omitempty "cert_serial_number" (CertSerialNumber e)
    ++ omitempty_time "cert_not_before" (CertNotBefore e)
    ++ omitempty_time "cert_not_after" (CertNotAfter e)
    ++ omitempty "cache_result" (CacheResult e)
    ++ omitempty_map "metadata" (Metadata e)).

(** [json.NewEncoder(w).Encode(event)]: one line, or an error for an instant
whose year has not four digits. *)
Definition times_encode (e : Event) : bool :=
  forallb year_encodes (Timestamp e :: option_list (CertNotBefore e)
                        ++ option_list (CertNotAfter e)).
Definition event_line (e : Event) : option string :=
  if times_encode e then Some (string_app (print (event_json e)) newline) else None.

(** ** id.go *)

Inductive audit_error :=
  | GenerateID
  | WritingJSONL
  | CreatingDirectory
  | OpeningLog
  | WritingLog
  | SyncingLog
  | ClosingLog.

(** [ulid.New] over the clock and [rand.Reader]: its text, or a failure. *)
Definition NewID (ulid : option string) (prefix : string) : result audit_error string :=
  match ulid with
  | None => Err GenerateID
  | Some id => Ok (string_app prefix (ToLower id))
  end.

(** ** recorder.go *)

(** A recorder and the state behind it; an operation is given the failures of
the system it will meet. *)
Class RecorderOps (E R F : Type) := { Record_ : F → Event → R → option E * R }.

(** A write to the underlying file or writer: complete, or failed after some
bytes. *)
Inductive write_outcome := Written | FailedAfter (n : nat).

Definition take_bytes (n : nat) (s : string) : string :=
  (fix go n s := match n, s with
     | S n', String a s' => String a (go n' s') | _, _ => "" end) n s.

Definition encode_to (w : write_outcome) (e : Event) (content : string) : bool * string :=
  match event_line e with
  | None => (false, content)
  | Some line =>
      match w with
      | Written => (true, string_app content line)
      | FailedAfter n => (false, string_app content (take_bytes n line))
      end
  end.

Record JSONLRecorder := mkJSONLRecorder { w : string }.

Definition JSONLRecorder_Record (f : write_outcome) (e : Event) (r : JSONLRecorder)
    : option audit_error * JSONLRecorder :=
  let '(ok, content) := encode_to f e (w r) in
  (if ok then None else Some WritingJSONL, mkJSONLRecorder content).

(** What the system calls of [FileJSONLRecorder.Record] answer. *)
Record file_faults := mkFileFaults {
  mkdir_ok : bool; open_ok : bool; write : write_outcome; sync_ok : bool; close_ok : bool }.

(** The content of the file; [None] when there is none. *)
Record FileJSONLRecorder := mkFileJSONLRecorder { log_file : option string }.

Definition FileJSONLRecorder_Record (f : file_faults) (e : Event) (r : FileJSONLRecorder)
    : option audit_error * FileJSONLRecorder :=
  if negb (mkdir_ok f) then (Some CreatingDirectory, r)
  else if negb (open_ok f) then (Some OpeningLog, r)
  else
    let '(ok, content) := encode_to (write f) e (default "" (log_file r)) in
    let r := mkFileJSONLRecorder (Some content) in
    if negb ok then (Some WritingLog, r)
    else if negb (sync_ok f) then (Some SyncingLog, r)
    else if negb (close_ok f) then (Some ClosingLog, r)
    else (None, r).

Definition DiscardRecorder_Record (e : Event) (r : unit) : option audit_error * unit := (None, r).

#[export] Instance JSONLRecorder_ops : RecorderOps audit_error JSONLRecorder write_outcome :=
  {| Record_ := JSONLRecorder_Record |}.
#[export] Instance FileJSONLRecorder_ops : RecorderOps audit_error FileJSONLRecorder file_faults :=
  {| Record_ := FileJSONLRecorder_Record |}.
#[export] Instance DiscardRecorder_ops : RecorderOps audit_error unit unit :=
  {| Record_ _ := DiscardRecorder_Record |}.

(** *** MultiRecorder *)

Section Multi.
Context {E R F : Type} `{RecorderOps E R F}.

Definition MultiRecorder : Type := list R.

Definition NewMultiRecorder (recorders : list (option R)) : MultiRecorder :=
  omap id recorders.

(** The loop over the recorders: the errors in order and the new states. *)
Fixpoint record_all (fs : list F) (e : Event) (rs : list R) : list E * list R :=
  match rs, fs with
  | r :: rs', f :: fs' =>
      let '(err, r1) := Record_ f e r in
      let '(errs, rs1) := record_all fs' e rs' in
      (match err with Some x => x :: errs | None => errs end, r1 :: rs1)
  | _, _ => ([], rs)
  end.

(** [errors.Join] of no error is nil. *)
Definition errors_Join (errs : list E) : option (list E) :=
  match errs with [] => None | _ => Some errs end.

Definition MultiRecorder_Record (fs : list F) (e : Event) (m : MultiRecorder)
    : option (list E) * MultiRecorder :=
  let '(errs, m1) := record_all fs e m in (errors_Join errs, m1).

#[export] Instance MultiRecorder_ops : RecorderOps (list E) MultiRecorder (list F) :=
  {| Record_ := MultiRecorder_Record |}.

Lemma record_all_states fs e rs :
  length fs = length rs →
  snd (record_all fs e rs) = zip_with (λ f r, snd (Record_ f e r)) fs rs.
Proof using.
  revert fs. induction rs as [|r rs IH]; intros [|f fs] Hl; try done. simpl.
  injection Hl as Hl. specialize (IH fs Hl).
  destruct (Record_ f e r), (record_all fs e rs). simpl in *. by f_equal.
Qed.

Lemma record_all_errors fs e rs :
  length fs = length rs →
  fst (record_all fs e rs) = omap id (zip_with (λ f r, fst (Record_ f e r)) fs rs).
Proof using.
  revert fs. induction rs as [|r rs IH]; intros [|f fs] Hl; try done. simpl.
  injection Hl as Hl. specialize (IH fs Hl).
  destruct (Record_ f e r) as [[]], (record_all fs e rs); simpl in *; by f_equal.
Qed.

Lemma errors_Join_None errs : errors_Join errs = None ↔ errs = [].
Proof using. by destruct errs. Qed.
End Multi.

(** ** The lines of a log *)

Lemma event_line_text e line :
  event_line e = Some line → line = string_app (print (event_json e)) newline.
Proof. unfold event_line. case_match; [|done]. by intros [= <-]. Qed.

Lemma event_line_split e line content :
  event_line e = Some line →
  split_byte (chr 10) (string_app line content)
  = print (event_json e) :: split_byte (chr 10) content.
Proof.
  intros ->%event_line_text. unfold newline. rewrite <- string_app_assoc. change (string_app (String (chr 10) "") content) with (String (chr 10) content).
  rewrite split_byte_app, split_byte_none; [done|].
  intros H. pose proof (print_line (event_json e)) as Hl.
  rewrite all_bytes_spec in Hl. by apply Hl in H.
Qed.

(** The log of the events recorded with success, one after the other. *)
Fixpoint log_text (es : list Event) : string :=
  match es with
  | [] => ""
  | e :: es' => string_app (default "" (event_line e)) (log_text es')
  end.

Lemma log_text_app es es' : log_text (es ++ es') = string_app (log_text es) (log_text es').
Proof. induction es as [|e es IH]; simpl; [done|]. by rewrite IH, string_app_assoc. Qed.

Fixpoint record_events (fes : list (file_faults * Event)) (r : FileJSONLRecorder)
    : list (option audit_error) * FileJSONLRecorder :=
  match fes with
  | [] => ([], r)
  | (f, e) :: fes' =>
      let '(err, r1) := FileJSONLRecorder_Record f e r in
      let '(errs, r2) := record_events fes' r1 in (err :: errs, r2)
  end.

Lemma log_text_split es rest :
  Forall (λ e, is_Some (event_line e)) es →
  split_byte (chr 10) (string_app (log_text es) rest)
  = ((λ e, print (event_json e)) <$> es) ++ split_byte (chr 10) rest.
Proof.
  induction 1 as [|e es [line Hl] Hes IH]; [done|]. cbn [log_text fmap list_fmap app].
  rewrite Hl. cbn [default]. rewrite <- string_app_assoc, (event_line_split e) by done.
  by rewrite IH.
Qed.

Lemma FileJSONLRecorder_Record_cases f e r :
  let '(err, r1) := FileJSONLRecorder_Record f e r in
  (err = None → ∃ line, event_line e = Some line
     ∧ log_file r1 = Some (string_app (default "" (log_file r)) line))
  ∧ ∃ more, default "" (log_file r1) = string_app (default "" (log_file r)) more.
Proof.
  unfold FileJSONLRecorder_Record, encode_to.
  assert (Hsame : ∃ more, default "" (log_file r) = string_app (default "" (log_file r)) more).
  { exists "". by rewrite string_app_nil_r. }
  destruct (mkdir_ok f); simpl; [|done]. destruct (open_ok f); simpl; [|done].
  destruct (event_line e) as [line|]; [|by destruct Hsame; split; [|eexists]].
  destruct (write f) as [|n]; simpl.
  - destruct (sync_ok f); simpl; [destruct (close_ok f); simpl|]; split; eauto; done.
  - split; [done | by eexists].
Qed.

(** ** What a recorder promises

An event that is recorded with success is on the record, and stays. *)
Class RecorderLaws (E R F : Type) `{RecorderOps E R F} := {
  on_record : R → Event → Prop;
  record_on f e r r' : Record_ f e r = (None, r') → on_record r' e;
  record_keeps f e r x : on_record r x → on_record (snd (Record_ f e r)) x }.

(** The line of the event is in a text. *)
Definition has_line (content : string) (e : Event) : Prop :=
  ∃ line before after, event_line e = Some line
    ∧ content = string_app before (string_app line after).

Lemma has_line_more content more e : has_line content e → has_line (string_app content more) e.
Proof.
  intros (line & before & after & Hl & ->). exists line, before, (string_app after more).
  by rewrite <- !string_app_assoc.
Qed.

Lemma has_line_written content line e :
  event_line e = Some line → has_line (string_app content line) e.
Proof. intros Hl. exists line, content, "". by rewrite string_app_nil_r. Qed.

#[export] Program Instance FileJSONLRecorder_laws : RecorderLaws audit_error FileJSONLRecorder file_faults :=
  {| on_record r := has_line (default "" (log_file r)) |}.
Next Obligation.
  simpl. intros f e r r' Hr. pose proof (FileJSONLRecorder_Record_cases f e r) as Hc. rewrite Hr in Hc.
  destruct Hc as [Hc _]. destruct (Hc eq_refl) as (line & Hl & ->). by apply has_line_written.
Qed.
Next Obligation.
  simpl. intros f e r x Hx. pose proof (FileJSONLRecorder_Record_cases f e r) as Hc.
  destruct (FileJSONLRecorder_Record f e r) as [err r1]. destruct Hc as [_ [more Hm]]. simpl.
  rewrite Hm. by apply has_line_more.
Qed.

#[export] Program Instance JSONLRecorder_laws : RecorderLaws audit_error JSONLRecorder write_outcome :=
  {| on_record r := has_line (w r) |}.
Next Obligation.
  simpl. intros f e r r'. unfold JSONLRecorder_Record, encode_to.
  destruct (event_line e) as [line|] eqn:El; [|done]. destruct f; [|done]. intros [= <-].
  by apply has_line_written.
Qed.
Next Obligation.
  simpl. intros f e r x Hx. unfold JSONLRecorder_Record, encode_to.
  destruct (event_line e) as [line|]; [|done]. destruct f; by apply has_line_more.
Qed.

Lemma record_events_ok fes r :
  Forall (λ err, err = None) (fst (record_events fes r)) →
  Forall (λ e, is_Some (event_line e)) (snd <$> fes)
  ∧ default "" (log_file (snd (record_events fes r)))
    = string_app (default "" (log_file r)) (log_text (snd <$> fes)).
Proof.
  revert r. induction fes as [|[f e] fes IH]; intros r; [by rewrite string_app_nil_r|].
  cbn [record_events]. pose proof (FileJSONLRecorder_Record_cases f e r) as Hc.
  destruct (FileJSONLRecorder_Record f e r) as [err r1]. destruct Hc as [Hok _].
  specialize (IH r1). destruct (record_events fes r1) as [errs r2]. cbn [fst snd] in *.
  intros [-> Hrest]%Forall_cons. destruct (Hok eq_refl) as (line & Hl & Hr1).
  destruct (IH Hrest) as [Hlines ->]. rewrite Hr1. cbn [fmap list_fmap snd log_text default].
  rewrite Hl. cbn [default]. split; [constructor; [by eexists | done]|].
  by rewrite string_app_assoc.
Qed.

(** ** Properties *)

(** [MultiRecorder] gives the event to every one of its recorders, whatever
the failures of the others, keeps none that is nil, and fails exactly when one
of them fails, with their errors in order. *)
Theorem MultiRecorder_attempts_all {E R F} `{RecorderOps E R F} (recs : list (option R)) fs e :
  length fs = length (NewMultiRecorder recs) →
  snd (MultiRecorder_Record fs e (NewMultiRecorder recs))
    = zip_with (λ f r, snd (Record_ f e r)) fs (omap id recs)
  ∧ default [] (fst (MultiRecorder_Record fs e (NewMultiRecorder recs)))
    = omap id (zip_with (λ f r, fst (Record_ f e r)) fs (omap id recs))
  ∧ (fst (MultiRecorder_Record fs e (NewMultiRecorder recs)) = None ↔
     Forall (λ err, err = None) (zip_with (λ f r, fst (Record_ f e r)) fs (omap id recs))).
Proof.
  unfold NewMultiRecorder, MultiRecorder_Record. intros Hl.
  pose proof (record_all_states fs e _ Hl) as Hs.
  pose proof (record_all_errors fs e _ Hl) as He.
  destruct (record_all fs e (omap id recs)) as [errs rs]. simpl in *. split_and!; [done| |].
  - rewrite <- He. by destruct errs.
  - rewrite errors_Join_None, He. generalize (zip_with (λ f r, fst (Record_ f e r)) fs (omap id recs)).
    intros l. induction l as [|[x|] l IH]; simpl; [done| |].
    + split; [done|]. by intros [? _]%Forall_cons.
    + rewrite Forall_cons. naive_solver.
Qed.

(** The file recorder only appends: whatever fails, the bytes already in
the log stay in front; and a log that received only events recorded with
success reads back, line by line, as the JSON texts of these events. *)
Theorem FileJSONLRecorder_appends fes r :
  (∀ f e, ∃ more, default "" (log_file (snd (FileJSONLRecorder_Record f e r)))
                  = string_app (default "" (log_file r)) more)
  ∧ (log_file r = None → Forall (λ err, err = None) (fst (record_events fes r)) →
     split_byte (chr 10) (default "" (log_file (snd (record_events fes r))))
     = ((λ e, print (event_json e)) <$> (snd <$> fes)) ++ [""]).
Proof.
  split.
  - intros f e. pose proof (FileJSONLRecorder_Record_cases f e r) as H.
    destruct (FileJSONLRecorder_Record f e r). apply H.
  - intros Hr [Hlines ->]%record_events_ok. rewrite Hr. cbn [default string_app].
    rewrite <- (string_app_nil_r (log_text _)). by rewrite log_text_split.
Qed.

Definition zeroEvent : Event :=
  mkEvent "" "" 0 "" "" "" "" "" "" "" "" "" "" "" "" "" "" None None "" "" "" "" None None ""
    None.
Definition all_ok : file_faults := mkFileFaults true true Written true true.

Example MultiRecorder_attempts_all_witness :
  fst (MultiRecorder_Record [all_ok; mkFileFaults true false Written true true]
    zeroEvent (NewMultiRecorder [Some (mkFileJSONLRecorder None); None;
                                 Some (mkFileJSONLRecorder None)])) = Some [OpeningLog]
  ∧ length (snd (MultiRecorder_Record [all_ok; mkFileFaults true false Written true true]
    zeroEvent (NewMultiRecorder [Some (mkFileJSONLRecorder None); None;
                                 Some (mkFileJSONLRecorder None)]))) = 2.
Proof.
  split; [vm_compute; reflexivity|].
  rewrite (proj1 (MultiRecorder_attempts_all [Some (mkFileJSONLRecorder None); None;
    Some (mkFileJSONLRecorder None)] [all_ok; mkFileFaults true false Written true true]
    zeroEvent eq_refl)). reflexivity.
Defined.

Example FileJSONLRecorder_appends_witness :
  length (split_byte (chr 10) (default "" (log_file (snd (record_events
    [(all_ok, zeroEvent); (all_ok, zeroEvent)] (mkFileJSONLRecorder None)))))) = 3.
Proof.
  rewrite (proj2 (FileJSONLRecorder_appends [(all_ok, zeroEvent); (all_ok, zeroEvent)]
    (mkFileJSONLRecorder None)) eq_refl); [reflexivity|].
  vm_compute. repeat constructor.
Defined.
End audit.
