(* ===== verification/Store.v ===== *)
(** * The certificate cache ([internal/broker/store])

[cache.go], [sqlite_cache.go] and [sqlite_values.go]: the cache key, the
interface the broker uses, with its laws, and the file store that implements
it, down to the JSON text of its file. *)

From Stdlib Require Import Ascii.
From S2P Require Import Prelude GoStrings GoTime Json JsonDecode JsonTypes X509 Pki.
Import json_decode json_types pki.
#[local] Open Scope go_scope.

Module store.

(** ** cache.go: the key *)

Record CertificateCacheKey := mkKey {
  Identity : string;
  ProfileName : string;
  ProfileHash : string;
  PublicKeySHA256 : string;
  IssuerName : string;
  IssuerDirectory : string;
  IssuerAccountKeyID : string }.

Definition key_parts (k : CertificateCacheKey) : list string :=
  [Identity k; ProfileName k; ProfileHash k; PublicKeySHA256 k; IssuerName k;
   IssuerDirectory k; IssuerAccountKeyID k].

Definition key_String (k : CertificateCacheKey) : string :=
  join (key_parts k) (String Ascii.zero "").

#[export] Instance CertificateCacheKey_eq_dec : EqDecision CertificateCacheKey.
Proof. solve_decision. Defined.
#[export] Instance CertificateCacheKey_countable : Countable CertificateCacheKey.
Proof.
  refine (inj_countable'
    (λ k, (Identity k, ProfileName k, ProfileHash k, PublicKeySHA256 k, IssuerName k,
           IssuerDirectory k, IssuerAccountKeyID k))
    (λ t, let '(a, b, c, d, e, f, g) := t in mkKey a b c d e f g) _).
  by intros [].
Defined.

Record CacheEntry := mkCacheEntry {
  Key : CertificateCacheKey;
  Entry_Bundle : Bundle;
  CreatedAt : Z;
  UpdatedAt : Z }.

#[export] Instance CacheEntry_eq_dec : EqDecision CacheEntry.
Proof. solve_decision. Defined.

(** The errors of [sqlite_values.go] and of [rows.Scan]. *)
Inductive value_error :=
  | FieldEmpty (field : string)
  | ParsingTime (field value : string)
  | MarshalingJSON (field : string)
  | ParsingJSON (field : string)
  | ScanType (column : nat).

#[export] Instance value_error_eq_dec : EqDecision value_error.
Proof. solve_decision. Defined.

(** [NilBundle] is the error of the SQLite store; the file store dereferences
the pointer and panics. *)
Inductive store_error :=
  | ErrCacheMiss
  | ReadingCache (e : string)
  | ParsingCache
  | MarshalingCache
  | WritingCache (e : string)
  | ReadingRow (e : value_error)
  | ScanningRow (e : value_error)
  | DecodingRow (e : value_error)
  | NilBundle
  | NilPanic.

#[export] Instance store_error_eq_dec : EqDecision store_error.
Proof. solve_decision. Defined.

(** No part of the key holds the separator. *)
Definition key_ok (k : CertificateCacheKey) : Prop :=
  Forall (λ part, (Ascii.zero ∉ to_list part)) (key_parts k).

Lemma key_String_inj k k' :
  key_ok k → key_ok k' → key_String k = key_String k' → k = k'.
Proof.
  unfold key_ok, key_String. rewrite !Forall_forall. intros Hk Hk' E.
  assert (key_parts k = key_parts k') as Ep.
  { rewrite <- (split_byte_join Ascii.zero (key_parts k)), <- (split_byte_join Ascii.zero (key_parts k'));
      [by rewrite E | done..]. }
  destruct k, k'. by injection Ep as -> -> -> -> -> -> ->.
Qed.

(** ** The interface of the broker *)

(** What the system answers to the reads and writes of an operation; an error
of the database or of the file carries its text. [Sync_fails] is an error that
comes once the data are written: of the last [Sync] of [WriteFileAtomic]. *)
Inductive io :=
  | IO_ok
  | Read_fails (e : string)
  | Write_fails (e : string)
  | Sync_fails (e : string).

Class CertificateStore (S : Type) := {
  GetValidCertificate : io → Z → CertificateCacheKey → Z → S → result store_error Bundle;
  PutCertificate : io → Z → CertificateCacheKey → option Bundle → S → option store_error * S;
  List_ : io → S → result store_error (list CacheEntry) }.

(** The abstract store: what it holds for each key, when it is in order. *)
Class StoreLaws (S : Type) `{CertificateStore S} := {
  holds : S → CertificateCacheKey → option Bundle;
  in_order : S → Prop;
  (** a key and a bundle the store keeps, and the instants its clock may show *)
  storable : Z → CertificateCacheKey → Bundle → Prop;
  key_good : CertificateCacheKey → Prop;
  (** what is read back of a bundle *)
  stored : Bundle → Bundle;
  get_found s now k margin b :
    in_order s → holds s k = Some b →
    GetValidCertificate IO_ok now k margin s
    = if (time_Until now (NotAfter b) <=? margin)%Z then Err ErrCacheMiss else Ok b;
  get_missing s now k margin :
    in_order s → holds s k = None → GetValidCertificate IO_ok now k margin s = Err ErrCacheMiss;
  (** whatever the failures, a bundle read is one that is held *)
  get_sound s io now k margin b :
    in_order s → GetValidCertificate io now k margin s = Ok b →
    holds s k = Some b ∧ (margin < time_Until now (NotAfter b))%Z;
  (** and a miss is one *)
  get_miss s io now k margin b :
    in_order s → GetValidCertificate io now k margin s = Err ErrCacheMiss →
    holds s k = Some b → (time_Until now (NotAfter b) <= margin)%Z;
  put_stores s io now k b s' :
    in_order s → storable now k b → PutCertificate io now k (Some b) s = (None, s') →
    in_order s' ∧ holds s' k = Some (stored b)
    ∧ ∀ k', key_good k' → k' ≠ k → holds s' k' = holds s k';
  put_fails s io now k b s' e :
    PutCertificate io now k b s = (Some e, s') →
    s' = s ∨ PutCertificate IO_ok now k b s = (None, s');
  stored_cert b : CertPEM (stored b) = CertPEM b ∧ ChainPEM (stored b) = ChainPEM b
    ∧ FullChainPEM (stored b) = FullChainPEM b
    ∧ LeafSerialNumber (stored b) = LeafSerialNumber b
    ∧ (NotAfter (stored b) ≤ NotAfter b)%Z }.

(** ** FileStore *)

Section FileStore.
(** *** The JSON of the file *)

Definition key_json (k : CertificateCacheKey) : json :=
  JObject [
    ("identity", JString (Identity k));
    ("profile_name", JString (ProfileName k));
    ("profile_hash", JString (ProfileHash k));
    ("public_key_sha256", JString (PublicKeySHA256 k));
    ("issuer_name", JString (IssuerName k));
    ("issuer_directory", JString (IssuerDirectory k));
    ("issuer_account_key_id", JString (IssuerAccountKeyID k))].

(** A byte slice that is nil, which [encoding/json] writes as null, is here an
empty one: both are read back as a slice without bytes. *)
Definition bundle_json (b : Bundle) : option json :=
  not_before ← time_json (NotBefore b);
  not_after ← time_json (NotAfter b);
  Some (JObject [
    ("cert_pem", bytes_json (CertPEM b));
    ("chain_pem", bytes_json (ChainPEM b));
    ("fullchain_pem", bytes_json (FullChainPEM b));
    ("serial_number", JString (LeafSerialNumber b));
    ("not_before", not_before);
    ("not_after", not_after)]).

Definition entry_json (e : CacheEntry) : option json :=
  bundle ← bundle_json (Entry_Bundle e);
  created_at ← time_json (CreatedAt e);
  updated_at ← time_json (UpdatedAt e);
  Some (JObject [
    ("key", key_json (Key e));
    ("bundle", bundle);
    ("created_at", created_at);
    ("updated_at", updated_at)]).

Definition key_decoders : list (string * (value → CertificateCacheKey → option CertificateCacheKey)) :=
  [("identity", λ v '(mkKey a b c d e f g), x ← decode_string v a; Some (mkKey x b c d e f g));
   ("profile_name", λ v '(mkKey a b c d e f g), x ← decode_string v b; Some (mkKey a x c d e f g));
   ("profile_hash", λ v '(mkKey a b c d e f g), x ← decode_string v c; Some (mkKey a b x d e f g));
   ("public_key_sha256", λ v '(mkKey a b c d e f g), x ← decode_string v d; Some (mkKey a b c x e f g));
   ("issuer_name", λ v '(mkKey a b c d e f g), x ← decode_string v e; Some (mkKey a b c d x f g));
   ("issuer_directory", λ v '(mkKey a b c d e f g), x ← decode_string v f; Some (mkKey a b c d e x g));
   ("issuer_account_key_id",
      λ v '(mkKey a b c d e f g), x ← decode_string v g; Some (mkKey a b c d e f x))].

Definition bundle_decoders : list (string * (value → Bundle → option Bundle)) :=
  [("cert_pem", λ v '(mkBundle a b c d e f), x ← decode_bytes v a; Some (mkBundle x b c d e f));
   ("chain_pem", λ v '(mkBundle a b c d e f), x ← decode_bytes v b; Some (mkBundle a x c d e f));
   ("fullchain_pem", λ v '(mkBundle a b c d e f), x ← decode_bytes v c; Some (mkBundle a b x d e f));
   ("serial_number", λ v '(mkBundle a b c d e f), x ← decode_string v d; Some (mkBundle a b c x e f));
   ("not_before", λ v '(mkBundle a b c d e f), x ← decode_time v e; Some (mkBundle a b c d x f));
   ("not_after", λ v '(mkBundle a b c d e f), x ← decode_time v f; Some (mkBundle a b c d e x))].

Definition entry_decoders : list (string * (value → CacheEntry → option CacheEntry)) :=
  [("key", λ v '(mkCacheEntry k b c u), x ← decode_struct key_decoders v k; Some (mkCacheEntry x b c u));
   ("bundle",
      λ v '(mkCacheEntry k b c u), x ← decode_struct bundle_decoders v b; Some (mkCacheEntry k x c u));
   ("created_at", λ v '(mkCacheEntry k b c u), x ← decode_time v c; Some (mkCacheEntry k b x u));
   ("updated_at", λ v '(mkCacheEntry k b c u), x ← decode_time v u; Some (mkCacheEntry k b c x))].

Definition zero_key : CertificateCacheKey := mkKey "" "" "" "" "" "" "".
Definition zero_entry : CacheEntry := mkCacheEntry zero_key (mkBundle "" "" "" "" 0 0) 0 0.

Definition decode_entry (v : value) : option CacheEntry := decode_struct entry_decoders v zero_entry.

(** The file behind [s.path]: its content, when it exists. *)
Record FileStore := mkFileStore { file : option string }.

Definition loadLocked (f : io) (s : FileStore)
    : result store_error (gmap string CacheEntry) :=
  match f with
  | Read_fails e => Err (ReadingCache e)
  | _ =>
      match file s with
      | None => Ok ∅
      | Some data =>
          entries ← from_option_err ParsingCache (unmarshal (decode_map decode_entry) data);
          mret (default ∅ entries)
      end
  end.

(** [WriteFileAtomic] either replaces the file or leaves it
([FileUtil.fileutil.write_ends]); it may report an error once the file is
replaced. *)
Definition saveLocked (f : io) (entries : gmap string CacheEntry) (s : FileStore)
    : option store_error * FileStore :=
  match MarshalIndent <$> map_json entry_json entries with
  | None => (Some MarshalingCache, s)
  | Some data =>
      match f with
      | Write_fails e => (Some (WritingCache e), s)
      | Sync_fails e => (Some (WritingCache e), mkFileStore (Some data))
      | _ => (None, mkFileStore (Some data))
      end
  end.

Definition FileStore_GetValidCertificate (f : io) (now : Z) (key : CertificateCacheKey)
    (renewBefore : Z) (s : FileStore) : result store_error Bundle :=
  entries ← loadLocked f s;
  match entries !! key_String key with
  | None => Err ErrCacheMiss
  | Some entry =>
      if (time_Until now (NotAfter (Entry_Bundle entry)) <=? renewBefore)%Z
      then Err ErrCacheMiss
      else Ok (Entry_Bundle entry)
  end.

(** The entry of a write: one that was there keeps its creation time. *)
Definition put_entry (key : CertificateCacheKey) (b : Bundle) (now : Z)
    (entries : gmap string CacheEntry) : gmap string CacheEntry :=
  (* the creation time of a missing entry is the zero time *)
  let createdAt := match entries !! key_String key with
                   | Some entry => CreatedAt entry | None => 0%Z end in
  let createdAt := if time_IsZero createdAt then now else createdAt in
  <[key_String key:=mkCacheEntry key b createdAt now]> entries.

Definition FileStore_PutCertificate (f : io) (now : Z) (key : CertificateCacheKey)
    (bundle : option Bundle) (s : FileStore) : option store_error * FileStore :=
  match loadLocked f s with
  | Err e => (Some e, s)
  | Ok entries =>
      match bundle with
      | None => (Some NilPanic, s)
      | Some b => saveLocked f (put_entry key b now entries) s
      end
  end.

(** The entries, in map order: here the order of [map_to_list]. *)
Definition FileStore_List (f : io) (s : FileStore) : result store_error (list CacheEntry) :=
  entries ← loadLocked f s;
  mret (snd <$> map_to_list entries).

#[export] Instance FileStore_ops : CertificateStore FileStore := {|
  GetValidCertificate := FileStore_GetValidCertificate;
  PutCertificate := FileStore_PutCertificate;
  List_ := FileStore_List |}.

(** *** Laws *)

Definition bundle_ok (b : Bundle) : Prop :=
  valid_utf8 (LeafSerialNumber b) ∧ formattable (NotBefore b) ∧ formattable (NotAfter b).

Definition entry_ok (e : CacheEntry) : Prop :=
  Forall valid_utf8 (key_parts (Key e)) ∧ bundle_ok (Entry_Bundle e)
  ∧ formattable (CreatedAt e) ∧ formattable (UpdatedAt e).

Lemma read_back_object fs :
  read_back (JObject fs) = VObject ((λ f, (valid_text f.1, read_back f.2)) <$> fs).
Proof. reflexivity. Qed.

(** Decode the first member of a struct: its decoder succeeds by a lemma or a
hypothesis on the type of the member. *)
Ltac decode_leaf :=
  first [ refine (proj2 (decode_string_print _ _ _)); assumption
        | refine (proj2 (decode_bytes_print _ _))
        | match goal with H : ∀ old, decodes _ ?j _ _ |- context [?j] => exact (proj2 (H _)) end
        | match goal with H : decodes _ ?j _ _ |- context [?j] => exact (proj2 H) end ].
Ltac decode_member :=
  etrans; [eapply decode_field; [reflexivity |];
           cbv beta iota; apply bind_Some; eexists; split; [decode_leaf | reflexivity] |].

Lemma decode_key_print k :
  Forall valid_utf8 (key_parts k) → decodes 1 (key_json k) (λ v, decode_struct key_decoders v zero_key) k.
Proof.
  intros Hk. split; [done|]. destruct k as [a b c d e f g]. unfold key_parts in Hk. simpl in Hk.
  rewrite !Forall_cons in Hk. destruct Hk as (? & ? & ? & ? & ? & ? & ? & _).
  unfold key_json. rewrite read_back_object. cbn [fmap list_fmap fst snd decode_struct].
  do 7 decode_member. reflexivity.
Qed.

Lemma decode_bundle_print b :
  bundle_ok b → ∃ j, bundle_json b = Some j
    ∧ decodes 1 j (λ v, decode_struct bundle_decoders v (Entry_Bundle zero_entry)) b.
Proof.
  destruct b as [cert chain full serial nb na]. intros (Hs & Hnb & Hna). simpl in *.
  unfold bundle_json. simpl.
  destruct (time_json_ok nb Hnb) as (j1 & -> & H1), (time_json_ok na Hna) as (j2 & -> & H2).
  cbn [mbind option_bind]. eexists. split; [done|]. split.
  - change (fits 0 j1 && (fits 0 j2 && true) = true).
    by rewrite (proj1 (H1 0%Z)), (proj1 (H2 0%Z)).
  - rewrite read_back_object. cbn [fmap list_fmap fst snd decode_struct].
    do 6 decode_member. reflexivity.
Qed.

Lemma fits_more n v : fits n v = true → fits (S n) v = true.
Proof.
  revert v. induction n as [|n IH]; intros [s|k|vs|fs]; try done; cbn [fits]; rewrite !forallb_forall;
    intros Hf x Hx; [by apply IH, Hf | by apply IH, (Hf x)].
Qed.

Lemma decode_entry_print e :
  entry_ok e → ∃ j, entry_json e = Some j ∧ decodes 2 j decode_entry e.
Proof.
  destruct e as [k b c u]. intros (Hk & Hb & Hc & Hu). simpl in *. unfold entry_json. simpl.
  destruct (decode_bundle_print b Hb) as (j & -> & Hj).
  destruct (time_json_ok c Hc) as (j1 & -> & H1), (time_json_ok u Hu) as (j2 & -> & H2).
  pose proof (decode_key_print k Hk) as Hkey.
  cbn [mbind option_bind]. eexists. split; [done|]. split.
  - change (fits 1 (key_json k) && (fits 1 j && (fits 1 j1 && (fits 1 j2 && true))) = true).
    rewrite (proj1 Hkey), (proj1 Hj), !fits_more; [done|apply (H2 0%Z)|apply (H1 0%Z)].
  - unfold decode_entry. rewrite read_back_object. cbn [fmap list_fmap fst snd decode_struct].
    do 4 decode_member. reflexivity.
Qed.

Definition entries_ok : gmap string CacheEntry → Prop := map_Forall (λ k e, valid_utf8 k ∧ entry_ok e).

(** Entries with valid strings and instants that have a text are written, and
read back as they were. *)
Lemma entries_roundtrip m :
  entries_ok m → ∃ j, map_json entry_json m = Some j
    ∧ unmarshal (decode_map decode_entry) (MarshalIndent j) = Some (Some m).
Proof.
  intros Hm. destruct (map_json_ok 2 entry_json decode_entry entry_ok m) as (j & Ej & Hd);
    [apply decode_entry_print | exact Hm |].
  exists j. split; [done|]. by apply (unmarshal_indent 3).
Qed.

Lemma key_String_valid k : Forall valid_utf8 (key_parts k) → valid_utf8 (key_String k).
Proof.
  unfold key_String. intros Hk. induction Hk as [|s l Hs Hl IH]; [by apply valid_utf8_ascii|].
  destruct l as [|s' l]; [done|]. apply valid_utf8_app; [done|]. apply valid_utf8_app; [|exact IH].
  by apply valid_utf8_ascii.
Qed.

Lemma put_entry_ok k b now m :
  entries_ok m → Forall valid_utf8 (key_parts k) → bundle_ok b → formattable now →
  entries_ok (put_entry k b now m).
Proof.
  intros Hm Hu Hb Hnow. apply map_Forall_insert_2; [|done]. split; [by apply key_String_valid|].
  split_and!; try done. simpl. destruct (time_IsZero _); [done|].
  destruct (m !! key_String k) as [e|] eqn:Ee; [|unfold formattable, Second; lia].
  by apply (Hm _ _ Ee).
Qed.

Definition file_entries (s : FileStore) : gmap string CacheEntry :=
  match loadLocked IO_ok s with Ok m => m | Err _ => ∅ end.

Definition file_in_order (s : FileStore) : Prop :=
  is_ok (loadLocked IO_ok s) = true ∧ entries_ok (file_entries s).

Definition file_holds (s : FileStore) (k : CertificateCacheKey) : option Bundle :=
  Entry_Bundle <$> file_entries s !! key_String k.

Lemma loadLocked_Ok f s m :
  file_in_order s → loadLocked f s = Ok m → m = file_entries s.
Proof using.
  unfold file_entries. intros _ Hl. destruct f; simpl in *; by rewrite ?Hl.
Qed.

Lemma file_get_sound s f now k margin b :
  file_in_order s → FileStore_GetValidCertificate f now k margin s = Ok b →
  file_holds s k = Some b ∧ (margin < time_Until now (NotAfter b))%Z.
Proof using.
  intros Ho. unfold FileStore_GetValidCertificate, file_holds.
  intros (m & ->%loadLocked_Ok & Hg)%bind_Ok; [|done].
  destruct (file_entries s !! key_String k) as [e|]; [|done].
  destruct (Z.leb_spec (time_Until now (NotAfter (Entry_Bundle e))) margin); [done|].
  by injection Hg as <-.
Qed.

Lemma file_get_miss s f now k margin b :
  file_in_order s → FileStore_GetValidCertificate f now k margin s = Err ErrCacheMiss →
  file_holds s k = Some b → (time_Until now (NotAfter b) <= margin)%Z.
Proof using.
  intros Ho. unfold FileStore_GetValidCertificate, file_holds.
  intros [Hl|(m & ->%loadLocked_Ok & Hg)]%bind_Err; [| |done].
  - destruct f; simpl in Hl; destruct (file s); try done;
      by apply bind_Err in Hl as [Hl|(? & _ & ?)]; [destruct (unmarshal _ _)|].
  - destruct (file_entries s !! key_String k) as [e|]; [|done]. intros [= <-].
    destruct (Z.leb_spec (time_Until now (NotAfter (Entry_Bundle e))) margin); done.
Qed.

Lemma file_get s now k margin :
  file_in_order s →
  GetValidCertificate IO_ok now k margin s =
  match file_holds s k with
  | None => Err ErrCacheMiss
  | Some b => if (time_Until now (NotAfter b) <=? margin)%Z then Err ErrCacheMiss else Ok b
  end.
Proof using.
  intros [Hok _]. simpl. unfold FileStore_GetValidCertificate, file_holds, file_entries.
  destruct (loadLocked IO_ok s) as [m|]; [|done]. simpl.
  by destruct (m !! key_String k).
Qed.

Definition file_storable (now : Z) (k : CertificateCacheKey) (b : Bundle) : Prop :=
  key_ok k ∧ Forall valid_utf8 (key_parts k) ∧ bundle_ok b ∧ formattable now.

Lemma file_put_stores s f now k b s' :
  file_in_order s → file_storable now k b →
  FileStore_PutCertificate f now k (Some b) s = (None, s') →
  file_in_order s' ∧ file_holds s' k = Some b
  ∧ ∀ k', key_ok k' → k' ≠ k → file_holds s' k' = file_holds s k'.
Proof using.
  intros Ho (Hk & Hu & Hb & Hnow). unfold FileStore_PutCertificate.
  destruct (loadLocked f s) as [m|] eqn:El; [|done].
  apply loadLocked_Ok in El; [|done]. subst m.
  set (m := put_entry k b now (file_entries s)).
  assert (Hm : entries_ok m) by (apply put_entry_ok; [by destruct Ho|done..]).
  unfold saveLocked. destruct (entries_roundtrip m Hm) as (j & -> & Hd). cbn [fmap option_fmap option_map].
  set (data := MarshalIndent j) in *.
  assert (Hload : loadLocked IO_ok (mkFileStore (Some data)) = Ok m).
  { simpl. by rewrite Hd. }
  assert (Hent : file_entries (mkFileStore (Some data)) = m).
  { unfold file_entries. by rewrite Hload. }
  intros Hw. assert (s' = mkFileStore (Some data)) as -> by (destruct f; by injection Hw).
  unfold file_in_order, file_holds. rewrite Hload, Hent. unfold m, put_entry. split_and!.
  - done.
  - done.
  - by rewrite lookup_insert_eq.
  - intros k' Hk' Hne. rewrite lookup_insert_ne; [done|].
    intros E. by apply Hne, key_String_inj.
Qed.

Lemma file_put_fails s f now k b s' e :
  FileStore_PutCertificate f now k b s = (Some e, s') →
  s' = s ∨ FileStore_PutCertificate IO_ok now k b s = (None, s').
Proof using.
  unfold FileStore_PutCertificate, saveLocked.
  destruct (loadLocked f s) as [m|] eqn:El; [|intros [= _ <-]; by left].
  assert (loadLocked IO_ok s = Ok m) as -> by (by destruct f).
  destruct b; [|intros [= _ <-]; by left].
  destruct (MarshalIndent <$> _); [|intros [= _ <-]; by left].
  destruct f; intros [= _ <-]; auto.
Qed.

#[export] Program Instance FileStore_laws : StoreLaws FileStore := {|
  holds := file_holds; in_order := file_in_order; storable := file_storable;
  key_good := key_ok; stored b := b |}.
Next Obligation. intros s now k margin b Ho Hb. by rewrite file_get, Hb. Qed.
Next Obligation. intros s now k margin Ho Hb. by rewrite file_get, Hb. Qed.
Next Obligation. apply file_get_sound. Qed.
Next Obligation. apply file_get_miss. Qed.
Next Obligation. apply file_put_stores. Qed.
Next Obligation. apply file_put_fails. Qed.
Next Obligation. done. Qed.
End FileStore.

(** ** Clients of a store, from its laws *)

Section Client.
Context {S : Type} `{SL : StoreLaws S}.

(** A read of a store that is in order, on every branch. *)
Lemma get_valid s now k margin :
  in_order s →
  GetValidCertificate IO_ok now k margin s =
  match holds s k with
  | None => Err ErrCacheMiss
  | Some b => if (time_Until now (NotAfter b) <=? margin)%Z then Err ErrCacheMiss else Ok b
  end.
Proof using.
  intros Ho. destruct (holds s k) as [b|] eqn:E; [by apply get_found | by apply get_missing].
Qed.

(** A write that succeeds is what the next reads of the key find, and no other
key's reads change. *)
Lemma get_after_put s io now k b s' :
  in_order s → storable now k b → PutCertificate io now k (Some b) s = (None, s') →
  (∀ later margin, GetValidCertificate IO_ok later k margin s'
     = if (time_Until later (NotAfter (stored b)) <=? margin)%Z then Err ErrCacheMiss
       else Ok (stored b))
  ∧ (∀ later margin k', key_good k' → k' ≠ k →
     GetValidCertificate IO_ok later k' margin s' = GetValidCertificate IO_ok later k' margin s).
Proof using.
  intros Ho Hst Hput. destruct (put_stores _ _ _ _ _ _ Ho Hst Hput) as (Ho' & Hk & Hk').
  split; intros later margin; [|intros k' Hg Hne]; rewrite !get_valid by done.
  - by rewrite Hk.
  - by rewrite Hk'.
Qed.
End Client.

(** ** Properties *)

(** Two cache keys without the zero byte that have the same text are the
same key: the file store and the single flight group, which go by the text,
never mix two keys. *)
Theorem key_String_injective k k' :
  key_ok k → key_ok k' → key_String k = key_String k' → k = k'.
Proof. apply key_String_inj. Qed.

(** C25: After a successful write, the file store answers reads of the key with
the very bundle written, and with a cache miss once the end of its validity is
within the margin asked for; reads of other keys do not change; a write that
fails leaves the store as it was, or has stored all a successful one stores; and whatever reads fail, a bundle served is
one the store holds with more than the margin left. *)
Theorem FileStore_correct (s : FileStore) io now k b err s' :
  file_in_order s → file_storable now k b →
  FileStore_PutCertificate io now k (Some b) s = (err, s') →
  (err = None →
     (∀ later margin, FileStore_GetValidCertificate IO_ok later k margin s'
        = if (time_Until later (NotAfter b) <=? margin)%Z then Err ErrCacheMiss else Ok b)
     ∧ (∀ later margin k', key_ok k' → k' ≠ k →
        FileStore_GetValidCertificate IO_ok later k' margin s'
        = FileStore_GetValidCertificate IO_ok later k' margin s))
  ∧ (err ≠ None → s' = s ∨ FileStore_PutCertificate IO_ok now k (Some b) s = (None, s'))
  ∧ (∀ io' later k' margin b', FileStore_GetValidCertificate io' later k' margin s = Ok b' →
       file_holds s k' = Some b' ∧ (margin < time_Until later (NotAfter b'))%Z).
Proof.
  intros Ho Hst Hput. split_and!.
  - intros ->. exact (get_after_put (S:=FileStore) s io now k b s' Ho Hst Hput).
  - destruct err as [e|]; [|done]. intros _. by eapply file_put_fails.
  - intros. by eapply file_get_sound.
Qed.

(** ** A store *)

Definition test_cache_key : CertificateCacheKey :=
  mkKey "h1" "edge" "p" "a" "acme" "local" "acme".
Definition test_bundle : Bundle :=
  mkBundle "cert" "chain" "certchain" "ff" 0 (1500 * Hour).

Definition other_cache_key : CertificateCacheKey :=
  mkKey "h1" "edge" "p" "b" "acme" "local" "acme".

Example key_String_injective_witness :
  key_String test_cache_key ≠ key_String other_cache_key.
Proof.
  intros E. refine (_ (key_String_injective test_cache_key other_cache_key _ _ E)).
  - discriminate.
  - unfold key_ok; vm_compute; repeat constructor; set_solver.
  - unfold key_ok; vm_compute; repeat constructor; set_solver.
Defined.

Lemma test_storable : key_ok test_cache_key ∧ Forall valid_utf8 (key_parts test_cache_key)
  ∧ bundle_ok test_bundle ∧ formattable Hour.
Proof.
  split_and!.
  - unfold key_ok. vm_compute. repeat constructor; set_solver.
  - unfold key_parts. simpl. repeat constructor; by apply valid_utf8_ascii.
  - split_and!; [by apply valid_utf8_ascii | |];
      unfold formattable, test_bundle, Hour, Minute, Second; simpl; lia.
  - unfold formattable, Hour, Minute, Second. lia.
Qed.

Example FileStore_correct_witness :
  FileStore_GetValidCertificate IO_ok (2 * Hour) test_cache_key (720 * Hour)
    (snd (FileStore_PutCertificate IO_ok Hour test_cache_key (Some test_bundle)
            (mkFileStore None)))
  = Ok test_bundle.
Proof.
  refine (eq_trans (proj1 (proj1 (FileStore_correct
    (mkFileStore None) IO_ok Hour test_cache_key test_bundle None _ _ _ _) eq_refl)
    (2 * Hour)%Z (720 * Hour)%Z) _).
  - split; [reflexivity|]. apply map_Forall_empty.
  - exact test_storable.
  - reflexivity.
  - reflexivity.
Defined.
End store.
