(* ===== verification/StoreSqlite.v ===== *)
(** * The SQLite store: values and certificate cache

[sqlite_values.go], [sqlite_columns.go] and [sqlite_cache.go]. A row of the
database maps column names to values. The statements bind and return values by
position; the column lists of the SQL texts are those of the code, and
agreement of the positions is part of what is proved. What SQLite does with the
statements is the interface [CacheTable]. *)

From S2P Require Import Prelude GoStrings GoTime Json X509 Pki Store.
Import pki store.
#[local] Open Scope go_scope.

Module sqlite.

(** ** sqlite_values.go *)

(** A value of the database. *)
Inductive sqlval := SNull | SText (s : string) | SBlob (s : string).

#[export] Instance sqlval_eq_dec : EqDecision sqlval.
Proof. solve_decision. Defined.
#[export] Instance sqlval_countable : Countable sqlval.
Proof.
  refine (inj_countable'
    (λ v, match v with SNull => inl tt | SText s => inr (inl s) | SBlob s => inr (inr s) end)
    (λ x, match x with inl _ => SNull | inr (inl s) => SText s | inr (inr s) => SBlob s end) _).
  by intros [].
Defined.

(** [sql.NullString]: [None] is not valid. *)
Notation NullString := (option string) (only parsing).

Definition nullableString (value : string) : NullString :=
  if value == "" then None else Some value.

Definition stringFromNull (value : NullString) : string := default "" value.

Definition nullableTime (value : option Z) : NullString :=
  match value with
  | None => None
  | Some t => if time_IsZero t then None else Some (format_RFC3339 t)
  end.

Definition parseRequiredTime (value field : string) : result value_error Z :=
  if value == "" then Err (FieldEmpty field)
  else from_option_err (ParsingTime field value) (parse_RFC3339 value).

Definition parseOptionalTime (value : NullString) (field : string)
    : result value_error (option Z) :=
  match value with
  | None => Ok None
  | Some s =>
      if s == "" then Ok None
      else t ← from_option_err (ParsingTime field s) (parse_RFC3339 s); mret (Some t)
  end.

(** Binding an argument and scanning a column. [database/sql] scans text and
blobs into strings and byte slices alike; a null column fits a byte slice and
a [sql.NullString] only. *)
Definition bind_null (value : NullString) : sqlval :=
  match value with None => SNull | Some s => SText s end.

Definition scan_string (v : sqlval) : option string :=
  match v with SNull => None | SText s | SBlob s => Some s end.
Definition scan_bytes (v : sqlval) : option string :=
  match v with SNull => Some "" | SText s | SBlob s => Some s end.
Definition scan_null (v : sqlval) : option (option string) :=
  match v with SNull => Some None | SText s | SBlob s => Some (Some s) end.

(** A row by column name, the row an [INSERT] writes, the values a [SELECT]
returns. *)
Notation sqlrow := (gmap string sqlval) (only parsing).
Definition insert_row (columns : list string) (args : list sqlval) : sqlrow :=
  list_to_map (zip columns args).
Definition select (columns : list string) (row : sqlrow) : list sqlval :=
  (λ c, default SNull (row !! c)) <$> columns.

(** The columns [ON CONFLICT ... DO UPDATE SET] copies from the refused row. *)
Definition upsert (updated : list string) (old new : sqlrow) : sqlrow :=
  foldr (λ c row, <[c:=default SNull (new !! c)]> row) old updated.

(** ** sqlite_columns.go, sqlite_cache.go *)

Definition certificateCacheColumns : list string :=
  ["identity"; "profile_name"; "profile_hash"; "public_key_sha256"; "issuer_name";
   "issuer_directory"; "issuer_account_key_id"; "cert_pem"; "chain_pem"; "fullchain_pem";
   "serial_number"; "not_before"; "not_after"; "created_at"; "updated_at"].

(** The columns of [insertCertificateCacheSQL], of its conflict target, of its
update, and of the [WHERE] of [getCertificateCacheSQL]. *)
Definition insertCertificateCacheSQL_columns : list string :=
  ["identity"; "profile_name"; "profile_hash"; "public_key_sha256"; "issuer_name";
   "issuer_directory"; "issuer_account_key_id"; "cert_pem"; "chain_pem"; "fullchain_pem";
   "serial_number"; "not_before"; "not_after"; "created_at"; "updated_at"].
Definition insertCertificateCacheSQL_conflict : list string :=
  ["identity"; "profile_name"; "profile_hash"; "public_key_sha256"; "issuer_name";
   "issuer_directory"; "issuer_account_key_id"].
Definition insertCertificateCacheSQL_update : list string :=
  ["cert_pem"; "chain_pem"; "fullchain_pem"; "serial_number"; "not_before"; "not_after";
   "updated_at"].
Definition getCertificateCacheSQL_where : list string :=
  ["identity"; "profile_name"; "profile_hash"; "public_key_sha256"; "issuer_name";
   "issuer_directory"; "issuer_account_key_id"].

Record certificateCacheRow := mkCacheRow {
  row_Identity : string;
  row_ProfileName : string;
  row_ProfileHash : string;
  row_PublicKeySHA256 : string;
  row_IssuerName : string;
  row_IssuerDirectory : string;
  row_IssuerAccountKeyID : string;
  row_CertPEM : string;
  row_ChainPEM : string;
  row_FullChainPEM : string;
  row_LeafSerialNumber : string;
  row_NotBefore : string;
  row_NotAfter : string;
  row_CreatedAt : string;
  row_UpdatedAt : string }.

(** [row.Scan] of the selected values, by position. *)
Definition certificateCacheRow_scan (vs : list sqlval) : result value_error certificateCacheRow :=
  let str n := from_option_err (ScanType n) (nth_error vs n ≫= scan_string) in
  let bytes n := from_option_err (ScanType n) (nth_error vs n ≫= scan_bytes) in
  a0 ← str 0; a1 ← str 1; a2 ← str 2; a3 ← str 3; a4 ← str 4; a5 ← str 5; a6 ← str 6;
  a7 ← bytes 7; a8 ← bytes 8; a9 ← bytes 9;
  a10 ← str 10; a11 ← str 11; a12 ← str 12; a13 ← str 13; a14 ← str 14;
  mret (mkCacheRow a0 a1 a2 a3 a4 a5 a6 a7 a8 a9 a10 a11 a12 a13 a14).

Definition cacheEntry (r : certificateCacheRow) : result value_error CacheEntry :=
  notBefore ← parseRequiredTime (row_NotBefore r) "not_before";
  notAfter ← parseRequiredTime (row_NotAfter r) "not_after";
  createdAt ← parseRequiredTime (row_CreatedAt r) "created_at";
  updatedAt ← parseRequiredTime (row_UpdatedAt r) "updated_at";
  mret (mkCacheEntry
    (mkKey (row_Identity r) (row_ProfileName r) (row_ProfileHash r) (row_PublicKeySHA256 r)
       (row_IssuerName r) (row_IssuerDirectory r) (row_IssuerAccountKeyID r))
    (mkBundle (row_CertPEM r) (row_ChainPEM r) (row_FullChainPEM r) (row_LeafSerialNumber r)
       notBefore notAfter)
    createdAt updatedAt).

Definition key_args (k : CertificateCacheKey) : list sqlval := SText <$> key_parts k.

(** The arguments of the [INSERT] of [PutCertificate]. A byte slice is bound as a
blob; that a nil slice would be bound as NULL is not represented, since a slice
here is its bytes. *)
Definition put_args (now : Z) (key : CertificateCacheKey) (b : Bundle) : list sqlval :=
  let now := format_RFC3339 now in
  key_args key ++
  [SBlob (CertPEM b); SBlob (ChainPEM b); SBlob (FullChainPEM b);
   SText (LeafSerialNumber b);
   SText (format_RFC3339 (NotBefore b)); SText (format_RFC3339 (NotAfter b));
   SText now; SText now].

(** [QueryRow] that finds nothing answers [sql.ErrNoRows]. *)
Inductive query_error := ErrNoRows | QueryFails (e : string).

Class CacheTable (DB : Type) := {
  exec_insert : io → sqlrow → DB → option string * DB;
  query_get : io → list sqlval → DB → result query_error sqlrow;
  query_list : io → DB → result string (list sqlrow) }.

Section Cache.
Context {DB : Type} `{CacheTable DB}.

Definition readCertificateCacheRow (f : io) (key : CertificateCacheKey) (db : DB)
    : result store_error certificateCacheRow :=
  match query_get f (key_args key) db with
  | Err ErrNoRows => Err ErrCacheMiss
  | Err (QueryFails e) => Err (ReadingCache e)
  | Ok row => wrap_err ReadingRow (certificateCacheRow_scan (select certificateCacheColumns row))
  end.

Definition SQLite_GetValidCertificate (f : io) (now : Z) (key : CertificateCacheKey)
    (renewBefore : Z) (db : DB) : result store_error Bundle :=
  row ← readCertificateCacheRow f key db;
  entry ← wrap_err DecodingRow (cacheEntry row);
  if (time_Until now (NotAfter (Entry_Bundle entry)) <=? renewBefore)%Z
  then Err ErrCacheMiss else Ok (Entry_Bundle entry).

Definition SQLite_PutCertificate (f : io) (now : Z) (key : CertificateCacheKey)
    (bundle : option Bundle) (db : DB) : option store_error * DB :=
  match bundle with
  | None => (Some NilBundle, db)
  | Some b =>
      match exec_insert f (insert_row insertCertificateCacheSQL_columns (put_args now key b)) db with
      | (Some e, db1) => (Some (WritingCache e), db1)
      | (None, db1) => (None, db1)
      end
  end.

Definition SQLite_List (f : io) (db : DB) : result store_error (list CacheEntry) :=
  rows ← wrap_err ReadingCache (query_list f db);
  traverse (λ row,
    r ← wrap_err ScanningRow (certificateCacheRow_scan (select certificateCacheColumns row));
    wrap_err DecodingRow (cacheEntry r)) rows.
End Cache.

#[export] Instance SQLite_ops {DB} `{CacheTable DB} : CertificateStore DB := {|
  GetValidCertificate := SQLite_GetValidCertificate;
  PutCertificate := SQLite_PutCertificate;
  List_ := SQLite_List |}.

(** ** Values *)

Lemma stringFromNull_nullable s : stringFromNull (nullableString s) = s.
Proof. unfold nullableString. by case_bool_decide. Qed.

Lemma format_not_empty t : formattable t → format_RFC3339 t ≠ "".
Proof. intros Ht%parse_format E. rewrite E in Ht. done. Qed.

Lemma parseRequiredTime_format t field :
  formattable t → parseRequiredTime (format_RFC3339 t) field = Ok (truncate_second t).
Proof.
  intros Ht. unfold parseRequiredTime.
  by rewrite bool_decide_false, parse_format by auto using format_not_empty.
Qed.

Lemma nullableTime_roundtrip t field :
  match t with Some t => formattable t | None => True end →
  parseOptionalTime (nullableTime t) field
  = Ok (match t with
        | Some t => if time_IsZero t then None else Some (truncate_second t)
        | None => None end).
Proof.
  destruct t as [t|]; [|done]. intros Ht. unfold nullableTime.
  destruct (time_IsZero t); [done|]. unfold parseOptionalTime.
  by rewrite bool_decide_false, parse_format by auto using format_not_empty.
Qed.

(** ** The cache *)

(** The row of a bundle under a key, with the instants of its writing. *)
Definition cache_row (key : CertificateCacheKey) (b : Bundle) (created updated : Z) : sqlrow :=
  insert_row certificateCacheColumns
    (key_args key ++
     [SBlob (CertPEM b); SBlob (ChainPEM b); SBlob (FullChainPEM b);
      SText (LeafSerialNumber b);
      SText (format_RFC3339 (NotBefore b)); SText (format_RFC3339 (NotAfter b));
      SText (format_RFC3339 created); SText (format_RFC3339 updated)]).

Lemma put_row now k b :
  insert_row insertCertificateCacheSQL_columns (put_args now k b) = cache_row k b now now.
Proof.
  unfold cache_row, put_args. change insertCertificateCacheSQL_columns with certificateCacheColumns.
  f_equal.
Qed.

Lemma put_row_where k b c u :
  select insertCertificateCacheSQL_conflict (cache_row k b c u) = key_args k
  ∧ select getCertificateCacheSQL_where (cache_row k b c u) = key_args k.
Proof. split; reflexivity. Qed.

(** The update keeps the creation time and nothing else of the old row. *)
Lemma upsert_row k b c u b' c' u' :
  upsert insertCertificateCacheSQL_update (cache_row k b c u) (cache_row k b' c' u')
  = cache_row k b' c u'.
Proof.
  unfold cache_row.
  repeat match goal with |- context [format_RFC3339 ?t] => generalize (format_RFC3339 t); intro end.
  vm_compute. reflexivity.
Qed.

Definition stored_bundle (b : Bundle) : Bundle :=
  mkBundle (CertPEM b) (ChainPEM b) (FullChainPEM b) (LeafSerialNumber b)
    (truncate_second (NotBefore b)) (truncate_second (NotAfter b)).

Lemma scan_cache_row k b c u :
  certificateCacheRow_scan (select certificateCacheColumns (cache_row k b c u))
  = Ok (mkCacheRow (Identity k) (ProfileName k) (ProfileHash k) (PublicKeySHA256 k)
      (IssuerName k) (IssuerDirectory k) (IssuerAccountKeyID k)
      (CertPEM b) (ChainPEM b) (FullChainPEM b) (LeafSerialNumber b)
      (format_RFC3339 (NotBefore b)) (format_RFC3339 (NotAfter b))
      (format_RFC3339 c) (format_RFC3339 u)).
Proof. reflexivity. Qed.

Definition times_ok (b : Bundle) (c u : Z) : Prop :=
  formattable (NotBefore b) ∧ formattable (NotAfter b) ∧ formattable c ∧ formattable u.

Definition entry_of (k : CertificateCacheKey) (b : Bundle) (c u : Z) : CacheEntry :=
  mkCacheEntry k (stored_bundle b) (truncate_second c) (truncate_second u).

Lemma read_cache_row k b c u :
  times_ok b c u →
  certificateCacheRow_scan (select certificateCacheColumns (cache_row k b c u)) ≫= cacheEntry
  = Ok (entry_of k b c u).
Proof.
  intros (Hb & Ha & Hc & Hu). rewrite scan_cache_row. unfold cacheEntry. simpl.
  rewrite !parseRequiredTime_format by done. by destruct k.
Qed.

Lemma key_args_inj k k' : key_args k = key_args k' → k = k'.
Proof. destruct k, k'. intros E. by injection E as -> -> -> -> -> -> ->. Qed.

(** What SQLite does with the statements: the table maps the values of the
unique columns to the row. A statement that fails changes nothing. *)
Class CacheTableLaws (DB : Type) `{CacheTable DB} := {
  table : DB → gmap (list sqlval) sqlrow;
  query_get_row db key :
    query_get IO_ok key db = from_option_err ErrNoRows (table db !! key);
  query_get_sound f db key row :
    query_get f key db = Ok row → table db !! key = Some row;
  query_get_none f db key : query_get f key db = Err ErrNoRows → table db !! key = None;
  exec_insert_ok f row db db' :
    exec_insert f row db = (None, db') →
    let key := select insertCertificateCacheSQL_conflict row in
    table db' = <[key:=match table db !! key with
                       | Some old => upsert insertCertificateCacheSQL_update old row
                       | None => row
                       end]> (table db);
  exec_insert_err f row db db' e : exec_insert f row db = (Some e, db') → db' = db }.

Section Laws.
Context {DB : Type} `{CTL : CacheTableLaws DB}.

(** Every row was written by [PutCertificate]. *)
Definition sql_in_order (db : DB) : Prop :=
  ∀ key row, table db !! key = Some row →
    ∃ k b c u, key = key_args k ∧ row = cache_row k b c u ∧ times_ok b c u.

Definition row_bundle (row : sqlrow) : option Bundle :=
  match certificateCacheRow_scan (select certificateCacheColumns row) ≫= cacheEntry with
  | Ok e => Some (Entry_Bundle e)
  | Err _ => None
  end.

Definition sql_holds (db : DB) (k : CertificateCacheKey) : option Bundle :=
  table db !! key_args k ≫= row_bundle.

Lemma row_bundle_cache_row k b c u :
  times_ok b c u → row_bundle (cache_row k b c u) = Some (stored_bundle b).
Proof using. intros Ht. unfold row_bundle. by rewrite read_cache_row. Qed.

(** The read of a row that is there. *)
Lemma sql_get_row f now k margin db row :
  query_get f (key_args k) db = Ok row → ∀ b c u, row = cache_row k b c u → times_ok b c u →
  SQLite_GetValidCertificate f now k margin db
  = if (time_Until now (NotAfter (stored_bundle b)) <=? margin)%Z then Err ErrCacheMiss
    else Ok (stored_bundle b).
Proof using.
  intros Hq b c u -> Ht. unfold SQLite_GetValidCertificate, readCertificateCacheRow.
  rewrite Hq. apply (read_cache_row k b c u) in Ht. apply bind_Ok in Ht as (r & Hr & He).
  rewrite Hr. cbn [wrap_err mbind result_bind]. by rewrite He.
Qed.

Lemma sql_get db now k margin :
  sql_in_order db →
  SQLite_GetValidCertificate IO_ok now k margin db =
  match sql_holds db k with
  | None => Err ErrCacheMiss
  | Some b => if (time_Until now (NotAfter b) <=? margin)%Z then Err ErrCacheMiss else Ok b
  end.
Proof using.
  intros Ho. unfold sql_holds. pose proof (query_get_row db (key_args k)) as Hq.
  destruct (table db !! key_args k) as [row|] eqn:Et; simpl in *.
  - destruct (Ho _ _ Et) as (k' & b & c & u & Hk & -> & Ht).
    apply key_args_inj in Hk as <-. rewrite row_bundle_cache_row by done.
    by apply (sql_get_row _ _ _ _ _ _ Hq _ c u).
  - unfold SQLite_GetValidCertificate, readCertificateCacheRow. by rewrite Hq.
Qed.

Lemma sql_get_sound db f now k margin b :
  sql_in_order db → SQLite_GetValidCertificate f now k margin db = Ok b →
  sql_holds db k = Some b ∧ (margin < time_Until now (NotAfter b))%Z.
Proof using.
  intros Ho Hg. destruct (query_get f (key_args k) db) as [row|[]] eqn:Hq.
  2-3: by unfold SQLite_GetValidCertificate, readCertificateCacheRow in Hg; rewrite Hq in Hg.
  apply query_get_sound in Hq as Et. destruct (Ho _ _ Et) as (k' & b' & c & u & Hk & -> & Ht).
  apply key_args_inj in Hk as <-.
  rewrite (sql_get_row _ now k margin _ _ Hq b' c u eq_refl Ht) in Hg.
  destruct (Z.leb_spec (time_Until now (NotAfter (stored_bundle b'))) margin); [done|].
  injection Hg as <-. split; [|done]. unfold sql_holds. rewrite Et. by apply row_bundle_cache_row.
Qed.

Definition sql_storable (now : Z) (k : CertificateCacheKey) (b : Bundle) : Prop :=
  times_ok b now now.

Lemma sql_put_stores db f now k b db' :
  sql_in_order db → sql_storable now k b →
  SQLite_PutCertificate f now k (Some b) db = (None, db') →
  sql_in_order db' ∧ sql_holds db' k = Some (stored_bundle b)
  ∧ ∀ k', True → k' ≠ k → sql_holds db' k' = sql_holds db k'.
Proof using.
  intros Ho (Hnb & Hna & Hnow & _). unfold SQLite_PutCertificate. rewrite put_row.
  destruct (exec_insert f _ db) as [[e|] db1] eqn:Ex; [done|]. intros [= <-].
  apply exec_insert_ok in Ex. cbv zeta in Ex. rewrite (proj1 (put_row_where _ _ _ _)) in Ex.
  assert (∃ c, times_ok b c now ∧ table db1 = <[key_args k:=cache_row k b c now]> (table db))
    as (c & Ht & E).
  { destruct (table db !! key_args k) as [row|] eqn:Et.
    - destruct (Ho _ _ Et) as (k' & b' & c & u & Hk & -> & (_ & _ & Hc & _)).
      apply key_args_inj in Hk as <-. rewrite upsert_row in Ex. by exists c.
    - by exists now. }
  clear Ex. unfold sql_holds. rewrite E. split_and!.
  - intros key row. rewrite E. intros [[<- <-]|[_ Hr]]%lookup_insert_Some; [|by apply Ho].
    by exists k, b, c, now.
  - rewrite lookup_insert_eq. simpl. by apply row_bundle_cache_row.
  - intros k' _ Hne. rewrite lookup_insert_ne; [done|]. by intros ->%key_args_inj.
Qed.

Lemma sql_put_fails db f now k b db' e :
  SQLite_PutCertificate f now k b db = (Some e, db') → db' = db.
Proof using CTL.
  unfold SQLite_PutCertificate. destruct b as [b|]; [|congruence].
  destruct (exec_insert f _ db) as [[x|] d] eqn:Ex; [|done].
  intros [= <- <-]. by eapply exec_insert_err.
Qed.

Lemma sql_get_miss db f now k margin b :
  sql_in_order db → SQLite_GetValidCertificate f now k margin db = Err ErrCacheMiss →
  sql_holds db k = Some b → (time_Until now (NotAfter b) <= margin)%Z.
Proof using.
  intros Ho Hg. unfold sql_holds. destruct (query_get f (key_args k) db) as [row|[|e]] eqn:Hq.
  - apply query_get_sound in Hq as Et. destruct (Ho _ _ Et) as (k' & b' & c & u & Hk & -> & Ht).
    apply key_args_inj in Hk as <-.
    rewrite (sql_get_row _ now k margin _ _ Hq b' c u eq_refl Ht) in Hg.
    rewrite Et. simpl. rewrite row_bundle_cache_row by done. intros [= <-].
    destruct (Z.leb_spec (time_Until now (NotAfter (stored_bundle b'))) margin); done.
  - apply query_get_none in Hq as ->. done.
  - unfold SQLite_GetValidCertificate, readCertificateCacheRow in Hg. by rewrite Hq in Hg.
Qed.

#[export] Program Instance SQLite_laws : StoreLaws DB := {|
  holds := sql_holds; in_order := sql_in_order; storable := sql_storable;
  key_good _ := True; stored := stored_bundle |}.
Next Obligation. intros db now k margin b Ho Hb. simpl. by rewrite sql_get, Hb. Qed.
Next Obligation. intros db now k margin Ho Hb. simpl. by rewrite sql_get, Hb. Qed.
Next Obligation. apply sql_get_sound. Qed.
Next Obligation. apply sql_get_miss. Qed.
Next Obligation. apply sql_put_stores. Qed.
Next Obligation. intros s io now k b s' e Hf%sql_put_fails. by left. Qed.
Next Obligation.
  intros b. split_and!; try done. simpl. pose proof (truncate_second_le (NotAfter b)). lia.
Qed.
End Laws.

(** ** Properties *)

(** C28: After a successful write, the SQLite store answers reads of the key
with the bundle written, its instants truncated to the second, and with a
cache miss once the end of its validity is within the margin asked for; reads
of other keys do not change; the row keeps the creation time of the first
write; a write that fails, or of no bundle, leaves the table as it was. *)
Theorem SQLite_cache_correct {DB} `{CacheTableLaws DB} (db : DB) io now k b err db' :
  sql_in_order db → times_ok b now now →
  SQLite_PutCertificate io now k (Some b) db = (err, db') →
  (err = None →
     sql_in_order db'
     ∧ (∀ later margin, SQLite_GetValidCertificate IO_ok later k margin db'
        = if (time_Until later (NotAfter (stored_bundle b)) <=? margin)%Z then Err ErrCacheMiss
          else Ok (stored_bundle b))
     ∧ (∀ later margin k', k' ≠ k →
        SQLite_GetValidCertificate IO_ok later k' margin db'
        = SQLite_GetValidCertificate IO_ok later k' margin db)
     ∧ (∀ b0 c u, table db !! key_args k = Some (cache_row k b0 c u) →
        table db' !! key_args k = Some (cache_row k b c now)))
  ∧ (err ≠ None → db' = db)
  ∧ SQLite_PutCertificate io now k None db = (Some NilBundle, db).
Proof.
  intros Ho Ht Hput. split_and!; [| |done].
  - intros ->. split; [by eapply sql_put_stores|].
    destruct (get_after_put (SL:=SQLite_laws) db io now k b db' Ho Ht Hput) as [Hk Hk'].
    split_and!; [exact Hk | intros; by apply Hk'|].
    intros b0 c u E. unfold SQLite_PutCertificate in Hput. rewrite put_row in Hput.
    destruct (exec_insert io _ db) as [[e|] db1] eqn:Ex; [done|]. injection Hput as <-.
    apply exec_insert_ok in Ex. cbv zeta in Ex. rewrite (proj1 (put_row_where _ _ _ _)), E in Ex.
    by rewrite Ex, lookup_insert_eq, upsert_row.
  - destruct err; [|done]. intros _. by eapply sql_put_fails.
Qed.

(** ** A table *)

Notation test_table := (gmap (list sqlval) sqlrow) (only parsing).

#[export] Instance test_table_ops : CacheTable test_table := {|
  exec_insert f row db :=
    match f with
    | Write_fails e => (Some e, db)
    | _ => let key := select insertCertificateCacheSQL_conflict row in
           (None, <[key:=match db !! key with
                         | Some old => upsert insertCertificateCacheSQL_update old row
                         | None => row end]> db)
    end;
  query_get f key db :=
    match f with
    | Read_fails e => Err (QueryFails e)
    | _ => from_option_err ErrNoRows (db !! key)
    end;
  query_list f db := Ok (snd <$> map_to_list db) |}.

#[export] Program Instance test_table_laws : CacheTableLaws test_table := {| table db := db |}.
Next Obligation. done. Qed.
Next Obligation.
  intros f db key row. destruct f; simpl; try done; destruct (db !! key); simpl; try done; by intros [= ->].
Qed.
Next Obligation. intros f db key. destruct f; simpl; try done; by destruct (db !! key). Qed.
Next Obligation. intros f row db db'. destruct f; simpl; congruence. Qed.
Next Obligation. intros f row db db' e. destruct f; simpl; congruence. Qed.

Definition test_put : option store_error * test_table :=
  SQLite_PutCertificate IO_ok Hour test_cache_key (Some test_bundle) (∅ : test_table).

Example SQLite_cache_correct_witness :
  SQLite_GetValidCertificate IO_ok (2 * Hour) test_cache_key (720 * Hour) (snd test_put)
  = Ok test_bundle.
Proof.
  refine (eq_trans (proj1 (proj2 (proj1 (SQLite_cache_correct (∅ : test_table) IO_ok Hour
    test_cache_key test_bundle (fst test_put) (snd test_put) _ _ _) _))
    (2 * Hour)%Z (720 * Hour)%Z) _).
  - intros key row H. discriminate H.
  - unfold times_ok, formattable, test_bundle, Hour, Minute, Second. simpl. lia.
  - unfold test_put. apply surjective_pairing.
  - vm_compute. reflexivity.
  - vm_compute. reflexivity.
Defined.
End sqlite.
