(* ===== verification/StoreAudit.v ===== *)
(** * The SQLite store: audit events

[sqlite_audit.go]: the row of an event, its reading back, and the listing of
the last events. The table is an interface with the behaviour relied on as
laws. *)

From S2P Require Import Prelude GoStrings GoTime Json JsonDecode JsonTypes AuditLog Store StoreSqlite.
Import json_decode json_types store sqlite audit.
#[local] Open Scope go_scope.

Module sqlite_audit.

(** ** sqlite_values.go: JSON columns *)

Definition string_map_json (m : gmap string string) : json :=
  JObject ((λ k, (k, JString (default "" (m !! k)))) <$> sort_strings (elements (dom m))).

Definition decode_string_map : value → option (option (gmap string string)) :=
  decode_map (λ v, decode_string v "").

(** A nil slice or map is written [null], which becomes a null column. Values
of these types are always written. *)
Definition encodeJSON {A} (to_json : A → json) (value : option A) : option string :=
  print ∘ to_json <$> value.

Definition decodeJSON {A} (decode : value → option (option A)) (value : option string)
    (field : string) : result value_error (option A) :=
  match value with
  | None => Ok None
  | Some s => if s == "" then Ok None else from_option_err (ParsingJSON field) (unmarshal decode s)
  end.

(** ** sqlite_audit.go *)

Definition auditEventColumns : list string :=
  ["event_id"; "request_id"; "timestamp"; "event_type"; "severity"; "decision"; "identity";
   "profile_name"; "profile_hash"; "policy_hash"; "reason_code"; "reason"; "error"; "source_ip";
   "user_agent"; "csr_sha256"; "csr_public_key_sha256"; "csr_dns_names_json";
   "expected_dns_names_json"; "issuer_name"; "issuer_directory"; "acme_order_url";
   "cert_serial_number"; "cert_not_before"; "cert_not_after"; "cache_result"; "metadata_json"].

Definition insertAuditEventSQL_columns : list string :=
  ["event_id"; "request_id"; "timestamp"; "event_type"; "severity"; "decision"; "identity";
   "profile_name"; "profile_hash"; "policy_hash"; "reason_code"; "reason"; "error"; "source_ip";
   "user_agent"; "csr_sha256"; "csr_public_key_sha256"; "csr_dns_names_json";
   "expected_dns_names_json"; "issuer_name"; "issuer_directory"; "acme_order_url";
   "cert_serial_number"; "cert_not_before"; "cert_not_after"; "cache_result"; "metadata_json";
   "created_at"].

Record auditEventRow := mkAuditRow {
  ar_EventID : string;
  ar_RequestID : string;
  ar_Timestamp : string;
  ar_Type : string;
  ar_Severity : string;
  ar_Decision : string;
  ar_Identity : option string;
  ar_ProfileName : option string;
  ar_ProfileHash : option string;
  ar_PolicyHash : option string;
  ar_ReasonCode : option string;
  ar_Reason : option string;
  ar_Error : option string;
  ar_SourceIP : option string;
  ar_UserAgent : option string;
  ar_CSRSHA256 : option string;
  ar_CSRPublicKeySHA256 : option string;
  ar_CSRDNSNamesJSON : option string;
  ar_ExpectedNamesJSON : option string;
  ar_IssuerName : option string;
  ar_IssuerDirectory : option string;
  ar_ACMEOrderURL : option string;
  ar_LeafSerialNumber : option string;
  ar_CertNotBefore : option string;
  ar_CertNotAfter : option string;
  ar_CacheResult : option string;
  ar_MetadataJSON : option string }.

Definition auditEventRow_scan (vs : list sqlval) : result value_error auditEventRow :=
  let str n := from_option_err (ScanType n) (nth_error vs n ≫= scan_string) in
  let null n := from_option_err (ScanType n) (nth_error vs n ≫= scan_null) in
  a0 ← str 0; a1 ← str 1; a2 ← str 2; a3 ← str 3; a4 ← str 4; a5 ← str 5;
  a6 ← null 6; a7 ← null 7; a8 ← null 8; a9 ← null 9; a10 ← null 10; a11 ← null 11;
  a12 ← null 12; a13 ← null 13; a14 ← null 14; a15 ← null 15; a16 ← null 16; a17 ← null 17;
  a18 ← null 18; a19 ← null 19; a20 ← null 20; a21 ← null 21; a22 ← null 22; a23 ← null 23;
  a24 ← null 24; a25 ← null 25; a26 ← null 26;
  mret (mkAuditRow a0 a1 a2 a3 a4 a5 a6 a7 a8 a9 a10 a11 a12 a13 a14 a15 a16 a17 a18 a19 a20
          a21 a22 a23 a24 a25 a26).

Class AuditTable (DB : Type) := {
  exec_insert_event : io → sqlrow → DB → option string * DB;
  query_events : io → nat → DB → result string (list sqlrow) }.

(** The arguments of the [INSERT] of [Record]. *)
Definition event_args (e : Event) : list sqlval :=
  [SText (EventID e); SText (RequestID e); SText (format_RFC3339 (Timestamp e));
   SText (Type_ e); SText (Severity e); SText (Decision_ e);
   bind_null (nullableString (Identity e));
   bind_null (nullableString (ProfileName e));
   bind_null (nullableString (ProfileHash e));
   bind_null (nullableString (PolicyHash e));
   bind_null (nullableString (ReasonCode e));
   bind_null (nullableString (Reason e));
   bind_null (nullableString (Error e));
   bind_null (nullableString (SourceIP e));
   bind_null (nullableString (UserAgent e));
   bind_null (nullableString (CSRSHA256 e));
   bind_null (nullableString (CSRPublicKeySHA256 e));
   bind_null (encodeJSON strings_json (CSRDNSNames e));
   bind_null (encodeJSON strings_json (ExpectedDNSNames e));
   bind_null (nullableString (IssuerName e));
   bind_null (nullableString (IssuerDirectory e));
   bind_null (nullableString (ACMEOrderURL e));
   bind_null (nullableString (CertSerialNumber e));
   bind_null (nullableTime (CertNotBefore e));
   bind_null (nullableTime (CertNotAfter e));
   bind_null (nullableString (CacheResult e));
   bind_null (encodeJSON string_map_json (Metadata e))].

Inductive audit_store_error :=
  | RecordingEvent (e : string)
  | ListingEvents (e : string)
  | ScanningEvent (e : value_error)
  | DecodingEvent (e : value_error)
  | WritingEvent.

Definition auditEvent (r : auditEventRow) : result value_error Event :=
  timestamp ← parseRequiredTime (ar_Timestamp r) "timestamp";
  certNotBefore ← parseOptionalTime (ar_CertNotBefore r) "cert_not_before";
  certNotAfter ← parseOptionalTime (ar_CertNotAfter r) "cert_not_after";
  csrNames ← decodeJSON decode_strings (ar_CSRDNSNamesJSON r) "csr_dns_names_json";
  expectedNames ← decodeJSON decode_strings (ar_ExpectedNamesJSON r) "expected_dns_names_json";
  metadata ← decodeJSON decode_string_map (ar_MetadataJSON r) "metadata_json";
  mret (mkEvent (ar_EventID r) (ar_RequestID r) timestamp (ar_Type r) (ar_Severity r)
    (ar_Decision r)
    (stringFromNull (ar_Identity r)) (stringFromNull (ar_ProfileName r))
    (stringFromNull (ar_ProfileHash r)) (stringFromNull (ar_PolicyHash r))
    (stringFromNull (ar_ReasonCode r)) (stringFromNull (ar_Reason r))
    (stringFromNull (ar_Error r)) (stringFromNull (ar_SourceIP r))
    (stringFromNull (ar_UserAgent r)) (stringFromNull (ar_CSRSHA256 r))
    (stringFromNull (ar_CSRPublicKeySHA256 r)) csrNames expectedNames
    (stringFromNull (ar_IssuerName r)) (stringFromNull (ar_IssuerDirectory r))
    (stringFromNull (ar_ACMEOrderURL r)) (stringFromNull (ar_LeafSerialNumber r))
    certNotBefore certNotAfter (stringFromNull (ar_CacheResult r)) metadata).

Section Audit.
Context {DB : Type} `{AuditTable DB}.

(** [datetime] is what SQLite's [datetime('now')] gives for [created_at]. *)
Definition SQLite_Record (f : io) (datetime : string) (e : Event) (db : DB)
    : option audit_store_error * DB :=
  match exec_insert_event f
          (insert_row insertAuditEventSQL_columns (event_args e ++ [SText datetime])) db with
  | (Some x, db1) => (Some (RecordingEvent x), db1)
  | (None, db1) => (None, db1)
  end.

Definition default_limit (limit : Z) : Z := if (limit <=? 0)%Z then 100%Z else limit.

Definition read_event (row : sqlrow) : result audit_store_error Event :=
  r ← wrap_err ScanningEvent (auditEventRow_scan (select auditEventColumns row));
  wrap_err DecodingEvent (auditEvent r).

Definition listAuditEvents (f : io) (limit : Z) (db : DB)
    : result audit_store_error (list Event) :=
  let limit := default_limit limit in
  rows ← wrap_err ListingEvents (query_events f (Z.to_nat limit) db);
  traverse read_event rows.

(** The encoder over the writer, one write per event: the [n]-th of them meets
the [n]-th outcome. *)
Fixpoint encode_events (outcome : nat → write_outcome) (es : list Event) (out : string)
    : option audit_store_error * string :=
  match es with
  | [] => (None, out)
  | e :: es' =>
      let '(ok, out1) := encode_to (outcome 0) e out in
      if ok then encode_events (outcome ∘ S) es' out1 else (Some WritingEvent, out1)
  end.

Definition SQLite_WriteAuditEvents (f : io) (outcome : nat → write_outcome) (limit : Z) (db : DB)
    (out : string) : option audit_store_error * string :=
  match listAuditEvents f limit db with
  | Err e => (Some e, out)
  | Ok es => encode_events outcome es out
  end.
End Audit.

(** ** Laws *)

(** The table holds the rows inserted with success, the query answers with the
greatest timestamps first, at most [limit] of them. *)
Class AuditTableLaws (DB : Type) `{AuditTable DB} := {
  events : DB → list sqlrow;
  insert_event_ok f row db db' :
    exec_insert_event f row db = (None, db') → events db' = events db ++ [row];
  insert_event_err f row db db' e :
    exec_insert_event f row db = (Some e, db') → db' = db;
  query_events_ok f limit db rows :
    query_events f limit db = Ok rows →
    ∃ sorted, sorted ≡ₚ events db ∧ rows = take limit sorted
      ∧ StronglySorted (λ r r', ∀ t t', r !! "timestamp" = Some (SText t) →
          r' !! "timestamp" = Some (SText t') → String.le t' t) sorted }.

(** ** The row of an event *)

Definition event_row (datetime : string) (e : Event) : sqlrow :=
  insert_row insertAuditEventSQL_columns (event_args e ++ [SText datetime]).

(** The store as a recorder: given what the database answers and the time it
writes. *)
#[export] Instance SQLite_recorder {DB} `{AuditTable DB} :
  RecorderOps audit_store_error DB (io * string) :=
  {| Record_ f := SQLite_Record (fst f) (snd f) |}.
#[export] Program Instance SQLite_recorder_laws {DB} `{AuditTableLaws DB} :
  RecorderLaws audit_store_error DB (io * string) :=
  {| on_record db e := ∃ datetime, event_row datetime e ∈ events db |}.
Next Obligation.
  simpl. intros DB ? ? [f datetime] e db db'. unfold SQLite_Record. simpl.
  destruct (exec_insert_event _ _ db) as [[x|] db1] eqn:Ei; [done|]. intros [= <-].
  apply insert_event_ok in Ei. exists datetime. rewrite Ei. apply elem_of_app. right. by left.
Qed.
Next Obligation.
  simpl. intros DB ? ? [f datetime] e db x [dt Hx]. exists dt. unfold SQLite_Record. simpl.
  destruct (exec_insert_event _ _ db) as [[y|] db1] eqn:Ei; simpl.
  - apply insert_event_err in Ei. by subst.
  - apply insert_event_ok in Ei. rewrite Ei. apply elem_of_app. by left.
Qed.

(** What is read back: instants truncated to the second, the zero instant of a
certificate as no instant. *)
Definition optional_time (t : option Z) : option Z :=
  match t with
  | None => None
  | Some t => if time_IsZero t then None else Some (truncate_second t)
  end.

Definition stored_event (e : Event) : Event :=
  mkEvent (EventID e) (RequestID e) (truncate_second (Timestamp e)) (Type_ e) (Severity e)
    (Decision_ e) (Identity e) (ProfileName e) (ProfileHash e) (PolicyHash e) (ReasonCode e)
    (Reason e) (Error e) (SourceIP e) (UserAgent e) (CSRSHA256 e) (CSRPublicKeySHA256 e)
    (CSRDNSNames e) (ExpectedDNSNames e) (IssuerName e) (IssuerDirectory e) (ACMEOrderURL e)
    (CertSerialNumber e) (optional_time (CertNotBefore e)) (optional_time (CertNotAfter e))
    (CacheResult e) (Metadata e).

Definition time_formattable (t : option Z) : Prop :=
  match t with Some t => formattable t | None => True end.

Definition event_ok (e : Event) : Prop :=
  formattable (Timestamp e) ∧ time_formattable (CertNotBefore e)
  ∧ time_formattable (CertNotAfter e)
  ∧ Forall valid_utf8 (default [] (CSRDNSNames e))
  ∧ Forall valid_utf8 (default [] (ExpectedDNSNames e))
  ∧ map_Forall (λ k v, valid_utf8 k ∧ valid_utf8 v) (default ∅ (Metadata e)).

Lemma scan_bind_null v : scan_null (bind_null v) = Some v.
Proof. by destruct v. Qed.

(** The values selected, by position, are the arguments of the insertion. *)
Lemma select_event_row datetime e : select auditEventColumns (event_row datetime e) = event_args e.
Proof. reflexivity. Qed.

Lemma scan_event_args e :
  auditEventRow_scan (event_args e)
  = Ok (mkAuditRow (EventID e) (RequestID e) (format_RFC3339 (Timestamp e))
      (Type_ e) (Severity e) (Decision_ e)
      (nullableString (Identity e)) (nullableString (ProfileName e))
      (nullableString (ProfileHash e)) (nullableString (PolicyHash e))
      (nullableString (ReasonCode e)) (nullableString (Reason e)) (nullableString (Error e))
      (nullableString (SourceIP e)) (nullableString (UserAgent e))
      (nullableString (CSRSHA256 e)) (nullableString (CSRPublicKeySHA256 e))
      (encodeJSON strings_json (CSRDNSNames e)) (encodeJSON strings_json (ExpectedDNSNames e))
      (nullableString (IssuerName e)) (nullableString (IssuerDirectory e))
      (nullableString (ACMEOrderURL e)) (nullableString (CertSerialNumber e))
      (nullableTime (CertNotBefore e)) (nullableTime (CertNotAfter e))
      (nullableString (CacheResult e)) (encodeJSON string_map_json (Metadata e))).
Proof.
  unfold auditEventRow_scan, event_args. cbn [nth_error mbind option_bind scan_string].
  rewrite !scan_bind_null. reflexivity.
Qed.

Lemma decode_encode {A} (to_json : A → json) decode x field n :
  (∀ y, x = Some y → decodes n (to_json y) decode (Some y)) → (N.of_nat n <= maxNestingDepth)%N →
  (∀ y, print (to_json y) ≠ "") →
  decodeJSON decode (encodeJSON to_json x) field = Ok x.
Proof.
  intros Hd Hn Hne. destruct x as [y|]; [|done]. unfold encodeJSON, decodeJSON, compose.
  cbn [fmap option_fmap option_map]. rewrite bool_decide_false by done.
  by rewrite (unmarshal_print n decode _ (Some y)) by auto.
Qed.

Lemma decode_encode_strings l field :
  Forall valid_utf8 (default [] l) →
  decodeJSON decode_strings (encodeJSON strings_json l) field = Ok l.
Proof.
  intros Hl. apply (decode_encode _ _ _ _ 1); [|done..]. intros y ->. by apply decode_strings_print.
Qed.

Lemma string_map_json_eq m : map_json (λ s, Some (JString s)) m = Some (string_map_json m).
Proof.
  unfold map_json, string_map_json. rewrite fmap_Some. eexists. split; [|reflexivity].
  apply mapM_Some, Forall2_fmap_r, Forall_Forall2_diag, Forall_forall. intros k.
  rewrite sort_strings_elem_of, elem_of_elements, elem_of_dom. intros [v Hv].
  unfold compose. by rewrite Hv.
Qed.

Lemma decode_encode_map m field :
  map_Forall (λ k v, valid_utf8 k ∧ valid_utf8 v) (default ∅ m) →
  decodeJSON decode_string_map (encodeJSON string_map_json m) field = Ok m.
Proof.
  intros Hm. apply (decode_encode _ _ _ _ 1); [|done..]. intros y ->.
  destruct (map_json_ok 0 (λ s, Some (JString s)) (λ v, decode_string v "") valid_utf8 y)
    as (j & Ej & Hd); [|exact Hm|].
  - intros s Hs. eexists. split; [done|]. by apply decode_string_print.
  - rewrite string_map_json_eq in Ej. by injection Ej as <-.
Qed.

Lemma read_event_row datetime e :
  event_ok e → read_event (event_row datetime e) = Ok (stored_event e).
Proof.
  intros (Ht & Hb & Ha & Hc & Hx & Hm). unfold read_event.
  rewrite select_event_row, scan_event_args. cbn [wrap_err mbind result_bind].
  unfold auditEvent. cbn [ar_Timestamp ar_CertNotBefore ar_CertNotAfter ar_CSRDNSNamesJSON
    ar_ExpectedNamesJSON ar_MetadataJSON].
  rewrite parseRequiredTime_format by done. cbn [mbind result_bind].
  rewrite !nullableTime_roundtrip by done. cbn [mbind result_bind].
  rewrite !decode_encode_strings by done. cbn [mbind result_bind].
  rewrite decode_encode_map by done. cbn [mbind result_bind wrap_err].
  unfold mret, result_ret, wrap_err, stored_event. cbn.
  by rewrite !stringFromNull_nullable.
Qed.

Lemma read_event_rows (des : list (string * Event)) :
  Forall (λ de, event_ok (de.2)) des →
  traverse read_event ((λ de, event_row (de.1) (de.2)) <$> des)
  = Ok ((λ de, stored_event (de.2)) <$> des).
Proof.
  intros Hok. apply traverse_Ok, Forall2_fmap, Forall2_same_length_lookup.
  split; [done|]. intros i x y Hx Hy. assert (x = y) as <- by congruence.
  apply read_event_row. rewrite Forall_lookup in Hok. by apply (Hok i).
Qed.

(** The table holds exactly the rows of these events. *)
Definition table_of {DB} `{AuditTableLaws DB} (des : list (string * Event)) (db : DB) : Prop :=
  events db = (λ de, event_row (de.1) (de.2)) <$> des.

Lemma event_row_timestamp datetime e :
  event_row datetime e !! "timestamp" = Some (SText (format_RFC3339 (Timestamp e))).
Proof. reflexivity. Qed.

(** *** Writing events *)

Lemma optional_time_formattable t : time_formattable t → time_formattable (optional_time t).
Proof.
  destruct t as [t|]; simpl; [|done]. intros Ht. destruct (time_IsZero t); [done|].
  by apply formattable_truncate.
Qed.

Lemma time_formattable_encodes t :
  time_formattable t → forallb year_encodes (option_list t) = true.
Proof. destruct t as [t|]; simpl; [|done]. intros. by rewrite formattable_year_encodes. Qed.

Lemma stored_event_line e : event_ok e → is_Some (event_line (stored_event e)).
Proof.
  intros (Ht & Hb & Ha & _). unfold event_line.
  assert (times_encode (stored_event e) = true) as ->; [|by eexists].
  unfold times_encode. cbn [forallb]. rewrite forallb_app. simpl.
  rewrite formattable_year_encodes by by apply formattable_truncate.
  by rewrite !time_formattable_encodes by by apply optional_time_formattable.
Qed.

Lemma encode_events_ok outcome es out :
  (∀ n, outcome n = Written) → Forall (λ e, is_Some (event_line e)) es →
  encode_events outcome es out = (None, string_app out (log_text es)).
Proof.
  intros Ho Hes. revert outcome out Ho.
  induction Hes as [|e es [line Hl] Hes IH]; intros outcome out Ho; simpl.
  - by rewrite string_app_nil_r.
  - unfold encode_to. rewrite Hl, Ho, IH by (intros; apply Ho). simpl. by rewrite string_app_assoc.
Qed.

(** ** Properties *)

(** C30: The audit table keeps every event recorded with success and no other;
an event that is refused leaves it unchanged. When the query answers, the
listing succeeds: it returns, newest timestamps first, at most the limit of
them (100 when the limit is not positive), each event as it was recorded up to
the fraction of the seconds; and [WriteAuditEvents] writes their lines. *)
Theorem audit_store_correct {DB} `{AuditTableLaws DB}
    (des : list (string * Event)) (db : DB) :
  table_of des db → Forall (λ de, event_ok (de.2)) des →
  (∀ f datetime e db', SQLite_Record f datetime e db = (None, db') →
     table_of (des ++ [(datetime, e)]) db')
  ∧ (∀ f datetime e err db', SQLite_Record f datetime e db = (Some err, db') → db' = db)
  ∧ (∀ f limit rows, query_events f (Z.to_nat (default_limit limit)) db = Ok rows →
     ∃ sorted, sorted ≡ₚ des
       ∧ listAuditEvents f limit db
         = Ok ((λ de, stored_event (de.2)) <$> take (Z.to_nat (default_limit limit)) sorted)
       ∧ StronglySorted (λ de de', String.le (format_RFC3339 (Timestamp (de'.2)))
                                             (format_RFC3339 (Timestamp (de.2)))) sorted
       ∧ ∀ outcome out, (∀ n, outcome n = Written) →
         SQLite_WriteAuditEvents f outcome limit db out
         = (None, string_app out (log_text
             ((λ de, stored_event (de.2)) <$> take (Z.to_nat (default_limit limit)) sorted)))).
Proof.
  unfold table_of, SQLite_Record. intros Ht Hok. split_and!.
  - intros f datetime e db' Hr.
    destruct (exec_insert_event f _ db) as [[x|] db1] eqn:Ex; [done|]. injection Hr as <-.
    apply insert_event_ok in Ex. by rewrite Ex, Ht, fmap_app.
  - intros f datetime e err db' Hr.
    destruct (exec_insert_event f _ db) as [[x|] db1] eqn:Ex; [|done]. injection Hr as _ <-.
    by eapply insert_event_err.
  - intros f limit rows Hq. apply query_events_ok in Hq as Hs.
    destruct Hs as (sorted & Hperm & -> & Hsorted). rewrite Ht in Hperm.
    apply Permutation_map_inv in Hperm as (sorted' & -> & Hperm). exists sorted'.
    assert (Hok' : Forall (λ de, event_ok (de.2)) (take (Z.to_nat (default_limit limit)) sorted'))
      by (apply Forall_take; by rewrite <- Hperm).
    assert (Hlist : listAuditEvents f limit db
      = Ok ((λ de, stored_event (de.2)) <$> take (Z.to_nat (default_limit limit)) sorted')).
    { unfold listAuditEvents. rewrite Hq. cbn [wrap_err mbind result_bind].
      change (map _ sorted') with ((λ de, event_row (de.1) (de.2)) <$> sorted').
      rewrite <- fmap_take. by apply read_event_rows. }
    split_and!; [done|done| |].
    2:{ intros outcome out Ho. unfold SQLite_WriteAuditEvents. rewrite Hlist.
        apply encode_events_ok; [done|]. apply Forall_fmap.
        eapply Forall_impl; [exact Hok'|]. intros de. apply stored_event_line. }
    + clear Hq Hperm Hok' Hlist. revert Hsorted. induction sorted' as [|de l IH]; [constructor|].
      intros Hs. apply StronglySorted_inv in Hs as [Hl Hde]. constructor; [by apply IH|].
      apply Forall_fmap in Hde. eapply Forall_impl; [exact Hde|]. intros de' Hle.
      exact (Hle _ _ (event_row_timestamp _ _) (event_row_timestamp _ _)).
Qed.

(** ** Instances *)

Definition timestamp_of (r : sqlrow) : string :=
  match r !! "timestamp" with Some (SText t) => t | _ => "" end.
Definition newer (r r' : sqlrow) : Prop := String.le (timestamp_of r') (timestamp_of r).

#[export] Instance newer_dec r r' : Decision (newer r r').
Proof. unfold newer. apply _. Defined.
#[export] Instance newer_total : Total newer.
Proof. intros r r'. unfold newer. apply (total String.le). Qed.
#[export] Instance newer_trans : Transitive newer.
Proof. intros r r' r''. unfold newer. intros ??. by etrans. Qed.

#[export] Instance test_events_ops : AuditTable (list sqlrow) := {|
  exec_insert_event f row db :=
    match f with Write_fails e => (Some e, db) | _ => (None, db ++ [row]) end;
  query_events f limit db :=
    match f with Read_fails e => Err e | _ => Ok (take limit (merge_sort newer db)) end |}.

#[export] Program Instance test_events_laws : AuditTableLaws (list sqlrow) := {| events db := db |}.
Next Obligation. intros f row db db'. destruct f; simpl; congruence. Qed.
Next Obligation. intros f row db db' e. destruct f; simpl; congruence. Qed.
Next Obligation.
  intros f limit db rows Hq. exists (merge_sort newer db).
  split_and!; [apply merge_sort_Permutation | destruct f; simpl in Hq; congruence |].
  eapply StronglySorted_ind with (P := StronglySorted _); [constructor | |
    apply (StronglySorted_merge_sort newer)].
  intros r l _ Hl Hr. constructor; [done|]. eapply Forall_impl; [exact Hr|].
  unfold newer, timestamp_of. intros r' Hn t t' E E'. by rewrite E, E' in Hn.
Qed.

Definition event_at (t : Z) : Event :=
  mkEvent "evt_1" "req_1" t EventCertificateDenied SeverityWarn DecisionDeny "edge01" "edge"
    "" "" ReasonInvalidCSR "bad" "bad" "10.0.0.1" "" "" "" (Some ["a.whisper.cl"]) None "" "" ""
    "" None None "" (Some {["k" := "v"]}).

Lemma event_at_ok t : formattable t → event_ok (event_at t).
Proof.
  intros Ht. split_and!; simpl; try done.
  - constructor; [by apply valid_utf8_ascii | constructor].
  - apply map_Forall_singleton. split; by apply valid_utf8_ascii.
Qed.

Definition test_events : list (string * Event) :=
  [("now", event_at 1500000000); ("now", event_at 2000000000)].

Example audit_store_correct_witness :
  ∃ sorted, sorted ≡ₚ test_events
    ∧ SQLite_WriteAuditEvents IO_ok (λ _, Written) 0
        ((λ de, event_row (de.1) (de.2)) <$> test_events) ""
      = (None, log_text ((λ de, stored_event (de.2)) <$> take (Z.to_nat (default_limit 0)) sorted)).
Proof.
  assert (Ht : table_of test_events ((λ de, event_row (de.1) (de.2)) <$> test_events)) by reflexivity.
  assert (Hok : Forall (λ de, event_ok (de.2)) test_events).
  { apply Forall_cons_2; [|apply Forall_cons_2; [|apply Forall_nil_2]];
      apply event_at_ok; unfold formattable, Second; lia. }
  destruct (proj2 (proj2 (audit_store_correct _ _ Ht Hok)) IO_ok 0%Z _ eq_refl)
    as (sorted & Hp & _ & _ & Hw).
  exists sorted. split; [exact Hp|]. by apply Hw.
Defined.
End sqlite_audit.
