(* ===== verification/StoreFileAudit.v ===== *)
(** * The file store: audit events

The audit log of [FileStore] ([internal/broker/store/cache.go]): [Record]
appends a JSON line to the file, [WriteAuditEvents] prints its last lines, read
with a [bufio.Scanner]. *)

From S2P Require Import Prelude GoStrings Json AuditLog.
Import audit.
#[local] Open Scope go_scope.

Module file_audit.

Inductive file_audit_error := OpeningAudit | WritingEvent | SyncingEvent | ReadingAudit | PrintingEvent.

(** What the system calls of [Record] answer; the error of [Close] is dropped. *)
Record record_faults := mkRecordFaults {
  rf_open_ok : bool; rf_write : write_outcome; rf_sync_ok : bool }.

(** The content of the file [s.path + ".audit.jsonl"]; [None] when there is none. *)
Record AuditFile := mkAuditFile { audit_jsonl : option string }.

Definition FileStore_Record (f : record_faults) (e : Event) (s : AuditFile)
    : option file_audit_error * AuditFile :=
  if negb (rf_open_ok f) then (Some OpeningAudit, s)
  else
    let '(ok, content) := encode_to (rf_write f) e (default "" (audit_jsonl s)) in
    let s := mkAuditFile (Some content) in
    if negb ok then (Some WritingEvent, s)
    else if negb (rf_sync_ok f) then (Some SyncingEvent, s)
    else (None, s).

#[export] Instance FileStore_recorder : RecorderOps file_audit_error AuditFile record_faults :=
  {| Record_ := FileStore_Record |}.

(** ** bufio.Scanner *)

(** A line, with its end, must fit in the buffer. *)
Definition MaxScanTokenSize : N := 64 * 1024.

Definition carriage_return : string := String (chr 13) "".

(** The lines of the pieces between the line feeds: what follows the last one is
a line unless it is empty, and a line loses a carriage return at its end.
[None] is [ErrTooLong]. *)
Fixpoint scan_pieces (pieces : list string) : option (list string) :=
  match pieces with
  | [] => Some []
  | piece :: rest =>
      if (piece == "") && bool_decide (rest = []) then Some []
      else if (MaxScanTokenSize <=? N.of_nat (len piece))%N then None
      else
        lines ← scan_pieces rest;
        Some (trim_suffix piece carriage_return :: lines)
  end.
Definition scan_lines (text : string) : option (list string) := scan_pieces (split_byte (chr 10) text).

(** [lines[len(lines)-limit:]]. *)
Definition last_lines {T} (limit : Z) (l : list T) : list T :=
  if (0 <? limit)%Z && (limit <? Z.of_nat (length l))%Z
  then drop (length l - Z.to_nat limit) l else l.

(** One [Fprintln] per line, until one fails; the [n]-th of them meets the [n]-th
outcome. *)
Fixpoint print_lines (outcome : nat → write_outcome) (lines : list string) (out : string)
    : option file_audit_error * string :=
  match lines with
  | [] => (None, out)
  | line :: lines' =>
      let text := string_app line newline in
      match outcome 0 with
      | FailedAfter n => (Some PrintingEvent, string_app out (take_bytes n text))
      | Written => print_lines (outcome ∘ S) lines' (string_app out text)
      end
  end.

(** Opening the file fails, or a read does. *)
Record tail_faults := mkTailFaults {
  tf_open_ok : bool; tf_read_ok : bool; tf_print : nat → write_outcome }.

Definition WriteAuditEvents (f : tail_faults) (limit : Z) (s : AuditFile) (out : string)
    : option file_audit_error * string :=
  if negb (tf_open_ok f) then (Some OpeningAudit, out)
  else match audit_jsonl s with
  | None => (None, out)
  | Some text =>
      match scan_lines text with
      | None => (Some ReadingAudit, out)
      | Some lines =>
          if negb (tf_read_ok f) then (Some ReadingAudit, out)
          else print_lines (tf_print f) (last_lines limit lines) out
      end
  end.

Example scan_tests :
  scan_lines (join ["a"; "b"] newline) = Some ["a"; "b"]
  ∧ scan_lines (join ["a"; ""; ""] newline) = Some ["a"; ""]
  ∧ scan_lines (string_app "a" (string_app carriage_return newline)) = Some ["a"]
  ∧ last_lines 2 [1; 2; 3] = [2; 3] ∧ last_lines 0 [1; 2; 3] = [1; 2; 3].
Proof. vm_compute. done. Qed.

(** ** Lemmas *)

(** The file holds the lines of these events, and nothing else. *)
Definition log_of (es : list Event) (s : AuditFile) : Prop :=
  Forall (λ e, is_Some (event_line e)) es ∧ default "" (audit_jsonl s) = log_text es.

(** The line of the event fits in the buffer. *)
Definition short_line (e : Event) : bool := (N.of_nat (len (print (event_json e))) <? MaxScanTokenSize)%N.

Lemma print_no_cr v : trim_suffix (print v) carriage_return = print v.
Proof.
  apply trim_suffix_no, not_true_is_false. intros [t E]%has_suffix_spec.
  pose proof (print_line v) as Hl. rewrite all_bytes_spec in Hl.
  specialize (Hl (chr 13)). rewrite E, to_list_app in Hl.
  cut (line_byte (chr 13) = true); [by vm_compute|]. apply Hl, elem_of_app. right. left.
Qed.

Lemma print_event_nonempty e : print (event_json e) ≠ "".
Proof. done. Qed.

Lemma too_long e :
  (MaxScanTokenSize <=? N.of_nat (len (print (event_json e))))%N = negb (short_line e).
Proof. unfold short_line. apply N.leb_antisym. Qed.

#[local] Opaque short_line.

Lemma scan_events es :
  scan_pieces (((λ e, print (event_json e)) <$> es) ++ [""])
  = if forallb short_line es then Some ((λ e, print (event_json e)) <$> es) else None.
Proof.
  induction es as [|e es IH]; [done|]. cbn [fmap list_fmap app scan_pieces forallb].
  rewrite IH, print_no_cr. rewrite (bool_decide_false (print _ = "")) by apply print_event_nonempty.
  rewrite andb_false_l, too_long. generalize (print (event_json e)). intros line.
  by destruct (short_line e), (forallb short_line es).
Qed.

Lemma scan_log es s text :
  log_of es s → audit_jsonl s = Some text →
  scan_lines text
  = if forallb short_line es then Some ((λ e, print (event_json e)) <$> es) else None.
Proof.
  intros [Hes Htext] Es. rewrite Es in Htext. simpl in Htext. subst text. unfold scan_lines.
  rewrite <- (string_app_nil_r (log_text es)), log_text_split by done. apply scan_events.
Qed.

Lemma log_text_nonempty es : Forall (λ e, is_Some (event_line e)) es → es ≠ [] → log_text es ≠ "".
Proof.
  intros Hes. destruct Hes as [|e es [line Hl] _]; [done|]. intros _. simpl. rewrite Hl.
  by apply event_line_text in Hl as ->.
Qed.

Lemma short_lines es : Forall (λ e, short_line e = true) es → forallb short_line es = true.
Proof. induction 1 as [|e es He Hes IH]; simpl; [done|]. by rewrite He, IH. Qed.

Lemma long_line_found es : Exists (λ e, short_line e = false) es → forallb short_line es = false.
Proof.
  induction 1 as [e es He|e es He IH]; simpl; [by rewrite He|]. rewrite IH. apply andb_false_r.
Qed.

Lemma FileStore_Record_appends f e s :
  ∃ more, default "" (audit_jsonl (snd (FileStore_Record f e s)))
          = string_app (default "" (audit_jsonl s)) more.
Proof.
  assert (Hsame : ∃ more, default "" (audit_jsonl s) = string_app (default "" (audit_jsonl s)) more).
  { exists "". by rewrite string_app_nil_r. }
  unfold FileStore_Record, encode_to. destruct (rf_open_ok f); simpl; [|done].
  destruct (event_line e) as [line|]; [|done].
  destruct (rf_write f); simpl; [destruct (rf_sync_ok f)|]; by eexists.
Qed.

#[export] Program Instance FileStore_recorder_laws : RecorderLaws file_audit_error AuditFile record_faults :=
  {| on_record s := has_line (default "" (audit_jsonl s)) |}.
Next Obligation.
  simpl. intros f e s s'. unfold FileStore_Record, encode_to. destruct (rf_open_ok f); simpl; [|done].
  destruct (event_line e) as [line|] eqn:El; [|done]. destruct (rf_write f); simpl; [|done].
  destruct (rf_sync_ok f); simpl; [|done]. intros [= <-]. by apply has_line_written.
Qed.
Next Obligation.
  simpl. intros f e s x Hx. destruct (FileStore_Record_appends f e s) as [more ->]. by apply has_line_more.
Qed.

Lemma FileStore_Record_log f e es s s' :
  log_of es s → FileStore_Record f e s = (None, s') → log_of (es ++ [e]) s'.
Proof.
  intros [Hes Htext]. unfold FileStore_Record, encode_to. destruct (rf_open_ok f); simpl; [|done].
  destruct (event_line e) as [line|] eqn:El; [|done].
  destruct (rf_write f); simpl; [|done]. destruct (rf_sync_ok f); simpl; [|done].
  intros [= <-]. split; [apply Forall_app; split; [done|by repeat constructor; eexists]|].
  rewrite log_text_app. simpl. by rewrite El, Htext, string_app_nil_r.
Qed.

Lemma print_lines_ok outcome lines out :
  (∀ n, outcome n = Written) →
  print_lines outcome lines out = (None, string_app out (join (lines ++ [""]) newline)).
Proof.
  revert outcome out. induction lines as [|line lines IH]; intros outcome out Ho; simpl.
  - by rewrite string_app_nil_r.
  - rewrite Ho, IH by (intros; apply Ho). rewrite <- !string_app_assoc. f_equal. f_equal.
    by destruct lines.
Qed.

Lemma last_lines_fmap {A B} (g : A → B) limit l : last_lines limit (g <$> l) = g <$> last_lines limit l.
Proof. unfold last_lines. rewrite length_fmap. case_match; [apply eq_sym, fmap_drop | done]. Qed.

Lemma last_lines_nil {A} limit : last_lines (T:=A) limit [] = [].
Proof. unfold last_lines. by case_match. Qed.

Lemma last_lines_Forall {A} (P : A → Prop) limit l : Forall P l → Forall P (last_lines limit l).
Proof. intros. unfold last_lines. case_match; [by apply Forall_drop | done]. Qed.

Lemma join_log es :
  Forall (λ e, is_Some (event_line e)) es →
  join (((λ e, print (event_json e)) <$> es) ++ [""]) newline = log_text es.
Proof.
  induction 1 as [|e es [line Hl] Hes IH]; [done|]. cbn [fmap list_fmap app log_text].
  rewrite Hl, <- IH. cbn [default from_option id]. apply event_line_text in Hl as ->.
  rewrite <- string_app_assoc. by destruct es.
Qed.

(** ** Properties *)

(** C31: The audit log of the file store. Whatever fails, recording leaves the
bytes of the log in front; an event recorded without error is the last line of
the log. When no line of the log is of 64 KiB or more, and nothing fails,
[WriteAuditEvents] prints the lines of the last events, as many as the limit,
or all when the limit is not positive; as soon as one line is that long,
it fails for every limit and prints nothing. *)
Theorem file_audit_correct es s :
  log_of es s →
  (∀ f e, ∃ more, default "" (audit_jsonl (snd (FileStore_Record f e s)))
                  = string_app (log_text es) more)
  ∧ (∀ f e s', FileStore_Record f e s = (None, s') → log_of (es ++ [e]) s')
  ∧ (∀ f limit out, tf_open_ok f = true → tf_read_ok f = true → (∀ n, tf_print f n = Written) →
     Forall (λ e, short_line e = true) es →
     WriteAuditEvents f limit s out = (None, string_app out (log_text (last_lines limit es))))
  ∧ (∀ f limit out, Exists (λ e, short_line e = false) es →
     is_Some (fst (WriteAuditEvents f limit s out)) ∧ snd (WriteAuditEvents f limit s out) = out).
Proof.
  intros Hlog. pose proof Hlog as [Hes Htext]. split_and!.
  - intros f e. rewrite <- Htext. apply FileStore_Record_appends.
  - intros f e s' Hr. by eapply FileStore_Record_log.
  - intros f limit out Ho Hr Hw Hs. unfold WriteAuditEvents. rewrite Ho, Hr.
    destruct (audit_jsonl s) as [text|] eqn:Es; cbn [negb].
    + rewrite (scan_log es s), short_lines by done.
      rewrite last_lines_fmap, print_lines_ok, join_log; [done|by apply last_lines_Forall|done].
    + destruct es as [|e es]; [by rewrite last_lines_nil, string_app_nil_r|].
      by destruct (log_text_nonempty (e :: es)).
  - intros f limit out Hx. unfold WriteAuditEvents. assert (es ≠ []) by (by inversion Hx).
    destruct (tf_open_ok f); simpl; [|by eauto].
    destruct (audit_jsonl s) as [text|] eqn:Es; simpl.
    + rewrite (scan_log es s), (long_line_found es) by done. eauto.
    + by destruct (log_text_nonempty es).
Qed.

(** ** A log *)

Fixpoint repeat_byte (n : nat) : string :=
  match n with O => "" | S n' => String (chr 97) (repeat_byte n') end.
Definition event_of (agent : string) : Event :=
  mkEvent "evt_1" "req_1" 0 EventCertificateDenied SeverityWarn DecisionDeny "" "" "" "" "" "" "" ""
    agent "" "" None None "" "" "" "" None None "" None.
Definition file_of (es : list Event) : AuditFile := mkAuditFile (Some (log_text es)).
Definition calm_tail : tail_faults := mkTailFaults true true (λ _, Written).

Lemma file_audit_correct_witness :
  WriteAuditEvents calm_tail 1 (file_of [event_of "curl"; event_of "agent"]) ""
    = (None, log_text [event_of "agent"])
  ∧ ∀ limit, is_Some (fst (WriteAuditEvents calm_tail limit
      (file_of [event_of (repeat_byte (N.to_nat 65536)); event_of "agent"]) "")).
Proof.
  split.
  - refine (proj1 (proj2 (proj2 (file_audit_correct [event_of "curl"; event_of "agent"] _ _)))
      calm_tail 1%Z "" _ _ _ _); [|done..|by repeat constructor].
    split; [by repeat constructor; eexists | done].
  - intros limit. refine (proj1 (proj2 (proj2 (proj2 (file_audit_correct
      [event_of (repeat_byte (N.to_nat 65536)); event_of "agent"] _ _))) calm_tail limit "" _)).
    + split; [|done]. constructor; [|constructor; [by eexists|constructor]].
      unfold event_line. by eexists.
    + apply Exists_cons_hd. vm_compute. reflexivity.
Defined.
End file_audit.
