(* ===== verification/StoreDisk.v ===== *)
(** * The file store on a disk

[FileStore] of [internal/broker/store/cache.go] as it runs: its reads and writes
are those of [os.ReadFile] and [fileutil.WriteFileAtomic] on the files of a
machine that may fault and crash. It refines the file store of [Store], whose
state is the content of the file; and through any number of writes, faults and
crashes the cache stays one that reads, holding what was stored. *)

From S2P Require Import Prelude GoStrings GoTime Json JsonDecode JsonTypes Os OsLogic FileUtil Pki Store.
Import json_decode json_types os os_logic fileutil pki store.
#[local] Open Scope go_scope.

Module disk_store.

Inductive disk_error :=
  | ReadingFile (path : string) (e : errno)
  | ParsingFile
  | MarshalingFile
  | WritingFile (path : string) (e : file_error)
  | CacheMiss
  | NilDereference.

Section DiskStore.
Context (env : environment) (path : string).

Definition load_file : EM disk_error (gmap string CacheEntry) :=
  read ← attempt (ReadFile env path);
  match read with
  | Err ErrNotExist => mret ∅
  | Err e => fail (ReadingFile path e)
  | Ok text =>
      entries ← lift (from_option_err ParsingFile (unmarshal (decode_map decode_entry) text));
      mret (default ∅ entries)
  end.

Definition save_file (entries : gmap string CacheEntry) : EM disk_error unit :=
  text ← lift (from_option_err MarshalingFile (MarshalIndent <$> map_json entry_json entries));
  wrapM (WritingFile path) (WriteFileAtomic env path text mode_600).

Definition Disk_GetValidCertificate (key : CertificateCacheKey) (renewBefore : Z) : EM disk_error Bundle :=
  entries ← load_file;
  match entries !! key_String key with
  | None => fail CacheMiss
  | Some entry =>
      now ← time_Now env;
      if (time_Until now (NotAfter (Entry_Bundle entry)) <=? renewBefore)%Z then fail CacheMiss
      else mret (Entry_Bundle entry)
  end.

Definition Disk_PutCertificate (key : CertificateCacheKey) (bundle : option Bundle) : EM disk_error unit :=
  entries ← load_file;
  now ← time_Now env;
  match bundle with
  | None => fail NilDereference
  | Some b => save_file (put_entry key b now entries)
  end.

Definition Disk_List : EM disk_error (list CacheEntry) :=
  entries ← load_file; mret (snd <$> map_to_list entries).

(** ** The store of the file's content *)

Definition content_store (o : option os.file) : FileStore := mkFileStore (fst <$> o).
Definition store_at (d : disk) : FileStore := content_store (read_file d path).

(** The same error, but for its text. *)
Inductive same_error : disk_error → store_error → Prop :=
  | same_reading e t : same_error (ReadingFile path e) (ReadingCache t)
  | same_parsing : same_error ParsingFile ParsingCache
  | same_marshaling : same_error MarshalingFile MarshalingCache
  | same_writing e t : same_error (WritingFile path e) (WritingCache t)
  | same_miss : same_error CacheMiss ErrCacheMiss
  | same_nil : same_error NilDereference NilPanic.

Definition same_result {T} (r : result disk_error T) (r' : result store_error T) : Prop :=
  match r, r' with
  | Ok x, Ok y => x = y
  | Err e, Err e' => same_error e e'
  | _, _ => False
  end.

Definition same_outcome (r : result disk_error unit) (o : option store_error) : Prop :=
  match r, o with
  | Ok _, None => True
  | Err e, Some e' => same_error e e'
  | _, _ => False
  end.

(** What is loaded is what the store of the content loads. *)
Lemma wp_load_file I (Q : result disk_error (gmap string CacheEntry) → disk → list action → Prop) d l :
  (∀ e, Q (Err (ReadingFile path e)) d l) →
  (∀ m, loadLocked IO_ok (store_at d) = Ok m → Q (Ok m) d l) →
  (loadLocked IO_ok (store_at d) = Err ParsingCache → Q (Err ParsingFile) d l) →
  wp I load_file Q d l.
Proof using.
  intros He Ho Hp. unfold store_at, content_store in *. unfold load_file. do 2 wp_step.
  apply wp_ReadFile; simpl.
  - intros e. by wp_step.
  - intros [text mode] Hf. rewrite Hf in Ho, Hp. simpl in *. do 2 wp_step.
    destruct (unmarshal (decode_map decode_entry) text) as [m|]; simpl in *; [|by apply Hp].
    wp_step. by apply Ho.
  - intros Hf. rewrite Hf in Ho. wp_step. by apply Ho.
Qed.

Lemma wp_save_file I entries (Q : result disk_error unit → disk → list action → Prop) d l :
  wf_disk d → temp_like path = false →
  (map_json entry_json entries = None → Q (Err MarshalingFile) d l) →
  (∀ j, map_json entry_json entries = Some j →
     (∀ d', atomically d d' path (MarshalIndent j, mode_600) → I d') ∧
     ∀ r d', atomically d d' path (MarshalIndent j, mode_600) →
       write_ends d d' path (MarshalIndent j, mode_600) r → Q (wrap_err (WritingFile path) r) d' l) →
  wp I (save_file entries) Q d l.
Proof using.
  intros Hwf Hp Hn Hs. unfold save_file. do 2 wp_step.
  destruct (map_json entry_json entries) as [j|]; simpl; [|by apply Hn].
  destruct (Hs j eq_refl) as [HI HQ]. wp_step. by apply wp_WriteFile.
Qed.

(** *** Refinement *)

Lemma wp_get_refines I key margin d l :
  wp I (Disk_GetValidCertificate key margin)
    (λ r d' _, d' = d ∧ ∃ f now,
       same_result r (FileStore_GetValidCertificate f now key margin (store_at d))) d l.
Proof using.
  unfold Disk_GetValidCertificate. wp_step. apply wp_load_file.
  - intros e. split; [done|]. exists (Read_fails ""), 0%Z. constructor.
  - intros m Hm. assert (Hg : ∀ now, FileStore_GetValidCertificate IO_ok now key margin (store_at d)
      = match m !! key_String key with
        | None => Err ErrCacheMiss
        | Some e => if (time_Until now (NotAfter (Entry_Bundle e)) <=? margin)%Z then Err ErrCacheMiss
                    else Ok (Entry_Bundle e)
        end) by (intros now; unfold FileStore_GetValidCertificate; by rewrite Hm).
    destruct (m !! key_String key) as [e|].
    + wp_step. unfold time_Now. wp_step.
      destruct (time_Until _ _ <=? margin)%Z eqn:E; wp_step; (split; [done|]);
        exists IO_ok, (env_clock env n); rewrite Hg, E; [constructor|done].
    + wp_step. split; [done|]. exists IO_ok, 0%Z. rewrite Hg. constructor.
  - intros Hp. split; [done|]. exists IO_ok, 0%Z. unfold FileStore_GetValidCertificate. rewrite Hp. constructor.
Qed.

Lemma read_content d t mode : read_file d path = Some (t, mode) → store_at d = mkFileStore (Some t).
Proof using. unfold store_at, content_store. by intros ->. Qed.

Lemma wp_put_refines I key bundle d l :
  wf_disk d → temp_like path = false → (∀ d', I d') →
  wp I (Disk_PutCertificate key bundle)
    (λ r d' _, ∃ f now o,
       FileStore_PutCertificate f now key bundle (store_at d) = (o, store_at d') ∧ same_outcome r o) d l.
Proof using.
  intros Hwf Hp HI. unfold Disk_PutCertificate. wp_step. apply wp_load_file.
  - intros e. exists (Read_fails ""), 0%Z. eexists. split; [done|]. constructor.
  - intros m Hm. wp_step. unfold time_Now. wp_step.
    assert (Hput : ∀ f, match f with Read_fails _ => False | _ => True end →
      FileStore_PutCertificate f (env_clock env n) key bundle (store_at d)
      = match bundle with
        | None => (Some NilPanic, store_at d)
        | Some b => saveLocked f (put_entry key b (env_clock env n) m) (store_at d)
        end).
    { intros f Hf. unfold FileStore_PutCertificate.
      replace (loadLocked f (store_at d)) with (loadLocked IO_ok (store_at d)) by (by destruct f).
      by rewrite Hm. }
    destruct bundle as [b|].
    2:{ wp_step. exists IO_ok, (env_clock env n). eexists. split; [by rewrite Hput|]. constructor. }
    apply wp_save_file; [done..| |].
    + intros Hn. exists IO_ok, (env_clock env n). eexists.
      split; [rewrite Hput by done; unfold saveLocked; by rewrite Hn|]. constructor.
    + intros j Hj. split; [done|]. intros r d' Ha [Hok Herr].
      assert (Hsave : ∀ f, match f with Read_fails _ => False | _ => True end →
        FileStore_PutCertificate f (env_clock env n) key (Some b) (store_at d)
        = match f with
          | Write_fails e => (Some (WritingCache e), store_at d)
          | Sync_fails e => (Some (WritingCache e), mkFileStore (Some (MarshalIndent j)))
          | _ => (None, mkFileStore (Some (MarshalIndent j)))
          end).
      { intros f Hf. rewrite Hput by done. unfold saveLocked. by rewrite Hj. }
      destruct r as [[]|e].
      * destruct (Hok eq_refl) as [[Hr _] _]. exists IO_ok, (env_clock env n), None.
        by rewrite Hsave, (read_content _ _ _ Hr).
      * destruct (Herr e eq_refl) as [[Hr _]|(e' & -> & Hr & _)].
        -- exists (Write_fails ""), (env_clock env n). eexists. rewrite Hsave by done.
           split; [unfold store_at; by rewrite Hr|]. constructor.
        -- exists (Sync_fails ""), (env_clock env n). eexists.
           rewrite Hsave, (read_content _ _ _ Hr) by done. split; [done|]. constructor.
  - intros Hpc. exists IO_ok, 0%Z. eexists. unfold FileStore_PutCertificate. rewrite Hpc. split; [done|]. constructor.
Qed.
End DiskStore.

(** ** Writes, faults and crashes *)

(** A crash leaves each path one of the contents it might have, for good. *)
Record crashed (path : string) (d d' : disk) : Prop := {
  cr_wf : wf_disk d';
  cr_content : may_be d path (read_file d' path);
  cr_settled : ∀ o, may_be d' path o → o = read_file d' path }.

(** A write that was tried, and whether it returned no error. *)
Record put_attempt := mkAttempt {
  pa_key : CertificateCacheKey; pa_bundle : Bundle; pa_ok : bool }.

(** The writes so far, the last one first, and the machine. *)
Definition run_state : Type := list put_attempt * machine.

(** A write may end, with or without an error, or the machine crash at any moment
of it; reads, crashes between operations, and work on other files. *)
Inductive cache_step (path : string) : run_state → run_state → Prop :=
  | writes env key b h m r m' :
      (∀ n, file_storable (env_clock env n) key b) →
      Disk_PutCertificate env path key (Some b) m = (r, m') →
      cache_step path (h, m) (mkAttempt key b (is_ok r) :: h, m')
  | dies env key b h m r m1 d m' :
      (∀ n, file_storable (env_clock env n) key b) →
      Disk_PutCertificate env path key (Some b) m = (r, m1) →
      d ∈ m_disk m1 :: drop (length (m_past m)) (m_past m1) →
      crashed path d (m_disk m') →
      cache_step path (h, m) (mkAttempt key b false :: h, m')
  | reads env key margin h m r m' :
      Disk_GetValidCertificate env path key margin m = (r, m') →
      cache_step path (h, m) (h, m')
  | crashes h m m' :
      crashed path (m_disk m) (m_disk m') → cache_step path (h, m) (h, m')
  | works h m m' :
      wf_disk (m_disk m') → keeps (m_disk m) (m_disk m') path → cache_step path (h, m) (h, m').

(** What the cache may hold for a key: the bundle of the last write of it; while
that write has not returned without error, what was possible before it, too. *)
Fixpoint possible (init : CertificateCacheKey → option Bundle) (h : list put_attempt)
    (k : CertificateCacheKey) (v : option Bundle) : Prop :=
  match h with
  | [] => v = init k
  | a :: h' =>
      if decide (pa_key a = k)
      then v = Some (pa_bundle a) ∨ (pa_ok a = false ∧ possible init h' k v)
      else possible init h' k v
  end.

(** A content that is a cache in order, with what is possible for each key. *)
Definition content_ok init (h : list put_attempt) (o : option os.file) : Prop :=
  file_in_order (content_store o) ∧ ∀ k, key_ok k → possible init h k (file_holds (content_store o) k).

Definition cache_inv (path : string) init (s : run_state) : Prop :=
  wf_disk (m_disk s.2) ∧ ∀ o, may_be (m_disk s.2) path o → content_ok init s.1 o.

Lemma may_be_now d p : wf_disk d → may_be d p (read_file d p).
Proof.
  intros Hwf. exists (names d !! p). split; [by left|]. unfold read_file.
  destruct (names d !! p) as [i|] eqn:E; [|done]. destruct (wf_lookup d p i Hwf E) as [n Hn].
  exists n, (inode_file n). simpl. by rewrite Hn.
Qed.

Section Runs.
Context (path : string) (Hpath : temp_like path = false).
Context (init : CertificateCacheKey → option Bundle).

(** After a write is begun, each content is one from before it, or the next one. *)
Definition next_content (d : disk) key b (o : option os.file) : Prop :=
  file_in_order (content_store o) ∧ file_holds (content_store o) key = Some b
  ∧ ∀ k, key_ok k → k ≠ key → file_holds (content_store o) k = file_holds (store_at path d) k.

Definition during (d : disk) key b (d' : disk) : Prop :=
  wf_disk d' ∧ ∀ o, may_be d' path o → may_be d path o ∨ next_content d key b o.

Lemma wp_put_during env key b d l :
  wf_disk d → file_in_order (store_at path d) → (∀ n, file_storable (env_clock env n) key b) →
  wp (during d key b) (Disk_PutCertificate env path key (Some b))
    (λ r d' _, during d key b d' ∧ (is_ok r = true → ∀ o, may_be d' path o → next_content d key b o)) d l.
Proof using Hpath.
  intros Hwf Ho Hst. assert (Hd : during d key b d) by (split; [done|]; by left).
  unfold Disk_PutCertificate. wp_step. apply wp_load_file; [by intros e..| |done].
  intros m Hm. wp_step. unfold time_Now. wp_step. apply wp_save_file; [done..|].
  intros j Hj. specialize (Hst n).
  assert (Hnext : ∀ o, o = Some (MarshalIndent j, mode_600) → next_content d key b o).
  { intros o ->. apply (file_put_stores (store_at path d) IO_ok (env_clock env n)); [done..|].
    unfold FileStore_PutCertificate. rewrite Hm. unfold saveLocked. by rewrite Hj. }
  assert (Ha : ∀ d', atomically d d' path (MarshalIndent j, mode_600) → during d key b d').
  { intros d' [Hk _ Hwf']. split; [done|]. intros o Hmay.
    destruct Hk as [[_ Hk]|[_ Hk]]; [by left; apply Hk|]. destruct (Hk o Hmay); auto. }
  split; [exact Ha|]. intros r d' Hat [Hok _]. split; [by apply Ha|].
  destruct r as [[]|e]; [|done]. intros _ o Hmay. destruct (Hok eq_refl) as [[_ Hdur] _].
  by apply Hnext, Hdur.
Qed.

Lemma next_content_ok h d key b ok o :
  content_ok init h (read_file d path) → next_content d key b o →
  content_ok init (mkAttempt key b ok :: h) o.
Proof using.
  intros [_ Hc] (Ho & Hk & Hother). split; [done|]. intros k Hg. simpl.
  case_decide as E; [subst k; by left|]. rewrite Hother by done. by apply Hc.
Qed.

Lemma content_ok_failed h key b o :
  content_ok init h o → content_ok init (mkAttempt key b false :: h) o.
Proof using.
  intros [Ho Hc]. split; [done|]. intros k Hg. simpl. case_decide; [right|]; auto.
Qed.

Lemma during_ok h d key b d' o :
  (∀ o, may_be d path o → content_ok init h o) → wf_disk d → during d key b d' →
  may_be d' path o → content_ok init (mkAttempt key b false :: h) o.
Proof using.
  intros Hc Hwf [_ Hd] [Ho|Ho]%Hd; [by apply content_ok_failed, Hc|].
  eapply next_content_ok; [|done]. by apply Hc, may_be_now.
Qed.

Lemma put_moments env key b m :
  wf_disk (m_disk m) → file_in_order (store_at path (m_disk m)) →
  (∀ n, file_storable (env_clock env n) key b) →
  let '(r, m') := Disk_PutCertificate env path key (Some b) m in
  (∀ d, d ∈ m_disk m' :: drop (length (m_past m)) (m_past m') → during (m_disk m) key b d)
  ∧ (is_ok r = true → ∀ o, may_be (m_disk m') path o → next_content (m_disk m) key b o).
Proof using Hpath.
  intros Hwf Ho Hst.
  destruct (wp_run _ _ _ m (wp_put_during env key b (m_disk m) (m_log m) Hwf Ho Hst))
    as (new & Hp & Hn & Hd & Hok).
  destruct (Disk_PutCertificate env path key (Some b) m) as [r m']. simpl in *. split; [|done].
  rewrite Hp, drop_app_length. intros d [->|Hin]%elem_of_cons; [done|].
  by apply (proj1 (Forall_forall _ _) Hn).
Qed.

Lemma cache_step_inv s s' : cache_inv path init s → cache_step path s s' → cache_inv path init s'.
Proof using Hpath.
  intros [Hwf Hc] Hstep.
  assert (Hord : file_in_order (store_at path (m_disk s.2))) by by apply Hc, may_be_now.
  destruct Hstep as [env key b h m r m' Hst E|env key b h m r m1 d m' Hst E Hd [Hwf' Hmay Hset]
    |env key margin h m r m' E|h m m' [Hwf' Hmay Hset]|h m m' Hwf' [_ Hk]]; simpl in *.
  - pose proof (put_moments env key b m Hwf Hord Hst) as Hp. rewrite E in Hp. destruct Hp as [Hp Hok].
    destruct (Hp (m_disk m')) as [Hwf' Hd]; [by left|]. split; [done|]. intros o Ho.
    destruct r as [[]|e]; simpl.
    + eapply next_content_ok; [by apply Hc, may_be_now | by apply Hok].
    + by eapply during_ok.
  - pose proof (put_moments env key b m Hwf Hord Hst) as Hp. rewrite E in Hp. destruct Hp as [Hp _].
    split; [done|]. intros o ->%Hset. eapply during_ok; [done..| |done]. by apply Hp.
  - destruct (wp_run (λ _, True) _ _ m (wp_get_refines env path (λ _, True) key margin (m_disk m) (m_log m)))
      as (new & _ & _ & Hd & _). rewrite E in Hd. simpl in Hd. unfold cache_inv. simpl. by rewrite Hd.
  - split; [done|]. intros o ->%Hset. by apply Hc.
  - split; [done|]. intros o Ho. by apply Hc, Hk.
Qed.

Lemma cache_run_inv s s' : rtc (cache_step path) s s' → cache_inv path init s → cache_inv path init s'.
Proof using Hpath. induction 1; eauto using cache_step_inv. Qed.
End Runs.

(** What [possible] says. *)
Lemma possible_last init h1 h2 k b v :
  k ∉ pa_key <$> h1 → possible init (h1 ++ mkAttempt k b true :: h2) k v → v = Some b.
Proof.
  induction h1 as [|a h1 IH]; simpl.
  - intros _. rewrite decide_True by done. by intros [?|[? _]].
  - intros [Hne Hk]%not_elem_of_cons. rewrite decide_False by done. by apply IH.
Qed.

Lemma possible_written init h k b :
  possible init h k (Some b) → init k = Some b ∨ ∃ ok, mkAttempt k b ok ∈ h.
Proof.
  induction h as [|[k' b' ok] h IH]; simpl; [by left|].
  case_decide as E; simpl in E.
  - subst k'. intros [[= ->]|[_ H]]; [right; eexists; by left|]. destruct (IH H) as [?|[? ?]]; [by left|].
    right. eexists. by right.
  - intros H. destruct (IH H) as [?|[? ?]]; [by left|]. right. eexists. by right.
Qed.

(** A read, of a cache in order. *)
Lemma get_sound env path key margin m :
  file_in_order (store_at path (m_disk m)) →
  match fst (Disk_GetValidCertificate env path key margin m) with
  | Ok b => file_holds (store_at path (m_disk m)) key = Some b
      ∧ ∃ now, (margin < time_Until now (NotAfter b))%Z
  | Err ParsingFile => False
  | Err _ => True
  end.
Proof.
  intros Ho. destruct (wp_run (λ _, True) _ _ m
    (wp_get_refines env path (λ _, True) key margin (m_disk m) (m_log m))) as (new & _ & _ & _ & f & now & Hr).
  destruct (fst _) as [b|e]; simpl in Hr.
  - destruct (FileStore_GetValidCertificate f now key margin _) as [b'|e'] eqn:E; [|done]. subst b'.
    apply file_get_sound in E as [Hh Hm]; [|done]. eauto.
  - destruct (FileStore_GetValidCertificate f now key margin _) as [b'|e'] eqn:E; [done|].
    destruct e; try done. inversion Hr; subst. destruct Ho as [Hok _].
    unfold FileStore_GetValidCertificate in E.
    assert (Hl : is_ok (loadLocked f (store_at path (m_disk m))) = true ∨ ∃ t, loadLocked f (store_at path (m_disk m)) = Err (ReadingCache t))
      by (destruct f; simpl; eauto).
    destruct Hl as [Hl|[t Hl]]; [|by rewrite Hl in E].
    destruct (loadLocked f (store_at path (m_disk m))) as [m1|]; [|done]. simpl in E.
    destruct (m1 !! key_String key); [|done]. by destruct (_ <=? _)%Z.
Qed.
(** Without faults a bundle that can be stored is stored. *)
Lemma put_calm env path key b m :
  (∀ n, env_fault env n = None) → wf_disk (m_disk m) → temp_like path = false →
  (∀ n, names (m_disk m) !! joinPath (Dir path) (string_app ".certplane-" (env_temp env n)) = None) →
  file_in_order (store_at path (m_disk m)) → (∀ n, file_storable (env_clock env n) key b) →
  fst (Disk_PutCertificate env path key (Some b) m) = Ok tt.
Proof.
  intros Hc Hwf Hp Hn Ho Hst.
  destruct (wp_run (λ _, True) (Disk_PutCertificate env path key (Some b)) (λ r _ _, r = Ok tt) m)
    as (_ & _ & _ & H); [|done].
  unfold Disk_PutCertificate, load_file, save_file, ReadFile. do 3 wp_step.
  apply wp_syscall_calm; [done|]. do 2 wp_step.
  destruct Ho as [Hok Hents]. unfold file_entries, store_at, content_store in *. simpl in *.
  assert (Hsave : ∀ entries, entries_ok entries →
    wp (λ _, True) (now ← time_Now env; save_file env path (put_entry key b now entries))
      (λ r _ _, r = Ok tt) (m_disk m) (m_log m)).
  { intros entries He. wp_step. unfold time_Now. wp_step. unfold save_file. do 2 wp_step.
    destruct (Hst n) as (_ & Hu & Hb & Hnow).
    destruct (entries_roundtrip (put_entry key b (env_clock env n) entries)) as (j & -> & _);
      [by apply put_entry_ok|]. simpl. wp_step. by apply wp_WriteFile_calm. }
  destruct (read_file (m_disk m) path) as [[text mode]|]; simpl in *; wp_step.
  - do 2 wp_step. destruct (unmarshal (decode_map decode_entry) text) as [o|]; simpl in *; [|done].
    wp_step. by apply Hsave.
  - wp_step. by apply Hsave.
Qed.

Lemma wp_list_refines env path I d l :
  wp I (Disk_List env path)
    (λ r d' _, d' = d ∧ ∃ f, same_result path r (FileStore_List f (store_at path d))) d l.
Proof.
  unfold Disk_List. wp_step. apply wp_load_file.
  - intros e. split; [done|]. exists (Read_fails ""). constructor.
  - intros m Hm. wp_step. split; [done|]. exists IO_ok. unfold FileStore_List. by rewrite Hm.
  - intros Hp. split; [done|]. exists IO_ok. unfold FileStore_List. rewrite Hp. constructor.
Qed.

(** ** Properties *)

(** C27: On a disk, whatever system calls fail and wherever, the operations of the
file store do what those of the store of the file's content do for some answer
of the system and some instant: reads and listings change no file and return
the same, or the same error; a write leaves the content that store leaves, and
returns an error when it does. Without faults, a bundle that can be stored is
stored. *)
Theorem disk_store_refines env path key m :
  wf_disk (m_disk m) → temp_like path = false →
  (∀ margin, let '(r, m') := Disk_GetValidCertificate env path key margin m in
     m_disk m' = m_disk m
     ∧ ∃ f now, same_result path r (FileStore_GetValidCertificate f now key margin (store_at path (m_disk m))))
  ∧ (let '(r, m') := Disk_List env path m in
     m_disk m' = m_disk m ∧ ∃ f, same_result path r (FileStore_List f (store_at path (m_disk m))))
  ∧ (∀ bundle, let '(r, m') := Disk_PutCertificate env path key bundle m in
     ∃ f now o, FileStore_PutCertificate f now key bundle (store_at path (m_disk m))
                = (o, store_at path (m_disk m'))
       ∧ same_outcome path r o)
  ∧ (∀ b, (∀ n, env_fault env n = None) →
     (∀ n, names (m_disk m) !! joinPath (Dir path) (string_app ".certplane-" (env_temp env n)) = None) →
     file_in_order (store_at path (m_disk m)) → (∀ n, file_storable (env_clock env n) key b) →
     fst (Disk_PutCertificate env path key (Some b) m) = Ok tt).
Proof.
  intros Hwf Hp. split_and!.
  - intros margin. pose proof (wp_run _ _ _ m (wp_get_refines env path (λ _, True) key margin _ _))
      as (_ & _ & _ & H). by destruct (Disk_GetValidCertificate env path key margin m).
  - pose proof (wp_run _ _ _ m (wp_list_refines env path (λ _, True) _ _)) as (_ & _ & _ & H).
    by destruct (Disk_List env path m).
  - intros bundle.
    pose proof (wp_run _ _ _ m (wp_put_refines env path (λ _, True) key bundle _ _ Hwf Hp (λ _, Logic.I)))
      as (_ & _ & _ & H). by destruct (Disk_PutCertificate env path key bundle m).
  - intros. by apply put_calm.
Qed.

(** C26: Through any sequence of writes and reads of the cache, with faults of any
system call, of crashes at any moment of a write and between operations, and of
work on other files, the cache file stays one that reads; a bundle whose write
returned no error is held until its key is written again; and a bundle that is
ever served was there at first or was written for that very key, and has more
than the margin left. *)
Theorem cache_survives path m0 h m :
  temp_like path = false → crashed path (m_disk m0) (m_disk m0) →
  file_in_order (store_at path (m_disk m0)) →
  rtc (cache_step path) ([], m0) (h, m) →
  file_in_order (store_at path (m_disk m))
  ∧ (∀ h1 h2 k b, h = h1 ++ mkAttempt k b true :: h2 → k ∉ pa_key <$> h1 → key_ok k →
       file_holds (store_at path (m_disk m)) k = Some b)
  ∧ (∀ env k margin, key_ok k →
       match fst (Disk_GetValidCertificate env path k margin m) with
       | Ok b => (file_holds (store_at path (m_disk m0)) k = Some b ∨ ∃ ok, mkAttempt k b ok ∈ h)
           ∧ ∃ now, (margin < time_Until now (NotAfter b))%Z
       | Err ParsingFile => False
       | Err _ => True
       end).
Proof.
  intros Hp [Hwf Hmay Hset] Ho Hrun.
  destruct (cache_run_inv path Hp (file_holds (store_at path (m_disk m0))) _ _ Hrun) as [Hwf' Hc].
  { split; [done|]. intros o ->%Hset. by split. }
  destruct (Hc _ (may_be_now _ _ Hwf')) as [Ho' Hpos]. split_and!; [exact Ho'| |].
  - intros h1 h2 k b -> Hk Hg. by eapply possible_last, Hpos.
  - intros env k margin Hg. pose proof (get_sound env path k margin m Ho') as Hget.
    destruct (fst (Disk_GetValidCertificate env path k margin m)) as [b|e]; [|done]. destruct Hget as [Hh Hm]. split; [|done].
    apply possible_written. rewrite <- Hh. by apply Hpos.
Qed.

(** ** A machine *)

Definition hour_env : environment :=
  mkEnvironment (λ _, None) (λ n, itoa (Z.of_nat n)) (λ _, "") (λ _, Hour) 42.
Definition cache_path : string := "/var/lib/certplane/cache.json".

Definition put_machine : machine :=
  snd (Disk_PutCertificate hour_env cache_path test_cache_key (Some test_bundle) empty_machine).

Lemma empty_in_order : file_in_order (store_at cache_path (m_disk empty_machine)).
Proof. split; [done|]. apply map_Forall_empty. Qed.

Example disk_store_refines_witness :
  fst (Disk_PutCertificate hour_env cache_path test_cache_key (Some test_bundle) empty_machine) = Ok tt.
Proof.
  refine (proj2 (proj2 (proj2 (disk_store_refines hour_env cache_path test_cache_key empty_machine
    empty_disk_wf eq_refl))) test_bundle _ _ empty_in_order _).
  - reflexivity.
  - intros n. apply lookup_empty.
  - intros n. exact test_storable.
Defined.

Lemma put_is_ok :
  Disk_PutCertificate hour_env cache_path test_cache_key (Some test_bundle) empty_machine
  = (Ok tt, put_machine).
Proof.
  pose proof (put_calm hour_env cache_path test_cache_key test_bundle empty_machine
    (λ _, eq_refl) empty_disk_wf eq_refl (λ _, lookup_empty _) empty_in_order (λ _, test_storable)) as H.
  unfold put_machine. revert H. generalize (Disk_PutCertificate hour_env cache_path test_cache_key
    (Some test_bundle) empty_machine). by intros [r m] [= ->].
Qed.

Example cache_survives_witness :
  file_holds (store_at cache_path (m_disk put_machine)) test_cache_key = Some test_bundle.
Proof.
  refine (proj1 (proj2 (cache_survives cache_path empty_machine
    [mkAttempt test_cache_key test_bundle true] put_machine eq_refl _ empty_in_order _))
    [] [] test_cache_key test_bundle eq_refl (not_elem_of_nil _) (proj1 test_storable)).
  - constructor; [exact empty_disk_wf|by apply may_be_now, empty_disk_wf|].
    intros o (b & [->|Hb%elem_of_nil] & Ho); done.
  - apply rtc_once. apply (writes cache_path hour_env test_cache_key test_bundle [] empty_machine (Ok tt)).
    + intros n. exact test_storable.
    + exact put_is_ok.
Defined.
End disk_store.
