(* ===== verification/SqliteSchema.v ===== *)
(** * The SQLite store: opening and migrations

[sqlite.go] and [sqlite_migrations.go]: the schema of the database, as the SQL
text of the source, and the transaction that brings a database up to date. What
the database does with the text is an interface with laws; a small reader of
[CREATE] statements says what a text declares. *)

From Stdlib Require Import Ascii.
From S2P Require Import Prelude GoStrings GoTime Os OsLogic FileUtil.
From S2P Require Import Json AuditLog Store StoreSqlite StoreAudit.
Import os.
#[local] Open Scope go_scope.

Module schema.

(** ** What a SQL text declares *)

Definition blank (a : ascii) : bool := (code a <=? 32)%N.
Definition punctuation (a : ascii) : bool :=
  bool_decide (a ∈ ["("%char; ")"%char; ","%char; ";"%char]).

(** The words of a text; [word] is the one being read. *)
Fixpoint tokens (s word : string) : list string :=
  let ended := if word == "" then [] else [word] in
  match s with
  | EmptyString => ended
  | String a s' =>
      if blank a then ended ++ tokens s' ""
      else if punctuation a then ended ++ String a "" :: tokens s' ""
      else tokens s' (string_app word (String a ""))
  end.

(** The parts between separators outside parentheses; a closing one that was not
opened ends the text. *)
Fixpoint parts (separator : string) (depth : nat) (part : list string) (l : list string)
    : list (list string) :=
  match l with
  | [] => [part]
  | t :: l' =>
      if t == "(" then parts separator (S depth) (part ++ [t]) l'
      else if t == ")" then
        match depth with O => [part] | S depth' => parts separator depth' (part ++ [t]) l' end
      else if (t == separator) && (depth =? 0)%nat then part :: parts separator depth [] l'
      else parts separator depth (part ++ [t]) l'
  end.

Fixpoint follows (a b : string) (l : list string) : bool :=
  match l with
  | x :: l' => (x == a) && bool_decide (head l' = Some b) || follows a b l'
  | [] => false
  end.

Record column := mkColumn { col_name : string; col_not_null : bool }.

(** A table with its columns and the sets of columns that identify a row, or an
index. *)
Inductive object :=
  | Table (columns : list column) (unique : list (list string))
  | Index (table : string) (columns : list string).

#[export] Instance column_eq_dec : EqDecision column.
Proof. solve_decision. Defined.
#[export] Instance object_eq_dec : EqDecision object.
Proof. solve_decision. Defined.

Definition names (l : list string) : list string :=
  filter (λ t, t ∉ ["UNIQUE"; "("; ")"; ","]) l.

Fixpoint table_of (defs : list (list string)) : list column * list (list string) :=
  match defs with
  | [] => ([], [])
  | def :: defs' =>
      let '(columns, unique) := table_of defs' in
      match def with
      | [] => (columns, unique)
      | name :: options =>
          if name == "UNIQUE" then (columns, names options :: unique)
          else (mkColumn name (follows "NOT" "NULL" options) :: columns,
                if bool_decide ("UNIQUE" ∈ options) then [name] :: unique else unique)
      end
  end.

Definition statement (l : list string) : option (string * object) :=
  match l with
  | "CREATE" :: "TABLE" :: "IF" :: "NOT" :: "EXISTS" :: name :: "(" :: body =>
      let '(columns, unique) := table_of (parts "," 0 [] body) in Some (name, Table columns unique)
  | "CREATE" :: "INDEX" :: "IF" :: "NOT" :: "EXISTS" :: name :: "ON" :: table :: columns =>
      Some (name, Index table (names columns))
  | _ => None
  end.

(** The objects of a text, by name. *)
Definition declared (sql : string) : gmap string object :=
  list_to_map (omap statement (parts ";" 0 [] (tokens sql ""))).

(** ** sqlite_migrations.go *)

Record sqliteMigration := mkMigration { Version : Z; Name : string; SQL : string }.

Definition initial_schema : string :=
"
CREATE TABLE IF NOT EXISTS schema_migrations (
  version INTEGER PRIMARY KEY,
  name TEXT NOT NULL,
  applied_at TEXT NOT NULL
);

CREATE TABLE IF NOT EXISTS certificate_cache (
  id INTEGER PRIMARY KEY AUTOINCREMENT,

  identity TEXT NOT NULL,
  profile_name TEXT NOT NULL,
  profile_hash TEXT NOT NULL,
  public_key_sha256 TEXT NOT NULL,

  issuer_name TEXT NOT NULL,
  issuer_directory TEXT NOT NULL,
  issuer_account_key_id TEXT NOT NULL,

  cert_pem BLOB NOT NULL,
  chain_pem BLOB NOT NULL,
  fullchain_pem BLOB NOT NULL,

  serial_number TEXT NOT NULL,
  not_before TEXT NOT NULL,
  not_after TEXT NOT NULL,

  created_at TEXT NOT NULL,
  updated_at TEXT NOT NULL,

  UNIQUE (
    identity,
    profile_name,
    profile_hash,
    public_key_sha256,
    issuer_name,
    issuer_directory,
    issuer_account_key_id
  )
);

CREATE TABLE IF NOT EXISTS audit_events (
  id INTEGER PRIMARY KEY AUTOINCREMENT,

  event_id TEXT NOT NULL UNIQUE,
  request_id TEXT NOT NULL,
  timestamp TEXT NOT NULL,

  event_type TEXT NOT NULL,
  severity TEXT NOT NULL,
  decision TEXT NOT NULL,

  identity TEXT,
  profile_name TEXT,
  profile_hash TEXT,
  policy_hash TEXT,

  reason_code TEXT,
  reason TEXT,
  error TEXT,

  source_ip TEXT,
  user_agent TEXT,

  csr_sha256 TEXT,
  csr_public_key_sha256 TEXT,
  csr_dns_names_json TEXT,
  expected_dns_names_json TEXT,

  issuer_name TEXT,
  issuer_directory TEXT,
  acme_order_url TEXT,

  cert_serial_number TEXT,
  cert_not_before TEXT,
  cert_not_after TEXT,

  cache_result TEXT,
  metadata_json TEXT,

  created_at TEXT NOT NULL
);

CREATE INDEX IF NOT EXISTS idx_certificate_cache_lookup
ON certificate_cache (
  identity,
  profile_name,
  profile_hash,
  public_key_sha256,
  issuer_name,
  issuer_directory,
  issuer_account_key_id
);

CREATE INDEX IF NOT EXISTS idx_audit_events_timestamp
ON audit_events(timestamp);

CREATE INDEX IF NOT EXISTS idx_audit_events_identity
ON audit_events(identity);

CREATE INDEX IF NOT EXISTS idx_audit_events_profile
ON audit_events(profile_name);

CREATE INDEX IF NOT EXISTS idx_audit_events_decision
ON audit_events(decision);
".

Definition sqliteMigrations : list sqliteMigration :=
  [mkMigration 1 "initial_schema" initial_schema].

Definition migrationTableSQL : string :=
"
CREATE TABLE IF NOT EXISTS schema_migrations (
  version INTEGER PRIMARY KEY,
  name TEXT NOT NULL,
  applied_at TEXT NOT NULL
)".

(** ** The statements on the tables

[sqlite_cache.go] and [sqlite_audit.go]: the texts of the queries. *)
Definition columnList (columns : list string) : string := join columns ", ".

Definition getCertificateCacheSQL : string :=
  string_app "
SELECT " (string_app (columnList sqlite.certificateCacheColumns) "
FROM certificate_cache
WHERE identity = ?
  AND profile_name = ?
  AND profile_hash = ?
  AND public_key_sha256 = ?
  AND issuer_name = ?
  AND issuer_directory = ?
  AND issuer_account_key_id = ?
LIMIT 1").

Definition listCertificateCacheSQL : string :=
  string_app "
SELECT " (string_app (columnList sqlite.certificateCacheColumns) "
FROM certificate_cache
ORDER BY updated_at DESC").

Definition insertCertificateCacheSQL : string :=
"
INSERT INTO certificate_cache (
  identity,
  profile_name,
  profile_hash,
  public_key_sha256,
  issuer_name,
  issuer_directory,
  issuer_account_key_id,
  cert_pem,
  chain_pem,
  fullchain_pem,
  serial_number,
  not_before,
  not_after,
  created_at,
  updated_at
)
VALUES (?, ?, ?, ?, ?, ?, ?, ?, ?, ?, ?, ?, ?, ?, ?)
ON CONFLICT (
  identity,
  profile_name,
  profile_hash,
  public_key_sha256,
  issuer_name,
  issuer_directory,
  issuer_account_key_id
)
DO UPDATE SET
  cert_pem = excluded.cert_pem,
  chain_pem = excluded.chain_pem,
  fullchain_pem = excluded.fullchain_pem,
  serial_number = excluded.serial_number,
  not_before = excluded.not_before,
  not_after = excluded.not_after,
  updated_at = excluded.updated_at".

Definition listAuditEventsSQL : string :=
  string_app "
SELECT " (string_app (columnList sqlite_audit.auditEventColumns) "
FROM audit_events
ORDER BY timestamp DESC
LIMIT ?").

Definition insertAuditEventSQL : string :=
"
INSERT INTO audit_events (
  event_id,
  request_id,
  timestamp,
  event_type,
  severity,
  decision,
  identity,
  profile_name,
  profile_hash,
  policy_hash,
  reason_code,
  reason,
  error,
  source_ip,
  user_agent,
  csr_sha256,
  csr_public_key_sha256,
  csr_dns_names_json,
  expected_dns_names_json,
  issuer_name,
  issuer_directory,
  acme_order_url,
  cert_serial_number,
  cert_not_before,
  cert_not_after,
  cache_result,
  metadata_json,
  created_at
)
VALUES (?, ?, ?, ?, ?, ?, ?, ?, ?, ?, ?, ?, ?, ?, ?, ?, ?, ?, ?, ?, ?, ?, ?, ?, ?, ?, ?, datetime('now'))".

(** What a query says: its table and columns, what it compares, how it orders and
limits; the values it inserts, the key on which it updates, and what it copies. *)
Inductive dml :=
  | Select (table : string) (columns where_ order limit : list string)
  | Insert (table : string) (columns : list string) (values : list (list string))
      (conflict : list string) (updates : list (string * string)).

#[export] Instance dml_eq_dec : EqDecision dml.
Proof. solve_decision. Defined.

(** The words before a word and after it. *)
Fixpoint cut (word : string) (l : list string) : option (list string * list string) :=
  match l with
  | [] => None
  | t :: l' =>
      if t == word then Some ([], l')
      else '(before, after) ← cut word l'; Some (t :: before, after)
  end.
Definition clause (word : string) (l : list string) : list string * list string :=
  default (l, []) (cut word l).

Definition listed (l : list string) : list string := filter (.≠ ",") l.

(** [c = ? AND c' = ? ...]: the columns. *)
Fixpoint conditions (l : list string) : option (list string) :=
  match l with
  | [] => Some []
  | [c; "="; "?"] => Some [c]
  | c :: "=" :: "?" :: "AND" :: l' => cs ← conditions l'; Some (c :: cs)
  | _ => None
  end.

Definition assignment (l : list string) : option (string * string) :=
  match l with [c; "="; v] => Some (c, v) | _ => None end.

Definition select_of (l : list string) : option dml :=
  '(columns, l) ← cut "FROM" l;
  match l with
  | [] => None
  | table :: l =>
      let '(l, limit) := clause "LIMIT" l in
      let '(l, order) := clause "ORDER" l in
      where_ ← conditions (snd (clause "WHERE" l));
      Some (Select table (listed columns) where_ (snd (clause "BY" order)) limit)
  end.

Definition insert_of (l : list string) : option dml :=
  match l with
  | table :: "(" :: l =>
      '(columns, l) ← cut ")" l;
      '(l, update) ← Some (clause "ON" l);
      match l with
      | "VALUES" :: "(" :: values =>
          '(conflict, set) ← Some (clause "DO" update);
          updates ← mapM assignment (match set with "UPDATE" :: "SET" :: l => parts "," 0 [] l | _ => [] end);
          Some (Insert table (listed columns) (parts "," 0 [] values)
                  (match conflict with "CONFLICT" :: l => names l | _ => [] end) updates)
      | _ => None
      end
  | _ => None
  end.

Definition read_dml (sql : string) : option dml :=
  match tokens sql "" with
  | "SELECT" :: l => select_of l
  | "INSERT" :: "INTO" :: l => insert_of l
  | _ => None
  end.

(** What the database answers to the [n]-th operation of a run; the transaction is
a copy of the database until it is committed. *)
Class Database (D : Type) := {
  db_Begin : nat → D → option string;
  db_ExecScript : nat → string → D → result string D;
  db_InsertMigration : nat → Z → string → D → result string D;
  db_CountMigration : nat → Z → D → result string Z;
  db_Commit : nat → D → D → option string * D }.

Inductive migrate_error :=
  | StartingTransaction (e : string)
  | EnsuringTable (e : string)
  | CheckingMigration (version : Z) (e : string)
  | ApplyingMigration (version : Z) (name e : string)
  | RecordingMigration (version : Z) (name e : string)
  | Committing (e : string).

Section Migrate.
Context {D : Type} `{DB : Database D}.

(** Operations on the transaction, in order. *)
Definition TM (T : Type) : Type := D * nat → result migrate_error T * (D * nat).
#[local] Instance TM_ret : MRet TM := λ T x s, (Ok x, s).
#[local] Instance TM_bind : MBind TM := λ T U f c s,
  let '(r, s1) := c s in
  match r with Ok x => f x s1 | Err e => (Err e, s1) end.

(** A statement that changes the transaction, and a query. *)
Definition exec (wrap : string → migrate_error) (f : nat → D → result string D) : TM unit :=
  λ '(d, n), match f n d with
             | Ok d' => (Ok tt, (d', S n))
             | Err e => (Err (wrap e), (d, S n))
             end.
Definition query {T} (wrap : string → migrate_error) (f : nat → D → result string T) : TM T :=
  λ '(d, n), (wrap_err wrap (f n d), (d, S n)).

Definition ensureMigrationTable : TM unit :=
  exec EnsuringTable (λ n, db_ExecScript n migrationTableSQL).

Definition migrationAlreadyApplied (version : Z) : TM bool :=
  count ← query (CheckingMigration version) (λ n, db_CountMigration n version);
  mret (0 <? count)%Z.

Fixpoint apply_migrations (l : list sqliteMigration) : TM unit :=
  match l with
  | [] => mret tt
  | migration :: l' =>
      applied ← migrationAlreadyApplied (Version migration);
      if (applied : bool) then apply_migrations l'
      else
        _ ← exec (ApplyingMigration (Version migration) (Name migration))
              (λ n, db_ExecScript n (SQL migration));
        _ ← exec (RecordingMigration (Version migration) (Name migration))
              (λ n, db_InsertMigration n (Version migration) (Name migration));
        apply_migrations l'
  end.

(** What is not committed is rolled back by the deferred call: the database stays
as it was. *)
Definition migrate (n : nat) (d : D) : result migrate_error unit * D :=
  match db_Begin n d with
  | Some e => (Err (StartingTransaction e), d)
  | None =>
      let '(r, (tx, n1)) := (_ ← ensureMigrationTable; apply_migrations sqliteMigrations) (d, S n) in
      match r with
      | Err e => (Err e, d)
      | Ok _ =>
          match db_Commit n1 d tx with
          | (Some e, d') => (Err (Committing e), d')
          | (None, d') => (Ok tt, d')
          end
      end
  end.

(** ** sqlite.go *)

Inductive open_error :=
  | PathRequired
  | CreatingDirectory (path : string) (e : errno)
  | OpeningDatabase (path e : string)
  | Migrating (e : migrate_error).

(** The database at the path, and the files of the machine. [db_Open] is the error
of [sql.Open]. *)
Definition NewSQLiteStore (env : environment) (db_Open : string → option string) (path : string)
    (d : D) (m : machine) : result open_error unit * D * machine :=
  if path == "" then (Err PathRequired, d, m)
  else
    let path := Clean path in
    match MkdirAll env (Dir path) m with
    | (Err e, m1) => (Err (CreatingDirectory path e), d, m1)
    | (Ok _, m1) =>
        match db_Open path with
        | Some e => (Err (OpeningDatabase path e), d, m1)
        | None =>
            let '(r, d1) := migrate (m_draws m1) d in (wrap_err Migrating r, d1, m1)
        end
    end.
End Migrate.

(** ** Laws *)

(** The texts the program executes as scripts. *)
Definition scripts : list string := migrationTableSQL :: (SQL <$> sqliteMigrations).

(** A database has objects by name and a list of recorded versions. A script adds
the objects it declares that do not exist; an insertion records a version that
was not; a count counts; a commit that fails may have happened. *)
Class DatabaseLaws (D : Type) `{Database D} := {
  objects : D → gmap string object;
  versions : D → list Z;
  exec_script n sql d d' : sql ∈ scripts → db_ExecScript n sql d = Ok d' →
    objects d' = objects d ∪ declared sql ∧ versions d' = versions d;
  insert_migration n v name d d' : db_InsertMigration n v name d = Ok d' →
    objects d' = objects d ∧ versions d' = versions d ++ [v];
  count_migration n v d c : db_CountMigration n v d = Ok c →
    c = Z.of_nat (length (filter (λ w, w = v) (versions d)));
  commit n d tx d' : db_Commit n d tx = (None, d') → d' = tx;
  commit_fails n d tx e d' : db_Commit n d tx = (Some e, d') → d' = d ∨ d' = tx }.

#[local] Opaque declared initial_schema.

Section Laws.
Context {D : Type} `{DL : DatabaseLaws D}.

(** The migrations a database has not recorded. *)
Definition pending (d : D) (l : list sqliteMigration) : list sqliteMigration :=
  filter (λ g, Version g ∉ versions d) l.

(** [d'] is [d] with the migrations of the list it lacked. *)
Definition applied_to (l : list sqliteMigration) (d d' : D) : Prop :=
  versions d' = versions d ++ (Version <$> pending d l)
  ∧ objects d' = foldl (λ o g, o ∪ declared (SQL g)) (objects d) (pending d l).

Definition migrated (d d' : D) : Prop :=
  ∃ tx, versions tx = versions d ∧ objects tx = objects d ∪ declared migrationTableSQL
    ∧ applied_to sqliteMigrations tx d'.

Lemma exec_Ok wrap f d n d' n' :
  exec (D:=D) wrap f (d, n) = (Ok tt, (d', n')) → f n d = Ok d'.
Proof using. unfold exec. destruct (f n d); [|done]. by intros [= <- _]. Qed.

Lemma count_positive (l : list Z) v :
  (0 <? Z.of_nat (length (filter (λ w, w = v) l)))%Z = bool_decide (v ∈ l).
Proof using.
  apply eq_bool_prop_intro. rewrite bool_decide_spec, Is_true_true, Z.ltb_lt. split.
  - destruct (filter (λ w, w = v) l) as [|w l'] eqn:E; simpl; [lia|]. intros _.
    assert (Hw : w ∈ filter (λ w, w = v) l) by (rewrite E; left).
    apply list_elem_of_filter in Hw as [-> ?]. done.
  - intros Hv. assert (Hf : v ∈ filter (λ w, w = v) l) by (by apply list_elem_of_filter).
    destruct (filter (λ w, w = v) l); [by apply not_elem_of_nil in Hf|]. simpl. lia.
Qed.

Lemma applied_Ok version d n b d' n' :
  migrationAlreadyApplied version (d, n) = (Ok b, (d', n')) →
  d' = d ∧ b = bool_decide (version ∈ versions d).
Proof using DL.
  unfold migrationAlreadyApplied, mbind, TM_bind, query, mret, TM_ret.
  destruct (db_CountMigration n version d) as [c|] eqn:E; simpl; [|done].
  intros [= <- <- _]. apply count_migration in E as ->. by rewrite count_positive.
Qed.

(** A computation on the transaction that succeeds, step by step. *)
Lemma TM_bind_Ok {T U} (c : TM (D:=D) T) (f : T → TM U) s x s' :
  TM_bind T U f c s = (Ok x, s') → ∃ y s1, c s = (Ok y, s1) ∧ f y s1 = (Ok x, s').
Proof using. unfold TM_bind. destruct (c s) as [[y|e] s1]; [|done]. eauto. Qed.

Lemma pending_recorded d d' v l :
  versions d' = versions d ++ [v] → v ∉ (Version <$> l) → pending d' l = pending d l.
Proof using.
  intros Hv. unfold pending. rewrite Hv. clear Hv. induction l as [|g l IH]; [done|].
  intros [Hg Hl]%not_elem_of_cons. rewrite !filter_cons, (IH Hl).
  apply decide_ext. rewrite elem_of_app, list_elem_of_singleton. naive_solver.
Qed.

Lemma apply_migrations_Ok l d n d' n' :
  (∀ g, g ∈ l → SQL g ∈ scripts) → NoDup (Version <$> l) →
  apply_migrations l (d, n) = (Ok tt, (d', n')) → applied_to l d d'.
Proof using DL.
  revert d n. induction l as [|g l IH]; intros d n Hs Hd.
  { intros [= <- _]. split; [by rewrite app_nil_r|done]. }
  assert (Hs' : ∀ g, g ∈ l → SQL g ∈ scripts) by (intros; apply Hs; by right).
  apply NoDup_cons in Hd as [Hg Hd]. cbn [apply_migrations].
  intros (b & [d1 n1] & Ha & Hrun)%TM_bind_Ok. apply applied_Ok in Ha as [-> ->].
  unfold applied_to, pending. rewrite filter_cons. case_bool_decide as Hv.
  - rewrite decide_False by (by intros ?). by eapply IH.
  - rewrite decide_True by done.
    apply TM_bind_Ok in Hrun as ([] & [d2 n2] & He & Hrun).
    apply TM_bind_Ok in Hrun as ([] & [d3 n3] & Hi & Hrun).
    apply exec_Ok, exec_script in He as [Ho2 Hv2]; [|apply Hs; left].
    apply exec_Ok, insert_migration in Hi as [Ho3 Hv3].
    destruct (IH _ _ Hs' Hd Hrun) as [Hv4 Ho4].
    assert (Hp : pending d3 l = pending d l).
    { eapply pending_recorded; [by rewrite Hv3, Hv2|done]. }
    cbn [fmap list_fmap foldl]. rewrite Hv4, Ho4, Hp, Hv3, Hv2, Ho3, Ho2. split; [|done].
    by rewrite <- app_assoc.
Qed.

Lemma migrations_good :
  (∀ g, g ∈ sqliteMigrations → SQL g ∈ scripts) ∧ NoDup (Version <$> sqliteMigrations).
Proof using.
  split; [|by repeat constructor; intros ?%not_elem_of_nil].
  intros g Hg. right. apply list_elem_of_fmap. by exists g.
Qed.

(** What a run leaves, on every branch. *)
Lemma migrate_outcome n d :
  match migrate n d with
  | (Ok _, d') => migrated d d'
  | (Err e, d') => d' = d ∨ (∃ x, e = Committing x) ∧ migrated d d'
  end.
Proof using DL.
  unfold migrate. destruct (db_Begin n d); [by left|].
  destruct (mbind (M:=TM) _ _ (d, S n)) as [r [tx n1]] eqn:E. destruct r as [[]|e]; [|by left].
  assert (Hm : migrated d tx).
  { apply TM_bind_Ok in E as ([] & [d1 n2] & He & Ha).
    unfold ensureMigrationTable in He. apply exec_Ok, exec_script in He as [Ho Hv]; [|left].
    destruct migrations_good as [Hs Hn]. exists d1. split_and!; [done..|].
    by eapply apply_migrations_Ok. }
  destruct (db_Commit n1 d tx) as [[e|] d'] eqn:Ec.
  - apply commit_fails in Ec as [->| ->]; [by left|by eauto].
  - by apply commit in Ec as ->.
Qed.

(** ** Schemas *)

(** A recorded migration was applied, and nothing else has the names of the
objects the program declares. A database without objects and versions is
consistent. *)
Definition consistent (d : D) : Prop :=
  (∀ g, g ∈ sqliteMigrations → Version g ∈ versions d → declared (SQL g) ⊆ objects d)
  ∧ ∀ sql name o o', sql ∈ scripts → declared sql !! name = Some o →
      objects d !! name = Some o' → o' = o.

(** Everything is there, and recorded. *)
Definition ready (d : D) : Prop :=
  ∀ g, g ∈ sqliteMigrations → Version g ∈ versions d ∧ declared (SQL g) ⊆ objects d.

(** The texts of the program never declare the same name differently. *)
Definition compatible (m1 m2 : gmap string object) : bool :=
  forallb (λ p, match m2 !! fst p with Some o => bool_decide (o = snd p) | None => true end)
    (map_to_list m1).

Lemma compatible_spec m1 m2 name o o' :
  compatible m1 m2 = true → m1 !! name = Some o → m2 !! name = Some o' → o' = o.
Proof using.
  unfold compatible. rewrite forallb_forall. intros Hall H1 H2.
  specialize (Hall (name, o)). simpl in Hall. rewrite H2 in Hall.
  eapply bool_decide_eq_true_1, Hall, list_elem_of_In, elem_of_map_to_list, H1.
Qed.

Lemma scripts_compatible sql sql' name o o' :
  sql ∈ scripts → sql' ∈ scripts → declared sql !! name = Some o →
  declared sql' !! name = Some o' → o' = o.
Proof using.
  intros H1 H2. apply compatible_spec.
  assert (Hall : forallb (λ a, forallb (λ b, compatible (declared a) (declared b)) scripts) scripts = true)
    by (vm_compute; reflexivity).
  rewrite forallb_forall in Hall. specialize (Hall sql). rewrite forallb_forall in Hall.
  by apply Hall; apply list_elem_of_In.
Qed.

(** Adding a script keeps consistency, and its objects are then there. *)
Lemma add_script (m : gmap string object) sql :
  sql ∈ scripts →
  (∀ name o o', declared sql !! name = Some o → m !! name = Some o' → o' = o) →
  declared sql ⊆ m ∪ declared sql.
Proof using.
  intros Hs Hm. apply map_subseteq_spec. intros name o Ho. apply lookup_union_Some_raw.
  destruct (m !! name) as [o'|] eqn:E; [left|by right]. f_equal. by eapply Hm.
Qed.

Lemma union_agrees (m : gmap string object) sql :
  sql ∈ scripts →
  (∀ sql name o o', sql ∈ scripts → declared sql !! name = Some o → m !! name = Some o' → o' = o) →
  ∀ sql' name o o', sql' ∈ scripts → declared sql' !! name = Some o →
    (m ∪ declared sql) !! name = Some o' → o' = o.
Proof using.
  intros Hs Hm sql' name o o' Hs' Ho [Ho'|[_ Ho']]%lookup_union_Some_raw.
  - by eapply Hm.
  - by eapply (scripts_compatible sql' sql).
Qed.

Lemma pending_initial d :
  pending d sqliteMigrations
  = if decide (1%Z ∈ versions d) then [] else [mkMigration 1 "initial_schema" initial_schema].
Proof using.
  unfold pending, sqliteMigrations. rewrite filter_cons, filter_nil. cbn [Version].
  by repeat case_decide.
Qed.

Lemma migrated_consistent d d' : consistent d → migrated d d' → consistent d' ∧ ready d'.
Proof using.
  intros [Hc Ha] (tx & Hv & Ho & Hv' & Ho').
  assert (Ha' : ∀ sql name o o', sql ∈ scripts → declared sql !! name = Some o →
    objects tx !! name = Some o' → o' = o).
  { rewrite Ho. apply union_agrees; [left|done]. }
  assert (Hi : initial_schema ∈ scripts) by (right; left).
  rewrite pending_initial, Hv in Hv', Ho'. destruct (decide (1%Z ∈ versions d)) as [Hin|Hn].
  - assert (Hr : ready d').
    { intros g ->%list_elem_of_singleton. cbn [Version SQL]. rewrite Hv', Ho', Ho. cbn [foldl fmap list_fmap].
      rewrite app_nil_r. split; [done|]. etrans; [|apply map_union_subseteq_l].
      by apply (Hc (mkMigration 1 "initial_schema" initial_schema)); [left|]. }
    split; [split|done]; [by intros g Hg _; apply Hr|]. by rewrite Ho'.
  - assert (Hr : ready d').
    { intros g ->%list_elem_of_singleton. cbn [Version SQL]. rewrite Hv', Ho'. cbn [foldl fmap list_fmap SQL Version].
      split; [apply elem_of_app; right; left|]. apply add_script; [exact Hi|].
      intros name o o'. by apply Ha'. }
    split; [split|done]; [by intros g Hg _; apply Hr|]. rewrite Ho'. by apply union_agrees.
Qed.

Lemma union_absorb (m1 m2 : gmap string object) : m2 ⊆ m1 → m1 ∪ m2 = m1.
Proof using.
  intros Hs. apply map_eq. intros k. apply option_eq. intros o.
  rewrite lookup_union_Some_raw. split; [|by left]. intros [?|[Hn Ho]]; [done|].
  pose proof (lookup_weaken _ _ _ _ Ho Hs). congruence.
Qed.

(** A boolean form of inclusion. *)
Definition included (m1 m2 : gmap string object) : bool :=
  forallb (λ p, bool_decide (m2 !! fst p = Some (snd p))) (map_to_list m1).

Lemma included_spec m1 m2 : included m1 m2 = true → m1 ⊆ m2.
Proof using.
  unfold included. rewrite forallb_forall. intros Hall. apply map_subseteq_spec. intros k o Ho.
  eapply (bool_decide_eq_true_1 _ (Hall (k, o) _)).
  Unshelve. by apply list_elem_of_In, elem_of_map_to_list.
Qed.

Lemma migration_table_in_schema : declared migrationTableSQL ⊆ declared initial_schema.
Proof using. apply included_spec. vm_compute. reflexivity. Qed.

(** A database that is ready stays as it is. *)
Lemma migrated_ready d d' :
  ready d → migrated d d' →
  versions d' = versions d ∧ objects d' = objects d.
Proof using.
  intros Hr (tx & Hv & Ho & Hv' & Ho').
  destruct (Hr (mkMigration 1 "initial_schema" initial_schema)) as [Hin Hsub]; [left|].
  assert (Hp : pending tx sqliteMigrations = []).
  { by rewrite pending_initial, Hv, decide_True. }
  rewrite Hp in Hv', Ho'. cbn [foldl fmap list_fmap] in Hv', Ho'.
  rewrite app_nil_r in Hv'. split; [exact (eq_trans Hv' Hv)|].
  rewrite Ho', Ho. apply union_absorb. etrans; [apply migration_table_in_schema | exact Hsub].
Qed.
End Laws.

(** ** Properties *)

(** C33: Opening the SQLite store brings its database up to date in one step: when it
succeeds, every object of the schema exists as the program declares it and every
migration is recorded; when it fails, wherever that is, the database is as it
was, or up to date if it was the commit that reported the error. Opening a
database that is up to date changes nothing in it. A database that is new, or
that the program left, stays one the program can open. *)
Theorem NewSQLiteStore_correct {D} `{DatabaseLaws D} env open path (d : D) m :
  consistent d →
  let '(r, d', m') := NewSQLiteStore env open path d m in
  m_disk m' = m_disk m ∧ consistent d'
  ∧ (r = Ok tt → ready d' ∧ migrated d d')
  ∧ (∀ e, r = Err e → d' = d ∨ ready d' ∧ migrated d d')
  ∧ (ready d → versions d' = versions d ∧ objects d' = objects d).
Proof.
  intros Hc. unfold NewSQLiteStore.
  destruct (path == ""); [by split_and!; auto|].
  destruct (MkdirAll env (Dir (Clean path)) m) as [r1 m1] eqn:Em.
  assert (Hm : m_disk m1 = m_disk m).
  { revert Em. unfold MkdirAll, syscall, mbind, EM_bind, draw. simpl.
    by destruct (env_fault env (m_draws m)) as [[? ?]|]; intros [= _ <-]. }
  destruct r1 as [[]|e]; [|by split_and!; auto].
  destruct (open (Clean path)); [by split_and!; auto|].
  pose proof (migrate_outcome (m_draws m1) d) as Ho.
  destruct (migrate (m_draws m1) d) as [r d'].
  assert (Hd : d' = d ∧ is_ok r = false ∨ migrated d d').
  { destruct r as [[]|e]; [by right|]. destruct Ho as [->|[_ ?]]; [by left|by right]. }
  destruct Hd as [[-> Hr]|Hmig].
  { split_and!; [done..| |auto|done]. by destruct r as [[]|]. }
  destruct (migrated_consistent d d' Hc Hmig). split_and!; auto.
  intros Hready. by apply migrated_ready.
Qed.

(** The columns a statement names are declared, and the ones that must have a value
are among those it inserts. *)
Definition table_supports (o : option object) (selected inserted : list string) : Prop :=
  ∃ columns unique, o = Some (Table columns unique)
    ∧ NoDup (col_name <$> columns)
    ∧ selected ⊆ col_name <$> columns ∧ inserted ⊆ col_name <$> columns
    ∧ ∀ c, c ∈ columns → col_not_null c = true → col_name c ∈ inserted.

(** The columns of the row that must have a value have one. *)
Definition row_accepted (o : option object) (row : gmap string sqlite.sqlval) : Prop :=
  ∃ columns unique, o = Some (Table columns unique)
    ∧ ∀ c, c ∈ columns → col_not_null c = true →
        ∃ v, row !! col_name c = Some v ∧ v ≠ sqlite.SNull.

Definition cache_table : option object := declared initial_schema !! "certificate_cache".
Definition audit_table : option object := declared initial_schema !! "audit_events".

Lemma ready_table {D} `{DatabaseLaws D} (d : D) name o :
  ready d → declared initial_schema !! name = Some o → objects d !! name = Some o.
Proof.
  intros Hr Ho. destruct (Hr (mkMigration 1 "initial_schema" initial_schema)) as [_ Hs]; [left|].
  by eapply lookup_weaken.
Qed.

Definition required (columns : list column) : list string :=
  col_name <$> filter (λ c, col_not_null c = true) columns.

Lemma elem_of_required columns c : c ∈ columns → col_not_null c = true → col_name c ∈ required columns.
Proof.
  intros Hc Hn. apply list_elem_of_fmap. exists c. split; [done|]. by apply list_elem_of_filter.
Qed.

Definition supports (o : option object) (selected inserted : list string) : bool :=
  match o with
  | Some (Table columns _) =>
      bool_decide (NoDup (col_name <$> columns))
      && forallb (λ c, bool_decide (c ∈ col_name <$> columns)) (selected ++ inserted)
      && forallb (λ c, bool_decide (c ∈ inserted)) (required columns)
  | _ => false
  end.

Lemma forallb_elem_of (l1 l2 : list string) :
  forallb (λ c, bool_decide (c ∈ l2)) l1 = true → l1 ⊆ l2.
Proof.
  rewrite forallb_forall. intros Hall c Hc.
  exact (bool_decide_eq_true_1 _ (Hall c (proj1 (list_elem_of_In _ _) Hc))).
Qed.

Lemma supports_spec o selected inserted :
  supports o selected inserted = true → table_supports o selected inserted.
Proof.
  unfold supports. destruct o as [[columns unique|]|]; [|done..]. intros Hs.
  apply andb_true_iff in Hs as [[Hn%bool_decide_eq_true_1 Hi%forallb_elem_of]%andb_true_iff Hr%forallb_elem_of].
  exists columns, unique. split_and!; [done|done|set_solver|set_solver|].
  intros c Hc Hnull. by apply Hr, elem_of_required.
Qed.

(** A row is accepted when it has the required columns, none of them null. *)
Lemma accepted o columns unique cols args :
  o = Some (Table columns unique) → NoDup cols → length args = length cols →
  required columns ⊆ cols →
  Forall (λ p, snd p = sqlite.SNull → fst p ∉ required columns) (zip cols args) →
  row_accepted o (sqlite.insert_row cols args).
Proof.
  intros -> Hn Hl Hr Hall. exists columns, unique. split; [done|]. intros c Hc Hnull.
  assert (Hreq : col_name c ∈ required columns) by (by apply elem_of_required).
  assert (Hz : col_name c ∈ (zip cols args).*1) by (rewrite fst_zip by lia; by apply Hr).
  apply list_elem_of_fmap in Hz as ([k v] & Hk & Hin). simpl in Hk. subst k.
  exists v. split.
  - apply elem_of_list_to_map_1; [by rewrite fst_zip by lia|done].
  - rewrite Forall_forall in Hall. intros ->. by apply (Hall _ Hin).
Qed.

Definition cache_columns : list column :=
  match cache_table with Some (Table columns _) => columns | _ => [] end.
Definition audit_columns : list column :=
  match audit_table with Some (Table columns _) => columns | _ => [] end.

Lemma cache_row_accepted now k b :
  row_accepted cache_table
    (sqlite.insert_row sqlite.insertCertificateCacheSQL_columns (sqlite.put_args now k b)).
Proof.
  eapply (accepted _ cache_columns); [vm_compute; reflexivity| | | |].
  - apply (bool_decide_eq_true_1 _). vm_compute. reflexivity.
  - by destruct k.
  - apply forallb_elem_of. vm_compute. reflexivity.
  - destruct k. repeat (apply Forall_cons; split; [by intros [=]|]). apply Forall_nil_2.
Qed.

Lemma event_row_accepted datetime e :
  row_accepted audit_table (sqlite_audit.event_row datetime e).
Proof.
  assert (Hother : ∀ c v, bool_decide (c ∉ required audit_columns) = true →
    v = sqlite.SNull → c ∉ required audit_columns) by (intros c v Hc _; by apply bool_decide_eq_true_1 in Hc).
  eapply (accepted _ audit_columns); [vm_compute; reflexivity| | | |].
  - apply (bool_decide_eq_true_1 _). vm_compute. reflexivity.
  - done.
  - apply forallb_elem_of. vm_compute. reflexivity.
  - repeat (apply Forall_cons; split; [first [by intros [=] | apply Hother; vm_compute; reflexivity]|]).
    apply Forall_nil_2.
Qed.

(** The texts say what the operations of the two tables do: the columns by
position, one argument for each [?], the key and the order. *)
Record texts_say : Prop := {
  ts_get : read_dml getCertificateCacheSQL
    = Some (Select "certificate_cache" sqlite.certificateCacheColumns
              sqlite.getCertificateCacheSQL_where [] ["1"]);
  ts_list : read_dml listCertificateCacheSQL
    = Some (Select "certificate_cache" sqlite.certificateCacheColumns [] ["updated_at"; "DESC"] []);
  ts_put : ∀ now k b, read_dml insertCertificateCacheSQL
    = Some (Insert "certificate_cache" sqlite.insertCertificateCacheSQL_columns
              (replicate (length (sqlite.put_args now k b)) ["?"])
              sqlite.insertCertificateCacheSQL_conflict
              ((λ c, (c, string_app "excluded." c)) <$> sqlite.insertCertificateCacheSQL_update));
  ts_events : read_dml listAuditEventsSQL
    = Some (Select "audit_events" sqlite_audit.auditEventColumns [] ["timestamp"; "DESC"] ["?"]);
  ts_record : ∀ e, read_dml insertAuditEventSQL
    = Some (Insert "audit_events" sqlite_audit.insertAuditEventSQL_columns
              (replicate (length (sqlite_audit.event_args e)) ["?"] ++ [["datetime"; "("; "'now'"; ")"]])
              [] []) }.

Lemma texts_are_read : texts_say.
Proof. constructor; try (intros now [] b); try intros e; vm_compute; reflexivity. Qed.

(** C34: The statements of the store fit the schema. In a database that is up to
date, every column the two [SELECT]s and the two [INSERT]s name is declared by
their table, the columns that must have a value are all inserted, the target of
the [ON CONFLICT] clause is a declared key, which SQLite requires, and the table
of events has the identifier of an event as a key. Every row
[PutCertificate] or [Record] writes has a value in each of the columns that must
have one. The lists of columns, the key, the order and the number of arguments
are those of the texts. *)
Theorem schema_supports_statements {D} `{DatabaseLaws D} (d : D) :
  ready d →
  let cache := objects d !! "certificate_cache" in
  let events := objects d !! "audit_events" in
  table_supports cache sqlite.certificateCacheColumns sqlite.insertCertificateCacheSQL_columns
  ∧ table_supports events sqlite_audit.auditEventColumns sqlite_audit.insertAuditEventSQL_columns
  ∧ (∃ columns unique, cache = Some (Table columns unique)
       ∧ sqlite.insertCertificateCacheSQL_conflict ∈ unique)
  ∧ (∃ columns, events = Some (Table columns [["event_id"]]))
  ∧ (∀ now k b, row_accepted cache
       (sqlite.insert_row sqlite.insertCertificateCacheSQL_columns (sqlite.put_args now k b)))
  ∧ (∀ datetime e, row_accepted events (sqlite_audit.event_row datetime e))
  ∧ texts_say.
Proof.
  intros Hr cache events.
  assert (Hc : ∃ columns unique, cache_table = Some (Table columns unique)) by (vm_compute; eauto).
  assert (He : ∃ columns unique, audit_table = Some (Table columns unique)) by (vm_compute; eauto).
  assert (Ec : cache = cache_table).
  { destruct Hc as (c & u & Hc). rewrite Hc. by apply (ready_table d _ _ Hr). }
  assert (Ee : events = audit_table).
  { destruct He as (c & u & He). rewrite He. by apply (ready_table d _ _ Hr). }
  rewrite Ec, Ee. clear cache events Ec Ee Hc He. split_and!.
  - apply supports_spec. vm_compute. reflexivity.
  - apply supports_spec. vm_compute. reflexivity.
  - vm_compute. eexists _, _. split; [reflexivity|]. left.
  - vm_compute. by eexists.
  - apply cache_row_accepted.
  - apply event_row_accepted.
  - apply texts_are_read.
Qed.

(** ** A database *)

Definition test_db : Type := gmap string object * list Z.

#[export] Instance test_db_ops : Database test_db := {|
  db_Begin _ _ := None;
  db_ExecScript _ sql d := Ok (fst d ∪ declared sql, snd d);
  db_InsertMigration _ v _ d := Ok (fst d, snd d ++ [v]);
  db_CountMigration _ v d := Ok (Z.of_nat (length (filter (λ w, w = v) (snd d))));
  db_Commit _ _ tx := (None, tx) |}.

#[export] Program Instance test_db_laws : DatabaseLaws test_db := {|
  objects := fst; versions := snd |}.
Next Obligation. intros n sql d d' _ [= <-]. done. Qed.
Next Obligation. intros n v name d d' [= <-]. done. Qed.
Next Obligation. intros n v d c [= <-]. done. Qed.
Next Obligation. intros n d tx d' [= <-]. done. Qed.
Next Obligation. intros n d tx e d' [=]. Qed.

Definition new_db : test_db := (∅, []).

Lemma new_db_consistent : consistent new_db.
Proof.
  split; [by intros g _ ?%not_elem_of_nil|].
  intros sql name o o' _ _ Hn. simpl in Hn. by rewrite lookup_empty in Hn.
Qed.

Lemma NewSQLiteStore_correct_witness :
  let '(r, d', _) := NewSQLiteStore fileutil.test_env (λ _, None) "/var/lib/certplane/broker.db"
    new_db fileutil.empty_machine in
  r = Ok tt ∧ ready d'.
Proof.
  pose proof (NewSQLiteStore_correct fileutil.test_env (λ _, None) "/var/lib/certplane/broker.db"
    new_db fileutil.empty_machine new_db_consistent) as Hw.
  assert (Hr : fst (fst (NewSQLiteStore fileutil.test_env (λ _, None) "/var/lib/certplane/broker.db"
    new_db fileutil.empty_machine)) = Ok tt) by (vm_compute; reflexivity).
  destruct (NewSQLiteStore _ _ _ _ _) as [[r d'] m']. simpl in Hr. subst r.
  destruct Hw as (_ & _ & Hok & _). split; [reflexivity|]. by apply Hok.
Defined.

Lemma schema_supports_statements_witness :
  row_accepted (objects (declared initial_schema, [1%Z]) !! "audit_events")
    (sqlite_audit.event_row "now" (sqlite_audit.event_at 0)).
Proof.
  refine (proj1 (proj2 (proj2 (proj2 (proj2 (proj2 (schema_supports_statements
    ((declared initial_schema, [1%Z]) : test_db) _)))))) _ _).
  intros g ->%list_elem_of_singleton. split; [left|reflexivity].
Defined.
End schema.
