(* ===== verification/Authn.v ===== *)
(** * Client authentication ([internal/broker/authn])

[IdentityFromRequest] and [ValidateClientCertificate]. Verification of the
certificate chain against the agents' authority is the TLS stack's, before a
request exists. *)

From S2P Require Import Prelude GoStrings X509.
Import x509.
#[local] Open Scope go_scope.

Module authn.

Inductive authn_error :=
  | NoClientCertificate
  | NilCertificate
  | IsCACertificate
  | OutsideValidity
  | NoExtendedKeyUsage
  | MissingClientAuth
  | EmptyCommonName.

(** The loop over the extended key usages. *)
Fixpoint has_client_auth (ekus : list ExtKeyUsage) : bool :=
  match ekus with
  | [] => false
  | eku :: rest => if eku == ExtKeyUsageClientAuth then true else has_client_auth rest
  end.

(** Pointers may be nil; [now] is the reading of the clock. *)
Definition ValidateClientCertificate (now : Z) (cert : option Certificate)
    : result authn_error unit :=
  match cert with
  | None => Err NilCertificate
  | Some cert =>
      if cert_IsCA cert then Err IsCACertificate
      else if (now <? cert_NotBefore cert)%Z || (cert_NotAfter cert <? now)%Z
      then Err OutsideValidity
      else if (length (cert_ExtKeyUsage cert) =? 0)%nat then Err NoExtendedKeyUsage
      else if has_client_auth (cert_ExtKeyUsage cert) then Ok tt
      else Err MissingClientAuth
  end.

(** [tls] is [r.TLS.PeerCertificates], [None] when [r.TLS] is nil. *)
Definition IdentityFromRequest (now : Z) (tls : option (list (option Certificate)))
    : result authn_error string :=
  match tls with
  | None | Some [] => Err NoClientCertificate
  | Some (cert :: _) =>
      _ ← ValidateClientCertificate now cert;
      match cert with
      | None => Err NilCertificate
      | Some cert =>
          if cert_CommonName cert == "" then Err EmptyCommonName else Ok (cert_CommonName cert)
      end
  end.

Lemma has_client_auth_spec ekus : has_client_auth ekus = true ↔ ExtKeyUsageClientAuth ∈ ekus.
Proof.
  induction ekus as [|e l IH]; simpl; [set_solver|]. rewrite elem_of_cons.
  case_bool_decide; naive_solver.
Qed.

(** A client certificate the broker accepts as proof of [identity]. *)
Record client_certificate (now : Z) (cert : Certificate) (identity : string) : Prop := {
  cc_leaf : cert_IsCA cert = false;
  cc_valid : (cert_NotBefore cert ≤ now ≤ cert_NotAfter cert)%Z;
  cc_usage : ExtKeyUsageClientAuth ∈ cert_ExtKeyUsage cert;
  cc_name : cert_CommonName cert = identity;
  cc_named : identity ≠ "" }.

Lemma IdentityFromRequest_Ok now tls identity :
  IdentityFromRequest now tls = Ok identity ↔
  ∃ cert rest, tls = Some (Some cert :: rest) ∧ client_certificate now cert identity.
Proof.
  unfold IdentityFromRequest. destruct tls as [[|cert rest]|]; [naive_solver| |naive_solver].
  rewrite bind_Ok. unfold ValidateClientCertificate. destruct cert as [cert|].
  2: { split; [by intros (? & ? & ?) | naive_solver]. }
  pose proof (has_client_auth_spec (cert_ExtKeyUsage cert)) as Hu. split.
  - intros ([] & Hv & Hn). case_bool_decide; [done|]. injection Hn as <-.
    exists cert, rest. split; [done|].
    destruct (cert_IsCA cert) eqn:Eca; [done|].
    destruct (Z.ltb_spec now (cert_NotBefore cert)); [done|].
    destruct (Z.ltb_spec (cert_NotAfter cert) now); [done|]. simpl in Hv.
    destruct (length _ =? 0)%nat; [done|]. destruct (has_client_auth _); [|done].
    constructor; naive_solver lia.
  - intros (cert' & rest' & [= <- <-] & [-> Hv Hclient <- Hname]). exists tt.
    destruct (Z.ltb_spec now (cert_NotBefore cert)); [lia|].
    destruct (Z.ltb_spec (cert_NotAfter cert) now); [lia|]. simpl.
    rewrite bool_decide_false by done. rewrite (proj2 Hu Hclient).
    destruct (cert_ExtKeyUsage cert); [by apply elem_of_nil in Hclient | done].
Qed.

(** ** Properties *)

(** A request has an identity exactly when its first client certificate is
there, is not an authority's, is in its validity window, has the client
authentication usage and a common name that is not empty, which is the
identity. *)
Theorem IdentityFromRequest_correct now tls identity :
  IdentityFromRequest now tls = Ok identity ↔
  ∃ cert rest, tls = Some (Some cert :: rest) ∧ client_certificate now cert identity.
Proof. apply IdentityFromRequest_Ok. Qed.
End authn.
