(* ===== verification/Broker.v ===== *)
(** * The broker's certificate endpoint ([internal/broker])

[issue.go], [issue_audit.go], [issue_types.go], [http.go], [responses.go] and
[server.go]. A handler is a function of the state of the server ([world]); the
recorder, the store and the issuer are the interfaces [RecorderOps],
[CertificateStore] and [Issuer]. The clock, the random identifiers and the
failures of the system are streams read in order. *)

From Stdlib Require Import Ascii.
From S2P Require Import Prelude GoStrings DnsName GoTime Json JsonDecode X509.
From S2P Require Import Policy RateLimit Pki AuditLog Store Authn.
Import dnsname x509 policy ratelimit pki audit store authn.
#[local] Open Scope go_scope.

Module broker.

(** ** The issuer interface ([internal/broker/issuer]) *)

Record IssueRequest := mkIssueRequest {
  ir_ProfileName : string;
  ir_DNSNames : list string;
  ir_CSRPEM : string;
  ir_ACMEChallenge : string;
  ir_ACMECredentialsName : string }.

(** [Issue] returns a bundle that is not nil, or an error. *)
Class Issuer (I : Type) := {
  Issuer_Name : I → string;
  Issuer_Directory : I → string;
  Issuer_AccountKeyID : I → string;
  Issue : IssueRequest → I → result string Bundle * I }.

(** ** issue_types.go *)

Record issueRequest := mkRequest { Request_Profile : string; Request_CSRPEM : string }.

Record issueResponse := mkResponse {
  Response_CertPEM : string;
  Response_ChainPEM : string;
  Response_FullChainPEM : string;
  Response_SerialNumber : string;
  Response_NotBefore : string;
  Response_NotAfter : string;
  Response_Cache : string }.

(** [json.Unmarshal] into the struct. *)
Definition decode_issueRequest (text : string) : option issueRequest :=
  fields ← json_decode.Unmarshal ["profile"; "csr_pem"] text;
  match fields with [profile; csr] => Some (mkRequest profile csr) | _ => None end.

Record issuedResult := mkIssued { issued_bundle : Bundle; issued_cache : string }.

(** The request as the handler sees it: the peer certificates of the TLS
session, the bytes of the body and whether reading them fails, the peer's
address and the user agent. *)
Record http_request := mkHttpRequest {
  PeerCertificates : option (list (option Certificate));
  Body : string;
  Body_fails : bool;
  RemoteAddr : string;
  Header_UserAgent : string }.

Record certificateRequestContext := mkContext {
  ctx_RequestID : string;
  ctx_Request : http_request;
  ctx_Identity : string;
  ctx_ProfileName : string;
  ctx_Policy : option CompiledPolicy;
  ctx_Profile : option CompiledProfile;
  ctx_CSR : option CertificateRequest;
  ctx_CSRPEM : string;
  ctx_PublicKeyFP : string }.

Definition newIssueResponse (r : issuedResult) : issueResponse :=
  let bundle := issued_bundle r in
  mkResponse (CertPEM bundle) (ChainPEM bundle) (FullChainPEM bundle) (LeafSerialNumber bundle)
    (format_RFC3339 (NotBefore bundle)) (format_RFC3339 (NotAfter bundle)) (issued_cache r).

(** ** responses.go *)

Inductive body := ErrorBody (message : string) | IssueBody (r : issueResponse)
  | TextBody (text : string).
Record response := mkHttpResponse { status : Z; content : body }.

(** The bytes [writeJSON] sends. *)
Definition issueResponse_json (r : issueResponse) : json :=
  JObject [("cert_pem", JString (Response_CertPEM r)); ("chain_pem", JString (Response_ChainPEM r));
    ("fullchain_pem", JString (Response_FullChainPEM r));
    ("serial_number", JString (Response_SerialNumber r));
    ("not_before", JString (Response_NotBefore r)); ("not_after", JString (Response_NotAfter r));
    ("cache", JString (Response_Cache r))].
Definition body_text (b : body) : string :=
  match b with
  | ErrorBody message => string_app (print (JObject [("error", JString message)])) newline
  | IssueBody r => string_app (print (issueResponse_json r)) newline
  | TextBody text => text
  end.

(** [net.SplitHostPort]: the host, when the address has that form. *)
Fixpoint last_colon (s : string) : option (string * string) :=
  match s with
  | EmptyString => None
  | String a s' =>
      match last_colon s' with
      | Some (before, after) => Some (String a before, after)
      | None => if a == ":"%char then Some ("", s') else None
      end
  end.

Fixpoint first_bracket (s : string) : option (string * string) :=
  match s with
  | EmptyString => None
  | String a s' =>
      if a == "]"%char then Some ("", s')
      else match first_bracket s' with
           | Some (inside, rest) => Some (String a inside, rest)
           | None => None
           end
  end.

Definition SplitHostPort (hostport : string) : option string :=
  match last_colon hostport with
  | None => None
  | Some (before, _) =>
      match hostport with
      | String "["%char s1 =>
          match first_bracket s1 with
          | None => None
          | Some (inside, rest) =>
              match rest with
              | String ":"%char port =>
                  if contains port ":" || contains s1 "[" || contains rest "]" then None
                  else Some inside
              | _ => None
              end
          end
      | _ =>
          if contains before ":" || contains hostport "[" || contains hostport "]" then None
          else Some before
      end
  end.

Definition sourceIP (r : http_request) : string :=
  default (RemoteAddr r) (SplitHostPort (RemoteAddr r)).

Example sourceIP_tests :
  SplitHostPort "10.0.0.1:443" = Some "10.0.0.1" ∧ SplitHostPort "[::1]:443" = Some "::1"
  ∧ SplitHostPort "::1" = None ∧ SplitHostPort "host" = None.
Proof. vm_compute. done. Qed.

(** ** The state of the server *)

(** Where an error of the endpoint comes from. *)
Inductive broker_error :=
  | AuthnError (e : authn_error)
  | BodyError
  | BodyJSONError
  | FieldsRequired
  | CSRError (e : pki_error)
  | PolicyNotLoaded
  | PolicyError (e : auth_error)
  | FingerprintError (e : pki_error)
  | RateError (e : rate_error)
  | StoreError (e : store_error)
  | IssuerError (e : string).

Section Broker.
Context {CR : Crypto}.
Context {S A I F E : Type}.
Context `{CS : CertificateStore S} `{RO : RecorderOps E A F} `{IS : Issuer I}.

(** The readings of the clock, the identifiers [ulid.New] makes ([None] when it
fails), the failures the recorder and the store meet: the [n]-th draw of a
server reads the [n]-th element of one of them. *)
Record environment := mkEnvironment {
  env_clock : nat → Z;
  env_ulid : nat → option string;
  env_audit : nat → F;
  env_store : nat → io;
  (* the texts of errors *)
  env_text : broker_error → string }.

Context (env : environment).

(** The configured failure mode of the audit log, and the mutable state: the
policy in service, the certificate store, the recorder (it may be nil), the
limiter, the issuer, the responses written so far, the draws made so far. *)
Record world := mkWorld {
  failureMode : string;
  w_policy : option CompiledPolicy;
  w_store : S;
  w_audit : option A;
  w_limiter : Limiter;
  w_issuer : I;
  w_responses : list response;
  w_draws : nat }.

Definition M (T : Type) : Type := world → T * world.
#[local] Instance M_ret : MRet M := λ T x w, (x, w).
#[local] Instance M_bind : MBind M := λ T U f m w, let '(x, w1) := m w in f x w1.

Definition set_draws (n : nat) (w : world) : world :=
  mkWorld (failureMode w) (w_policy w) (w_store w) (w_audit w) (w_limiter w) (w_issuer w)
    (w_responses w) n.
Definition set_audit (a : A) (w : world) : world :=
  mkWorld (failureMode w) (w_policy w) (w_store w) (Some a) (w_limiter w) (w_issuer w)
    (w_responses w) (w_draws w).
Definition set_store (s : S) (w : world) : world :=
  mkWorld (failureMode w) (w_policy w) s (w_audit w) (w_limiter w) (w_issuer w)
    (w_responses w) (w_draws w).
Definition set_limiter (l : Limiter) (w : world) : world :=
  mkWorld (failureMode w) (w_policy w) (w_store w) (w_audit w) l (w_issuer w)
    (w_responses w) (w_draws w).
Definition set_issuer (i : I) (w : world) : world :=
  mkWorld (failureMode w) (w_policy w) (w_store w) (w_audit w) (w_limiter w) i
    (w_responses w) (w_draws w).
Definition add_response (r : response) (w : world) : world :=
  mkWorld (failureMode w) (w_policy w) (w_store w) (w_audit w) (w_limiter w) (w_issuer w)
    (w_responses w ++ [r]) (w_draws w).

Definition with_world {T} (f : world → T * world) : M T := f.
Definition draw {T} (stream : nat → T) : M T :=
  λ w, (stream (w_draws w), set_draws (Datatypes.S (w_draws w)) w).
Definition time_Now : M Z := draw (env_clock env).
Definition newID (prefix : string) : M (result audit_error string) :=
  u ← draw (env_ulid env); mret (NewID u prefix).

Definition writeJSON (code : Z) (b : body) : M unit :=
  λ w, (tt, add_response (mkHttpResponse code b) w).
Definition writeError (code : Z) (message : string) : M unit := writeJSON code (ErrorBody message).

(** ** issue_audit.go *)

(** The error of [NewID] is dropped: the identifier is then empty. *)
Definition id_or_empty (r : result audit_error string) : string :=
  match r with Ok id => id | Err _ => "" end.

Record auditEventBase := mkEventBase {
  base_RequestID : string;
  base_Type : string;
  base_Severity : string;
  base_Decision : string;
  base_Reason : string;
  base_Identity : string;
  base_Profile : string;
  base_Error : option broker_error;
  base_Request : option http_request }.

Definition newAuditEvent (b : auditEventBase) : M Event :=
  eventID ← newID "evt_";
  now ← time_Now;
  let text := match base_Error b with Some e => env_text env e | None => "" end in
  mret (mkEvent (id_or_empty eventID) (base_RequestID b) now (base_Type b) (base_Severity b)
    (base_Decision b) (base_Identity b) (base_Profile b) "" "" (base_Reason b) text text
    (match base_Request b with Some r => sourceIP r | None => "" end)
    (match base_Request b with Some r => Header_UserAgent r | None => "" end)
    "" "" None None "" "" "" "" None None "" None).

Definition withMetadata (metadata : option (gmap string string)) (key value : string)
    : option (gmap string string) :=
  Some (<[key:=value]> (default ∅ metadata)).

(** The text of an error of [CanonicalList]. *)
Context (dns_text : dnsname.error → string).

(** The fields [auditEvent] adds to a base event. *)
Definition fill_event (c : certificateRequestContext) (e : Event) : Event :=
  let csrNames := match ctx_CSR c with
                  | Some csr => Some (CanonicalList (csr_DNSNames csr)) | None => None end in
  mkEvent (EventID e) (RequestID e) (Timestamp e) (audit.Type_ e) (Severity e) (Decision_ e)
    (audit.Identity e) (audit.ProfileName e)
    (match ctx_Profile c with Some p => Hash p | None => audit.ProfileHash e end)
    (match ctx_Policy c with Some p => Policy_Hash p | None => audit.PolicyHash e end)
    (ReasonCode e) (Reason e) (Error e) (SourceIP e) (UserAgent e)
    (if ctx_CSRPEM c == "" then CSRSHA256 e else CSRFingerprint (ctx_CSRPEM c))
    (if ctx_PublicKeyFP c == "" then CSRPublicKeySHA256 e else ctx_PublicKeyFP c)
    (match csrNames with Some (Ok names) => Some names | _ => CSRDNSNames e end)
    (match ctx_Profile c with
     | Some p => match DNSNames p with [] => None | l => Some l end
     | None => ExpectedDNSNames e end)
    (audit.IssuerName e) (audit.IssuerDirectory e) (ACMEOrderURL e) (CertSerialNumber e)
    (CertNotBefore e) (CertNotAfter e) (CacheResult e)
    (match csrNames with
     | Some (Err x) => withMetadata (Metadata e) "csr_dns_names_error" (dns_text x)
     | _ => Metadata e end).

Definition auditEvent (c : certificateRequestContext) (typ severity decision reasonCode : string)
    (err : option broker_error) : M Event :=
  event ← newAuditEvent (mkEventBase (ctx_RequestID c) typ severity decision reasonCode
            (ctx_Identity c) (ctx_ProfileName c) err (Some (ctx_Request c)));
  mret (fill_event c event).

Definition fill_issued (w : world) (issued : issuedResult) (e : Event) : Event :=
  let b := issued_bundle issued in
  mkEvent (EventID e) (RequestID e) (Timestamp e) (audit.Type_ e) (Severity e) (Decision_ e)
    (audit.Identity e) (audit.ProfileName e) (audit.ProfileHash e) (audit.PolicyHash e)
    (ReasonCode e) (Reason e) (Error e) (SourceIP e) (UserAgent e) (CSRSHA256 e)
    (CSRPublicKeySHA256 e) (CSRDNSNames e) (ExpectedDNSNames e)
    (Issuer_Name (w_issuer w)) (Issuer_Directory (w_issuer w)) (ACMEOrderURL e)
    (LeafSerialNumber b) (Some (NotBefore b)) (Some (NotAfter b)) (issued_cache issued)
    (Metadata e).

Definition issuedEvent (c : certificateRequestContext) (issued : issuedResult) : M Event :=
  let hit := issued_cache issued == "hit" in
  event ← auditEvent c
    (if hit then EventCertificateCacheHit else EventCertificateIssued) SeverityInfo
    (if hit then DecisionCacheHit else DecisionIssue)
    (if hit then ReasonCacheHit else ReasonCacheMiss) None;
  with_world (λ w, (fill_issued w issued event, w)).

Definition with_ids (e : Event) (eventID requestID : string) (timestamp : Z) : Event :=
  mkEvent eventID requestID timestamp (audit.Type_ e) (Severity e) (Decision_ e)
    (audit.Identity e) (audit.ProfileName e) (audit.ProfileHash e) (audit.PolicyHash e)
    (ReasonCode e) (Reason e) (Error e) (SourceIP e) (UserAgent e) (CSRSHA256 e)
    (CSRPublicKeySHA256 e) (CSRDNSNames e) (ExpectedDNSNames e) (audit.IssuerName e)
    (audit.IssuerDirectory e) (ACMEOrderURL e) (CertSerialNumber e) (CertNotBefore e)
    (CertNotAfter e) (CacheResult e) (Metadata e).

Definition normalizeAuditEvent (e : Event) : M Event :=
  eventID ← (if EventID e == "" then id ← newID "evt_"; mret (id_or_empty id)
             else mret (EventID e));
  requestID ← (if RequestID e == "" then id ← newID "req_"; mret (id_or_empty id)
               else mret (RequestID e));
  timestamp ← (if time_IsZero (Timestamp e) then time_Now else mret (Timestamp e));
  mret (with_ids e eventID requestID timestamp).

Definition record (e : Event) : M (option E) :=
  event ← normalizeAuditEvent e;
  with_world (λ w,
    match w_audit w with
    | None => (None, w)
    | Some a =>
        let '(err, a') := Record_ (env_audit env (w_draws w)) event a in
        (err, set_audit a' (set_draws (Datatypes.S (w_draws w)) w))
    end).

Definition auditBarrier (e : Event) : M (option E) :=
  err ← record e;
  with_world (λ w,
    (match err with
     | Some x => if failureMode w == "fail_closed" then Some x else None
     | None => None
     end, w)).

(** ** issue.go *)

Definition maxIssueRequestBodyBytes : Z := 64 * 1024.

Definition with_Identity (c : certificateRequestContext) (identity : string) :=
  mkContext (ctx_RequestID c) (ctx_Request c) identity (ctx_ProfileName c) (ctx_Policy c)
    (ctx_Profile c) (ctx_CSR c) (ctx_CSRPEM c) (ctx_PublicKeyFP c).
Definition with_ProfileName (c : certificateRequestContext) (name : string) :=
  mkContext (ctx_RequestID c) (ctx_Request c) (ctx_Identity c) name (ctx_Policy c)
    (ctx_Profile c) (ctx_CSR c) (ctx_CSRPEM c) (ctx_PublicKeyFP c).
Definition with_CSRPEM (c : certificateRequestContext) (pem : string) :=
  mkContext (ctx_RequestID c) (ctx_Request c) (ctx_Identity c) (ctx_ProfileName c) (ctx_Policy c)
    (ctx_Profile c) (ctx_CSR c) pem (ctx_PublicKeyFP c).
Definition with_CSR (c : certificateRequestContext) (csr : CertificateRequest) :=
  mkContext (ctx_RequestID c) (ctx_Request c) (ctx_Identity c) (ctx_ProfileName c) (ctx_Policy c)
    (ctx_Profile c) (Some csr) (ctx_CSRPEM c) (ctx_PublicKeyFP c).
Definition with_Policy (c : certificateRequestContext) (p : CompiledPolicy) :=
  mkContext (ctx_RequestID c) (ctx_Request c) (ctx_Identity c) (ctx_ProfileName c) (Some p)
    (ctx_Profile c) (ctx_CSR c) (ctx_CSRPEM c) (ctx_PublicKeyFP c).
Definition with_Profile (c : certificateRequestContext) (p : option CompiledProfile) :=
  mkContext (ctx_RequestID c) (ctx_Request c) (ctx_Identity c) (ctx_ProfileName c) (ctx_Policy c)
    (match p with Some _ => p | None => ctx_Profile c end)
    (ctx_CSR c) (ctx_CSRPEM c) (ctx_PublicKeyFP c).
Definition with_PublicKeyFP (c : certificateRequestContext) (fp : string) :=
  mkContext (ctx_RequestID c) (ctx_Request c) (ctx_Identity c) (ctx_ProfileName c) (ctx_Policy c)
    (ctx_Profile c) (ctx_CSR c) (ctx_CSRPEM c) fp.

(** A step of the handler: the context it goes on with, or [None] once it has
written the response. *)
Definition step : Type := M (option certificateRequestContext).

(** Record a refusal or a failure, answer, and stop. *)
Definition refuse {T} (c : certificateRequestContext) (typ severity decision reason : string)
    (err : broker_error) (code : Z) (message : string) : M (option T) :=
  event ← auditEvent c typ severity decision reason (Some err);
  _ ← record event;
  _ ← writeError code message;
  mret None.

Definition denyBadRequest {T} (c : certificateRequestContext) (reason : string)
    (err : broker_error) (message : string) : M (option T) :=
  refuse c EventCertificateDenied SeverityWarn DecisionDeny reason err 400 message.

Definition authenticateIssueRequest (c : certificateRequestContext) : step :=
  now ← time_Now;
  match IdentityFromRequest now (PeerCertificates (ctx_Request c)) with
  | Err e =>
      refuse c EventCertificateDenied SeverityWarn DecisionDeny ReasonInvalidClientCertificate
        (AuthnError e) 401 "unauthorized"
  | Ok identity =>
      let c := with_Identity c identity in
      event ← auditEvent c EventCertificateRequestReceived SeverityInfo DecisionAllow ReasonOK None;
      _ ← record event;
      mret (Some c)
  end.

(** [http.MaxBytesReader] fails the read of a longer body. *)
Definition read_body (r : http_request) : option string :=
  if Body_fails r then None
  else if (maxIssueRequestBodyBytes <? Z.of_nat (len (Body r)))%Z then None
  else Some (Body r).

Definition parseIssueRequest (c : certificateRequestContext) : step :=
  match read_body (ctx_Request c) with
  | None => denyBadRequest c ReasonInvalidRequest BodyError "invalid request"
  | Some text =>
      match decode_issueRequest text with
      | None => denyBadRequest c ReasonInvalidRequest BodyJSONError "invalid request"
      | Some req =>
          if (Request_Profile req == "") || (Request_CSRPEM req == "") then
            denyBadRequest (with_ProfileName c (Request_Profile req)) ReasonInvalidRequest
              FieldsRequired "invalid request"
          else
            let c := with_CSRPEM (with_ProfileName c (Request_Profile req)) (Request_CSRPEM req) in
            match ParseCSRPEM (ctx_CSRPEM c) with
            | Err e => denyBadRequest c ReasonInvalidCSR (CSRError e) "invalid csr"
            | Ok csr => mret (Some (with_CSR c csr))
            end
      end
  end.

(** The sentinel errors of the policy, in the order of the cases. *)
Definition auditReasonForPolicyError (e : auth_error) : string :=
  match e with
  | ErrUnknownIdentity => ReasonUnknownIdentity
  | ErrUnknownProfile => ReasonUnknownProfile
  | ErrCSRNamesMismatch => ReasonCSRNamesMismatch
  | ErrInvalidCSR _ => ReasonInvalidCSR
  | ErrProfileNotAllowed => ReasonProfileNotAllowed
  end.

Definition authorizeIssueRequest (c : certificateRequestContext) : step :=
  λ w, match w_policy w with
  | None =>
      refuse c EventCertificateIssueFailed SeverityError DecisionError ReasonIssuerFailed
        PolicyNotLoaded 503 "policy not loaded" w
  | Some pol =>
      let c := with_Policy c pol in
      match Authorize pol (ctx_Identity c) (ctx_ProfileName c) (ctx_CSR c) with
      | (profile, None) => (Some (with_Profile c profile), w)
      | (profile, Some e) =>
          refuse (with_Profile c profile) EventCertificateDenied SeverityWarn DecisionDeny
            (auditReasonForPolicyError e) (PolicyError e) 403 "forbidden" w
      end
  end.

(** [reqCtx.CSR] is not nil here: the request was parsed. *)
Definition ctx_key (c : certificateRequestContext) : PublicKey :=
  match ctx_CSR c with Some csr => csr_PublicKey csr | None => mkPublicKey None end.

Definition attachPublicKeyFingerprint (c : certificateRequestContext) : step :=
  match PublicKeyFingerprint (ctx_key c) with
  | Err e => denyBadRequest c ReasonInvalidCSR (FingerprintError e) "invalid csr"
  | Ok fingerprint => mret (Some (with_PublicKeyFP c fingerprint))
  end.

(** An audit record the request must not go on without. *)
Definition barrier {T} (event : Event) (x : T) : M (option T) :=
  err ← auditBarrier event;
  match err with
  | Some _ => _ ← writeError 503 "audit unavailable"; mret None
  | None => mret (Some x)
  end.

Definition recordAuthorizedIssue (c : certificateRequestContext) : step :=
  event ← auditEvent c EventCertificateAuthorized SeverityInfo DecisionAllow ReasonOK None;
  barrier event c.

Definition checkIssueRateLimit (c : certificateRequestContext) : step :=
  now ← time_Now;
  with_world (λ w,
    match Allow now (ctx_Identity c) (ctx_ProfileName c) (w_limiter w) with
    | (Some e, l) =>
        refuse c EventCertificateDenied SeverityWarn DecisionDeny ReasonRateLimited
          (RateError e) 429 "rate limited" (set_limiter l w)
    | (None, l) => (Some c, set_limiter l w)
    end).

Definition cacheKey (w : world) (identity profileName : string) (profile : CompiledProfile)
    (publicKeyFP : string) : CertificateCacheKey :=
  mkKey identity profileName (Hash profile) publicKeyFP (Issuer_Name (w_issuer w))
    (Issuer_Directory (w_issuer w)) (Issuer_AccountKeyID (w_issuer w)).

Definition issue_request (profile : CompiledProfile) (csrPEM : string) : IssueRequest :=
  mkIssueRequest (Name profile) (DNSNames profile) csrPEM
    (ACME_Challenge (ACME profile)) (ACME_Credentials (ACME profile)).

Definition store_Get (key : CertificateCacheKey) (margin : Z) : M (result store_error Bundle) :=
  now ← time_Now;
  f ← draw (env_store env);
  with_world (λ w, (GetValidCertificate f now key margin (w_store w), w)).
Definition store_Put (key : CertificateCacheKey) (b : Bundle) : M (option store_error) :=
  now ← time_Now;
  f ← draw (env_store env);
  with_world (λ w,
    let '(err, s) := PutCertificate f now key (Some b) (w_store w) in (err, set_store s w)).
Definition issuer_Issue (r : IssueRequest) : M (result string Bundle) :=
  λ w, let '(res, i) := Issue r (w_issuer w) in (res, set_issuer i w).

Definition issueOrLoad (key : CertificateCacheKey) (profile : CompiledProfile) (csrPEM : string)
    : M (result broker_error issuedResult) :=
  cached ← store_Get key (RenewBefore profile);
  match cached with
  | Ok bundle => mret (Ok (mkIssued bundle "hit"))
  | Err e =>
      if e != ErrCacheMiss then mret (Err (StoreError e))
      else
        issued ← issuer_Issue (issue_request profile csrPEM);
        match issued with
        | Err e => mret (Err (IssuerError e))
        | Ok bundle =>
            put ← store_Put key bundle;
            match put with
            | Some e => mret (Err (StoreError e))
            | None => mret (Ok (mkIssued bundle "miss"))
            end
        end
  end.

(** [flightGroup.Do] of a key that no other request is in flight for is a call
of the function. Its result always has the type the code asserts. *)
Definition issueOrLoadWithSingleflight (c : certificateRequestContext)
    (key : CertificateCacheKey) (profile : CompiledProfile) : M (option issuedResult) :=
  result ← issueOrLoad key profile (ctx_CSRPEM c);
  match result with
  | Err e =>
      refuse c EventCertificateIssueFailed SeverityError DecisionError ReasonIssuerFailed e 502
        "issuance failed"
  | Ok issued => mret (Some issued)
  end.

Definition recordIssuedResult (c : certificateRequestContext) (issued : issuedResult)
    : M (option unit) :=
  event ← issuedEvent c issued;
  barrier event tt.

(** One step after another, while the response is not written. *)
Definition and_then {T U} (m : M (option T)) (f : T → M (option U)) : M (option U) :=
  x ← m; match x with Some x => f x | None => mret None end.

(** [ctx_Profile] is set: the request was authorized. *)
Definition issue_authorized (c : certificateRequestContext) : M (option unit) :=
  match ctx_Profile c with
  | None => mret None
  | Some profile =>
      λ w,
      let key := cacheKey w (ctx_Identity c) (ctx_ProfileName c) profile (ctx_PublicKeyFP c) in
      and_then (issueOrLoadWithSingleflight c key profile)
        (λ issued, and_then (recordIssuedResult c issued)
          (λ _, _ ← writeJSON 200 (IssueBody (newIssueResponse issued)); mret (Some tt))) w
  end.

Definition new_context (requestID : string) (r : http_request) : certificateRequestContext :=
  mkContext requestID r "" "" None None None "" "".

Definition issueCertificate (r : http_request) : M (option unit) :=
  requestID ← newID "req_";
  match requestID with
  | Err _ => _ ← writeError 500 "internal error"; mret None
  | Ok requestID =>
      and_then (authenticateIssueRequest (new_context requestID r)) (λ c,
      and_then (parseIssueRequest c) (λ c,
      and_then (authorizeIssueRequest c) (λ c,
      and_then (attachPublicKeyFingerprint c) (λ c,
      and_then (recordAuthorizedIssue c) (λ c,
      and_then (checkIssueRateLimit c) issue_authorized)))))
  end.

(** ** http.go *)

Definition healthz : M unit := writeJSON 200 (TextBody (string_app "ok" newline)).

Definition readyz : M unit :=
  λ w, match w_policy w with
  | None => writeJSON 503 (TextBody (string_app "policy not loaded" newline)) w
  | Some _ => writeJSON 200 (TextBody (string_app "ready" newline)) w
  end.

(** ** server.go *)

Definition NewServer (mode : string) (perIdentity perIdentityProfile : Z)
    (pol : option CompiledPolicy) (st : S) (iss : I) (rec : option A) : world :=
  mkWorld mode pol st rec (New perIdentity perIdentityProfile) iss [] 0.
End Broker.

(** [tls.VersionTLS12] and [tls.VersionTLS13]. *)
Definition VersionTLS12 : Z := 0x0303.
Definition VersionTLS13 : Z := 0x0304.
Definition tlsMinVersion (version : string) : Z :=
  if version == "1.3" then VersionTLS13 else VersionTLS12.
End broker.
