(* ===== verification/BrokerSpec.v ===== *)
(** * Properties of the certificate endpoint

The outcome of a request as a relation between the state before and after, the
proof that the handler implements it, and what follows: one response per
request, no issuance without authorization, what each status means, the
blocking audit records, cache hits. *)

From S2P Require Import Prelude GoStrings DnsName Sha256 GoTime Json X509 Policy.
From S2P Require Import PolicySpec RateLimit Pki AuditLog Store Authn Broker.
Import dnsname x509 policy policy_spec ratelimit pki audit store authn broker.
#[local] Open Scope go_scope.

Module broker_spec.

Section Broker.
Context {CR : Crypto}.
Context {S A I F E : Type}.
Context `{CS : CertificateStore S} `{RO : RecorderOps E A F} `{IS : Issuer I}.
Context (env : @environment F) (dns_text : dnsname.error → string).
#[local] Existing Instance M_ret.
#[local] Existing Instance M_bind.
#[local] Notation world := (@world S A I).
#[local] Notation M := (@M S A I).

(** ** Frames *)

(** Nothing but the recorder and the draws changed. *)
Record same_core (w w' : world) : Prop := {
  sc_mode : failureMode w' = failureMode w;
  sc_policy : w_policy w' = w_policy w;
  sc_store : w_store w' = w_store w;
  sc_limiter : w_limiter w' = w_limiter w;
  sc_issuer : w_issuer w' = w_issuer w;
  sc_recorder : is_Some (w_audit w') ↔ is_Some (w_audit w) }.

Definition audit_only (w w' : world) : Prop :=
  same_core w w' ∧ w_responses w' = w_responses w.
Definition answered (resp : response) (w w' : world) : Prop :=
  same_core w w' ∧ w_responses w' = w_responses w ++ [resp].

Lemma same_core_trans w1 w2 w3 : same_core w1 w2 → same_core w2 w3 → same_core w1 w3.
Proof using. intros [] []. constructor; try congruence. naive_solver. Qed.
Lemma same_core_refl w : same_core w w.
Proof using. by constructor. Qed.
Hint Resolve same_core_refl : certplane.

#[export] Instance audit_only_preorder : PreOrder audit_only.
Proof using.
  split.
  - intros w. split; auto with certplane.
  - intros w1 w2 w3 [H1 E1] [H2 E2]. split; [by eapply same_core_trans | congruence].
Qed.

Lemma answered_after resp w1 w2 w3 :
  audit_only w1 w2 → answered resp w2 w3 → answered resp w1 w3.
Proof using. intros [H1 E1] [H2 E2]. split; [by eapply same_core_trans | congruence]. Qed.

(** A computation that only audits. *)
Definition quiet {T} (m : M T) : Prop := ∀ w, audit_only w (snd (m w)).

Lemma quiet_ret {T} (x : T) : quiet (mret x).
Proof using. intros w. done. Qed.
Lemma quiet_bind {T U} (m : M T) (f : T → M U) :
  quiet m → (∀ x, quiet (f x)) → quiet (m ≫= f).
Proof using.
  intros Hm Hf w. specialize (Hm w). unfold mbind, M_bind.
  destruct (m w) as [x w1]. simpl in *. etrans; [done | apply Hf].
Qed.
Lemma quiet_draw {T} (stream : nat → T) : quiet (draw stream).
Proof using. intros w. split; [by constructor | done]. Qed.
#[local] Hint Resolve quiet_ret quiet_bind quiet_draw : certplane.

Lemma quiet_newID prefix : quiet (newID env prefix).
Proof using. unfold newID. apply quiet_bind; auto with certplane. Qed.

Lemma quiet_newAuditEvent b : quiet (newAuditEvent env b).
Proof using.
  unfold newAuditEvent. apply quiet_bind; [apply quiet_newID|]. intros.
  apply quiet_bind; [apply quiet_draw|]. auto with certplane.
Qed.

Lemma quiet_auditEvent c t sv d rc err : quiet (auditEvent env dns_text c t sv d rc err).
Proof using.
  unfold auditEvent. apply quiet_bind; [apply quiet_newAuditEvent | auto with certplane].
Qed.

Lemma quiet_normalize e : quiet (normalizeAuditEvent env e).
Proof using.
  unfold normalizeAuditEvent.
  apply quiet_bind; [case_bool_decide; [apply quiet_bind; [apply quiet_newID|]|]; auto with certplane|].
  intros. apply quiet_bind;
    [case_bool_decide; [apply quiet_bind; [apply quiet_newID|]|]; auto with certplane|].
  intros. apply quiet_bind; [destruct (time_IsZero _); [apply quiet_draw|]; auto with certplane|].
  auto with certplane.
Qed.

Lemma quiet_record e : quiet (record env e).
Proof using.
  unfold record. apply quiet_bind; [apply quiet_normalize|]. intros event w. unfold with_world.
  destruct (w_audit w) as [a|] eqn:Ea; [|done]. destruct (Record_ _ event a).
  split; [|done]. by constructor.
Qed.

Lemma quiet_auditBarrier e : quiet (auditBarrier env e).
Proof using.
  unfold auditBarrier. apply quiet_bind; [apply quiet_record|]. intros err w. done.
Qed.

Lemma refuse_spec {T} c t sv d rc err code msg w :
  ∃ w', refuse (T:=T) env dns_text c t sv d rc err code msg w = (None, w')
    ∧ answered (mkHttpResponse code (ErrorBody msg)) w w'.
Proof using.
  unfold refuse, mbind, M_bind.
  pose proof (quiet_auditEvent c t sv d rc (Some err) w) as H1.
  destruct (auditEvent env dns_text c t sv d rc (Some err) w) as [ev w1].
  pose proof (quiet_record ev w1) as H2. destruct (record env ev w1) as [x w2].
  eexists. split; [done|]. eapply answered_after; [etrans; done|].
  split; [by constructor | done].
Qed.

(** ** The outcome of a request *)

Record admission := mkAdmission {
  ad_identity : string;
  ad_profile_name : string;
  ad_csrPEM : string;
  ad_csr : CertificateRequest;
  ad_policy : CompiledPolicy;
  ad_profile : CompiledProfile;
  ad_fingerprint : string }.

(** The request names its host by a valid client certificate, carries a request
for a certificate with a valid signature, the policy in service authorizes it
and the limits leave room for it. *)
Record admitted (r : http_request) (w : world) (a : admission) : Prop := {
  adm_certificate : ∃ n cert rest, PeerCertificates r = Some (Some cert :: rest)
    ∧ client_certificate (env_clock env n) cert (ad_identity a);
  adm_body : ∃ text, read_body r = Some text
    ∧ decode_issueRequest text = Some (mkRequest (ad_profile_name a) (ad_csrPEM a));
  adm_fields : ad_profile_name a ≠ "" ∧ ad_csrPEM a ≠ "";
  adm_csr : ParseCSRPEM (ad_csrPEM a) = Ok (ad_csr a);
  adm_policy : w_policy w = Some (ad_policy a);
  adm_authorized : Authorize (ad_policy a) (ad_identity a) (ad_profile_name a) (Some (ad_csr a))
    = (Some (ad_profile a), None);
  adm_fingerprint : PublicKeyFingerprint (csr_PublicKey (ad_csr a)) = Ok (ad_fingerprint a);
  adm_rate : ∃ n, fst (Allow (env_clock env n) (ad_identity a) (ad_profile_name a)
                         (w_limiter w)) = None }.

Definition ad_key (w : world) (a : admission) : CertificateCacheKey :=
  cacheKey w (ad_identity a) (ad_profile_name a) (ad_profile a) (ad_fingerprint a).

(** What a request brings: the identity of its client certificate, and a
well-formed body with a certificate request. *)
Record presented (r : http_request) (identity : string) (req : issueRequest)
    (csr : CertificateRequest) : Prop := {
  pr_identity : ∃ n, IdentityFromRequest (env_clock env n) (PeerCertificates r) = Ok identity;
  pr_body : ∃ text, read_body r = Some text ∧ decode_issueRequest text = Some req;
  pr_fields : Request_Profile req ≠ "" ∧ Request_CSRPEM req ≠ "";
  pr_csr : ParseCSRPEM (Request_CSRPEM req) = Ok csr }.

(** The policy in service grants it. *)
Definition granted (r : http_request) (w : world) (identity : string) (req : issueRequest) : Prop :=
  ∃ csr pol profile, presented r identity req csr ∧ w_policy w = Some pol
    ∧ Authorize pol identity (Request_Profile req) (Some csr) = (Some profile, None)
    ∧ is_ok (PublicKeyFingerprint (csr_PublicKey csr)) = true.

(** The recorder of the server refuses some event. *)
Definition audit_fails (w : world) : Prop :=
  failureMode w = "fail_closed" ∧ is_Some (w_audit w)
  ∧ ∃ f event (a : A), is_Some (fst (Record_ (E:=E) f event a)).

(** Why a request is refused, with which status and message. *)
Inductive refusal (r : http_request) (w : world) : Z → string → Prop :=
  | no_request_id : (∃ n, env_ulid env n = None) → refusal r w 500 "internal error"
  | unauthenticated n e : IdentityFromRequest (env_clock env n) (PeerCertificates r) = Err e →
      refusal r w 401 "unauthorized"
  | bad_request :
      match read_body r ≫= decode_issueRequest with
      | None => True
      | Some req => Request_Profile req = "" ∨ Request_CSRPEM req = ""
      end → refusal r w 400 "invalid request"
  | bad_csr text req :
      read_body r = Some text → decode_issueRequest text = Some req →
      match ParseCSRPEM (Request_CSRPEM req) with
      | Err _ => True
      | Ok csr => is_ok (PublicKeyFingerprint (csr_PublicKey csr)) = false
      end → refusal r w 400 "invalid csr"
  | no_policy : w_policy w = None → refusal r w 503 "policy not loaded"
  | unauthorized pol identity req csr profile e :
      presented r identity req csr → w_policy w = Some pol →
      Authorize pol identity (Request_Profile req) (Some csr) = (profile, Some e) →
      refusal r w 403 "forbidden"
  | no_audit identity req : granted r w identity req → audit_fails w →
      refusal r w 503 "audit unavailable"
  | rate_limited n identity req e : granted r w identity req →
      fst (Allow (env_clock env n) identity (Request_Profile req) (w_limiter w)) = Some e →
      refusal r w 429 "rate limited".

(** The handler's errors are HTTP errors. *)
Lemma refusal_code r (w : world) code msg : refusal r w code msg → (400 ≤ code < 600)%Z.
Proof using. destruct 1; lia. Qed.

(** The four ways [issueOrLoad] ends, on the store and the issuer. *)
Inductive issuing (key : CertificateCacheKey) (profile : CompiledProfile) (pem : string)
    (s : S) (i : I) : S → I → result broker_error issuedResult → Prop :=
  | from_cache n m b :
      GetValidCertificate (env_store env m) (env_clock env n) key (RenewBefore profile) s = Ok b →
      issuing key profile pem s i s i (Ok (mkIssued b "hit"))
  | unreadable n m e :
      GetValidCertificate (env_store env m) (env_clock env n) key (RenewBefore profile) s = Err e →
      e ≠ ErrCacheMiss → issuing key profile pem s i s i (Err (StoreError e))
  | not_issued n m e i' :
      GetValidCertificate (env_store env m) (env_clock env n) key (RenewBefore profile) s
        = Err ErrCacheMiss →
      Issue (issue_request profile pem) i = (Err e, i') →
      issuing key profile pem s i s i' (Err (IssuerError e))
  | not_stored n m b i' n' m' e s' :
      GetValidCertificate (env_store env m) (env_clock env n) key (RenewBefore profile) s
        = Err ErrCacheMiss →
      Issue (issue_request profile pem) i = (Ok b, i') →
      PutCertificate (env_store env m') (env_clock env n') key (Some b) s = (Some e, s') →
      issuing key profile pem s i s' i' (Err (StoreError e))
  | from_issuer n m b i' n' m' s' :
      GetValidCertificate (env_store env m) (env_clock env n) key (RenewBefore profile) s
        = Err ErrCacheMiss →
      Issue (issue_request profile pem) i = (Ok b, i') →
      PutCertificate (env_store env m') (env_clock env n') key (Some b) s = (None, s') →
      issuing key profile pem s i s' i' (Ok (mkIssued b "miss")).

Definition issuing_for (a : admission) (w w' : world) : result broker_error issuedResult → Prop :=
  issuing (ad_key w a) (ad_profile a) (ad_csrPEM a) (w_store w) (w_issuer w)
    (w_store w') (w_issuer w').

Inductive outcome (r : http_request) (w w' : world) : response → Prop :=
  | refused code msg :
      refusal r w code msg → w_store w' = w_store w → w_issuer w' = w_issuer w →
      outcome r w w' (mkHttpResponse code (ErrorBody msg))
  | failed a e :
      admitted r w a → issuing_for a w w' (Err e) →
      outcome r w w' (mkHttpResponse 502 (ErrorBody "issuance failed"))
  | unrecorded a issued :
      admitted r w a → issuing_for a w w' (Ok issued) → audit_fails w →
      outcome r w w' (mkHttpResponse 503 (ErrorBody "audit unavailable"))
  | served a issued :
      admitted r w a → issuing_for a w w' (Ok issued) →
      outcome r w w' (mkHttpResponse 200 (IssueBody (newIssueResponse issued))).

(** ** Steps *)

(** What holds after a step: of the context it goes on with, or once it has
answered. *)
Definition wp {T} (m : M (option T)) (w : world) (Q : world → Prop) (P : T → world → Prop) : Prop :=
  match m w with (Some x, w') => P x w' | (None, w') => Q w' end.

Lemma wp_and_then {T U} (m : M (option T)) (f : T → M (option U)) w Q P :
  wp m w Q (λ x w1, wp (f x) w1 Q P) → wp (and_then m f) w Q P.
Proof using. unfold wp, and_then, mbind, M_bind. destruct (m w) as [[x|] w1]; done. Qed.

Lemma wp_mono {T} (m : M (option T)) w (Q Q' : world → Prop) (P P' : T → world → Prop) :
  wp m w Q P → (∀ w', Q w' → Q' w') → (∀ x w', P x w' → P' x w') → wp m w Q' P'.
Proof using. unfold wp. destruct (m w) as [[x|] w1]; auto. Qed.

Lemma wp_refuse {T} c t sv d rc err code msg w (Q : world → Prop) (P : T → world → Prop) :
  (∀ w', answered (mkHttpResponse code (ErrorBody msg)) w w' → Q w') →
  wp (refuse env dns_text c t sv d rc err code msg) w Q P.
Proof using.
  intros HQ. unfold wp. destruct (refuse_spec (T:=T) c t sv d rc err code msg w) as (w' & -> & ?). auto.
Qed.

Lemma wp_authenticate c w :
  wp (authenticateIssueRequest env dns_text c) w
    (λ w', answered (mkHttpResponse 401 (ErrorBody "unauthorized")) w w'
       ∧ ∃ n e, IdentityFromRequest (env_clock env n) (PeerCertificates (ctx_Request c)) = Err e)
    (λ c' w', audit_only w w'
       ∧ ∃ n identity, IdentityFromRequest (env_clock env n) (PeerCertificates (ctx_Request c))
                       = Ok identity ∧ c' = with_Identity c identity).
Proof using.
  unfold authenticateIssueRequest, wp, mbind, M_bind, time_Now, draw.
  set (n := w_draws w). set (w1 := set_draws _ w).
  assert (H1 : audit_only w w1) by (split; [by constructor | done]).
  destruct (IdentityFromRequest _ _) as [identity|e] eqn:Ei.
  - pose proof (quiet_auditEvent (with_Identity c identity) EventCertificateRequestReceived
      SeverityInfo DecisionAllow ReasonOK None w1) as H2.
    destruct (auditEvent _ _ _ _ _ _ _ _ w1) as [ev w2]. pose proof (quiet_record ev w2) as H3.
    destruct (record env ev w2) as [x w3]. simpl in *. split; [by do 2 (etrans; [done|])|].
    by exists n, identity.
  - pose proof (refuse_spec (T:=certificateRequestContext) c EventCertificateDenied SeverityWarn
      DecisionDeny ReasonInvalidClientCertificate (AuthnError e) 401 "unauthorized" w1)
      as (w' & -> & H2).
    split; [by eapply answered_after | by exists n, e].
Qed.

(** The contexts the steps go on with. *)
Definition parsed (c : certificateRequestContext) (req : issueRequest) (csr : CertificateRequest)
    : certificateRequestContext :=
  with_CSR (with_CSRPEM (with_ProfileName c (Request_Profile req)) (Request_CSRPEM req)) csr.

Lemma wp_parse c w :
  wp (parseIssueRequest env dns_text c) w
    (λ w', ∃ msg, answered (mkHttpResponse 400 (ErrorBody msg)) w w'
       ∧ refusal (ctx_Request c) w 400 msg)
    (λ c' w', w' = w ∧ ∃ text req csr,
       read_body (ctx_Request c) = Some text ∧ decode_issueRequest text = Some req
       ∧ Request_Profile req ≠ "" ∧ Request_CSRPEM req ≠ ""
       ∧ ParseCSRPEM (Request_CSRPEM req) = Ok csr ∧ c' = parsed c req csr).
Proof using.
  unfold parseIssueRequest, denyBadRequest.
  destruct (read_body (ctx_Request c)) as [text|] eqn:Eb.
  2: { apply wp_refuse. intros w' H. eexists. split; [exact H|]. constructor. by rewrite Eb. }
  destruct (decode_issueRequest text) as [req|] eqn:Ed.
  2: { apply wp_refuse. intros w' H. eexists. split; [exact H|]. constructor. rewrite Eb. simpl.
       by rewrite Ed. }
  destruct ((Request_Profile req == "") || (Request_CSRPEM req == "")) eqn:Ef.
  { apply wp_refuse. intros w' H. eexists. split; [exact H|]. constructor. rewrite Eb. simpl.
    rewrite Ed. apply orb_true_iff in Ef. by rewrite !bool_decide_eq_true in Ef. }
  apply orb_false_iff in Ef. rewrite !bool_decide_eq_false in Ef. destruct Ef as [Ep Ec].
  cbv zeta. cbn [ctx_CSRPEM with_CSRPEM].
  destruct (ParseCSRPEM (Request_CSRPEM req)) as [csr|e] eqn:Ecsr.
  - split; [done|]. by exists text, req, csr.
  - apply wp_refuse. intros w' H. eexists. split; [exact H|].
    eapply bad_csr; [done..|]. by rewrite Ecsr.
Qed.

(** The context of a request that was parsed. *)
Definition carries (c : certificateRequestContext) (req : issueRequest)
    (csr : CertificateRequest) : Prop :=
  ctx_CSR c = Some csr ∧ ctx_ProfileName c = Request_Profile req
  ∧ presented (ctx_Request c) (ctx_Identity c) req csr.

Lemma wp_authorize c req csr w :
  carries c req csr →
  wp (authorizeIssueRequest env dns_text c) w
    (λ w', ∃ code msg, answered (mkHttpResponse code (ErrorBody msg)) w w'
       ∧ refusal (ctx_Request c) w code msg)
    (λ c' w', w' = w ∧ ∃ pol profile, w_policy w = Some pol
       ∧ Authorize pol (ctx_Identity c) (ctx_ProfileName c) (Some csr) = (Some profile, None)
       ∧ c' = with_Profile (with_Policy c pol) (Some profile)).
Proof using.
  intros (Hcsr & Hname & Hpres). unfold authorizeIssueRequest, wp. destruct (w_policy w) as [pol|] eqn:Ep.
  2: { apply wp_refuse.
       intros w' Hw. do 2 eexists. split; [exact Hw | by constructor]. }
  cbv zeta. cbn [ctx_Identity ctx_ProfileName ctx_CSR with_Policy]. rewrite Hcsr.
  pose proof (Authorize_result pol (ctx_Identity c) (ctx_ProfileName c) csr) as Hres.
  destruct (Authorize pol (ctx_Identity c) (ctx_ProfileName c) (Some csr))
    as [profile [e|]] eqn:Ea.
  - apply wp_refuse. intros w' Hw. do 2 eexists. split; [exact Hw|].
    rewrite Hname in Ea. by eapply unauthorized.
  - destruct profile as [profile|]; [|done]. split; [done|]. by exists pol, profile.
Qed.

Lemma wp_attach c req csr w :
  carries c req csr →
  wp (attachPublicKeyFingerprint env dns_text c) w
    (λ w', answered (mkHttpResponse 400 (ErrorBody "invalid csr")) w w'
       ∧ refusal (ctx_Request c) w 400 "invalid csr")
    (λ c' w', w' = w ∧ ∃ fp, PublicKeyFingerprint (csr_PublicKey csr) = Ok fp
       ∧ c' = with_PublicKeyFP c fp).
Proof using.
  intros (Hcsr & _ & [_ (text & Hb & Hd) _ Hp]). unfold attachPublicKeyFingerprint, denyBadRequest, ctx_key.
  rewrite Hcsr. destruct (PublicKeyFingerprint (csr_PublicKey csr)) as [fp|e] eqn:Ef.
  - split; [done|]. by exists fp.
  - apply wp_refuse. intros w' H. split; [exact H|]. eapply bad_csr; [done..|].
    by rewrite Hp, Ef.
Qed.

(** The barrier stops only a server that fails closed and has a recorder. *)
(** Normalising gives an event identifiers and a time, and records nothing. *)
Lemma normalize_says ev (w : world) :
  w_audit (snd (normalizeAuditEvent env ev w)) = w_audit w
  ∧ ∃ id rid t, fst (normalizeAuditEvent env ev w) = with_ids ev id rid t.
Proof using.
  unfold normalizeAuditEvent, mbind, M_bind, newID, time_Now, draw.
  destruct (EventID ev == ""), (RequestID ev == ""), (time_IsZero (Timestamp ev));
    (split; [done|by eexists _, _, _]).
Qed.

Lemma record_Some ev (w : world) x w' :
  record env ev w = (Some x, w') →
  is_Some (w_audit w) ∧ ∃ f event (a : A), is_Some (fst (Record_ (E:=E) f event a)).
Proof using.
  unfold record, mbind, M_bind. destruct (normalize_says ev w) as [Ha _].
  destruct (normalizeAuditEvent env ev w) as [ev' w1]. unfold with_world. simpl in Ha.
  rewrite Ha. destruct (w_audit w) as [a|]; [|done].
  destruct (Record_ (env_audit env (w_draws w1)) ev' a) as [err a'] eqn:Er. intros [= -> _].
  split; [by eexists|]. exists (env_audit env (w_draws w1)), ev', a. by rewrite Er.
Qed.

Lemma wp_barrier {T} ev (x : T) w :
  wp (barrier env ev x) w
    (λ w', answered (mkHttpResponse 503 (ErrorBody "audit unavailable")) w w' ∧ audit_fails w)
    (λ y w', y = x ∧ audit_only w w').
Proof using.
  unfold barrier, wp, mbind, M_bind. pose proof (quiet_auditBarrier ev w) as Hq.
  destruct (auditBarrier env ev w) as [[err|] w1] eqn:Eb; simpl in *; [|done].
  split; [by eapply answered_after; [done | split; [by constructor | done]]|].
  unfold auditBarrier, mbind, M_bind, with_world in Eb.
  pose proof (quiet_record ev w) as [[Hm _ _ _ _ _] _].
  destruct (record env ev w) as [[y|] w2] eqn:Er; [|done].
  case_bool_decide as Hmode; [|done]. split; [simpl in Hm; congruence|]. by eapply record_Some.
Qed.

Lemma audit_fails_mono (w w1 : world) :
  failureMode w1 = failureMode w → (is_Some (w_audit w1) ↔ is_Some (w_audit w)) →
  audit_fails w1 → audit_fails w.
Proof using. intros Hm Ha (? & ? & ?). split_and!; [congruence | by apply Ha | done]. Qed.
Lemma audit_fails_core w w1 : same_core w w1 → audit_fails w1 → audit_fails w.
Proof using. intros [Hm _ _ _ _ Ha]. by apply audit_fails_mono. Qed.

(** An audit event computed quietly, then the barrier. *)
Lemma wp_barrier_after {T} (m : M Event) (x : T) w :
  quiet m →
  wp (m ≫= λ ev, barrier env ev x) w
    (λ w', answered (mkHttpResponse 503 (ErrorBody "audit unavailable")) w w' ∧ audit_fails w)
    (λ y w', y = x ∧ audit_only w w').
Proof using.
  intros Hm. specialize (Hm w). unfold mbind, M_bind, wp.
  destruct (m w) as [ev w1]. simpl in *. eapply wp_mono; [apply (wp_barrier ev x w1) | |].
  - intros w' (Ha & Hf). split; [by eapply answered_after|].
    eapply audit_fails_core; [apply Hm | done].
  - intros y w' [-> H]. split; [done | by etrans].
Qed.

Lemma newAuditEvent_audit b (w : world) : w_audit (snd (newAuditEvent env b w)) = w_audit w.
Proof using. done. Qed.

Lemma wp_recordAuthorized c req w :
  granted (ctx_Request c) w (ctx_Identity c) req →
  wp (recordAuthorizedIssue env dns_text c) w
    (λ w', answered (mkHttpResponse 503 (ErrorBody "audit unavailable")) w w'
       ∧ refusal (ctx_Request c) w 503 "audit unavailable")
    (λ c' w', c' = c ∧ audit_only w w').
Proof using.
  intros Hg. eapply wp_mono; [apply wp_barrier_after, quiet_auditEvent | | done].
  intros w' (Ha & Hf). split; [done|]. by econstructor.
Qed.

(** Nothing but the recorder, the limiter and the draws changed. *)
Record same_store (w w' : world) : Prop := {
  ss_mode : failureMode w' = failureMode w;
  ss_policy : w_policy w' = w_policy w;
  ss_store : w_store w' = w_store w;
  ss_issuer : w_issuer w' = w_issuer w;
  ss_recorder : is_Some (w_audit w') ↔ is_Some (w_audit w) }.

Lemma same_core_store w w' : same_core w w' → same_store w w'.
Proof using. by intros []. Qed.
Lemma same_store_trans w1 w2 w3 : same_store w1 w2 → same_store w2 w3 → same_store w1 w3.
Proof using. intros [] []. constructor; [congruence..|]. by etrans. Qed.

Lemma wp_rate c req w :
  granted (ctx_Request c) w (ctx_Identity c) req → ctx_ProfileName c = Request_Profile req →
  wp (checkIssueRateLimit env dns_text c) w
    (λ w', same_store w w'
       ∧ w_responses w' = w_responses w ++ [mkHttpResponse 429 (ErrorBody "rate limited")]
       ∧ refusal (ctx_Request c) w 429 "rate limited")
    (λ c' w', c' = c ∧ same_store w w' ∧ w_responses w' = w_responses w
       ∧ ∃ n, fst (Allow (env_clock env n) (ctx_Identity c) (ctx_ProfileName c) (w_limiter w))
              = None).
Proof using.
  intros Hg Hname. unfold checkIssueRateLimit, wp, mbind, M_bind, time_Now, draw, with_world.
  cbn [w_limiter set_draws].
  pose proof (λ e, rate_limited (ctx_Request c) w (w_draws w) (ctx_Identity c) req e Hg) as Hr.
  rewrite <- Hname in Hr.
  destruct (Allow _ _ _ (w_limiter w)) as [[e|] l] eqn:Ea; simpl in Hr.
  - apply wp_refuse. intros w' [Hs Hresp]. split_and!.
    + apply same_core_store in Hs. by destruct Hs.
    + by rewrite Hresp.
    + by eapply Hr.
  - split_and!; [done | by constructor | done |]. exists (w_draws w). by rewrite Ea.
Qed.

Lemma issueOrLoad_spec key profile pem (w : world) :
  let '(res, w') := issueOrLoad env key profile pem w in
  failureMode w' = failureMode w ∧ w_policy w' = w_policy w ∧ w_audit w' = w_audit w
  ∧ w_responses w' = w_responses w
  ∧ issuing key profile pem (w_store w) (w_issuer w) (w_store w') (w_issuer w') res.
Proof using.
  unfold issueOrLoad, store_Get, mbind, M_bind, time_Now, draw, with_world.
  cbn [w_store w_draws set_draws].
  destruct (GetValidCertificate _ _ key _ (w_store w)) as [b|e] eqn:Eg.
  { split_and!; try done. by eapply from_cache. }
  case_bool_decide as Emiss; simpl; [subst e|split_and!; try done; by eapply unreadable].
  unfold issuer_Issue. simpl.
  destruct (Issue (issue_request profile pem) (w_issuer w)) as [[b|e] i'] eqn:Ei.
  2: { split_and!; try done. by eapply not_issued. }
  unfold store_Put, mbind, M_bind, time_Now, draw, with_world. simpl.
  destruct (PutCertificate _ _ key (Some b) (w_store w)) as [[e|] s'] eqn:Ep; simpl.
  - split_and!; try done. by eapply not_stored.
  - split_and!; try done. by eapply from_issuer.
Qed.

Lemma quiet_issuedEvent c issued : quiet (issuedEvent env dns_text c issued).
Proof using.
  unfold issuedEvent. apply quiet_bind; [apply quiet_auditEvent|]. intros ev w. done.
Qed.

Lemma wp_recordIssued c issued (w : world) :
  wp (recordIssuedResult env dns_text c issued) w
    (λ w', answered (mkHttpResponse 503 (ErrorBody "audit unavailable")) w w'
       ∧ audit_fails w)
    (λ _ w', audit_only w w').
Proof using.
  eapply wp_mono; [apply (wp_barrier_after _ tt w (quiet_issuedEvent c issued)) | |]; naive_solver.
Qed.

(** The issuing half of the handler. *)
Lemma issue_authorized_spec c profile (w : world) :
  ctx_Profile c = Some profile →
  let key := cacheKey w (ctx_Identity c) (ctx_ProfileName c) profile (ctx_PublicKeyFP c) in
  let w' := snd (issue_authorized env dns_text c w) in
  w_policy w' = w_policy w ∧ failureMode w' = failureMode w
  ∧ ∃ resp, w_responses w' = w_responses w ++ [resp]
  ∧ ∃ res, issuing key profile (ctx_CSRPEM c) (w_store w) (w_issuer w) (w_store w') (w_issuer w') res
  ∧ match res with
    | Err _ => resp = mkHttpResponse 502 (ErrorBody "issuance failed")
    | Ok issued => resp = mkHttpResponse 200 (IssueBody (newIssueResponse issued))
        ∨ audit_fails w
          ∧ resp = mkHttpResponse 503 (ErrorBody "audit unavailable")
    end.
Proof using.
  intros Hp key w'. subst w'. unfold issue_authorized. rewrite Hp. fold key.
  unfold and_then, issueOrLoadWithSingleflight.
  pose proof (issueOrLoad_spec key profile (ctx_CSRPEM c) w) as Hi.
  unfold mbind, M_bind.
  destruct (issueOrLoad env key profile (ctx_CSRPEM c) w) as [[issued|e] w1].
  - destruct Hi as (Hm & Hpol & Ha & Hr & Hi).
    pose proof (wp_recordIssued c issued w1) as Hb. unfold wp in Hb. unfold mret, M_ret.
    destruct (recordIssuedResult env dns_text c issued w1) as [[[]|] w2]; simpl.
    + destruct Hb as ([? ? Hst ? Hiss _] & Hr2). split_and!; [congruence..|].
      eexists. split; [by rewrite Hr2, Hr|]. rewrite Hst, Hiss. exists (Ok issued).
      split; [done | by left].
    + destruct Hb as ([[? ? Hst ? Hiss _] Hr2] & Hfc). split_and!; [congruence..|].
      eexists. split; [by rewrite Hr2, Hr|]. rewrite Hst, Hiss. exists (Ok issued).
      split; [done | right; split; [|done]].
      apply (audit_fails_mono w w1); [done | by rewrite Ha | done].
  - destruct Hi as (Hm & Hpol & Ha & Hr & Hi).
    destruct (refuse_spec (T:=issuedResult) c EventCertificateIssueFailed SeverityError
      DecisionError ReasonIssuerFailed e 502 "issuance failed" w1)
      as (w2 & -> & [[? ? Hst ? Hiss _] Hr2]). simpl. split_and!; [congruence..|].
    eexists. split; [by rewrite Hr2, Hr|]. rewrite Hst, Hiss. by exists (Err e).
Qed.

Lemma granted_core r (w w1 : world) identity req :
  w_policy w1 = w_policy w → granted r w1 identity req → granted r w identity req.
Proof using. intros Hp. unfold granted. by rewrite Hp. Qed.

Lemma refusal_mono r (w w1 : world) code msg :
  same_core w w1 → refusal r w1 code msg → refusal r w code msg.
Proof using.
  intros Hcore H. pose proof Hcore as [Hm Hp _ Hl _ Hr]. destruct H.
  - by constructor.
  - by eapply unauthenticated.
  - by constructor.
  - by eapply bad_csr.
  - constructor. congruence.
  - rewrite Hp in *. by eapply unauthorized.
  - eapply no_audit; [by eapply granted_core | by eapply audit_fails_core].
  - eapply rate_limited; [by eapply granted_core|]. rewrite <- Hl. done.
Qed.

Definition completed (r : http_request) (w w' : world) : Prop :=
  w_policy w' = w_policy w ∧ failureMode w' = failureMode w
  ∧ ∃ resp, w_responses w' = w_responses w ++ [resp] ∧ outcome r w w' resp.

(** A refusal after quiet steps completes the request. *)
Lemma refused_completed r w w1 w' code msg :
  audit_only w w1 → answered (mkHttpResponse code (ErrorBody msg)) w1 w' →
  refusal r w1 code msg → completed r w w'.
Proof using.
  intros [Hc Hr] [Hc' Hr'] H. destruct Hc' as [Hm' Hp' Hs' _ Hi' _].
  pose proof Hc as [Hm Hp Hs _ Hi _]. split_and!; [congruence..|]. eexists.
  split; [by rewrite Hr', Hr|]. apply refused; [by eapply refusal_mono | congruence..].
Qed.

(** The issuing half completes an admitted request. *)
Lemma issuing_completed r (w w' : world) a resp res :
  admitted r w a → w_policy w' = w_policy w → failureMode w' = failureMode w →
  w_responses w' = w_responses w ++ [resp] → issuing_for a w w' res →
  match res with
  | Err _ => resp = mkHttpResponse 502 (ErrorBody "issuance failed")
  | Ok issued => resp = mkHttpResponse 200 (IssueBody (newIssueResponse issued))
      ∨ audit_fails w ∧ resp = mkHttpResponse 503 (ErrorBody "audit unavailable")
  end → completed r w w'.
Proof using.
  intros Hadm Hp Hm Hr Hfor Hres. split_and!; [done..|]. exists resp. split; [done|].
  destruct res as [issued|e].
  - destruct Hres as [->|[Hfc ->]]; [by eapply served | by eapply unrecorded].
  - subst resp. by eapply failed.
Qed.

Lemma issueCertificate_completed r (w : world) :
  completed r w (snd (issueCertificate env dns_text r w)).
Proof using.
  unfold issueCertificate, newID, mbind, M_bind, draw.
  set (w0 := set_draws _ w).
  assert (H0 : audit_only w w0) by (split; [by constructor | done]).
  destruct (env_ulid env (w_draws w)) as [id|] eqn:Eu; simpl.
  2: { eapply (refused_completed r w w0 _ 500); [done | split; [by constructor | done]|].
       constructor. by eexists. }
  set (m := and_then _ _).
  assert (wp m w0 (completed r w) (λ _, completed r w)) as Hwp.
  2: { unfold wp in Hwp. by destruct (m w0) as [[[]|] w']. }
  subst m. apply wp_and_then. eapply wp_mono; [apply wp_authenticate| |].
  { intros w' (Ha & n & e & He). eapply refused_completed; [done..|]. by eapply unauthenticated. }
  simpl. intros c w1 (H1 & n1 & identity & Hid & ->).
  apply wp_and_then. eapply wp_mono; [apply wp_parse| |].
  { intros w' (msg & Ha & Href). eapply (refused_completed r w w1); [by etrans | done..]. }
  simpl. intros c w2 (-> & text & req & csr & Hb & Hd & Hpn & Hcp & Hcsr & ->).
  assert (Hpres : presented r identity req csr) by (constructor; eauto).
  apply wp_and_then. eapply wp_mono; [by apply (wp_authorize _ req csr)| |].
  { intros w' (code & msg & Ha & Href). eapply (refused_completed r w w1); [by etrans | done..]. }
  simpl. intros c w3 (-> & pol & profile & Hpol & Hauth & ->).
  apply wp_and_then. eapply wp_mono; [by apply (wp_attach _ req csr)| |].
  { intros w' (Ha & Href). eapply (refused_completed r w w1); [by etrans | done..]. }
  simpl. intros c w4 (-> & fp & Hfp & ->).
  assert (Hg : granted r w1 identity req) by (exists csr, pol, profile; by rewrite Hfp).
  apply wp_and_then. eapply wp_mono; [by apply (wp_recordAuthorized _ req)| |].
  { intros w' (Ha & Href). eapply (refused_completed r w w1); [by etrans | done..]. }
  simpl. intros c w5 (-> & H5).
  assert (Hq : audit_only w w5) by (do 2 (etrans; [done|]); done).
  pose proof Hq as [[Hqm Hqp Hqs Hql Hqi Hqr] Hqresp].
  apply wp_and_then. eapply wp_mono; [apply (wp_rate _ req); [|done]| |].
  { eapply granted_core; [|done]. destruct H5 as [[_ Hp5 _ _ _ _] _]. by symmetry. }
  { intros w' ([Hm Hp Hs Hi _] & Hresp & Href). split_and!; [congruence..|].
    eexists. split; [by rewrite Hresp, Hqresp|].
    apply refused; [by eapply refusal_mono; [apply Hq|] | congruence..]. }
  intros c w6 (-> & [Hm Hp Hs Hi Hr6] & Hresp & n6 & Hrate). simpl in Hrate.
  set (a := mkAdmission identity (Request_Profile req) (Request_CSRPEM req) csr pol profile fp).
  assert (Hadm : admitted r w a).
  { pose proof Hid as (cert & rest & ? & ?)%IdentityFromRequest_Ok. constructor; simpl; try done.
    - by exists n1, cert, rest.
    - exists text. split; [done|]. by destruct req.
    - destruct H0 as [[_ Hp0 _ _ _ _] _], H1 as [[_ Hp1 _ _ _ _] _]. congruence.
    - exists n6. by rewrite <- Hql. }
  set (c := with_PublicKeyFP _ fp).
  pose proof (issue_authorized_spec c profile w6 eq_refl) as Hissue. simpl in Hissue.
  destruct Hissue as (Hpol6 & Hmode6 & resp & Hresp6 & res & Hiss & Hres).
  assert (completed r w (snd (issue_authorized env dns_text c w6))) as Hdone.
  { apply (issuing_completed _ _ _ a resp res); [done|congruence..| |].
    - unfold issuing_for, ad_key, cacheKey. unfold cacheKey in Hiss. simpl.
      rewrite Hi, Hqi, Hs, Hqs in Hiss. exact Hiss.
    - destruct res; [|done]. destruct Hres as [?|[? ?]]; [by left | right].
      split; [|done]. apply (audit_fails_mono w w6); [congruence | by etrans | done]. }
  unfold wp. by destruct (issue_authorized env dns_text c w6) as [[[]|] w7].
Qed.

(** ** Fail closed *)

(** The barrier when the recorder refuses the event. *)
Lemma barrier_closed {T} ev (x : T) (w : world) :
  failureMode w = "fail_closed" → is_Some (w_audit w) →
  (∀ f e a, is_Some (fst (Record_ (E:=E) (R:=A) f e a))) →
  fst (barrier env ev x w) = None.
Proof using.
  intros Hm Ha Hfail. unfold barrier, auditBarrier, record, mbind, M_bind.
  assert (Hn : w_audit (snd (normalizeAuditEvent env ev w)) = w_audit w
               ∧ failureMode (snd (normalizeAuditEvent env ev w)) = failureMode w).
  { unfold normalizeAuditEvent, mbind, M_bind, newID, time_Now, draw.
    by destruct (EventID ev == ""), (RequestID ev == ""), (time_IsZero (Timestamp ev)). }
  destruct (normalizeAuditEvent env ev w) as [ev' w1]. destruct Hn as [Hna Hnm]. simpl in *.
  unfold with_world. rewrite Hna. destruct Ha as [a Ha]. rewrite Ha.
  specialize (Hfail (env_audit env (w_draws w1)) ev' a).
  destruct (Record_ _ ev' a) as [[y|] a']; simpl in *; [|by destruct Hfail].
  by rewrite Hnm, bool_decide_true.
Qed.

Definition stopped (w w' : world) : Prop :=
  w_store w' = w_store w ∧ w_issuer w' = w_issuer w
  ∧ ∃ code msg, w_responses w' = w_responses w ++ [mkHttpResponse code (ErrorBody msg)].

Lemma answered_stopped code msg (w w1 w' : world) :
  audit_only w w1 → answered (mkHttpResponse code (ErrorBody msg)) w1 w' → stopped w w'.
Proof using.
  intros [[] Hr] [[] Hr']. split_and!; [congruence..|]. exists code, msg. congruence.
Qed.

Lemma stopped_before_issuing r (w : world) :
  failureMode w = "fail_closed" → is_Some (w_audit w) →
  (∀ f e a, is_Some (fst (Record_ (E:=E) (R:=A) f e a))) →
  stopped w (snd (issueCertificate env dns_text r w)).
Proof using.
  intros Hm Ha Hfail. unfold issueCertificate, newID, mbind, M_bind, draw.
  set (w0 := set_draws _ w).
  assert (H0 : audit_only w w0) by (split; [by constructor | done]).
  destruct (env_ulid env (w_draws w)) as [id|]; simpl.
  2: { eapply (answered_stopped _ _ w w0); [done | split; [by constructor | done]]. }
  set (m := and_then _ _).
  assert (wp m w0 (stopped w) (λ _ _, False)) as Hwp.
  2: { unfold wp in Hwp. by destruct (m w0) as [[[]|] w']. }
  subst m. apply wp_and_then. eapply wp_mono; [apply wp_authenticate| |].
  { intros w' (H & _). by eapply answered_stopped. }
  simpl. intros c w1 (H1 & n1 & identity & Hid & ->).
  assert (Hw1 : audit_only w w1) by (by etrans).
  apply wp_and_then. eapply wp_mono; [apply wp_parse| |].
  { intros w' (msg & H & _). by eapply answered_stopped. }
  simpl. intros c w2 (-> & text & req & csr & Hb & Hd & Hpn & Hcp & Hcsr & ->).
  assert (Hpres : presented r identity req csr) by (constructor; eauto).
  apply wp_and_then. eapply wp_mono; [by apply (wp_authorize _ req csr)| |].
  { intros w' (code & msg & H & _). by eapply answered_stopped. }
  simpl. intros c w3 (-> & pol & profile & Hpol & Hauth & ->).
  apply wp_and_then. eapply wp_mono; [by apply (wp_attach _ req csr)| |].
  { intros w' (H & _). by eapply answered_stopped. }
  simpl. intros c w4 (-> & fp & Hfp & ->). set (c := with_PublicKeyFP _ fp).
  assert (Hg : granted r w1 identity req) by (exists csr, pol, profile; by rewrite Hfp).
  apply wp_and_then. pose proof (wp_recordAuthorized c req w1 Hg) as Hr. unfold wp in *.
  assert (Hnone : fst (recordAuthorizedIssue env dns_text c w1) = None).
  { unfold recordAuthorizedIssue, mbind, M_bind.
    pose proof (quiet_auditEvent c EventCertificateAuthorized SeverityInfo DecisionAllow
      ReasonOK None w1) as [[Hqm _ _ _ _ Hqa] _].
    destruct (auditEvent env dns_text c _ _ _ _ _ w1) as [ev w2]. simpl in *.
    destruct Hw1 as [[Hm1 _ _ _ _ Ha1] _].
    apply barrier_closed; [congruence | by apply Hqa, Ha1 | done]. }
  destruct (recordAuthorizedIssue env dns_text c w1) as [[x|] w2]; [done|].
  destruct Hr as (H & _). by eapply answered_stopped.
Qed.

(** ** Properties *)

(** C1: Every request to the certificate endpoint gets exactly one response, and
the handler does what the relation [outcome] says: a refusal, with its reason,
leaves the store and the issuer alone; a certificate is looked up, issued and
stored for the admitted request only, and served, or withheld by the audit
log. The policy in service never changes. *)
Theorem issueCertificate_outcome r (w : world) :
  completed r w (snd (issueCertificate env dns_text r w)).
Proof using. apply issueCertificate_completed. Qed.

(** C8: With a policy compiled from a file, a request answered with status 200
comes from a client with a valid certificate whose common name is the identity
of a host of the file, for a profile this host refers to, with a signed request
whose names are exactly the profile's; what is served is a bundle read from the
cache for this identity, profile, hash and key, or one the issuer made for
exactly the profile's canonical names. *)
Theorem served_is_authorized now cfg pol r (w : world) resp :
  Compile now cfg = Ok pol → w_policy w = Some pol →
  w_responses (snd (issueCertificate env dns_text r w)) = w_responses w ++ [resp] →
  status resp = 200%Z →
  ∃ a issued,
    (∃ n cert rest, PeerCertificates r = Some (Some cert :: rest)
       ∧ client_certificate (env_clock env n) cert (ad_identity a))
    ∧ ParseCSRPEM (ad_csrPEM a) = Ok (ad_csr a)
    ∧ file_authorizes cfg (ad_identity a) (ad_profile_name a) (ad_csr a) (ad_profile a)
    ∧ content resp = IssueBody (newIssueResponse issued)
    ∧ ((∃ n m, GetValidCertificate (env_store env m) (env_clock env n) (ad_key w a)
                 (RenewBefore (ad_profile a)) (w_store w) = Ok (issued_bundle issued))
       ∨ ∃ i', Issue (issue_request (ad_profile a) (ad_csrPEM a)) (w_issuer w)
                = (Ok (issued_bundle issued), i')
           ∧ CanonicalList (csr_DNSNames (ad_csr a))
             = Ok (ir_DNSNames (issue_request (ad_profile a) (ad_csrPEM a)))).
Proof using.
  intros Hcompile Hpol Hresp Hstatus.
  destruct (issueCertificate_completed r w) as (_ & _ & resp' & Hresp' & Hout).
  rewrite Hresp in Hresp'. apply app_inv_head in Hresp' as [= <-].
  assert (∃ a issued, admitted r w a
    ∧ issuing_for a w (snd (issueCertificate env dns_text r w)) (Ok issued)
    ∧ content resp = IssueBody (newIssueResponse issued)) as (a & issued & Hadm & Hiss & Hc).
  { destruct Hout as [code msg Hr _ _|a e _ _|a issued _ _ _|a issued Ha Hi]; simpl in *;
      [|done..|by exists a, issued]. destruct Hr; done. }
  exists a, issued. pose proof Hadm as [Hcert _ _ Hcsr Hp Hauth _ _].
  assert (ad_policy a = pol) as Hap by congruence. rewrite Hap in Hauth. split_and!; try done.
  - by apply (Authorize_file now cfg pol Hcompile).
  - inversion Hiss; subst; [left | right]; simpl; [by eauto|].
    eexists. split; [done|]. by apply Authorize_Ok in Hauth as (_ & _ & ?).
Qed.

(** When no admission is possible (no valid client certificate, no signed
request, no authorization by the policy in service, or no room in the limits)
the store and the issuer are not touched and no certificate is served. *)
Theorem no_issuance_without_admission r (w : world) :
  (∀ a, ¬ admitted r w a) →
  w_store (snd (issueCertificate env dns_text r w)) = w_store w
  ∧ w_issuer (snd (issueCertificate env dns_text r w)) = w_issuer w
  ∧ ∃ code msg, refusal r w code msg ∧ w_responses (snd (issueCertificate env dns_text r w))
      = w_responses w ++ [mkHttpResponse code (ErrorBody msg)].
Proof using.
  intros Hno. destruct (issueCertificate_completed r w) as (_ & _ & resp & Hresp & Hout).
  destruct Hout as [code msg Hr Hs Hi|a e Ha _|a issued Ha _ _|a issued Ha _];
    [|by destruct (Hno a)..].
  split_and!; try done. by exists code, msg.
Qed.

(** C17: A server that fails closed, and whose recorder refuses every event,
issues nothing: whatever the request, the store and the issuer are not touched
and the response is an error. *)
Theorem fail_closed_issues_nothing r (w : world) :
  failureMode w = "fail_closed" → is_Some (w_audit w) →
  (∀ f e a, is_Some (fst (Record_ (E:=E) (R:=A) f e a))) →
  let w' := snd (issueCertificate env dns_text r w) in
  w_store w' = w_store w ∧ w_issuer w' = w_issuer w
  ∧ ∃ code msg, w_responses w' = w_responses w ++ [mkHttpResponse code (ErrorBody msg)].
Proof using. intros. by apply stopped_before_issuing. Qed.

(** C24: What [issueOrLoad] issues it serves from the cache next time: after an
issuance that was stored, as long as the store keeps working and the bundle's
validity exceeds the profile's renewal margin, the same key is answered with
the stored bundle, the issuer not being called again. *)
Theorem reissue_is_cache_hit `{SL : @StoreLaws S CS} key profile pem pem' (w w2 : world) b :
  (∀ n, env_store env n = IO_ok) → in_order (w_store w) →
  (∀ n, storable (env_clock env n) key b) →
  fst (issueOrLoad env key profile pem w) = Ok (mkIssued b "miss") →
  w_store w2 = w_store (snd (issueOrLoad env key profile pem w)) →
  (RenewBefore profile < time_Until (env_clock env (w_draws w2)) (NotAfter (stored b)))%Z →
  fst (issueOrLoad env key profile pem' w2) = Ok (mkIssued (stored b) "hit")
  ∧ w_issuer (snd (issueOrLoad env key profile pem' w2)) = w_issuer w2.
Proof using.
  intros Hio Ho Hst Hmiss Hw2 Hmargin.
  pose proof (issueOrLoad_spec key profile pem w) as Hi.
  destruct (issueOrLoad env key profile pem w) as [res w1]. simpl in *. subst res.
  destruct Hi as (_ & _ & _ & _ & Hi). inversion Hi; subst.
  match goal with H : PutCertificate _ _ _ _ _ = _ |- _ =>
    rewrite Hio in H; destruct (put_stores _ _ _ _ _ _ Ho (Hst _) H) as (Ho' & Hk & _) end.
  unfold issueOrLoad, store_Get, mbind, M_bind, time_Now, draw, with_world.
  cbn [w_store w_draws set_draws]. rewrite Hw2, Hio, (get_found _ _ _ _ _ Ho' Hk).
  destruct (Z.leb_spec (time_Until (env_clock env (w_draws w2)) (NotAfter (stored b)))
    (RenewBefore profile)); [lia|]. done.
Qed.
End Broker.

(** The request an agent makes for the names of a profile is granted: a
service request generated for names that denote the profile's set parses, and
a policy that lists the profile for the host authorizes it. *)
Theorem service_csr_is_authorized `{CL : CryptoLaws} now cfg pol k rawHost rawProfile ref profileName
    q rnd key names pem :
  Compile now cfg = Ok pol →
  Config_Hosts cfg !! k = Some rawHost →
  ref ∈ Host_Profiles rawHost → TrimSpace ref = profileName →
  Config_Profiles cfg !! profileName = Some rawProfile →
  compileProfile profileName rawProfile = Ok q →
  EqualSet names (Profile_DNSNames rawProfile) = true →
  GenerateServiceCSR rnd key names = Ok pem →
  ∃ csr, ParseCSRPEM pem = Ok csr ∧ csr_PublicKey csr = Public key
    ∧ Authorize pol (TrimSpace (Host_Identity rawHost)) profileName (Some csr) = (Some q, None).
Proof.
  intros Hc Hk Hr Ht Hp Hq Hs Hg.
  apply service_csr_parses in Hg as (csr & first & rest & Hcan & Hparse & _ & Hn & Hkey).
  exists csr. split_and!; [done..|]. apply (Authorize_file now cfg pol Hc).
  exists k, rawHost, rawProfile. split_and!; try done; [by exists ref|].
  rewrite Hn. apply EqualSet_lists in Hs as (c & Hc1 & Hc2). rewrite Hcan in Hc1.
  injection Hc1 as <-. apply EqualSet_lists. exists (first :: rest).
  split; [by eapply CanonicalList_fix | done].
Qed.

(** ** A server that runs

The file store, the file recorder, an issuer that counts its orders, and the
policy of the repository's tests. *)

#[local] Existing Instance test_crypto.

#[local] Instance test_issuer : Issuer nat := {|
  Issuer_Name _ := "acme"; Issuer_Directory _ := "local"; Issuer_AccountKeyID _ := "acme";
  Issue r n := (Ok (mkBundle "cert" "chain" "certchain" "ff" 0 (1500 * Hour)), Datatypes.S n) |}.

Definition test_env : @environment file_faults :=
  mkEnvironment (λ n, (Hour + Z.of_nat n)%Z) (λ _, Some "01ARZ3") (λ _, all_ok) (λ _, IO_ok)
    (λ _, "error").

Definition api_body : string :=
  print (JObject [("profile", JString "api"); ("csr_pem", JString "CERTIFICATE REQUEST:request")]).

Definition client_cert : Certificate :=
  mkCertificate "der" (Some 1%Z) "api01" [] (mkPublicKey (Some "pub")) false
    [ExtKeyUsageClientAuth] 0 (9000 * Hour).

Definition api_request : http_request :=
  mkHttpRequest (Some [Some client_cert]) api_body false "10.0.0.7:5050" "certplane-agent".

Definition test_server (mode : string) : @world FileStore FileJSONLRecorder nat :=
  NewServer mode 2 2 (Some (the_policy test_config)) (mkFileStore None) 0
    (Some (mkFileJSONLRecorder None)).

Definition no_text : dnsname.error → string := λ _, "".

Definition served_once := snd (issueCertificate test_env no_text api_request (test_server "fail_open")).

(** The first request is issued, the second served from the cache, the third
refused by the limits. *)
Example three_requests :
  let run := λ w, snd (issueCertificate test_env no_text api_request w) in
  let w := run (run (run (test_server "fail_closed"))) in
  (λ r, (status r, match content r with IssueBody b => Response_Cache b | ErrorBody m => m
                   | TextBody t => t end)) <$> w_responses w
    = [(200%Z, "miss"); (200%Z, "hit"); (429%Z, "rate limited")]
  ∧ w_issuer w = 1.
Proof. vm_compute. done. Qed.

Example served_is_authorized_witness :
  ∃ a issued,
    (∃ n cert rest, PeerCertificates api_request = Some (Some cert :: rest)
       ∧ client_certificate (env_clock test_env n) cert (ad_identity a))
    ∧ ParseCSRPEM (ad_csrPEM a) = Ok (ad_csr a)
    ∧ file_authorizes test_config (ad_identity a) (ad_profile_name a) (ad_csr a) (ad_profile a)
    ∧ content (default (mkHttpResponse 0 (TextBody "")) (last (w_responses served_once)))
      = IssueBody (newIssueResponse issued).
Proof.
  destruct (served_is_authorized test_env no_text 0 test_config (the_policy test_config)
    api_request (test_server "fail_open")
    (default (mkHttpResponse 0 (TextBody "")) (last (w_responses served_once))))
    as (a & issued & H1 & H2 & H3 & H4 & _).
  - vm_compute. reflexivity.
  - reflexivity.
  - vm_compute. reflexivity.
  - vm_compute. reflexivity.
  - exists a, issued. auto.
Defined.

Definition anonymous_request : http_request :=
  mkHttpRequest None api_body false "10.0.0.7:5050" "curl".

Example no_issuance_without_admission_witness :
  w_issuer (snd (issueCertificate test_env no_text anonymous_request (test_server "fail_open"))) = 0.
Proof.
  refine (proj1 (proj2 (no_issuance_without_admission test_env no_text anonymous_request
    (test_server "fail_open") _))).
  intros a [(n & cert & rest & H & _) _ _ _ _ _ _ _]. discriminate H.
Defined.

#[local] Instance refusing_recorder : RecorderOps unit unit unit := {|
  Record_ _ _ _ := (Some tt, tt) |}.

Definition refusing_env : @environment unit :=
  mkEnvironment (env_clock test_env) (env_ulid test_env) (λ _, tt) (env_store test_env)
    (env_text test_env).

Definition closed_server : @world FileStore unit nat :=
  NewServer "fail_closed" 2 2 (Some (the_policy test_config)) (mkFileStore None) 0 (Some tt).

Example fail_closed_issues_nothing_witness :
  w_issuer (snd (issueCertificate refusing_env no_text api_request closed_server)) = 0.
Proof.
  refine (proj1 (proj2 (fail_closed_issues_nothing refusing_env no_text api_request
    closed_server _ _ _))).
  - reflexivity.
  - by eexists.
  - intros. by eexists.
Defined.

Definition still_env : @environment file_faults :=
  mkEnvironment (λ _, Hour) (env_ulid test_env) (env_audit test_env) (env_store test_env)
    (env_text test_env).

Definition api_profile_compiled : CompiledProfile :=
  default zeroCompiledProfile (Policy_Profiles (the_policy test_config) !! "api").

Definition issued_bundle_1 : Bundle := mkBundle "cert" "chain" "certchain" "ff" 0 (1500 * Hour).
Definition first_issue := issueOrLoad still_env test_cache_key api_profile_compiled "pem"
  (test_server "fail_open").

Lemma issued_storable : file_storable Hour test_cache_key issued_bundle_1.
Proof. exact test_storable. Qed.

Example reissue_is_cache_hit_witness :
  fst (issueOrLoad still_env test_cache_key api_profile_compiled "pem" (snd first_issue))
  = Ok (mkIssued issued_bundle_1 "hit").
Proof.
  refine (proj1 (reissue_is_cache_hit (SL := FileStore_laws)
    still_env test_cache_key api_profile_compiled "pem" "pem" (test_server "fail_open")
    (snd first_issue) issued_bundle_1 _ _ _ _ _ _)).
  - reflexivity.
  - split; [reflexivity | apply map_Forall_empty].
  - intros n. exact issued_storable.
  - vm_compute. reflexivity.
  - reflexivity.
  - vm_compute. reflexivity.
Defined.

#[local] Existing Instance test_crypto_laws.

Example service_csr_is_authorized_witness :
  ∃ csr, ParseCSRPEM "CERTIFICATE REQUEST:request" = Ok csr
    ∧ csr_PublicKey csr = Public test_key
    ∧ Authorize (the_policy test_config) "api01" "api" (Some csr)
      = (Some api_profile_compiled, None).
Proof.
  apply (service_csr_is_authorized 0 test_config (the_policy test_config) "api01"
    (mkHost "api01" ["api"]) api_profile "api" "api" api_profile_compiled "" test_key
    ["API.whisper.cl"; "api-v2.whisper.cl."]).
  - vm_compute. reflexivity.
  - reflexivity.
  - by left.
  - reflexivity.
  - reflexivity.
  - vm_compute. reflexivity.
  - vm_compute. reflexivity.
  - vm_compute. reflexivity.
Defined.
End broker_spec.
