(* ===== verification/SingleFlight.v ===== *)
(** * Requests that overlap ([internal/broker/issue.go])

[issueOrLoadWithSingleflight] runs [issueOrLoad] under [flightGroup.Do]: of the
requests that overlap on a key, the first runs the function and the others wait
for its result. Here [issueOrLoad] is cut into its three uses of the store and
of the issuer, and requests interleave between them: [group_step]. *)

From S2P Require Import Prelude GoStrings GoTime Json X509.
From S2P Require Import Policy Pki AuditLog Store Broker BrokerSpec.
Import x509 policy pki audit store broker broker_spec.
#[local] Open Scope go_scope.

Module single_flight.

Section Flight.
Context {CR : Crypto} {S A I F E : Type}.
Context `{CS : CertificateStore S} `{RO : RecorderOps E A F} `{IS : Issuer I}.
Context (env : environment (F:=F)).
#[local] Notation world := (world (S:=S) (A:=A) (I:=I)).
#[local] Notation M := (M (S:=S) (A:=A) (I:=I)).

(** ** One execution of the function *)

(** What [issueOrLoad] is called with. *)
Record flight_request := mkFlightRequest {
  fr_id : nat;
  fr_key : CertificateCacheKey;
  fr_profile : CompiledProfile;
  fr_csr : string }.

(** Where an execution is: before its read of the cache, before the call of the
issuer, before the write of what was issued. *)
Inductive stage := Reading | Issuing | Storing (b : Bundle).

Definition flight_result : Type := result broker_error issuedResult.

(** The next use of the store or of the issuer; the execution goes on or ends. *)
Definition advance (r : flight_request) (st : stage) : M (stage + flight_result) :=
  match st with
  | Reading =>
      λ w, let '(cached, w1) := store_Get env (fr_key r) (RenewBefore (fr_profile r)) w in
      (match cached with
       | Ok bundle => inr (Ok (mkIssued bundle "hit"))
       | Err e => if e != ErrCacheMiss then inr (Err (StoreError e)) else inl Issuing
       end, w1)
  | Issuing =>
      λ w, let '(issued, w1) := issuer_Issue (issue_request (fr_profile r) (fr_csr r)) w in
      (match issued with
       | Err e => inr (Err (IssuerError e))
       | Ok bundle => inl (Storing bundle)
       end, w1)
  | Storing bundle =>
      λ w, let '(put, w1) := store_Put env (fr_key r) bundle w in
      (match put with
       | Some e => inr (Err (StoreError e))
       | None => inr (Ok (mkIssued bundle "miss"))
       end, w1)
  end.

(** The execution alone, to its end. *)
Fixpoint run_alone (fuel : nat) (r : flight_request) (st : stage) (w : world)
    : option flight_result * world :=
  match fuel with
  | O => (None, w)
  | Datatypes.S fuel' =>
      let '(x, w1) := advance r st w in
      match x with
      | inr res => (Some res, w1)
      | inl st' => run_alone fuel' r st' w1
      end
  end.

(** ** The group *)

(** The request that runs the function, and those that wait for it. *)
Record flight := mkFlight { leader : flight_request; at_stage : stage; waiters : list flight_request }.

(** The server, the flights by the text of their key, the requests answered, what
was issued and stored so far, the stores so far. *)
Record group := mkGroup {
  g_world : world;
  g_flights : gmap string flight;
  g_done : list (flight_request * flight_result);
  g_stored : list (CertificateCacheKey * Bundle);
  g_stores : list S }.

(** [flightGroup.Do]: a request joins the flight of its key, or starts one. *)
Definition join_flight (r : flight_request) (flights : gmap string flight) : gmap string flight :=
  let k := key_String (fr_key r) in
  match flights !! k with
  | Some f => <[k:=mkFlight (leader f) (at_stage f) (waiters f ++ [r])]> flights
  | None => <[k:=mkFlight r Reading []]> flights
  end.

(** What an execution that ends has stored. *)
Definition stored_by (f : flight) (res : flight_result) : list (CertificateCacheKey * Bundle) :=
  match at_stage f, res with
  | Storing b, Ok _ => [(fr_key (leader f), b)]
  | _, _ => []
  end.

(** A request arrives; a flight advances; a flight ends and answers its requests;
the server does something else, which leaves store and issuer alone. *)
Inductive group_step : group → group → Prop :=
  | arrives r w fs dn st ss :
      group_step (mkGroup w fs dn st ss) (mkGroup w (join_flight r fs) dn st ss)
  | advances k f st' w w' fs dn st ss :
      fs !! k = Some f → advance (leader f) (at_stage f) w = (inl st', w') →
      group_step (mkGroup w fs dn st ss)
        (mkGroup w' (<[k:=mkFlight (leader f) st' (waiters f)]> fs) dn st (ss ++ [w_store w']))
  | ends k f res w w' fs dn st ss :
      fs !! k = Some f → advance (leader f) (at_stage f) w = (inr res, w') →
      group_step (mkGroup w fs dn st ss)
        (mkGroup w' (delete k fs) (dn ++ ((λ r, (r, res)) <$> leader f :: waiters f))
           (st ++ stored_by f res) (ss ++ [w_store w']))
  | works w w' fs dn st ss :
      w_store w' = w_store w → w_issuer w' = w_issuer w →
      group_step (mkGroup w fs dn st ss) (mkGroup w' fs dn st ss).

(** ** Lemmas *)

(** The three pieces are the function. *)
Lemma run_alone_issueOrLoad r w :
  run_alone 3 r Reading w
  = let '(res, w') := issueOrLoad env (fr_key r) (fr_profile r) (fr_csr r) w in (Some res, w').
Proof using.
  unfold issueOrLoad. cbn [run_alone advance]. unfold mbind, M_bind, mret, M_ret.
  destruct (store_Get env (fr_key r) _ w) as [[b|e] w1]; [done|].
  destruct (e != ErrCacheMiss); [done|]. cbn [advance].
  destruct (issuer_Issue _ w1) as [[b|e'] w2]; [|done]. cbn [advance].
  by destruct (store_Put env (fr_key r) b w2) as [[e'|] w3].
Qed.

(** Requests that are answered or waiting. *)
Definition in_flight (fs : gmap string flight) : list flight_request :=
  (map_to_list fs) ≫= λ p, leader (snd p) :: waiters (snd p).
Definition requests (g : group) : list flight_request :=
  in_flight (g_flights g) ++ (fst <$> g_done g).

(** Steps still to come. *)
Definition stage_left (st : stage) : nat :=
  match st with Reading => 3 | Issuing => 2 | Storing _ => 1 end.
Definition work_left (fs : gmap string flight) : nat :=
  sum_list_with (λ p, stage_left (at_stage (snd p))) (map_to_list fs).

Lemma in_flight_insert k f fs :
  fs !! k = None → in_flight (<[k:=f]> fs) ≡ₚ (leader f :: waiters f) ++ in_flight fs.
Proof using. intros Hk. unfold in_flight. by rewrite map_to_list_insert. Qed.

Lemma in_flight_delete k f fs :
  fs !! k = Some f → in_flight fs ≡ₚ (leader f :: waiters f) ++ in_flight (delete k fs).
Proof using.
  intros Hk. rewrite <- (insert_delete_id fs k f) at 1 by done.
  apply in_flight_insert, lookup_delete_eq.
Qed.

Lemma in_flight_replace k f f' fs :
  fs !! k = Some f → in_flight (<[k:=f']> fs) ≡ₚ (leader f' :: waiters f') ++ in_flight (delete k fs).
Proof using.
  intros Hk. rewrite <- insert_delete_eq. apply in_flight_insert, lookup_delete_eq.
Qed.

Lemma in_flight_join r fs : in_flight (join_flight r fs) ≡ₚ r :: in_flight fs.
Proof using.
  unfold join_flight. destruct (fs !! _) as [f|] eqn:Ek; [|by apply in_flight_insert].
  rewrite (in_flight_replace _ f), (in_flight_delete _ f fs) by done. simpl.
  rewrite <- app_assoc. simpl. rewrite Permutation_swap. apply perm_skip. by rewrite Permutation_middle.
Qed.

Lemma work_left_insert k f fs :
  fs !! k = None → work_left (<[k:=f]> fs) = stage_left (at_stage f) + work_left fs.
Proof using. intros Hk. unfold work_left. by rewrite map_to_list_insert. Qed.

Lemma work_left_delete k f fs :
  fs !! k = Some f → work_left fs = stage_left (at_stage f) + work_left (delete k fs).
Proof using.
  intros Hk. rewrite <- (insert_delete_id fs k f) at 1 by done.
  apply work_left_insert, lookup_delete_eq.
Qed.

Lemma work_left_replace k f f' fs :
  fs !! k = Some f → work_left (<[k:=f']> fs) = stage_left (at_stage f') + work_left (delete k fs).
Proof using.
  intros Hk. rewrite <- insert_delete_eq. apply work_left_insert, lookup_delete_eq.
Qed.

(** *** What a step does to the store *)

(** The ways [advance] ends. *)
Inductive advanced (r : flight_request) (s : S) : stage → S → stage + flight_result → Prop :=
  | hit n m b :
      GetValidCertificate (env_store env m) (env_clock env n) (fr_key r)
        (RenewBefore (fr_profile r)) s = Ok b →
      advanced r s Reading s (inr (Ok (mkIssued b "hit")))
  | unreadable n m e :
      GetValidCertificate (env_store env m) (env_clock env n) (fr_key r)
        (RenewBefore (fr_profile r)) s = Err e → e ≠ ErrCacheMiss →
      advanced r s Reading s (inr (Err (StoreError e)))
  | missed n m :
      GetValidCertificate (env_store env m) (env_clock env n) (fr_key r)
        (RenewBefore (fr_profile r)) s = Err ErrCacheMiss →
      advanced r s Reading s (inl Issuing)
  | refused i i' e :
      Issue (issue_request (fr_profile r) (fr_csr r)) i = (Err e, i') →
      advanced r s Issuing s (inr (Err (IssuerError e)))
  | issued i i' b :
      Issue (issue_request (fr_profile r) (fr_csr r)) i = (Ok b, i') →
      advanced r s Issuing s (inl (Storing b))
  | put_fails_after n m b e s' :
      PutCertificate (env_store env m) (env_clock env n) (fr_key r) (Some b) s = (Some e, s') →
      advanced r s (Storing b) s' (inr (Err (StoreError e)))
  | put_succeeds n m b s' :
      PutCertificate (env_store env m) (env_clock env n) (fr_key r) (Some b) s = (None, s') →
      advanced r s (Storing b) s' (inr (Ok (mkIssued b "miss"))).

Lemma advance_advanced r st w x w' :
  advance r st w = (x, w') → advanced r (w_store w) st (w_store w') x.
Proof using.
  destruct st as [| |b]; simpl;
    unfold store_Get, store_Put, issuer_Issue, mbind, M_bind, time_Now, draw, with_world;
    cbn [w_store w_draws set_draws].
  - destruct (GetValidCertificate _ _ _ _ _) as [b|e] eqn:Eg; [intros [= <- <-]; by eapply hit|].
    case_bool_decide as He; intros [= <- <-]; [subst e; by eapply missed | by eapply unreadable].
  - destruct (Issue _ _) as [[b|e] i'] eqn:Ei; intros [= <- <-]; [by eapply issued | by eapply refused].
  - destruct (PutCertificate _ _ _ _ _) as [[e|] s'] eqn:Ep; intros [= <- <-];
      [by eapply put_fails_after | by eapply put_succeeds].
Qed.

Lemma advance_stage r st w st' w' :
  advance r st w = (inl st', w') → stage_left st = Datatypes.S (stage_left st').
Proof using.
  intros Ha%advance_advanced. by inversion Ha.
Qed.

(** *** No request is lost *)

Lemma requests_replace k f st' w fs dn st ss w' st2 ss2 :
  fs !! k = Some f →
  requests (mkGroup w' (<[k:=mkFlight (leader f) st' (waiters f)]> fs) dn st2 ss2)
  ≡ₚ requests (mkGroup w fs dn st ss).
Proof using.
  intros Hk. unfold requests. simpl.
  by rewrite (in_flight_replace _ f), (in_flight_delete _ f fs) by done.
Qed.

Lemma requests_answer k f (res : flight_result) w fs dn st ss w' st2 ss2 :
  fs !! k = Some f →
  requests (mkGroup w' (delete k fs) (dn ++ ((λ r, (r, res)) <$> leader f :: waiters f)) st2 ss2)
  ≡ₚ requests (mkGroup w fs dn st ss).
Proof using.
  intros Hk. unfold requests. cbn [g_flights g_done].
  rewrite (in_flight_delete _ f fs), fmap_app, <- list_fmap_compose by done.
  unfold compose. cbn [fst]. rewrite list_fmap_id.
  rewrite (Permutation_app_comm (fst <$> dn)), app_assoc.
  apply Permutation_app_tail, Permutation_app_comm.
Qed.

Lemma group_step_requests g g' :
  group_step g g' → ∃ new, requests g' ≡ₚ new ++ requests g.
Proof using.
  destruct 1 as [r w fs dn st ss|k f st' w w' fs dn st ss Hk Ha|k f res w w' fs dn st ss Hk Ha|].
  - exists [r]. unfold requests. simpl. by rewrite in_flight_join.
  - exists []. by apply requests_replace.
  - exists []. by apply requests_answer.
  - by exists [].
Qed.

Lemma group_steps_requests g g' :
  rtc group_step g g' → ∃ new, requests g' ≡ₚ new ++ requests g.
Proof using.
  induction 1 as [g|g g1 g' (n1 & H1)%group_step_requests _ (n2 & H2)]; [by exists []|].
  exists (n2 ++ n1). by rewrite H2, H1, app_assoc.
Qed.

(** A flight driven by one step, and a request that arrives. *)
Definition drive (k : string) (g : group) : group :=
  match g_flights g !! k with
  | None => g
  | Some f =>
      let '(x, w') := advance (leader f) (at_stage f) (g_world g) in
      match x with
      | inl st' =>
          mkGroup w' (<[k:=mkFlight (leader f) st' (waiters f)]> (g_flights g)) (g_done g)
            (g_stored g) (g_stores g ++ [w_store w'])
      | inr res =>
          mkGroup w' (delete k (g_flights g))
            (g_done g ++ ((λ r, (r, res)) <$> leader f :: waiters f))
            (g_stored g ++ stored_by f res) (g_stores g ++ [w_store w'])
      end
  end.

Definition arrive (r : flight_request) (g : group) : group :=
  mkGroup (g_world g) (join_flight r (g_flights g)) (g_done g) (g_stored g) (g_stores g).

Lemma drive_step k g f : g_flights g !! k = Some f → group_step g (drive k g).
Proof using.
  intros Hk. unfold drive. rewrite Hk. destruct g as [w fs dn st ss]. cbn [g_world] in *.
  destruct (advance _ _ w) as [[st'|res] w'] eqn:Ea; [by eapply advances | by eapply ends].
Qed.

Lemma drive_steps k g g0 : rtc group_step g0 g → rtc group_step g0 (drive k g).
Proof using.
  intros Hs. destruct (g_flights g !! k) as [f|] eqn:Hk.
  - by eapply rtc_r, drive_step.
  - unfold drive. by rewrite Hk.
Qed.

Lemma arrive_steps r g g0 : rtc group_step g0 g → rtc group_step g0 (arrive r g).
Proof using. intros Hs. eapply rtc_r; [done|]. destruct g. apply arrives. Qed.

(** A step of a flight: there is less to do. *)
Definition flight_step (g g' : group) : Prop :=
  group_step g g' ∧ requests g' ≡ₚ requests g
  ∧ work_left (g_flights g') < work_left (g_flights g).

Lemma flight_can_step g : g_flights g ≠ ∅ → ∃ g', flight_step g g'.
Proof using.
  destruct g as [w fs dn st ss]. intros (k & f & Hk)%map_choose. simpl in Hk.
  destruct (advance (leader f) (at_stage f) w) as [[st'|res] w'] eqn:Ea;
    (eexists; split; [by econstructor|]; split; [by (apply requests_replace || apply requests_answer)|]);
    simpl; rewrite (work_left_delete _ f fs) by done.
  - rewrite (work_left_replace _ f) by done. apply advance_stage in Ea. simpl. lia.
  - destruct (at_stage f); simpl; lia.
Qed.

Lemma work_left_size fs : work_left fs ≤ 3 * size fs.
Proof using.
  induction fs as [|k f fs Hk IH] using map_ind; [done|].
  rewrite work_left_insert, map_size_insert_None by done.
  destruct (at_stage f); simpl; lia.
Qed.

Lemma size_in_flight (fs : gmap string flight) : size fs ≤ length (in_flight fs).
Proof using.
  induction fs as [|k f fs Hk IH] using map_ind; [done|].
  rewrite map_size_insert_None, (Permutation_length (in_flight_insert k f fs Hk)) by done.
  rewrite length_app. simpl. lia.
Qed.

Lemma flights_end g :
  ∃ g', rtc flight_step g g' ∧ g_flights g' = ∅.
Proof using.
  remember (work_left (g_flights g)) as n eqn:En. revert g En.
  induction n as [n IH] using lt_wf_ind. intros g ->.
  destruct (decide (g_flights g = ∅)) as [He|He]; [by exists g|].
  destruct (flight_can_step g He) as (g1 & Hs & Hr & Hlt).
  destruct (IH _ Hlt g1 eq_refl) as (g' & Hg & He').
  exists g'. split; [by eapply rtc_l|done].
Qed.

Lemma flight_steps_requests g g' : rtc flight_step g g' → requests g' ≡ₚ requests g.
Proof using. induction 1 as [|g g1 g' (_ & H1 & _) _ H2]; [done|]. by rewrite H2. Qed.

(** ** Overlapping requests on a store that keeps its laws *)

Section Laws.
Context `{SL : !StoreLaws S} (served : CertificateCacheKey → Prop) (margin : Z).

(** Keys among those served, without the separator; profiles that renew within the margin. *)
Definition request_ok (r : flight_request) : Prop :=
  key_ok (fr_key r) ∧ key_good (fr_key r) ∧ served (fr_key r)
  ∧ (RenewBefore (fr_profile r) ≤ margin)%Z.

(** What the issuer gives is kept by the store, and not to renew while the
requests run. *)
Definition issues_fresh : Prop :=
  ∀ r i b i', request_ok r → Issue (issue_request (fr_profile r) (fr_csr r)) i = (Ok b, i') →
    ∀ n, storable (env_clock env n) (fr_key r) b
      ∧ (margin < time_Until (env_clock env n) (NotAfter (stored b)))%Z.

(** The store has it, whatever the instant it is read at. *)
Definition kept (s : S) (k : CertificateCacheKey) : Prop :=
  ∃ b, holds s k = Some b ∧ ∀ n, (margin < time_Until (env_clock env n) (NotAfter b))%Z.

(** A flight on its way to store has none of its key stored; it stores what the
store keeps. *)
Definition flight_ok (g : group) (k : string) (f : flight) : Prop :=
  Forall (λ r, request_ok r ∧ key_String (fr_key r) = k) (leader f :: waiters f)
  ∧ (at_stage f ≠ Reading → fr_key (leader f) ∉ fst <$> g_stored g)
  ∧ (∀ b, at_stage f = Storing b → ∀ n, storable (env_clock env n) (fr_key (leader f)) b
      ∧ (margin < time_Until (env_clock env n) (NotAfter (stored b)))%Z).

(** What a request is told comes from its own key. *)
Definition answer_ok (g : group) (a : flight_request * flight_result) : Prop :=
  match a with
  | (r, Ok (mkIssued b cache)) =>
      cache = "miss" ∧ (fr_key r, b) ∈ g_stored g
      ∨ cache = "hit" ∧ ∃ s, s ∈ g_stores g ∧ holds s (fr_key r) = Some b
  | _ => True
  end.

Record group_ok (g : group) : Prop := mkGroupOk {
  ok_store : in_order (w_store (g_world g));
  ok_current : w_store (g_world g) ∈ g_stores g;
  ok_flights : map_Forall (flight_ok g) (g_flights g);
  ok_kept : Forall (λ kb, key_good (fst kb) ∧ kept (w_store (g_world g)) (fst kb)) (g_stored g);
  ok_once : NoDup (fst <$> g_stored g);
  ok_answers : Forall (answer_ok g) (g_done g) }.

Lemma answer_ok_mono g g' a :
  g_stored g ⊆ g_stored g' → g_stores g ⊆ g_stores g' → answer_ok g a → answer_ok g' a.
Proof using.
  intros Hs Hss. destruct a as [r [[b cache]|e]]; [|done]. simpl.
  intros [[-> Hb]|(-> & s & Hin & Hh)]; [left; auto|right]. eauto.
Qed.

(** A write, one way or the other, leaves the store in order and changes its own
key at most. *)
Lemma put_keeps s io now k b s' e :
  in_order s → storable now k b → PutCertificate io now k (Some b) s = (e, s') →
  in_order s' ∧ ∀ k', key_good k' → k' ≠ k → holds s' k' = holds s k'.
Proof using.
  intros Ho Hst Hp. destruct e as [e|].
  - destruct (put_fails _ _ _ _ _ _ _ Hp) as [->|Hp']; [done|].
    by destruct (put_stores _ _ _ _ _ _ Ho Hst Hp') as (? & _ & ?).
  - by destruct (put_stores _ _ _ _ _ _ Ho Hst Hp) as (? & _ & ?).
Qed.

Lemma kept_put s io now k b s' e k' :
  in_order s → storable now k b → PutCertificate io now k (Some b) s = (e, s') →
  key_good k' → k' ≠ k → kept s k' → kept s' k'.
Proof using.
  intros Ho Hst Hp Hg Hne (b' & Hh & Hf). exists b'.
  destruct (put_keeps _ _ _ _ _ _ _ Ho Hst Hp) as [_ Hk]. by rewrite Hk.
Qed.

(** A key in the store is not missed. *)
Lemma missed_not_kept s r n m :
  in_order s → request_ok r → kept s (fr_key r) →
  GetValidCertificate (env_store env m) (env_clock env n) (fr_key r)
    (RenewBefore (fr_profile r)) s ≠ Err ErrCacheMiss.
Proof using.
  intros Ho (_ & _ & _ & Hm) (b & Hh & Hf) Hg.
  pose proof (get_miss _ _ _ _ _ _ Ho Hg Hh). specialize (Hf n). lia.
Qed.

Lemma group_ok_kept g k b : group_ok g → (k, b) ∈ g_stored g → kept (w_store (g_world g)) k.
Proof using. intros [_ _ _ Hk _ _] Hb. rewrite Forall_forall in Hk. by apply (Hk _ Hb). Qed.

(** A flight stays in order when what is stored grows by other keys. *)
Lemma flight_ok_mono g g' k f :
  (∀ key, key ∈ fst <$> g_stored g' → key ∈ fst <$> g_stored g ∨ key_String key ≠ k) →
  flight_ok g k f → flight_ok g' k f.
Proof using.
  intros Hs (Hall & Hno & Hb). split_and!; [done| |done]. intros Hr Hin.
  destruct (Hs _ Hin) as [Hin'|Hne]; [by apply (Hno Hr)|].
  apply Forall_cons in Hall as [[_ Hk] _]. done.
Qed.

Lemma arrives_ok r w fs dn st ss :
  request_ok r → group_ok (mkGroup w fs dn st ss) → group_ok (mkGroup w (join_flight r fs) dn st ss).
Proof using.
  intros Hr [? ? Hf ? ? Ha]. simpl in *. split; try done. cbn [g_flights].
  unfold join_flight. destruct (fs !! key_String (fr_key r)) as [f|] eqn:Ef;
    apply map_Forall_insert_2; try done.
  - destruct (Hf _ _ Ef) as (Hall & Hno & Hb). split_and!; [|done..]. simpl.
    rewrite app_comm_cons, Forall_app. split; [done|]. by apply Forall_singleton.
  - split_and!; simpl; [by apply Forall_singleton | done | done].
Qed.

Lemma advances_ok k f st' w w' fs dn st ss :
  issues_fresh → fs !! k = Some f → advance (leader f) (at_stage f) w = (inl st', w') →
  group_ok (mkGroup w fs dn st ss) →
  group_ok (mkGroup w' (<[k:=mkFlight (leader f) st' (waiters f)]> fs) dn st (ss ++ [w_store w'])).
Proof using.
  intros Hfresh Hk Ha%advance_advanced Hg. pose proof Hg as [Ho Hc Hf Hkept Honce Hans].
  cbn [g_world g_flights g_done g_stored g_stores] in *.
  destruct (Hf _ _ Hk) as (Hall & Hno & Hb). pose proof Hall as [[Hr _] _]%Forall_cons.
  assert (w_store w' = w_store w) as Hw by (by inversion Ha).
  split; cbn [g_world g_flights g_done g_stored g_stores]; rewrite ?Hw; try done; [set_solver| |].
  - apply map_Forall_insert_2; [|done]. split_and!; [done| |]; simpl.
    + intros _ Hin. inversion Ha as [| |n m Hm Hs| |? ? ? _ Hs| |]; subst.
      * apply list_elem_of_fmap in Hin as ([key b] & Hkey & Hin). simpl in Hkey. subst key.
        by apply (missed_not_kept _ _ n m Ho Hr (group_ok_kept _ _ _ Hg Hin)).
      * by apply Hno; [rewrite <- Hs|].
    + intros b ->. inversion Ha as [| | | |? ? ? Hi| |]; subst. by apply (Hfresh _ _ _ _ Hr Hi).
  - eapply Forall_impl; [done|]. intros a. apply answer_ok_mono; set_solver.
Qed.

(** The requests of a flight have one key. *)
Lemma flight_keys g k f r :
  flight_ok g k f → r ∈ leader f :: waiters f → fr_key r = fr_key (leader f).
Proof using.
  intros (Hall & _) Hr. pose proof Hall as [[(Hl & _) Hkl] _]%Forall_cons.
  rewrite Forall_forall in Hall. destruct (Hall _ Hr) as [(Hkr & _) Hk].
  apply key_String_inj; [done..|]. by rewrite Hk.
Qed.

(** The end of a flight, on the store: what it was, or the leader's key written. *)
Lemma ends_store g k f res w' :
  group_ok g → g_flights g !! k = Some f →
  advance (leader f) (at_stage f) (g_world g) = (inr res, w') →
  let st' := g_stored g ++ stored_by f res in
  in_order (w_store w')
  ∧ Forall (λ kb, key_good (fst kb) ∧ kept (w_store w') (fst kb)) st'
  ∧ NoDup (fst <$> st')
  ∧ (∀ key, key ∈ fst <$> st' → key ∈ fst <$> g_stored g ∨ key = fr_key (leader f)).
Proof using.
  destruct f as [l stg ws].
  intros [Ho _ Hf Hkept Honce _] Hk Ha%advance_advanced. cbn [leader at_stage] in Ha |- *.
  unfold stored_by. cbn [leader at_stage].
  destruct (Hf _ _ Hk) as (Hall & Hno & Hb). pose proof Hall as [[(_ & Hgood & _) _] _]%Forall_cons.
  assert (Hput : ∀ n io b e, stg = Storing b →
    PutCertificate io (env_clock env n) (fr_key l) (Some b) (w_store (g_world g))
      = (e, w_store w') →
    in_order (w_store w')
    ∧ Forall (λ kb, key_good (fst kb) ∧ kept (w_store w') (fst kb)) (g_stored g)).
  { intros n io b e Es Hp. destruct (Hb b Es n) as [Hst _].
    split; [by apply (put_keeps _ _ _ _ _ _ _ Ho Hst Hp)|].
    rewrite Forall_forall in Hkept |- *. intros [key b'] Hin. destruct (Hkept _ Hin) as [Hg Hkk].
    split; [done|].
    eapply kept_put; [exact Ho|exact Hst|exact Hp|done| |done].
    simpl. intros ->. apply Hno; [by rewrite Es|]. apply list_elem_of_fmap. by exists (fr_key l, b'). }
  inversion Ha as [n m b Hg|e| |e| |n m b e s' Hp|n m b s' Hp]; subst; cbn zeta;
    rewrite ?app_nil_r; try by (split_and!; auto; congruence).
  - destruct (Hput _ _ _ _ eq_refl Hp) as [? ?]. split_and!; auto.
  - destruct (Hput _ _ _ _ eq_refl Hp) as [? Hk']. rewrite fmap_app. simpl. split_and!; [done| | |].
    + apply Forall_app. split; [done|]. apply Forall_singleton. split; [done|].
      exists (stored b). split; [|apply (Hb b eq_refl)].
      by destruct (put_stores _ _ _ _ _ _ Ho (proj1 (Hb b eq_refl n)) Hp) as (_ & ? & _).
    + apply NoDup_app. split_and!; [done| |apply NoDup_singleton].
      intros key Hin ->%list_elem_of_singleton. by apply Hno.
    + set_solver.
Qed.

Lemma ends_answer g k f res w' g' :
  group_ok g → g_flights g !! k = Some f →
  advance (leader f) (at_stage f) (g_world g) = (inr res, w') →
  g_stored g' = g_stored g ++ stored_by f res → g_stores g ⊆ g_stores g' →
  Forall (answer_ok g') ((λ r, (r, res)) <$> leader f :: waiters f).
Proof using.
  destruct f as [l stg ws]. intros Hg Hk Ha%advance_advanced Hs Hss. rewrite Forall_fmap, Forall_forall. intros r Hr.
  unfold compose. simpl. destruct res as [[b cache]|e]; [|done].
  rewrite (flight_keys g k (mkFlight l stg ws) r) by (done || apply (ok_flights g Hg _ _ Hk)).
  unfold stored_by in Hs. cbn [leader at_stage] in *.
  inversion Ha as [n m b' Hget| | | | | |n m b' s' Hp]; subst; rewrite Hs.
  - right. split; [done|]. exists (w_store (g_world g)).
    split; [apply Hss, Hg | by eapply get_sound; [apply Hg|]].
  - left. set_solver.
Qed.

Lemma ends_ok k f res w w' fs dn st ss :
  fs !! k = Some f → advance (leader f) (at_stage f) w = (inr res, w') →
  group_ok (mkGroup w fs dn st ss) →
  group_ok (mkGroup w' (delete k fs) (dn ++ ((λ r, (r, res)) <$> leader f :: waiters f))
    (st ++ stored_by f res) (ss ++ [w_store w'])).
Proof using.
  intros Hk Ha Hg. destruct (ends_store _ k f res w' Hg Hk Ha) as (Ho' & Hkept' & Honce' & Hkeys).
  assert (Hnew := ends_answer _ k f res w' (mkGroup w' (delete k fs)
    (dn ++ ((λ r, (r, res)) <$> leader f :: waiters f)) (st ++ stored_by f res)
    (ss ++ [w_store w'])) Hg Hk Ha eq_refl).
  pose proof Hg as [_ _ Hf _ _ Hans]. cbn [g_world g_flights g_done g_stored g_stores] in *.
  split; cbn [g_world g_flights g_done g_stored g_stores]; try done; [set_solver| |].
  - intros k' f' [Hne Hf']%lookup_delete_Some.
    eapply flight_ok_mono; [|by apply (Hf _ _ Hf')]. simpl. intros key Hin.
    destruct (Hkeys _ Hin) as [? | ->]; [by left|right].
    destruct (Hf _ _ Hk) as (Hall & _). apply Forall_cons in Hall as [[_ Hlk] _]. by rewrite Hlk.
  - apply Forall_app. split; [|apply Hnew; set_solver].
    eapply Forall_impl; [done|]. intros a. apply answer_ok_mono; set_solver.
Qed.

Lemma group_step_ok g g' :
  issues_fresh → Forall request_ok (requests g') → group_step g g' → group_ok g → group_ok g'.
Proof using.
  intros Hfresh Hreq Hs Hg.
  destruct Hs as [r w fs dn st ss|k f st' w w' fs dn st ss Hk Ha|k f res w w' fs dn st ss Hk Ha
    |w w' fs dn st ss Hst Hi].
  - apply arrives_ok; [|done]. rewrite Forall_forall in Hreq. apply Hreq. unfold requests.
    simpl. rewrite in_flight_join. set_solver.
  - by eapply advances_ok.
  - by eapply ends_ok.
  - destruct Hg as [? ? Hf Hkept ? ?]. simpl in *. by split; cbn [g_world]; rewrite ?Hst.
Qed.

Lemma group_steps_ok g g' :
  issues_fresh → rtc group_step g g' → Forall request_ok (requests g') → group_ok g → group_ok g'.
Proof using.
  intros Hfresh. induction 1 as [|g g1 g' Hs Hss IH]; [done|]. intros Hreq Hg. apply IH; [done|].
  eapply group_step_ok; [done| |done|done].
  destruct (group_steps_requests _ _ Hss) as (new & Hn). rewrite Hn in Hreq.
  by apply Forall_app in Hreq as [_ ?].
Qed.

Lemma group_start w : in_order (w_store w) → group_ok (mkGroup w ∅ [] [] [w_store w]).
Proof using.
  intros Ho. by split; simpl; [done|set_solver|done|done|apply NoDup_nil_2|].
Qed.

(** C10: Requests that overlap, on a server whose store keeps its laws: however
they interleave with one another and with the rest of the server, and whatever
fails, each key has at most one bundle issued for it and stored; a request
answered with a bundle just issued has that very bundle stored under its own
key, and one answered from the cache a bundle that the store held for its own
key. This asks that the bundles issued are not to renew while the requests run. *)
Theorem overlapping_requests_correct (w : world) g :
  issues_fresh → in_order (w_store w) →
  rtc group_step (mkGroup w ∅ [] [] [w_store w]) g → Forall request_ok (requests g) →
  NoDup (fst <$> g_stored g)
  ∧ (∀ r b, (r, Ok (mkIssued b "miss")) ∈ g_done g → (fr_key r, b) ∈ g_stored g)
  ∧ (∀ r b, (r, Ok (mkIssued b "hit")) ∈ g_done g →
       ∃ s, s ∈ g_stores g ∧ holds s (fr_key r) = Some b).
Proof using.
  intros Hfresh Ho Hs Hreq.
  destruct (group_steps_ok _ _ Hfresh Hs Hreq (group_start w Ho)) as [_ _ _ _ Honce Hans].
  rewrite Forall_forall in Hans. split_and!; [done| |]; intros r b Hin;
    destruct (Hans _ Hin) as [[? ?]|[? ?]]; done.
Qed.

End Laws.

(** Every request is answered, once: from any moment on, the flights can be
run to their end, none is left, and the answered requests are those that were
answered or waiting, each as often as it arrived; on the way, each step of a
flight leaves less to do, at most three steps for each. *)
Theorem requests_answered (g : group) :
  ∃ g', rtc flight_step g g' ∧ g_flights g' = ∅ ∧ (fst <$> g_done g') ≡ₚ requests g
  ∧ (work_left (g_flights g) ≤ 3 * size (g_flights g)).
Proof using.
  destruct (flights_end g) as (g' & Hs & He). exists g'. split_and!; [done..| |].
  - rewrite <- (flight_steps_requests _ _ Hs). unfold requests, in_flight.
    by rewrite He, map_to_list_empty.
  - apply work_left_size.
Qed.
End Flight.

(** ** Two requests that overlap *)

#[local] Existing Instance test_crypto.
#[local] Existing Instance test_issuer.

Definition overlap_request (id : nat) : flight_request :=
  mkFlightRequest id test_cache_key api_profile_compiled "pem".

Definition no_requests : @group FileStore FileJSONLRecorder nat :=
  mkGroup (test_server "fail_open") ∅ [] [] [w_store (test_server "fail_open")].

(** The second request arrives while the first is issuing; a third, later. *)
Definition overlapped : @group FileStore FileJSONLRecorder nat :=
  let k := key_String test_cache_key in
  drive still_env k (arrive (overlap_request 3)
    (drive still_env k (drive still_env k (arrive (overlap_request 2)
      (drive still_env k (arrive (overlap_request 1) no_requests)))))).

Example overlapping_requests_correct_witness :
  (λ a, (fr_id (fst a), match snd a with Ok i => issued_cache i | Err _ => "error" end)) <$> g_done overlapped
    = [(1, "miss"); (2, "miss"); (3, "hit")]
  ∧ w_issuer (g_world overlapped) = 1
  ∧ NoDup (fst <$> g_stored overlapped).
Proof.
  split; [vm_compute; reflexivity|]. split; [vm_compute; reflexivity|].
  refine (proj1 (overlapping_requests_correct (SL := FileStore_laws) still_env
    (λ k, k = test_cache_key) (RenewBefore api_profile_compiled) (test_server "fail_open")
    overlapped _ _ _ _)).
  - intros r i b i' (_ & _ & -> & _) Hi n. injection Hi as <- _.
    split; [exact issued_storable | vm_compute; reflexivity].
  - split; [reflexivity | apply map_Forall_empty].
  - unfold overlapped. repeat (apply drive_steps || apply arrive_steps). apply rtc_refl.
  - assert (requests overlapped = overlap_request <$> [1; 2; 3]) as -> by (vm_compute; reflexivity).
    rewrite Forall_fmap, Forall_forall. intros id _.
    split_and!; [exact (proj1 test_storable) | exact (proj1 test_storable) | done | simpl; lia].
Defined.
End single_flight.
