(* ===== verification/Service.v ===== *)
(** * The broker in service

Requests handled at the same time by one broker ([internal/broker]), while the
policy watcher runs ([internal/broker/policy/manager.go]): the handler of
[Broker] cut into its stages, requests that interleave between them, the
flights of [SingleFlight], the ticks of [PolicyManager]. A run of the service
is a list of events, and the theorems hold of whatever such a list reaches. *)

From S2P Require Import Prelude GoStrings DnsName GoTime Json X509 Policy PolicySpec PolicyManager.
From S2P Require Import RateLimit Pki AuditLog Store Authn Broker BrokerSpec SingleFlight.
Import x509 policy policy_spec policy_manager ratelimit pki audit store authn broker broker_spec.
Import single_flight.
#[local] Open Scope go_scope.

Module service.

Section Service.
Context {CR : Crypto} {S A I F E : Type}.
Context `{CS : CertificateStore S} `{RO : RecorderOps E A F} `{IS : Issuer I}.
Context (env : environment (F:=F)) (dns_text : dnsname.error → string).
Context {yaml_error : Type} (yaml_decode : string → result yaml_error Config).
#[local] Existing Instance M_ret.
#[local] Existing Instance M_bind.
#[local] Notation world := (world (S:=S) (A:=A) (I:=I)).
#[local] Notation M := (M (S:=S) (A:=A) (I:=I)).
#[local] Notation group := (group (S:=S) (A:=A) (I:=I)).

(** ** The stages of a request *)

(** The steps of [issueCertificate] that are done; then the request waits for
the flight of its key, has its result, or is answered. *)
Inductive stage :=
  | Arrived
  | Authenticated (c : certificateRequestContext)
  | Parsed (c : certificateRequestContext)
  | Authorized (c : certificateRequestContext)
  | Keyed (c : certificateRequestContext)
  | Recorded (c : certificateRequestContext)
  | Passed (c : certificateRequestContext)
  | Waiting (c : certificateRequestContext) (fr : flight_request)
  | Resolved (c : certificateRequestContext) (fr : flight_request) (res : flight_result)
  | Answered (resp : response).

(** The identifier of the request and its authentication. *)
Definition receive (r : http_request) : M (option certificateRequestContext) :=
  requestID ← newID env "req_";
  match requestID with
  | Err _ => _ ← writeError 500 "internal error"; mret None
  | Ok requestID =>
      authenticateIssueRequest env dns_text (new_context requestID r) : M (option certificateRequestContext)
  end.

(** After the flight: a failure is answered, a bundle recorded and served. *)
Definition deliver (c : certificateRequestContext) (res : flight_result) : M (option stage) :=
  match res with
  | Err e =>
      refuse env dns_text c EventCertificateIssueFailed SeverityError DecisionError
        ReasonIssuerFailed e 502 "issuance failed"
  | Ok given =>
      and_then (recordIssuedResult env dns_text c given)
        (λ _, _ ← writeJSON 200 (IssueBody (newIssueResponse given)); mret None)
  end.

Definition then_at {T} (f : T → stage) (m : M (option T)) : M (option stage) :=
  x ← m; mret (f <$> x).

(** What the handler does next by itself; [None] as its result once the response
is written. *)
Definition handle (r : http_request) (st : stage) : option (M (option stage)) :=
  match st with
  | Arrived => Some (then_at Authenticated (receive r))
  | Authenticated c => Some (then_at Parsed (parseIssueRequest env dns_text c))
  | Parsed c => Some (then_at Authorized (authorizeIssueRequest env dns_text c))
  | Authorized c => Some (then_at Keyed (attachPublicKeyFingerprint env dns_text c))
  | Keyed c => Some (then_at Recorded (recordAuthorizedIssue env dns_text c))
  | Recorded c => Some (then_at Passed (checkIssueRateLimit env dns_text c))
  | Resolved c _ res => Some (deliver c res)
  | Passed _ | Waiting _ _ | Answered _ => None
  end.

(** ** The service *)

Record thread := mkThread { th_request : http_request; th_stage : stage }.

(** The server with its flights, the watcher of the policy, the requests in the
order they arrived; and, for the theorems, what was read of the policy file,
the calls the limiter granted and the orders to the issuer, with the request
each was for. *)
Record system := mkSystem {
  sy_group : group;
  sy_watch : watch;
  sy_threads : list thread;
  sy_reads : list string;
  sy_grants : list (nat * grant);
  sy_orders : list nat }.

Definition sy_world (s : system) : world := g_world (sy_group s).

Definition set_world (w : world) (g : group) : group :=
  mkGroup w (g_flights g) (g_done g) (g_stored g) (g_stores g).

Definition set_policy (p : option CompiledPolicy) (w : world) : world :=
  mkWorld (failureMode w) p (w_store w) (w_audit w) (w_limiter w) (w_issuer w)
    (w_responses w) (w_draws w).

(** The stage after a step: the response is the last one written. *)
Definition no_response : response := mkHttpResponse 0 (TextBody "").
Definition settle (x : option stage) (w : world) : stage :=
  match x with Some st => st | None => Answered (default no_response (last (w_responses w))) end.

(** What a step is granted by the limiter, at the reading of its clock. *)
Definition granted_by (i : nat) (st : stage) (x : option stage) (w : world) : list (nat * grant) :=
  match st, x with
  | Recorded c, Some _ =>
      [(i, mkGrant (env_clock env (w_draws w)) (ctx_Identity c) (ctx_ProfileName c))]
  | _, _ => []
  end.

(** What [singleflight] is called with. *)
Definition flight_of (i : nat) (w : world) (c : certificateRequestContext)
    (profile : CompiledProfile) : flight_request :=
  mkFlightRequest i (cacheKey w (ctx_Identity c) (ctx_ProfileName c) profile (ctx_PublicKeyFP c))
    profile (ctx_CSRPEM c).

(** A flight that ends gives its result to the requests that wait for it. *)
Definition resolve (ids : list nat) (res : flight_result) (t : thread) : thread :=
  match th_stage t with
  | Waiting c fr =>
      if decide (fr_id fr ∈ ids) then mkThread (th_request t) (Resolved c fr res) else t
  | _ => t
  end.

Definition landed (f : flight) (x : single_flight.stage + flight_result) (ts : list thread)
    : list thread :=
  match x with
  | inl _ => ts
  | inr res => resolve (fr_id <$> leader f :: waiters f) res <$> ts
  end.

Definition ordered (f : flight) : list nat :=
  match at_stage f with Issuing => [fr_id (leader f)] | _ => [] end.

(** A request arrives; a request goes on by itself; it calls [singleflight]; a
flight goes on; the watcher looks at the policy file. *)
Inductive event :=
  | Arrive (r : http_request)
  | Handle (i : nat)
  | Join (i : nat)
  | Fly (k : string)
  | Look (o : observation).

Definition event_step (e : event) (s : system) : option system :=
  let w := sy_world s in
  match e with
  | Arrive r =>
      Some (mkSystem (sy_group s) (sy_watch s) (sy_threads s ++ [mkThread r Arrived])
              (sy_reads s) (sy_grants s) (sy_orders s))
  | Handle i =>
      t ← sy_threads s !! i;
      m ← handle (th_request t) (th_stage t);
      let '(x, w') := m w in
      Some (mkSystem (set_world w' (sy_group s)) (sy_watch s)
              (<[i:=mkThread (th_request t) (settle x w')]> (sy_threads s))
              (sy_reads s) (sy_grants s ++ granted_by i (th_stage t) x w) (sy_orders s))
  | Join i =>
      t ← sy_threads s !! i;
      match th_stage t with
      | Passed c =>
          profile ← ctx_Profile c;
          let fr := flight_of i w c profile in
          Some (mkSystem (arrive fr (sy_group s)) (sy_watch s)
                  (<[i:=mkThread (th_request t) (Waiting c fr)]> (sy_threads s))
                  (sy_reads s) (sy_grants s) (sy_orders s))
      | _ => None
      end
  | Fly k =>
      f ← g_flights (sy_group s) !! k;
      Some (mkSystem (drive env k (sy_group s)) (sy_watch s)
              (landed f (fst (advance env (leader f) (at_stage f) w)) (sy_threads s))
              (sy_reads s) (sy_grants s) (sy_orders s ++ ordered f))
  | Look o =>
      let wt := Watch_tick yaml_decode (sy_watch s) o in
      Some (mkSystem (set_world (set_policy (Current (watched wt)) w) (sy_group s)) wt (sy_threads s)
              (sy_reads s ++ tick_reads (sy_watch s) o) (sy_grants s) (sy_orders s))
  end.

Fixpoint run (es : list event) (s : system) : option system :=
  match es with
  | [] => Some s
  | e :: es' => s' ← event_step e s; run es' s'
  end.

(** A server that starts, with the policy compiled from the content [data] of
its file. *)
Definition start (w : world) (wt : watch) (data : string) : system :=
  mkSystem (mkGroup w ∅ [] [] [w_store w]) wt [] [data] [] [].

Record fresh (perId perProf : Z) (w : world) (wt : watch) (data : string) : Prop := {
  fr_policy : w_policy w = Current (watched wt);
  fr_serves : serves yaml_decode [data] (watched wt);
  fr_limiter : w_limiter w = New perId perProf;
  fr_responses : w_responses w = [] }.

(** ** What every step of the handler keeps *)

(** Relations between the server before and after that hold of each change the
handler makes. *)
Record stable (R : relation world) : Prop := {
  st_preorder : PreOrder R;
  st_draw : ∀ w, R w (set_draws (Datatypes.S (w_draws w)) w);
  st_response : ∀ resp w, R w (add_response resp w);
  st_limiter : ∀ l w, R w (set_limiter l w);
  st_record : ∀ f e a w, w_audit w = Some a → R w (set_audit (snd (Record_ f e a)) w) }.

Section Stable.
Context (R : relation world) (HR : stable R).
#[local] Instance stable_preorder : PreOrder R := st_preorder R HR.

Definition keeps {T} (m : M T) : Prop := ∀ w, R w (snd (m w)).

Lemma keeps_ret {T} (x : T) : keeps (mret x).
Proof using HR. intros w. done. Qed.
Lemma keeps_bind {T U} (m : M T) (f : T → M U) : keeps m → (∀ x, keeps (f x)) → keeps (m ≫= f).
Proof using HR.
  intros Hm Hf w. specialize (Hm w). unfold mbind, M_bind.
  destruct (m w) as [x w1]. simpl in *. etrans; [done|apply Hf].
Qed.
Lemma keeps_draw {T} (stream : nat → T) : keeps (draw stream).
Proof using HR. intros w. exact (st_draw R HR w). Qed.
Lemma keeps_write code b : keeps (writeJSON code b).
Proof using HR. intros w. exact (st_response R HR _ w). Qed.
Lemma keeps_look {T} (f : world → T) : keeps (with_world (λ w, (f w, w))).
Proof using HR. intros w. done. Qed.

#[local] Hint Resolve keeps_ret keeps_draw keeps_write keeps_look : certplane.
#[local] Ltac keeps_all :=
  repeat first [ solve [eauto with certplane] | apply keeps_bind; [|intros ?] | case_match; simplify_eq ].

Lemma keeps_newID prefix : keeps (newID env prefix).
Proof using HR. unfold newID. keeps_all. Qed.
#[local] Hint Resolve keeps_newID : certplane.
Lemma keeps_auditEvent c t sv d rc err : keeps (auditEvent env dns_text c t sv d rc err).
Proof using HR. unfold auditEvent, newAuditEvent, time_Now. keeps_all. Qed.
#[local] Hint Resolve keeps_auditEvent : certplane.

Lemma keeps_record e : keeps (record env e).
Proof using HR.
  unfold record, normalizeAuditEvent, time_Now. keeps_all.
  intros w. unfold with_world. destruct (w_audit w) as [a|] eqn:Ha; simpl; [|done].
  destruct (Record_ _ _ a) as [err a'] eqn:Er. simpl.
  etrans; [exact (st_draw R HR w)|]. pose proof (st_record R HR (env_audit env (w_draws w)) x a (set_draws (Datatypes.S (w_draws w)) w) Ha) as Hrec.
  by rewrite Er in Hrec.
Qed.
#[local] Hint Resolve keeps_record : certplane.

Lemma keeps_refuse {T} c t sv d rc err code msg :
  keeps (refuse (T:=T) env dns_text c t sv d rc err code msg).
Proof using HR. unfold refuse, writeError. keeps_all. Qed.
#[local] Hint Resolve keeps_refuse : certplane.

Lemma keeps_barrier {T} ev (x : T) : keeps (barrier env ev x).
Proof using HR. unfold barrier, auditBarrier, writeError. keeps_all. Qed.
#[local] Hint Resolve keeps_barrier : certplane.

Lemma keeps_handle r st m : handle r st = Some m → keeps m.
Proof using HR.
  destruct st as [|c|c|c|c|c|c|c fr|c fr [given|e]|resp]; intros [= <-]; unfold then_at; simpl.
  - unfold receive, authenticateIssueRequest, writeError, time_Now. keeps_all.
  - unfold parseIssueRequest, denyBadRequest. keeps_all.
  - apply keeps_bind; [|keeps_all]. intros w. unfold authorizeIssueRequest.
    case_match; [case_match; case_match|]; try apply keeps_refuse. done.
  - unfold attachPublicKeyFingerprint, denyBadRequest. keeps_all.
  - unfold recordAuthorizedIssue. keeps_all.
  - unfold checkIssueRateLimit, time_Now. keeps_all. intros w. unfold with_world.
    destruct (Allow _ _ _ _) as [[e|] l]; [|exact (st_limiter R HR l w)].
    etrans; [exact (st_limiter R HR l w)|apply keeps_refuse].
  - unfold and_then, recordIssuedResult, issuedEvent. keeps_all.
  - apply keeps_refuse.
Qed.
End Stable.

(** The clock goes forward. *)
Lemma forward_handle r st m : handle r st = Some m → ∀ w, w_draws w ≤ w_draws (snd (m w)).
Proof using.
  intros Hm w. apply (keeps_handle (λ w w', w_draws w ≤ w_draws w')) with r st; [|done].
  constructor; simpl; [|lia..|done]. split; [by intros ?|]. intros ? ? ?. lia.
Qed.

(** ** What is known of a request at each stage *)

(** A policy compiled from something read of the file. *)
Definition served_policy (rd : list string) (pol : CompiledPolicy) : Prop :=
  ∃ now data cfg, data ∈ rd ∧ yaml_decode data = Ok cfg ∧ Compile now cfg = Ok pol.

Definition identified (r : http_request) (c : certificateRequestContext) : Prop :=
  ctx_Request c = r
  ∧ ∃ n, IdentityFromRequest (env_clock env n) (PeerCertificates r) = Ok (ctx_Identity c).

Definition well_formed (r : http_request) (c : certificateRequestContext) : Prop :=
  ctx_Request c = r ∧ ∃ req csr, carries env c req csr ∧ ctx_CSRPEM c = Request_CSRPEM req.

(** The policy in service when it was asked, or any later one, grants it. *)
Record permitted (rd : list string) (r : http_request) (c : certificateRequestContext)
    (csr : CertificateRequest) (q : CompiledProfile) : Prop := {
  pm_request : ctx_Request c = r;
  pm_presented : ∃ req, presented env r (ctx_Identity c) req csr
    ∧ ctx_ProfileName c = Request_Profile req ∧ ctx_CSRPEM c = Request_CSRPEM req;
  pm_policy : ∃ pol, served_policy rd pol
    ∧ Authorize pol (ctx_Identity c) (ctx_ProfileName c) (Some csr) = (Some q, None);
  pm_csr : ctx_CSR c = Some csr;
  pm_profile : ctx_Profile c = Some q }.

Definition entitled (rd : list string) (r : http_request) (c : certificateRequestContext)
    (q : CompiledProfile) : Prop :=
  ∃ csr, permitted rd r c csr q
    ∧ PublicKeyFingerprint (csr_PublicKey csr) = Ok (ctx_PublicKeyFP c).

(** The flight request is that of the context, as request [i]. *)
Definition linked (i : nat) (c : certificateRequestContext) (q : CompiledProfile)
    (fr : flight_request) : Prop :=
  ∃ w, fr = flight_of i w c q.

(** A request answered with a bundle has it from the flight of its own key. *)
Definition served_from (rd : list string) (dn : list (flight_request * flight_result))
    (i : nat) (r : http_request) (resp : response) : Prop :=
  ∃ c q fr given, entitled rd r c q ∧ linked i c q fr ∧ (fr, Ok given) ∈ dn
    ∧ content resp = IssueBody (newIssueResponse given).

Definition stage_ok (rd : list string) (dn : list (flight_request * flight_result))
    (i : nat) (r : http_request) (st : stage) : Prop :=
  match st with
  | Arrived => True
  | Authenticated c => identified r c
  | Parsed c => well_formed r c
  | Authorized c => ∃ csr q, permitted rd r c csr q
  | Keyed c | Recorded c | Passed c => ∃ q, entitled rd r c q
  | Waiting c fr => ∃ q, entitled rd r c q ∧ linked i c q fr
  | Resolved c fr res => (fr, res) ∈ dn ∧ ∃ q, entitled rd r c q ∧ linked i c q fr
  | Answered resp => status resp = 200%Z → served_from rd dn i r resp
  end.

Lemma served_policy_mono rd rd' pol : rd ⊆ rd' → served_policy rd pol → served_policy rd' pol.
Proof using. intros H (now & data & cfg & ? & ? & ?). exists now, data, cfg. auto. Qed.
Lemma permitted_mono rd rd' r c csr q : rd ⊆ rd' → permitted rd r c csr q → permitted rd' r c csr q.
Proof using. intros H [? ? (pol & ? & ?) ? ?]. constructor; eauto using served_policy_mono. Qed.
Lemma entitled_mono rd rd' r c q : rd ⊆ rd' → entitled rd r c q → entitled rd' r c q.
Proof using. intros H (csr & ? & ?). exists csr. eauto using permitted_mono. Qed.
#[local] Hint Resolve entitled_mono permitted_mono : certplane.

Lemma stage_ok_mono rd rd' dn dn' i r st :
  rd ⊆ rd' → dn ⊆ dn' → stage_ok rd dn i r st → stage_ok rd' dn' i r st.
Proof using.
  intros Hr Hd. destruct st; simpl; try done.
  - intros (csr & q & ?). exists csr, q. eauto with certplane.
  - intros (q & ?). exists q. eauto with certplane.
  - intros (q & ?). exists q. eauto with certplane.
  - intros (q & ?). exists q. eauto with certplane.
  - intros (q & ? & ?). exists q. eauto with certplane.
  - intros (? & q & ? & ?). split; [auto|]. exists q. eauto with certplane.
  - intros Hs H. destruct (Hs H) as (c & q & fr & given & ? & ? & ? & ?).
    exists c, q, fr, given. split_and!; eauto with certplane.
Qed.

(** ** What a stage does *)

(** The stages a request goes through by itself, in order. *)
Definition successor (st st' : stage) : Prop :=
  match st, st' with
  | Arrived, Authenticated _ | Authenticated _, Parsed _ | Parsed _, Authorized _
  | Authorized _, Keyed _ => True
  | Keyed c, Recorded c' | Recorded c, Passed c' => c' = c
  | _, _ => False
  end.

Definition limited (st : stage) (w w' : world) : Prop :=
  w_limiter w' = match st with
                 | Recorded c =>
                     snd (Allow (env_clock env (w_draws w)) (ctx_Identity c) (ctx_ProfileName c)
                            (w_limiter w))
                 | _ => w_limiter w end.

Definition over_limit (st : stage) (w : world) : Prop :=
  match st with
  | Recorded c => is_Some (fst (Allow (env_clock env (w_draws w)) (ctx_Identity c)
                                  (ctx_ProfileName c) (w_limiter w)))
  | _ => True
  end.
Definition within_limit (st : stage) (w : world) : Prop :=
  match st with
  | Recorded c => fst (Allow (env_clock env (w_draws w)) (ctx_Identity c) (ctx_ProfileName c)
                         (w_limiter w)) = None
  | _ => True
  end.

(** It ends with a response, or goes on. *)
Definition ended rd dn i r (st : stage) (w w' : world) : Prop :=
  same_store w w' ∧ limited st w w' ∧ over_limit st w
  ∧ ∃ resp, w_responses w' = w_responses w ++ [resp] ∧ stage_ok rd dn i r (Answered resp)
    ∧ match st with Resolved _ _ _ => True | _ => status resp ≠ 200%Z end.

Definition went_on rd dn i r (st st' : stage) (w w' : world) : Prop :=
  same_store w w' ∧ limited st w w' ∧ w_responses w' = w_responses w
  ∧ successor st st' ∧ stage_ok rd dn i r st' ∧ within_limit st w.

Lemma wp_then_at {T} (f : T → stage) (m : M (option T)) w Q (P : stage → world → Prop) :
  wp m w Q (λ x, P (f x)) → wp (then_at f m) w Q P.
Proof using. unfold wp, then_at, mbind, M_bind. by destruct (m w) as [[x|] w1]. Qed.

Lemma answered_ended rd dn i r st code msg (w w1 w' : world) :
  match st with Recorded _ => False | _ => True end → code ≠ 200%Z →
  audit_only w w1 → answered (mkHttpResponse code (ErrorBody msg)) w1 w' →
  ended rd dn i r st w w'.
Proof using.
  intros Hst Hc [Hs1 Hr1] [Hs2 Hr2]. pose proof (same_core_trans _ _ _ Hs1 Hs2) as Hs.
  split; [by apply same_core_store|].
  split; [destruct Hs; by destruct st|]. split; [by destruct st|].
  eexists. split; [by rewrite Hr2, Hr1|]. split; [by intros ?|by destruct st].
Qed.

Lemma answered_now rd dn i r st code msg (w w' : world) :
  answered (mkHttpResponse code (ErrorBody msg)) w w' → code ≠ 200%Z →
  match st with Recorded _ => False | _ => True end → ended rd dn i r st w w'.
Proof using. intros Ha Hc Hst. by apply (answered_ended _ _ _ _ _ code msg w w w'). Qed.

Lemma quiet_went_on rd dn i r st st' (w w' : world) :
  match st with Recorded _ => False | _ => True end →
  audit_only w w' → successor st st' → stage_ok rd dn i r st' →
  went_on rd dn i r st st' w w'.
Proof using.
  intros Hst [Hs Hr] Hsucc Hok. split; [by apply same_core_store|].
  split; [destruct Hs; by destruct st|]. split_and!; try done. by destruct st.
Qed.

Lemma receive_wp rd dn i r w :
  wp (receive r) w (ended rd dn i r Arrived w)
    (λ c w', went_on rd dn i r Arrived (Authenticated c) w w').
Proof using.
  unfold receive, newID, wp, mbind, M_bind, draw.
  set (w0 := set_draws _ w). assert (H0 : audit_only w w0) by (split; [by constructor | done]).
  destruct (env_ulid env (w_draws w)) as [id|]; simpl.
  - set (c := new_context _ r). pose proof (wp_authenticate env dns_text c w0) as Ha. unfold wp in Ha.
    destruct (authenticateIssueRequest env dns_text c w0) as [[c'|] w'].
    + destruct Ha as (H1 & n & identity & Hid & ->).
      apply quiet_went_on; [done | by transitivity w0 | done|]. split; [done|]. by exists n.
    + destruct Ha as (H1 & _). by eapply (answered_ended _ _ _ _ _ 401%Z _ w w0).
  - by eapply (answered_ended _ _ _ _ _ 500%Z _ w w0); [..|split; [by constructor|]].
Qed.

Lemma parse_wp rd dn i r c w :
  identified r c →
  wp (parseIssueRequest env dns_text c) w (ended rd dn i r (Authenticated c) w)
    (λ c' w', went_on rd dn i r (Authenticated c) (Parsed c') w w').
Proof using.
  intros [Hr Hid]. eapply wp_mono; [apply wp_parse| |].
  - intros w' (msg & Ha & _). by eapply answered_now.
  - intros c' w' (-> & text & req & csr & Hb & Hd & Hp & Hc & Hcsr & ->).
    apply quiet_went_on; [done..|]. split; [done|]. exists req, csr. split; [|done].
    subst r. split_and!; [done..|]. constructor; eauto.
Qed.

Lemma authorize_wp rd dn i r c w :
  well_formed r c → (∀ pol, w_policy w = Some pol → served_policy rd pol) →
  wp (authorizeIssueRequest env dns_text c) w (ended rd dn i r (Parsed c) w)
    (λ c' w', went_on rd dn i r (Parsed c) (Authorized c') w w').
Proof using.
  intros (Hr & req & csr & Hc & Hpem) Hpol. pose proof Hc as (Hcsr & Hname & Hpres).
  eapply wp_mono; [by apply (wp_authorize env dns_text c req csr)| |].
  - intros w' (code & msg & Ha & Href%refusal_code). eapply answered_now; [done|lia|done].
  - intros c' w' (-> & pol & q & Hp & Hauth & ->). apply quiet_went_on; [done..|].
    exists csr, q. subst r. constructor; simpl; eauto.
Qed.

Lemma permitted_carries rd r c csr q :
  permitted rd r c csr q → ∃ req, carries env c req csr.
Proof using. intros [<- (req & ? & ? & _) _ ? _]. exists req. by split_and!. Qed.

Lemma attach_wp rd dn i r c csr q w :
  permitted rd r c csr q →
  wp (attachPublicKeyFingerprint env dns_text c) w (ended rd dn i r (Authorized c) w)
    (λ c' w', went_on rd dn i r (Authorized c) (Keyed c') w w').
Proof using.
  intros Hp. destruct (permitted_carries _ _ _ _ _ Hp) as (req & Hc).
  eapply wp_mono; [by apply (wp_attach env dns_text c req csr)| |].
  - intros w' (Ha & _). by eapply answered_now.
  - intros c' w' (-> & fp & Hfp & ->). apply quiet_went_on; [done..|].
    exists q, csr. split; [|done]. by destruct Hp.
Qed.

Lemma record_wp rd dn i r c q w :
  entitled rd r c q →
  wp (recordAuthorizedIssue env dns_text c) w (ended rd dn i r (Keyed c) w)
    (λ c' w', went_on rd dn i r (Keyed c) (Recorded c') w w').
Proof using.
  intros Hq. eapply wp_mono; [apply wp_barrier_after, quiet_auditEvent| |].
  - intros w' (Ha & _). by eapply answered_now.
  - intros c' w' [-> Ha]. apply quiet_went_on; [done..|]. by exists q.
Qed.

Lemma rate_wp rd dn i r c q w :
  entitled rd r c q →
  wp (checkIssueRateLimit env dns_text c) w (ended rd dn i r (Recorded c) w)
    (λ c' w', went_on rd dn i r (Recorded c) (Passed c') w w').
Proof using.
  intros Hq. unfold checkIssueRateLimit, wp, mbind, M_bind, time_Now, draw, with_world.
  cbn [w_limiter set_draws].
  destruct (Allow _ _ _ (w_limiter w)) as [[e|] l] eqn:Ea.
  - apply wp_refuse. intros w' [Hs Hresp]. split_and!.
    + apply same_core_store in Hs. by destruct Hs.
    + destruct Hs as [_ _ _ Hl _ _]. unfold limited. by rewrite Ea.
    + unfold over_limit. by rewrite Ea.
    + eexists. split; [by rewrite Hresp|]. split; [by intros ?|done].
  - split; [by constructor|]. unfold limited, within_limit. rewrite Ea. split_and!; try done. by exists q.
Qed.

Lemma deliver_wp rd dn i r c fr res w :
  stage_ok rd dn i r (Resolved c fr res) →
  wp (deliver c res) w (ended rd dn i r (Resolved c fr res) w)
    (λ st' w', went_on rd dn i r (Resolved c fr res) st' w w').
Proof using.
  intros (Hdn & q & Hq & Hl). destruct res as [given|e]; simpl.
  - apply wp_and_then. eapply wp_mono; [apply wp_recordIssued| |].
    + intros w' [Ha _]. by eapply answered_now.
    + intros [] w1 [Hs Hr]. unfold wp, writeJSON, mbind, M_bind. simpl.
      split; [apply same_core_store in Hs; by destruct Hs|]. split; [by destruct Hs|]. split; [done|].
      eexists. split; [simpl; by rewrite Hr|]. split; [|done]. intros _. by exists c, q, fr, given.
  - apply wp_refuse. intros w' Ha. by eapply answered_now.
Qed.

Lemma handle_wp rd dn i r st m w :
  handle r st = Some m → stage_ok rd dn i r st →
  (∀ pol, w_policy w = Some pol → served_policy rd pol) →
  wp m w (ended rd dn i r st w) (λ st' w', went_on rd dn i r st st' w w').
Proof using.
  intros Hm Hst Hpol. destruct st; try discriminate Hm; injection Hm as <-; try apply wp_then_at; simpl in Hst.
  - apply receive_wp.
  - by apply parse_wp.
  - by apply authorize_wp.
  - destruct Hst as (csr & q & ?). by eapply attach_wp.
  - destruct Hst as (q & ?). by eapply record_wp.
  - destruct Hst as (q & ?). by eapply rate_wp.
  - by apply deliver_wp.
Qed.

(** ** The invariant of the service *)

Definition thread_response (t : thread) : option response :=
  match th_stage t with Answered resp => Some resp | _ => None end.
Definition thread_waiting (t : thread) : option flight_request :=
  match th_stage t with Waiting _ fr => Some fr | _ => None end.

Definition threads_ok rd dn (ts : list thread) : Prop :=
  ∀ i t, ts !! i = Some t → stage_ok rd dn i (th_request t) (th_stage t).

(** The policy in service is the manager's; what is known of each request; the
requests in flight are those that wait; the responses are those of the requests
that are answered. *)
Record sound (s : system) : Prop := mkSound {
  so_policy : w_policy (sy_world s) = Current (watched (sy_watch s));
  so_serves : serves yaml_decode (sy_reads s) (watched (sy_watch s));
  so_threads : threads_ok (sy_reads s) (g_done (sy_group s)) (sy_threads s);
  so_waiting : in_flight (g_flights (sy_group s)) ≡ₚ omap thread_waiting (sy_threads s);
  so_responses : w_responses (sy_world s) ≡ₚ omap thread_response (sy_threads s) }.

Lemma sound_served s : sound s → ∀ pol, w_policy (sy_world s) = Some pol → served_policy (sy_reads s) pol.
Proof using.
  intros [Hp Hs _ _ _] pol Hpol. rewrite Hp in Hpol.
  destruct Hs as (p & now & data & cfg & Hc & Hin & Hy & Hco). rewrite Hc in Hpol.
  injection Hpol as <-. by exists now, data, cfg.
Qed.


(** The requests that wait have the places of their threads as identifiers. *)
Lemma waiting_ids (ts : list thread) (n : nat) :
  (∀ i t fr, ts !! i = Some t → thread_waiting t = Some fr → fr_id fr = (n + i)%nat) →
  NoDup (fr_id <$> omap thread_waiting ts)
  ∧ ∀ id, id ∈ fr_id <$> omap thread_waiting ts → n ≤ id.
Proof using.
  revert n. induction ts as [|t ts IH]; intros n H; [split; [apply NoDup_nil_2|set_solver]|].
  destruct (IH (Datatypes.S n)) as [Hnd Hge].
  { intros i t' fr Hi Hw. rewrite (H (Datatypes.S i) t' fr Hi Hw). lia. }
  simpl. destruct (thread_waiting t) as [fr|] eqn:Ew; [|split; [done|]; intros id Hid; apply Hge in Hid; lia].
  rewrite fmap_cons, (H 0 t fr eq_refl Ew), Nat.add_0_r. split.
  - apply NoDup_cons. split; [|done]. intros Hin%Hge. lia.
  - intros id [->|Hid%Hge]%elem_of_cons; lia.
Qed.

Lemma sound_ids s : sound s → NoDup (fr_id <$> in_flight (g_flights (sy_group s))).
Proof using.
  intros Hs. rewrite (so_waiting s Hs). apply (waiting_ids _ 0). intros i t fr Hi Hw.
  pose proof (so_threads s Hs i t Hi) as Hok. unfold thread_waiting in Hw.
  destruct (th_stage t); try done. injection Hw as ->. destruct Hok as (q & _ & w & ->). done.
Qed.

Lemma resolve_waiting ids res (ts : list thread) :
  omap thread_waiting (resolve ids res <$> ts)
  = filter (λ fr, fr_id fr ∉ ids) (omap thread_waiting ts).
Proof using.
  induction ts as [|[r st] ts IH]; [done|]. simpl. unfold resolve at 1, thread_waiting at 1 3. simpl.
  destruct st as [| | | | | | |c fr| |]; simpl; try done. rewrite filter_cons.
  destruct (decide (fr_id fr ∈ ids)) as [H|H]; simpl.
  - rewrite decide_False by (intros Hn; by apply Hn). done.
  - rewrite decide_True by done. f_equal. exact IH.
Qed.

Lemma resolve_response ids res (ts : list thread) :
  omap thread_response (resolve ids res <$> ts) = omap thread_response ts.
Proof using.
  induction ts as [|[r st] ts IH]; [done|]. simpl. unfold resolve at 1, thread_response at 1 3. simpl.
  destruct st as [| | | | | | |c fr| |]; simpl; try done; [by case_decide|]. f_equal. exact IH.
Qed.


(** The requests of a flight that ends are those with its identifiers. *)
Lemma landed_flights k f (fs : gmap string flight) :
  fs !! k = Some f → NoDup (fr_id <$> in_flight fs) →
  in_flight (delete k fs) ≡ₚ filter (λ fr, fr_id fr ∉ fr_id <$> leader f :: waiters f) (in_flight fs).
Proof using.
  intros Hk Hnd. rewrite (in_flight_delete k f fs Hk) in Hnd |- *. set (l := leader f :: waiters f) in *.
  rewrite fmap_app in Hnd. apply NoDup_app in Hnd as (_ & Hdis & _).
  rewrite filter_app. assert (filter (λ fr, fr_id fr ∉ fr_id <$> l) l = []) as ->.
  { apply filter_none. intros fr Hfr Hn. apply Hn. by apply list_elem_of_fmap_2. }
  rewrite filter_every; [done|]. intros fr Hfr Hin. apply (Hdis _ Hin). by apply list_elem_of_fmap_2.
Qed.

(** *** Each event keeps it *)

Lemma advance_world r st (w : world) x w' :
  advance env r st w = (x, w') →
  w_policy w' = w_policy w ∧ w_responses w' = w_responses w ∧ w_limiter w' = w_limiter w
  ∧ w_draws w ≤ w_draws w'.
Proof using.
  destruct st as [| |b]; simpl;
    unfold store_Get, store_Put, issuer_Issue, mbind, M_bind, time_Now, draw, with_world;
    cbn [w_store w_draws set_draws].
  - intros [= _ <-]. simpl. split_and!; (done || lia).
  - destruct (Issue _ _) as [res i']. intros [= _ <-]. done.
  - destruct (PutCertificate _ _ _ _ _) as [e s']. intros [= _ <-]. simpl. split_and!; (done || lia).
Qed.

Lemma threads_ok_insert rd dn ts i r st t :
  threads_ok rd dn ts → ts !! i = Some t → stage_ok rd dn i r st →
  threads_ok rd dn (<[i:=mkThread r st]> ts).
Proof using.
  intros Hts Hi Hst j t'. rewrite list_lookup_insert_Some. intros [(<- & <- & _)|[_ Hj]]; [done|auto].
Qed.

Lemma threads_ok_mono rd rd' dn dn' ts :
  rd ⊆ rd' → dn ⊆ dn' → threads_ok rd dn ts → threads_ok rd' dn' ts.
Proof using. intros Hr Hd Hts i t Hi. eapply stage_ok_mono; eauto. Qed.

Lemma sound_arrive r s s' : event_step (Arrive r) s = Some s' → sound s → sound s'.
Proof using.
  intros [= <-] [Hp Hs Ht Hw Hr]. constructor; try done; simpl.
  - intros i t [Hi|[_ Hi]]%lookup_app_Some; [by apply Ht|].
    apply list_lookup_singleton_Some in Hi as [_ <-]. done.
  - by rewrite omap_app, app_nil_r.
  - by rewrite omap_app, app_nil_r.
Qed.

Lemma successor_waits st st' :
  successor st st' → thread_waiting (mkThread (mkHttpRequest None "" false "" "") st) = None
  ∧ (∀ r, thread_waiting (mkThread r st') = None ∧ thread_response (mkThread r st') = None).
Proof using. by destruct st, st'. Qed.

Lemma handles_waits r st m :
  handle r st = Some m → thread_waiting (mkThread r st) = None ∧ thread_response (mkThread r st) = None.
Proof using. by destruct st. Qed.

Lemma sound_handle i s s' : event_step (Handle i) s = Some s' → sound s → sound s'.
Proof using.
  intros He Hs. pose proof Hs as [Hp Hsv Ht Hw Hr]. simpl in He.
  apply bind_Some in He as ([r st] & Hi & He). apply bind_Some in He as (m & Hm & He). simpl in Hm, He.
  pose proof (handle_wp _ _ i _ _ _ (sy_world s) Hm (Ht _ _ Hi) (sound_served s Hs)) as Hwp.
  unfold wp in Hwp. destruct (m (sy_world s)) as [x w'] eqn:Em. injection He as <-.
  destruct (handles_waits _ _ _ Hm) as [Hnw Hnr].
  destruct (omap_insert_perm thread_waiting _ i _ (mkThread r (settle x w')) Hi) as (l1 & E1 & E1').
  destruct (omap_insert_perm thread_response _ i _ (mkThread r (settle x w')) Hi) as (l2 & E2 & E2').
  rewrite Hnw in E1. rewrite Hnr in E2.
  destruct x as [st'|]; cbn [settle] in *.
  - destruct Hwp as ([_ Hpol _ _ _] & _ & Hresp & Hsucc & Hok & _).
    destruct (successor_waits _ _ Hsucc) as [_ Hn]. destruct (Hn r) as [Hn1 Hn2].
    unfold sy_world in *. constructor; unfold sy_world; simpl; [by etrans|done|by eapply threads_ok_insert| |].
    + by rewrite E1', Hn1, Hw, E1.
    + rewrite Hresp, E2', Hn2. by rewrite Hr, E2.
  - destruct Hwp as ([_ Hpol _ _ _] & _ & _ & resp & Hresp & Hok & _). rewrite Hresp, last_snoc in *.
    unfold sy_world in *. constructor; unfold sy_world; simpl; [by etrans|done|by eapply threads_ok_insert| |].
    + by rewrite E1', Hw, E1.
    + rewrite E2', Hresp. simpl. rewrite Hr, E2.
      by rewrite Permutation_app_comm.
Qed.

Lemma sound_join i s s' : event_step (Join i) s = Some s' → sound s → sound s'.
Proof using.
  intros He Hs. pose proof Hs as [Hp Hsv Ht Hw Hr]. simpl in He.
  apply bind_Some in He as ([r st] & Hi & He). simpl in He. destruct st as [| | | | | |c| | |]; try done.
  apply bind_Some in He as (q & Hq & He). injection He as <-.
  pose proof (Ht _ _ Hi) as (q' & csr & Hperm & Hfp). pose proof (pm_profile _ _ _ _ _ Hperm) as Hq'.
  rewrite Hq in Hq'. injection Hq' as <-. set (fr := flight_of i (sy_world s) c q) in *.
  destruct (omap_insert_perm thread_waiting _ i _ (mkThread r (Waiting c fr)) Hi) as (l1 & E1 & E1').
  destruct (omap_insert_perm thread_response _ i _ (mkThread r (Waiting c fr)) Hi) as (l2 & E2 & E2').
  constructor; unfold sy_world in *; simpl; try done.
  - eapply threads_ok_insert; [done..|]. exists q. split; [by exists csr|]. by exists (g_world (sy_group s)).
  - rewrite in_flight_join, E1', Hw, E1. done.
  - by rewrite E2', Hr, E2.
Qed.

Lemma threads_ok_landed rd dn f x ts :
  threads_ok rd dn ts →
  (∀ res fr, x = inr res → fr ∈ leader f :: waiters f → (fr, res) ∈ dn) →
  (∀ i t fr, ts !! i = Some t → thread_waiting t = Some fr →
     fr_id fr ∈ fr_id <$> leader f :: waiters f → fr ∈ leader f :: waiters f) →
  threads_ok rd dn (landed f x ts).
Proof using.
  intros Hts Hdn Hin i t Hi. destruct x as [st'|res]; [by apply Hts|].
  unfold landed in Hi. apply list_lookup_fmap_Some in Hi as ([r st] & -> & Hi).
  pose proof (Hts _ _ Hi) as Hok. pose proof (λ fr, Hin _ _ fr Hi) as Hin'. unfold resolve. simpl in *.
  destruct st as [| | | | | | |c fr| |]; try done. case_decide as Hd; [|done].
  split; [|done]. eapply Hdn; [done|]. by apply Hin'.
Qed.


Lemma in_flight_elem k f (fs : gmap string flight) fr :
  fs !! k = Some f → fr ∈ leader f :: waiters f → fr ∈ in_flight fs.
Proof using. intros Hk Hfr. rewrite (in_flight_delete k f fs Hk). apply elem_of_app. by left. Qed.

Lemma waiting_elem (ts : list thread) i t fr :
  ts !! i = Some t → thread_waiting t = Some fr → fr ∈ omap thread_waiting ts.
Proof using. intros Hi Hw. apply list_elem_of_omap. exists t. split; [by eapply list_elem_of_lookup_2|done]. Qed.

(** The request of a flight that a thread waits with, by its identifier. *)
Lemma sound_flight_request s k f i t fr :
  sound s → g_flights (sy_group s) !! k = Some f →
  sy_threads s !! i = Some t → thread_waiting t = Some fr →
  fr_id fr ∈ fr_id <$> leader f :: waiters f → fr ∈ leader f :: waiters f.
Proof using.
  intros Hs Hk Hi Hw (fr' & Hid & Hin)%list_elem_of_fmap.
  rewrite (nodup_fmap_eq fr_id (in_flight (g_flights (sy_group s))) fr fr'); try done.
  - by apply sound_ids.
  - rewrite (so_waiting s Hs). by eapply waiting_elem.
  - by eapply in_flight_elem.
Qed.

Lemma sound_fly k s s' : event_step (Fly k) s = Some s' → sound s → sound s'.
Proof using.
  intros He Hs. pose proof Hs as [Hp Hsv Ht Hw Hr]. simpl in He.
  apply bind_Some in He as (f & Hk & He). injection He as <-.
  destruct (advance env (leader f) (at_stage f) (sy_world s)) as [x w'] eqn:Ea.
  pose proof (advance_world _ _ _ _ _ Ea) as (Hpol & Hresp & _ & _).
  unfold sy_world in *. unfold drive. rewrite Hk, Ea. cbn [fst].
  assert (Hwait := λ i t fr, sound_flight_request s k f i t fr Hs Hk).
  destruct x as [st'|res]; constructor; unfold sy_world; simpl; try (by rewrite ?Hpol, ?Hresp).
  - by rewrite (in_flight_replace _ f), <- (in_flight_delete _ f) by done.
  - apply (threads_ok_landed _ _ f (inr res)).
    + eapply threads_ok_mono; [done| |done]. set_solver.
    + intros res' fr [= <-] Hfr. apply elem_of_app. right.
      exact (list_elem_of_fmap_2 (λ r, (r, res)) _ fr Hfr).
    + intros. by eapply Hwait.
  - rewrite (landed_flights k f) by (done || by apply sound_ids).
    by rewrite Hw, resolve_waiting.
  - by rewrite resolve_response, Hresp.
Qed.

Lemma sound_look o s s' : event_step (Look o) s = Some s' → sound s → sound s'.
Proof using.
  intros [= <-] [Hp Hsv Ht Hw Hr]. constructor; simpl; try done.
  - by apply Watch_tick_serves.
  - eapply threads_ok_mono; [|done|done]. set_solver.
Qed.

Lemma sound_step e s s' : event_step e s = Some s' → sound s → sound s'.
Proof using.
  destruct e; [apply sound_arrive | apply sound_handle | apply sound_join | apply sound_fly | apply sound_look].
Qed.

(** A property every event keeps holds of every run. *)
Lemma run_invariant (P : system → Prop) es s s' :
  (∀ e s1 s2, e ∈ es → event_step e s1 = Some s2 → P s1 → P s2) → run es s = Some s' → P s → P s'.
Proof using.
  revert s. induction es as [|e es IH]; intros s HP Hrun Hs; [by injection Hrun as <-|].
  apply bind_Some in Hrun as (s1 & He & Hrun). apply (IH s1); [|done|eapply HP; [left|done|done]].
  intros e' s2 s3 Hin. apply HP. by right.
Qed.

Lemma sound_start perId perProf w wt data :
  fresh perId perProf w wt data → sound (start w wt data).
Proof using. intros [Hp Hs _ Hr]. constructor; simpl; try done. unfold sy_world. simpl. by rewrite Hr. Qed.

(** ** The flights of the service are those of [SingleFlight] *)

Lemma event_group e s s' :
  event_step e s = Some s' → sound s → rtc (group_step env) (sy_group s) (sy_group s').
Proof using.
  intros He Hs. destruct e as [r|i|i|k|o].
  - injection He as <-. done.
  - simpl in He. apply bind_Some in He as ([r st] & Hi & He). apply bind_Some in He as (m & Hm & He).
    pose proof (handle_wp _ _ i _ _ _ (sy_world s) Hm (so_threads s Hs _ _ Hi) (sound_served s Hs)) as Hwp.
    unfold wp in Hwp. destruct (m (sy_world s)) as [x w'] eqn:Em. injection He as <-.
    apply rtc_once. simpl. unfold sy_world, set_world in *. destruct (sy_group s) as [w fs dn st' ss].
    simpl in *. apply works; destruct x; by destruct Hwp as ([] & _).
  - simpl in He. apply bind_Some in He as ([r st] & Hi & He). simpl in He.
    destruct st; try done. apply bind_Some in He as (q & _ & He). injection He as <-.
    by apply arrive_steps.
  - simpl in He. apply bind_Some in He as (f & _ & He). injection He as <-. by apply drive_steps.
  - injection He as <-. apply rtc_once. simpl. unfold set_world, sy_world.
    destruct (sy_group s). by apply works.
Qed.

Lemma run_group perId perProf es w wt data s' :
  fresh perId perProf w wt data → run es (start w wt data) = Some s' →
  sound s' ∧ rtc (group_step env) (mkGroup w ∅ [] [] [w_store w]) (sy_group s').
Proof using.
  intros Hf Hrun. apply (run_invariant (λ s, sound s ∧ rtc (group_step env) (mkGroup w ∅ [] [] [w_store w])
    (sy_group s)) es (start w wt data)); [|done|split; [by eapply sound_start|done]].
  intros e s1 s2 _ He [Hs Hg]. split; [by eapply sound_step|]. etrans; [done|]. by eapply event_group.
Qed.
End Service.
End service.
