(* ===== verification/ServiceSpec.v ===== *)
(** * Properties of the broker in service

What holds over the whole life of a broker, of the runs of [Service]: the grants
of the limiter and the orders to the issuer, the requests that come to their
answer, where the bundles come from, one request alone. *)

From S2P Require Import Prelude GoStrings DnsName GoTime Json X509 Policy PolicySpec PolicyManager.
From S2P Require Import RateLimit Pki AuditLog Store Authn Broker BrokerSpec SingleFlight Service.
Import x509 policy policy_spec policy_manager ratelimit pki audit store authn broker broker_spec.
Import single_flight service.
#[local] Open Scope go_scope.

Module service_spec.

(** Distinct requests have distinct grants. *)
Lemma granted_count (Q : grant → Prop) `{!∀ g, Decision (Q g)} (gr : list (nat * grant)) T l :
  NoDup (fst <$> gr) → NoDup l →
  (∀ i, i ∈ l → ∃ g, (i, g) ∈ gr ∧ Q g ∧ (T - Hour < at_time g ≤ T)%Z) →
  length l ≤ window_count (at_time <$> filter Q (snd <$> gr)) T.
Proof.
  intros Hone Hnd Hl. unfold window_count.
  set (P := λ ig : nat * grant, Q (snd ig) ∧ (T - Hour < at_time (snd ig) ≤ T)%Z).
  transitivity (length (filter P gr)).
  - rewrite <- (length_fmap fst (filter P gr)). apply submseteq_length.
    apply NoDup_submseteq; [done|]. intros i Hi. destruct (Hl i Hi) as (g & Hin & Ht).
    apply list_elem_of_fmap. exists (i, g). split; [done|]. by apply list_elem_of_filter.
  - clear Hone Hl. induction gr as [|[i g] gr IH]; [done|]. rewrite fmap_cons. simpl snd.
    destruct (decide (P (i, g))) as [[Hq Ht]|Hn].
    + rewrite filter_cons_True by done. rewrite (filter_cons_True _ g) by done.
      rewrite fmap_cons, filter_cons_True by (simpl in Ht; lia). simpl. lia.
    + rewrite filter_cons_False by done. destruct (decide (Q g)) as [Hq|Hq].
      * rewrite (filter_cons_True _ g), fmap_cons, filter_cons_False; [done| |done].
        intros Ht. apply Hn. split; [done|]. simpl. lia.
      * by rewrite (filter_cons_False _ g).
Qed.

Section Service.
Context {CR : Crypto} {S A I F E : Type}.
Context `{CS : CertificateStore S} `{RO : RecorderOps E A F} `{IS : Issuer I}.
Context (env : environment (F:=F)) (dns_text : dnsname.error → string).
Context {yaml_error : Type} (yaml_decode : string → result yaml_error Config).
#[local] Existing Instance M_ret.
#[local] Existing Instance M_bind.
#[local] Notation world := (world (S:=S) (A:=A) (I:=I)).
#[local] Notation M := (M (S:=S) (A:=A) (I:=I)).
#[local] Hint Resolve entitled_mono permitted_mono : certplane.
#[local] Notation receive := (receive (S:=S) (A:=A) (I:=I) (E:=E) env dns_text).
#[local] Notation deliver := (deliver (S:=S) (A:=A) (I:=I) (E:=E) env dns_text).
#[local] Notation then_at := (then_at (S:=S) (A:=A) (I:=I)).
#[local] Notation handle := (handle (S:=S) (A:=A) (I:=I) (E:=E) env dns_text).
#[local] Notation system := (system (S:=S) (A:=A) (I:=I)).
#[local] Notation sy_world := (sy_world (S:=S) (A:=A) (I:=I)).
#[local] Notation settle := (settle (S:=S) (A:=A) (I:=I)).
#[local] Notation granted_by := (granted_by (S:=S) (A:=A) (I:=I) env).
#[local] Notation flight_of := (flight_of (S:=S) (A:=A) (I:=I)).
#[local] Notation event_step := (event_step (S:=S) (A:=A) (I:=I) (E:=E) env dns_text yaml_decode).
#[local] Notation run := (run (S:=S) (A:=A) (I:=I) (E:=E) env dns_text yaml_decode).
#[local] Notation start := (start (S:=S) (A:=A) (I:=I)).
#[local] Notation fresh := (fresh (S:=S) (A:=A) (I:=I) yaml_decode).
#[local] Notation forward_handle := (forward_handle (S:=S) (A:=A) (I:=I) (E:=E) env dns_text).
#[local] Notation entitled := (entitled env yaml_decode).
#[local] Notation linked := (linked (S:=S) (A:=A) (I:=I)).
#[local] Notation stage_ok := (stage_ok (S:=S) (A:=A) (I:=I) env yaml_decode).
#[local] Notation limited := (limited (S:=S) (A:=A) (I:=I) env).
#[local] Notation within_limit := (within_limit (S:=S) (A:=A) (I:=I) env).
#[local] Notation ended := (ended (S:=S) (A:=A) (I:=I) env yaml_decode).
#[local] Notation went_on := (went_on (S:=S) (A:=A) (I:=I) env yaml_decode).
#[local] Notation handle_wp := (handle_wp (S:=S) (A:=A) (I:=I) (E:=E) env dns_text yaml_decode).
#[local] Notation sound := (sound (S:=S) (A:=A) (I:=I) env yaml_decode).
#[local] Notation sound_served := (sound_served (S:=S) (A:=A) (I:=I) env yaml_decode).
#[local] Notation sound_ids := (sound_ids (S:=S) (A:=A) (I:=I) env yaml_decode).
#[local] Notation advance_world := (advance_world (S:=S) (A:=A) (I:=I) env).
#[local] Notation sound_step := (sound_step (S:=S) (A:=A) (I:=I) (E:=E) env dns_text yaml_decode).
#[local] Notation run_invariant := (run_invariant (S:=S) (A:=A) (I:=I) (E:=E) env dns_text yaml_decode).
#[local] Notation sound_start := (sound_start (S:=S) (A:=A) (I:=I) env yaml_decode).
#[local] Notation so_policy := (so_policy (S:=S) (A:=A) (I:=I) env yaml_decode).
#[local] Notation so_serves := (so_serves (S:=S) (A:=A) (I:=I) env yaml_decode).
#[local] Notation so_threads := (so_threads (S:=S) (A:=A) (I:=I) env yaml_decode).
#[local] Notation so_waiting := (so_waiting (S:=S) (A:=A) (I:=I) env yaml_decode).
#[local] Notation so_responses := (so_responses (S:=S) (A:=A) (I:=I) env yaml_decode).
#[local] Notation pm_request := (pm_request env yaml_decode).
#[local] Notation pm_presented := (pm_presented env yaml_decode).
#[local] Notation pm_policy := (pm_policy env yaml_decode).
#[local] Notation pm_csr := (pm_csr env yaml_decode).
#[local] Notation pm_profile := (pm_profile env yaml_decode).

(** ** The grants of the limiter *)

(** The name in a client certificate has no zero byte. *)
Definition plain_request (r : http_request) : Prop :=
  ∀ cert rest, PeerCertificates r = Some (Some cert :: rest) → no_nul (cert_CommonName cert).

(** A request has its grant once it is admitted, and none before. *)
Definition grant_ok (gr : list (nat * grant)) (i : nat) (t : thread) : Prop :=
  match th_stage t with
  | Passed c | Waiting c _ | Resolved c _ _ =>
      ∃ time, (i, mkGrant time (ctx_Identity c) (ctx_ProfileName c)) ∈ gr
  | Answered resp => status resp = 200%Z →
      ∃ time id prof n, (i, mkGrant time id prof) ∈ gr
        ∧ IdentityFromRequest (env_clock env n) (PeerCertificates (th_request t)) = Ok id
  | _ => i ∉ fst <$> gr
  end.

Record metered (perId perProf : Z) (s : system) : Prop := mkMetered {
  me_limiter : implements (env_clock env (w_draws (sy_world s))) perId perProf
                 (w_limiter (sy_world s)) (snd <$> sy_grants s);
  me_within : within perId perProf (snd <$> sy_grants s);
  me_once : NoDup (fst <$> sy_grants s);
  me_known : Forall (λ i, i < length (sy_threads s)) (fst <$> sy_grants s);
  me_threads : ∀ i t, sy_threads s !! i = Some t → grant_ok (sy_grants s) i t;
  me_plain : Forall (λ t, plain_request (th_request t)) (sy_threads s) }.

Lemma entitled_identity rd r c q :
  entitled rd r c q →
  ∃ n, IdentityFromRequest (env_clock env n) (PeerCertificates r) = Ok (ctx_Identity c).
Proof using. intros (csr & [_ (req & [? _ _ _] & _) _ _ _] & _). done. Qed.

Lemma plain_identity rd r c q : plain_request r → entitled rd r c q → no_nul (ctx_Identity c).
Proof using.
  intros Hp (n & (cert & rest & Hc & Hcc)%IdentityFromRequest_Ok)%entitled_identity.
  rewrite <- (cc_name _ _ _ Hcc). by eapply Hp.
Qed.

(** A grant that is added is of the request that is handled. *)
Lemma grant_ok_other gr gr' i t :
  (∀ g, (i, g) ∈ gr' ↔ (i, g) ∈ gr) → grant_ok gr i t → grant_ok gr' i t.
Proof using.
  intros Hg. assert (Hn : i ∉ fst <$> gr → i ∉ fst <$> gr').
  { intros Hi ([j g] & -> & Hin)%list_elem_of_fmap. apply Hi, list_elem_of_fmap. exists (j, g).
    split; [done|]. by apply Hg. }
  unfold grant_ok. destruct (th_stage t); try done.
  - intros [time H]. exists time. by apply Hg.
  - intros [time H]. exists time. by apply Hg.
  - intros [time H]. exists time. by apply Hg.
  - intros H H2. destruct (H H2) as (time & id & prof & n & ? & ?). exists time, id, prof, n.
    split; [by apply Hg|done].
Qed.

(** What a step does to the limiter, in the terms of the log. *)
Lemma limited_implements perId perProf st (w w' : world) log :
  limited st w w' → match st with Recorded c => no_nul (ctx_Identity c) | _ => True end →
  implements (env_clock env (w_draws w)) perId perProf (w_limiter w) log →
  within perId perProf log →
  let log' := match st with
              | Recorded c => snd (spec_allow perId perProf (env_clock env (w_draws w))
                                     (ctx_Identity c) (ctx_ProfileName c) log)
              | _ => log end in
  implements (env_clock env (w_draws w)) perId perProf (w_limiter w') log'
  ∧ within perId perProf log'
  ∧ match st with
    | Recorded c => fst (spec_allow perId perProf (env_clock env (w_draws w)) (ctx_Identity c)
                           (ctx_ProfileName c) log)
        = fst (Allow (env_clock env (w_draws w)) (ctx_Identity c) (ctx_ProfileName c) (w_limiter w))
    | _ => True end.
Proof using.
  intros Hl Hn Hi Hw. unfold limited in Hl. rewrite Hl. destruct st; try done. cbv zeta.
  destruct (Allow_implements _ _ _ _ _ _ (ctx_ProfileName c) Hn Hi) as [Hr Hi'].
  split_and!; [done|by apply spec_allow_within|done].
Qed.

(** What a step of request [i] adds to the grants. *)
Lemma handled_grants perId perProf rd dn i r st (x : option stage) (w w' : world) (log : list grant) :
  match x with
  | Some st' => went_on rd dn i r st st' w w'
  | None => ended rd dn i r st w w'
  end →
  match st with
  | Recorded c => fst (spec_allow perId perProf (env_clock env (w_draws w)) (ctx_Identity c)
                         (ctx_ProfileName c) log)
      = fst (Allow (env_clock env (w_draws w)) (ctx_Identity c) (ctx_ProfileName c) (w_limiter w))
  | _ => True end →
  log ++ (snd <$> granted_by i st x w)
  = match st with
    | Recorded c => snd (spec_allow perId perProf (env_clock env (w_draws w))
                           (ctx_Identity c) (ctx_ProfileName c) log)
    | _ => log end.
Proof using.
  intros Hx Hl. unfold granted_by. destruct st; try (by rewrite app_nil_r).
  rewrite spec_allow_log, Hl. destruct x as [st'|].
  - destruct Hx as (_ & _ & _ & _ & _ & Hw). unfold within_limit in Hw. by rewrite Hw.
  - destruct Hx as (_ & _ & [e He] & _). by rewrite He.
Qed.

(** The thread of the step itself. *)
Lemma handled_grant_ok rd dn i r st (x : option stage) (w w' : world) gr :
  match x with
  | Some st' => went_on rd dn i r st st' w w'
  | None => ended rd dn i r st w w'
  end →
  stage_ok rd dn i r st → grant_ok gr i (mkThread r st) →
  grant_ok (gr ++ granted_by i st x w) i (mkThread r (settle x w')).
Proof using.
  intros Hx Hok Hg. destruct x as [st'|].
  - destruct Hx as (_ & _ & _ & Hsucc & _). unfold grant_ok, granted_by in *. simpl in *.
    destruct st, st'; try done; simpl in Hsucc; rewrite ?app_nil_r; try done.
    subst. exists (env_clock env (w_draws w)). apply elem_of_app. right. by left.
  - destruct Hx as (_ & _ & _ & resp & Hr & _ & Hst). unfold settle. rewrite Hr, last_snoc.
    unfold grant_ok. simpl. intros H2. destruct st; try done.
    unfold granted_by. rewrite app_nil_r. destruct Hok as (_ & q & Hq & _).
    destruct Hg as [time Hg]. destruct (entitled_identity _ _ _ _ Hq) as [n Hn].
    by exists time, (ctx_Identity c), (ctx_ProfileName c), n.
Qed.

Section Limits.
Context (perId perProf : Z) (clock_forward : ∀ n m, n ≤ m → (env_clock env n ≤ env_clock env m)%Z).

Lemma metered_handle i s s' :
  event_step (Handle i) s = Some s' → sound s → metered perId perProf s → metered perId perProf s'.
Proof using clock_forward.
  intros He Hs [Hl Hw Hone Hkn Ht Hp]. simpl in He.
  apply bind_Some in He as ([r st] & Hi & He). apply bind_Some in He as (m & Hm & He). simpl in Hm, He.
  pose proof (handle_wp _ _ i _ _ _ (sy_world s) Hm (so_threads s Hs _ _ Hi) (sound_served s Hs)) as Hwp.
  pose proof (forward_handle _ _ _ Hm (sy_world s)) as Hfw. pose proof (so_threads s Hs _ _ Hi) as Hok.
  assert (Hpr : plain_request r) by (rewrite Forall_lookup in Hp; apply (Hp _ _ Hi)).
  unfold wp in Hwp. destruct (m (sy_world s)) as [x w'] eqn:Em. injection He as <-. simpl in Hfw.
  assert (Hx : match x with
    | Some st' => went_on (sy_reads s) (g_done (sy_group s)) i r st st' (sy_world s) w'
    | None => ended (sy_reads s) (g_done (sy_group s)) i r st (sy_world s) w' end) by (by destruct x).
  assert (Hlim : limited st (sy_world s) w') by (destruct x; apply Hx).
  destruct (limited_implements perId perProf st (sy_world s) w' (snd <$> sy_grants s) Hlim)
    as (Hl' & Hw' & Hsame); [|done..|].
  { destruct st; try done. destruct Hok as (q & Hq). by eapply plain_identity. }
  rewrite <- (handled_grants _ _ _ _ i _ _ x _ w' _ Hx Hsame) in Hl', Hw'.
  constructor; unfold sy_world; simpl.
  - rewrite fmap_app. eapply implements_later; [|done]. by apply clock_forward.
  - by rewrite fmap_app.
  - rewrite fmap_app. unfold granted_by. destruct st; try (by rewrite app_nil_r).
    destruct x; [|by rewrite app_nil_r]. apply NoDup_app. split_and!; [done| |apply NoDup_singleton].
    intros j Hj ->%list_elem_of_singleton. by apply (Ht _ _ Hi).
  - rewrite fmap_app, Forall_app, length_insert. split; [done|].
    apply lookup_lt_Some in Hi. unfold granted_by. by destruct st, x; repeat constructor.
  - intros j t. rewrite list_lookup_insert_Some. intros [(<- & <- & _)|[Hne Hj]].
    + eapply handled_grant_ok; [done..|]. by apply (Ht _ _ Hi).
    + eapply grant_ok_other; [|by apply Ht]. intros g. rewrite elem_of_app. split; [|by left].
      intros [?|Hin]; [done|]. unfold granted_by in Hin. destruct st, x; try set_solver.
  - by apply Forall_insert.
Qed.

Lemma metered_arrive r s s' :
  plain_request r → event_step (Arrive r) s = Some s' → metered perId perProf s → metered perId perProf s'.
Proof using.
  intros Hr [= <-] [Hl Hw Hone Hkn Ht Hp]. constructor; try done; simpl.
  - eapply Forall_impl; [done|]. intros j. cbv beta. rewrite length_app. lia.
  - intros i t [Hi|[Hge Hi]]%lookup_app_Some; [by apply Ht|].
    apply list_lookup_singleton_Some in Hi as [Hi <-]. unfold grant_ok. simpl.
    intros Hin. rewrite Forall_forall in Hkn. specialize (Hkn _ Hin). simpl in Hkn. lia.
  - apply Forall_app. split; [done|]. by apply Forall_singleton.
Qed.

Lemma metered_join i s s' :
  event_step (Join i) s = Some s' → metered perId perProf s → metered perId perProf s'.
Proof using.
  intros He [Hl Hw Hone Hkn Ht Hp]. simpl in He.
  apply bind_Some in He as ([r st] & Hi & He). simpl in He. destruct st as [| | | | | |c| | |]; try done.
  apply bind_Some in He as (q & Hq & He). injection He as <-.
  constructor; try done; unfold sy_world in *; simpl.
  - by rewrite length_insert.
  - intros j t. rewrite list_lookup_insert_Some. intros [(<- & <- & _)|[_ Hj]]; [|by apply Ht].
    exact (Ht _ _ Hi).
  - apply Forall_insert; [done|]. rewrite Forall_lookup in Hp. apply (Hp _ _ Hi).
Qed.

Lemma resolve_request ids res t : th_request (resolve ids res t) = th_request t.
Proof using. unfold resolve. destruct (th_stage t); try done. by case_decide. Qed.

Lemma grant_ok_resolve gr i ids res t : grant_ok gr i t → grant_ok gr i (resolve ids res t).
Proof using. unfold grant_ok, resolve. destruct t as [r []]; simpl; try done. by case_decide. Qed.

Lemma metered_fly k s s' :
  event_step (Fly k) s = Some s' → metered perId perProf s → metered perId perProf s'.
Proof using clock_forward.
  intros He [Hl Hw Hone Hkn Ht Hp]. simpl in He. apply bind_Some in He as (f & Hk & He). injection He as <-.
  destruct (advance env (leader f) (at_stage f) (sy_world s)) as [x w'] eqn:Ea.
  pose proof (advance_world _ _ _ _ _ Ea) as (_ & _ & Hlim & Hdr). unfold sy_world in *. cbn [fst].
  assert (Hw' : g_world (drive env k (sy_group s)) = w').
  { unfold drive. rewrite Hk, Ea. by destruct x. }
  constructor; unfold sy_world; cbn [sy_group sy_grants sy_threads]; rewrite ?Hw'; try done.
  - rewrite Hlim. eapply implements_later; [|done]. by apply clock_forward.
  - destruct x; [done|]. simpl. by rewrite length_fmap.
  - intros i t Hi. destruct x as [st'|res]; [by apply Ht|]. simpl in Hi.
    apply list_lookup_fmap_Some in Hi as (t' & -> & Hi). by apply grant_ok_resolve, Ht.
  - destruct x as [st'|res]; [done|]. simpl. apply Forall_fmap. eapply Forall_impl; [done|].
    intros t Hpt. unfold compose. by rewrite resolve_request.
Qed.

Lemma metered_step e s s' :
  match e with Arrive r => plain_request r | _ => True end →
  event_step e s = Some s' → sound s → metered perId perProf s → metered perId perProf s'.
Proof using clock_forward.
  intros He Hstep Hs Hm. destruct e as [r|i|i|k|o].
  - by eapply metered_arrive.
  - by eapply metered_handle.
  - by eapply metered_join.
  - by eapply metered_fly.
  - injection Hstep as <-. destruct Hm. by constructor.
Qed.

Lemma metered_start w wt data : fresh perId perProf w wt data → metered perId perProf (start w wt data).
Proof using.
  intros [_ _ Hl _]. constructor; simpl; try done; unfold sy_world; simpl.
  - rewrite Hl. apply New_implements.
  - split; intros Hpos; intros; unfold window_count; simpl; lia.
  - apply NoDup_nil_2.
Qed.
End Limits.

(** *** The orders to the issuer *)

(** Requests that order have joined; a flight that may still order has not. *)
Definition joined (t : thread) : Prop :=
  match th_stage t with Waiting _ _ | Resolved _ _ _ | Answered _ => True | _ => False end.

Record accounted (s : system) : Prop := mkAccounted {
  ac_once : NoDup (sy_orders s);
  ac_joined : ∀ i, i ∈ sy_orders s → i ∈ fst <$> sy_grants s
                ∧ ∃ t, sy_threads s !! i = Some t ∧ joined t;
  ac_flights : ∀ k f, g_flights (sy_group s) !! k = Some f →
    match at_stage f with Storing _ => True | _ => fr_id (leader f) ∉ sy_orders s end }.

(** The thread that waits with a request of a flight. *)
Lemma in_flight_thread s fr :
  sound s → fr ∈ in_flight (g_flights (sy_group s)) →
  ∃ t c, sy_threads s !! fr_id fr = Some t ∧ th_stage t = Waiting c fr.
Proof using.
  intros Hs Hin. rewrite (so_waiting s Hs) in Hin.
  apply list_elem_of_omap in Hin as ([r st] & Hin & Hw). apply list_elem_of_lookup in Hin as [i Hi].
  unfold thread_waiting in Hw. simpl in Hw. destruct st as [| | | | | | |c fr'| |]; try done.
  injection Hw as ->. pose proof (so_threads s Hs i _ Hi) as (q & _ & w & Hfr). simpl in Hfr.
  assert (fr_id fr = i) as -> by (by rewrite Hfr). by exists (mkThread r (Waiting c fr)), c.
Qed.

Lemma accounted_step_other s s' :
  sy_orders s' = sy_orders s → g_flights (sy_group s') = g_flights (sy_group s) →
  (∀ i, i ∈ fst <$> sy_grants s → i ∈ fst <$> sy_grants s') →
  (∀ i t, sy_threads s !! i = Some t → joined t → ∃ t', sy_threads s' !! i = Some t' ∧ joined t') →
  accounted s → accounted s'.
Proof using.
  intros Ho Hf Hg Ht [Hone Hj Hfl]. constructor; rewrite ?Ho, ?Hf; [done| |done].
  intros i Hi. destruct (Hj i Hi) as (? & t & Hti & Hjt). eauto.
Qed.

Lemma accounted_handle i s s' :
  event_step (Handle i) s = Some s' → sound s → accounted s → accounted s'.
Proof using.
  intros He Hs. simpl in He.
  apply bind_Some in He as ([r st] & Hi & He). apply bind_Some in He as (m & Hm & He). simpl in Hm, He.
  pose proof (handle_wp _ _ i _ _ _ (sy_world s) Hm (so_threads s Hs _ _ Hi) (sound_served s Hs)) as Hwp.
  unfold wp in Hwp. destruct (m (sy_world s)) as [x w'] eqn:Em. injection He as <-.
  intros Ha. apply (accounted_step_other s); try done; simpl.
  - intros j Hj. rewrite fmap_app. set_solver.
  - intros j t Hj Hjt. destruct (decide (i = j)) as [<-|Hne].
    + rewrite list_lookup_insert_eq by (by eapply lookup_lt_Some). eexists. split; [done|].
      rewrite Hi in Hj. injection Hj as <-. destruct x as [st'|]; [|done].
      destruct Hwp as (_ & _ & _ & Hsucc & _). by destruct st.
    + rewrite list_lookup_insert_ne by done. eauto.
Qed.

Lemma accounted_join i s s' :
  event_step (Join i) s = Some s' → accounted s → accounted s'.
Proof using.
  intros He [Hone Hj Hfl]. simpl in He.
  apply bind_Some in He as ([r st] & Hi & He). simpl in He. destruct st as [| | | | | |c| | |]; try done.
  apply bind_Some in He as (q & Hq & He). injection He as <-.
  assert (Hnew : i ∉ sy_orders s).
  { intros Hin. destruct (Hj i Hin) as (_ & t & Ht & Hjt). rewrite Hi in Ht. by injection Ht as <-. }
  constructor; simpl; [done| |].
  - intros j Hin. destruct (Hj j Hin) as (? & t & Ht & Hjt). split; [done|].
    exists t. rewrite list_lookup_insert_ne; [done|]. by intros ->.
  - intros k f. unfold join_flight. destruct (g_flights (sy_group s) !! _) as [f0|] eqn:E0;
      intros [[<- <-]|[_ Hk]]%lookup_insert_Some; simpl; try (by apply (Hfl k)); [|done].
    by apply (Hfl _ _ E0).
Qed.

Lemma accounted_fly perId perProf k s s' :
  event_step (Fly k) s = Some s' → sound s → metered perId perProf s → accounted s → accounted s'.
Proof using.
  intros He Hs Hm [Hone Hj Hfl]. simpl in He. apply bind_Some in He as (f & Hk & He). injection He as <-.
  destruct (advance env (leader f) (at_stage f) (sy_world s)) as [x w'] eqn:Ea. cbn [fst].
  destruct (in_flight_thread s (leader f) Hs) as (t & c & Ht & Hst); [by eapply in_flight_elem; [|left]|].
  assert (Hlead : fr_id (leader f) ∈ fst <$> sy_grants s).
  { pose proof (me_threads _ _ s Hm _ _ Ht) as Hg. unfold grant_ok in Hg. rewrite Hst in Hg.
    destruct Hg as [time Hg]. apply list_elem_of_fmap. by eexists (_, _). }
  assert (Hland : ∀ i t, sy_threads s !! i = Some t → joined t →
    ∃ t', landed f x (sy_threads s) !! i = Some t' ∧ joined t').
  { intros i t' Hi Hjt. destruct x as [st'|res]; [by exists t'|]. simpl.
    rewrite list_lookup_fmap, Hi. eexists. split; [done|]. unfold joined, resolve in *.
    destruct t' as [r []]; simpl in *; try done. by case_decide. }
  constructor; simpl.
  - unfold ordered. pose proof (Hfl _ _ Hk) as Hno. destruct (at_stage f); rewrite ?app_nil_r; try done.
    apply NoDup_app. split_and!; [done| |apply NoDup_singleton].
    by intros i Hi ->%list_elem_of_singleton.
  - intros i [Hi|Hi]%elem_of_app.
    + destruct (Hj i Hi) as (? & t' & Ht' & Hjt). eauto.
    + unfold ordered in Hi. destruct (at_stage f); try by apply elem_of_nil in Hi.
      apply list_elem_of_singleton in Hi as ->. split; [done|]. eapply Hland; [done|].
      unfold joined. by rewrite Hst.
  - intros k' f' Hk'. assert (Hother : k' ≠ k → g_flights (sy_group s) !! k' = Some f' →
      match at_stage f' with Storing _ => True | _ => fr_id (leader f') ∉ sy_orders s ++ ordered f end).
    { intros Hne Hf'. pose proof (Hfl _ _ Hf') as Hno.
      assert (fr_id (leader f') ∉ ordered f) as Hno'.
      { pose proof (sound_ids s Hs) as Hnd. rewrite (in_flight_delete k f) in Hnd by done.
        rewrite fmap_app in Hnd. apply NoDup_app in Hnd as (_ & Hdis & _). unfold ordered.
        destruct (at_stage f); try apply not_elem_of_nil. intros Hin%list_elem_of_singleton.
        apply (Hdis (fr_id (leader f))); [by left|]. rewrite <- Hin. apply list_elem_of_fmap_2.
        apply (in_flight_elem k' f'); [by rewrite lookup_delete_ne|by left]. }
      destruct (at_stage f'); rewrite ?not_elem_of_app; done. }
    unfold drive in Hk'. rewrite Hk in Hk'. unfold sy_world in Ea. rewrite Ea in Hk'.
    destruct x as [st'|res]; simpl in Hk'.
    + apply lookup_insert_Some in Hk' as [[<- <-]|[Hne Hk']]; [|by apply Hother].
      simpl. pose proof (Hfl _ _ Hk) as Hno. unfold ordered. apply advance_stage in Ea.
      destruct (at_stage f), st'; simpl in Ea; try done; by rewrite ?app_nil_r.
    + apply lookup_delete_Some in Hk' as [Hne Hk']. by apply Hother.
Qed.

Lemma accounted_step perId perProf e s s' :
  event_step e s = Some s' → sound s → metered perId perProf s → accounted s → accounted s'.
Proof using.
  intros He Hs Hm Ha. destruct e as [r|i|i|k|o].
  - injection He as <-. apply (accounted_step_other s); try done. simpl.
    intros i t Hi Hjt. exists t. split; [|done]. by apply lookup_app_l_Some.
  - by eapply accounted_handle.
  - by eapply accounted_join.
  - by eapply accounted_fly.
  - injection He as <-. apply (accounted_step_other s); try done. simpl. eauto.
Qed.

(** All of it, along a run. *)
Lemma run_metered perId perProf es w wt data s' :
  (∀ n m, n ≤ m → (env_clock env n ≤ env_clock env m)%Z) →
  (∀ r, Arrive r ∈ es → plain_request r) →
  fresh perId perProf w wt data → run es (start w wt data) = Some s' →
  sound s' ∧ metered perId perProf s' ∧ accounted s'.
Proof using.
  intros Hclock Hes Hf Hrun.
  apply (run_invariant (λ s, sound s ∧ metered perId perProf s ∧ accounted s) es (start w wt data));
    [|done|].
  - intros e s1 s2 Hin He (Hs & Hm & Ha). split_and!.
    + by eapply sound_step.
    + eapply metered_step; try done. destruct e; try done. by apply Hes.
    + by eapply accounted_step.
  - split_and!; [by eapply sound_start | by apply metered_start|].
    constructor; simpl; [apply NoDup_nil_2|set_solver|done].
Qed.

(** ** Every request comes to its answer *)

Definition stage_weight (st : stage) : nat :=
  match st with
  | Arrived => 11 | Authenticated _ => 10 | Parsed _ => 9 | Authorized _ => 8 | Keyed _ => 7
  | Recorded _ => 6 | Passed _ => 5 | Waiting _ _ | Resolved _ _ _ => 1 | Answered _ => 0
  end.
Definition thread_weight (t : thread) : nat := stage_weight (th_stage t).

(** The steps still to come, of the requests and of the flights. *)
Definition work (s : system) : nat :=
  sum_list_with thread_weight (sy_threads s) + work_left (g_flights (sy_group s)).

(** A step of a request or of a flight, as against an arrival or a look. *)
Definition inner (e : event) : Prop :=
  match e with Handle _ | Join _ | Fly _ => True | _ => False end.


Lemma work_left_join fr (fs : gmap string flight) :
  work_left (join_flight fr fs) ≤ 3 + work_left fs.
Proof using.
  unfold join_flight. destruct (fs !! _) as [f|] eqn:Ek.
  - rewrite (work_left_replace _ f), (work_left_delete _ f fs) by done. simpl. lia.
  - rewrite work_left_insert by done. simpl. lia.
Qed.

Lemma landed_weight f x ts : sum_list_with thread_weight (landed f x ts) = sum_list_with thread_weight ts.
Proof using.
  destruct x as [st'|res]; [done|]. unfold landed. generalize (fr_id <$> leader f :: waiters f) as ids. intros ids.
  induction ts as [|[r st] ts IH]; [done|]. simpl. f_equal; [|exact IH].
  unfold resolve, thread_weight. destruct st; simpl; try done. by case_decide.
Qed.

Lemma inner_works e s s' :
  inner e → event_step e s = Some s' → sound s → work s' < work s.
Proof using.
  intros Hin He Hs. unfold work. destruct e as [|i|i|k|]; try done; simpl in He.
  - apply bind_Some in He as ([r st] & Hi & He). apply bind_Some in He as (m & Hm & He). simpl in Hm, He.
    pose proof (handle_wp _ _ i _ _ _ (sy_world s) Hm (so_threads s Hs _ _ Hi) (sound_served s Hs)) as Hwp.
    unfold wp in Hwp. destruct (m (sy_world s)) as [x w'] eqn:Em. injection He as <-. simpl.
    pose proof (sum_insert thread_weight _ _ _ (mkThread r (settle x w')) Hi) as Hsum.
    assert (stage_weight (settle x w') < stage_weight st); [|unfold thread_weight in *; simpl in *; lia].
    destruct x as [st'|]; simpl.
    + destruct Hwp as (_ & _ & _ & Hsucc & _). destruct st, st'; simpl in *; try done; lia.
    + destruct st; simpl; try done; lia.
  - apply bind_Some in He as ([r st] & Hi & He). simpl in He. destruct st as [| | | | | |c| | |]; try done.
    apply bind_Some in He as (q & Hq & He). injection He as <-. simpl.
    pose proof (sum_insert thread_weight _ _ _
      (mkThread r (Waiting c (flight_of i (sy_world s) c q))) Hi) as Hsum.
    pose proof (work_left_join (flight_of i (sy_world s) c q) (g_flights (sy_group s))).
    unfold thread_weight in *. simpl in *. lia.
  - apply bind_Some in He as (f & Hk & He). injection He as <-. simpl. rewrite landed_weight.
    unfold drive. rewrite Hk. destruct (advance env _ _ _) as [[st'|res] w'] eqn:Ea; simpl;
      rewrite (work_left_delete k f (g_flights _)) by done.
    + rewrite (work_left_replace _ f) by done. apply advance_stage in Ea. simpl. lia.
    + destruct (at_stage f); simpl; lia.
Qed.

(** A request that is not answered is not stuck. *)
Lemma inner_enabled s i t :
  sound s → sy_threads s !! i = Some t → thread_response t = None →
  ∃ e s', inner e ∧ event_step e s = Some s'.
Proof using.
  intros Hs Hi Hr. pose proof (so_threads s Hs i t Hi) as Hok. destruct t as [r st]. simpl in Hok.
  assert (Hh : ∀ m, handle r st = Some m → ∃ e s', inner e ∧ event_step e s = Some s').
  { intros m Hm. exists (Handle i). simpl. rewrite Hi. simpl. rewrite Hm. simpl.
    destruct (m (sy_world s)). by eexists. }
  destruct st as [|c|c|c|c|c|c|c fr|c fr res|resp]; try exact (Hh _ eq_refl); [| |done].
  - destruct Hok as (q & csr & Hp & _). exists (Join i). simpl. rewrite Hi. simpl.
    rewrite (pm_profile _ _ _ _ _ Hp). simpl. by eexists.
  - assert (Hin : fr ∈ in_flight (g_flights (sy_group s))).
    { rewrite (so_waiting s Hs). by eapply waiting_elem. }
    apply list_elem_of_bind in Hin as ([k f] & _ & Hkf%elem_of_map_to_list).
    exists (Fly k). simpl. rewrite Hkf. simpl. by eexists.
Qed.

(** ** Where a bundle comes from *)

(** A request of a flight belongs to an entitled request of the service. *)
Definition eligible (s : system) (fr : flight_request) : Prop :=
  ∃ t c q, sy_threads s !! fr_id fr = Some t ∧ entitled (sy_reads s) (th_request t) c q
    ∧ linked (fr_id fr) c q fr.

(** The bundle [b] for the requests of the key text [k]: read from a store of
the run, or made by the issuer for an eligible request of this key text. *)
Inductive origin (s : system) (k : string) : issuedResult → Prop :=
  | from_store fr st n m b :
      eligible s fr → key_String (fr_key fr) = k → st ∈ g_stores (sy_group s) →
      GetValidCertificate (env_store env m) (env_clock env n) (fr_key fr)
        (RenewBefore (fr_profile fr)) st = Ok b →
      origin s k (mkIssued b "hit")
  | from_order fr i i' b :
      eligible s fr → key_String (fr_key fr) = k →
      fr_id fr ∈ sy_orders s →
      Issue (issue_request (fr_profile fr) (fr_csr fr)) i = (Ok b, i') →
      origin s k (mkIssued b "miss").

Definition flight_traced (s : system) (k : string) (f : flight) : Prop :=
  Forall (λ fr, eligible s fr ∧ key_String (fr_key fr) = k) (leader f :: waiters f)
  ∧ ∀ b, at_stage f = Storing b → fr_id (leader f) ∈ sy_orders s
      ∧ ∃ i i', Issue (issue_request (fr_profile (leader f)) (fr_csr (leader f))) i = (Ok b, i').

Record traced (s : system) : Prop := mkTraced {
  tr_flights : map_Forall (flight_traced s) (g_flights (sy_group s));
  tr_done : ∀ fr given, (fr, Ok given) ∈ g_done (sy_group s) →
    origin s (key_String (fr_key fr)) given;
  tr_store : w_store (sy_world s) ∈ g_stores (sy_group s) }.

(** What only grows. *)
Record grows (s s' : system) : Prop := {
  gw_reads : sy_reads s ⊆ sy_reads s';
  gw_stores : g_stores (sy_group s) ⊆ g_stores (sy_group s');
  gw_orders : sy_orders s ⊆ sy_orders s';
  gw_threads : ∀ i t, sy_threads s !! i = Some t →
    ∃ t', sy_threads s' !! i = Some t' ∧ th_request t' = th_request t }.

Lemma grows_eligible s s' fr : grows s s' → eligible s fr → eligible s' fr.
Proof using.
  intros [Hr _ _ Ht] (t & c & q & Hi & Hq & Hl). destruct (Ht _ _ Hi) as (t' & Hi' & E').
  exists t', c, q. rewrite E'. eauto with certplane.
Qed.

Lemma grows_flight s s' k f : grows s s' → flight_traced s k f → flight_traced s' k f.
Proof using.
  intros Hg [Hall Hb]. split.
  - eapply Forall_impl; [done|]. intros fr [? ?]. eauto using grows_eligible.
  - intros b Hst. destruct (Hb b Hst) as [Hin ?]. split; [by apply Hg|done].
Qed.

Lemma grows_origin s s' k given : grows s s' → origin s k given → origin s' k given.
Proof using.
  intros Hg Ho. pose proof Hg as [_ Hs Hor _]. destruct Ho as [fr st n m b ? ? Hin ?|fr i i' b ? ? Hin ?].
  - eapply from_store; [by eapply grows_eligible|done|by apply Hs|done].
  - eapply from_order; [by eapply grows_eligible|done|by apply Hor|done].
Qed.

Lemma event_grows e s s' : event_step e s = Some s' → grows s s'.
Proof using.
  intros He. assert (Hins : ∀ i (t : thread) st j t', sy_threads s !! i = Some t →
    sy_threads s !! j = Some t' →
    ∃ t2, <[i:=mkThread (th_request t) st]> (sy_threads s) !! j = Some t2 ∧ th_request t2 = th_request t').
  { intros i t st j t' Hi Hj. destruct (decide (i = j)) as [<-|Hne].
    - rewrite list_lookup_insert_eq by (by eapply lookup_lt_Some). eexists. split; [done|]. simpl. congruence.
    - rewrite list_lookup_insert_ne by done. eauto. }
  destruct e as [r|i|i|k|o]; simpl in He.
  - injection He as <-. constructor; try done. simpl. intros i t Hi. exists t. split; [|done].
    by apply lookup_app_l_Some.
  - apply bind_Some in He as (t & Hi & He). apply bind_Some in He as (m & Hm & He).
    destruct (m (sy_world s)) as [x w']. injection He as <-. constructor; try done. simpl. intros. by eapply Hins.
  - apply bind_Some in He as (t & Hi & He). destruct (th_stage t); try done.
    apply bind_Some in He as (q & _ & He). injection He as <-. constructor; try done. simpl. intros. by eapply Hins.
  - apply bind_Some in He as (f & Hk & He). injection He as <-. constructor; simpl; [done| |set_solver|].
    + unfold drive. rewrite Hk. destruct (advance env _ _ _) as [[st'|res] w']; simpl; set_solver.
    + intros i t Hi. destruct (fst _) as [st'|res]; [by exists t|]. simpl.
      rewrite list_lookup_fmap, Hi. eexists. split; [done|]. apply resolve_request.
  - injection He as <-. constructor; try done; simpl; [set_solver|]. eauto.
Qed.

Lemma traced_same s s' :
  grows s s' → g_flights (sy_group s') = g_flights (sy_group s) →
  g_done (sy_group s') = g_done (sy_group s) → w_store (sy_world s') = w_store (sy_world s) →
  traced s → traced s'.
Proof using.
  intros Hg Hf Hd Hw [Htf Htd Hts]. pose proof Hg as [_ Hst Hor _].
  constructor; rewrite ?Hf, ?Hd, ?Hw; [| |by apply Hst].
  - eapply map_Forall_impl; [done|]. intros k f. by apply grows_flight.
  - intros fr given Hin. by eapply grows_origin, Htd.
Qed.

Lemma traced_handle i s s' : event_step (Handle i) s = Some s' → sound s → traced s → traced s'.
Proof using.
  intros He Hs. apply traced_same; [by eapply event_grows|..]; simpl in He;
    apply bind_Some in He as ([r st] & Hi & He); apply bind_Some in He as (m & Hm & He); simpl in Hm, He;
    pose proof (handle_wp _ _ i _ _ _ (sy_world s) Hm (so_threads s Hs _ _ Hi) (sound_served s Hs)) as Hwp;
    unfold wp in Hwp; destruct (m (sy_world s)) as [x w'] eqn:Em; injection He as <-; try done.
  unfold sy_world. simpl. destruct x; by destruct Hwp as ([] & _).
Qed.

Lemma traced_join i s s' : event_step (Join i) s = Some s' → sound s → traced s → traced s'.
Proof using.
  intros He Hs [Htf Htd Hts]. pose proof (event_grows _ _ _ He) as Hg. simpl in He.
  apply bind_Some in He as ([r st] & Hi & He). simpl in He. destruct st as [| | | | | |c| | |]; try done.
  apply bind_Some in He as (q & Hq & He). set (fr := flight_of i (sy_world s) c q) in *.
  assert (Hel : eligible s fr).
  { pose proof (so_threads s Hs _ _ Hi) as (q' & Hq'). pose proof Hq' as (csr & Hp & _).
    pose proof (pm_profile _ _ _ _ _ Hp) as Hpq. rewrite Hq in Hpq. injection Hpq as <-.
    exists (mkThread r (Passed c)), c, q. split; [done|]. split; [done|]. by exists (sy_world s). }
  injection He as He. assert (Hfs : g_flights (sy_group s') = join_flight fr (g_flights (sy_group s))) by (by rewrite <- He).
  assert (Hdn : g_done (sy_group s') = g_done (sy_group s)) by (by rewrite <- He).
  assert (Hws : w_store (sy_world s') = w_store (sy_world s)) by (by rewrite <- He).
  clear He. constructor; rewrite ?Hfs, ?Hdn, ?Hws; [| |by apply Hg].
  - assert (Htf' : map_Forall (flight_traced s') (g_flights (sy_group s))).
    { eapply map_Forall_impl; [done|]. intros k f. by apply grows_flight. }
    assert (Hel' : eligible s' fr) by (by eapply grows_eligible). unfold join_flight.
    destruct (g_flights (sy_group s) !! key_String (fr_key fr)) as [f0|] eqn:E0;
      apply map_Forall_insert_2; try done.
    + destruct (Htf' _ _ E0) as [Hall Hb]. split; [|done]. simpl. rewrite app_comm_cons.
      apply Forall_app. split; [done|]. by apply Forall_singleton.
    + split; [|done]. by apply Forall_singleton.
  - intros fr' given Hin. by eapply grows_origin, Htd.
Qed.

Lemma traced_fly k s s' : event_step (Fly k) s = Some s' → sound s → traced s → traced s'.
Proof using.
  intros He Hs [Htf Htd Hts]. pose proof (event_grows _ _ _ He) as Hg. simpl in He.
  apply bind_Some in He as (f & Hk & He).
  destruct (advance env (leader f) (at_stage f) (sy_world s)) as [x w'] eqn:Ea.
  assert (Htf' : map_Forall (flight_traced s') (g_flights (sy_group s))).
  { eapply map_Forall_impl; [done|]. intros k' f'. by apply grows_flight. }
  destruct (Htf' _ _ Hk) as [Hall Hb]. pose proof Hall as [[Hel Hkey] Hwt]%Forall_cons.
  assert (Hord : sy_orders s' = sy_orders s ++ ordered f) by (by injection He as <-).
  assert (Hgrp : sy_group s' = drive env k (sy_group s)) by (by injection He as <-).
  unfold drive in Hgrp. unfold sy_world in Ea. rewrite Hk, Ea in Hgrp.
  pose proof (advance_advanced _ _ _ _ _ _ Ea) as Hadv. clear He.
  destruct x as [st'|res]; constructor; unfold sy_world; rewrite Hgrp;
    cbn [g_world g_flights g_done g_stores]; try (apply elem_of_app; right; by left).
  - apply map_Forall_insert_2; [|done]. split; [done|]. simpl. intros b ->. rewrite Hord. unfold ordered.
    destruct f as [l stg ws]. simpl in *. inversion Hadv; subst. split; [|eauto].
    apply elem_of_app. right. by left.
  - intros fr given Hin. by eapply grows_origin, Htd.
  - by apply map_Forall_delete.
  - intros fr given [Hin|(fr' & [= -> <-] & Hin)%list_elem_of_fmap]%elem_of_app;
      [by eapply grows_origin, Htd|].
    rewrite Forall_forall in Hall. destruct (Hall _ Hin) as [_ ->]. destruct f as [l stg ws]. simpl in *.
    inversion Hadv as [n m b Hget| | | | | |n m b s1 Hput]; subst.
    + eapply from_store; [done..| |done]. rewrite Hgrp. simpl. apply elem_of_app. left. exact Hts.
    + destruct (Hb b eq_refl) as (? & i & i' & ?). by eapply from_order.
Qed.

Lemma traced_step e s s' : event_step e s = Some s' → sound s → traced s → traced s'.
Proof using.
  intros He Hs. destruct e as [r|i|i|k|o].
  - apply traced_same; [by eapply event_grows|..]; by injection He as <-.
  - by eapply traced_handle.
  - by eapply traced_join.
  - by eapply traced_fly.
  - apply traced_same; [by eapply event_grows|..]; by injection He as <-.
Qed.

Lemma run_traced perId perProf es w wt data s' :
  fresh perId perProf w wt data → run es (start w wt data) = Some s' → sound s' ∧ traced s'.
Proof using.
  intros Hf Hrun. apply (run_invariant (λ s, sound s ∧ traced s) es (start w wt data)); [|done|].
  - intros e s1 s2 _ He [Hs Ht]. split; [by eapply sound_step | by eapply traced_step].
  - split; [by eapply sound_start|]. constructor; simpl; [done|set_solver|]. unfold sy_world. simpl. set_solver.
Qed.

(** ** Along a run *)

Lemma run_sound perId perProf es w wt data s :
  fresh perId perProf w wt data → run es (start w wt data) = Some s → sound s.
Proof using. intros Hf Hrun. by apply (run_traced _ _ _ _ _ _ _ Hf Hrun). Qed.

Lemma inner_run_works es s s' :
  sound s → Forall inner es → run es s = Some s' → length es + work s' ≤ work s.
Proof using.
  revert s. induction es as [|e es IH]; intros s Hs Hin Hrun; [by injection Hrun as <-|].
  apply Forall_cons in Hin as [He Hin]. apply bind_Some in Hrun as (s1 & Hstep & Hrun).
  pose proof (inner_works _ _ _ He Hstep Hs). pose proof (IH s1 (sound_step _ _ _ Hstep Hs) Hin Hrun).
  simpl. lia.
Qed.

Lemma work_bound s : sound s → work s ≤ 11 * length (sy_threads s).
Proof using.
  intros Hs. unfold work. pose proof (work_left_size (g_flights (sy_group s))) as Hw.
  pose proof (size_in_flight (g_flights (sy_group s))) as Hn.
  rewrite (Permutation_length (so_waiting s Hs)) in Hn.
  assert (sum_list_with thread_weight (sy_threads s) + 3 * length (omap thread_waiting (sy_threads s))
    ≤ 11 * length (sy_threads s)); [|lia].
  clear. induction (sy_threads s) as [|t ts IH]; [done|]. simpl.
  assert (Ht : thread_weight t ≤ 11 ∧ (is_Some (thread_waiting t) → thread_weight t = 1)).
  { unfold thread_weight, thread_waiting. destruct (th_stage t); simpl; (split; [lia|by intros []]). }
  destruct (thread_waiting t) as [fr|]; [rewrite (proj2 Ht) by done|]; cbn [length]; unfold omap in *; lia.
Qed.

(** A grant is of a request that arrived, to the host it comes from. *)
Definition owned (s : system) : Prop := ∀ i g, (i, g) ∈ sy_grants s →
  ∃ t n, sy_threads s !! i = Some t
    ∧ IdentityFromRequest (env_clock env n) (PeerCertificates (th_request t)) = Ok (to_identity g).

Lemma owned_step e s s' : event_step e s = Some s' → sound s → owned s → owned s'.
Proof using.
  intros He Hs Ho. pose proof (event_grows _ _ _ He) as Hg.
  assert (Hold : ∀ i g, (i, g) ∈ sy_grants s → ∃ t n, sy_threads s' !! i = Some t
    ∧ IdentityFromRequest (env_clock env n) (PeerCertificates (th_request t)) = Ok (to_identity g)).
  { intros i g Hin. destruct (Ho i g Hin) as (t & n & Hi & Hid).
    destruct (gw_threads _ _ Hg _ _ Hi) as (t' & Hi' & Hr). exists t', n. by rewrite Hr. }
  intros i g Hin. destruct e as [r|j|j|k|o]; simpl in He.
  - injection He as <-. by apply Hold.
  - apply bind_Some in He as ([r st] & Hj & He). apply bind_Some in He as (m & Hm & He).
    destruct (m (sy_world s)) as [x w']. injection He as <-. simpl in Hin.
    apply elem_of_app in Hin as [Hin|Hin]; [by apply Hold|].
    pose proof (so_threads s Hs _ _ Hj) as Hok. unfold granted_by in Hin. simpl in *.
    destruct st as [| | | | |c| | | |], x; try by apply elem_of_nil in Hin.
    apply list_elem_of_singleton in Hin as [= -> ->]. destruct Hok as (q & Hq).
    destruct (entitled_identity _ _ _ _ Hq) as [n Hn].
    exists (mkThread r (settle (Some s0) w')), n. split; [|done]. simpl.
    apply list_lookup_insert_eq. by eapply lookup_lt_Some.
  - apply bind_Some in He as (t & Hj & He). destruct (th_stage t); try done.
    apply bind_Some in He as (q & Hq & He). injection He as <-. by apply Hold.
  - apply bind_Some in He as (f & Hk & He). injection He as <-. by apply Hold.
  - injection He as <-. by apply Hold.
Qed.

Lemma run_owned perId perProf es w wt data s' :
  fresh perId perProf w wt data → run es (start w wt data) = Some s' → sound s' ∧ owned s'.
Proof using.
  intros Hf Hrun. apply (run_invariant (λ s, sound s ∧ owned s) es (start w wt data)); [|done|].
  - intros e s1 s2 _ He [Hs Ho]. split; [by eapply sound_step | by eapply owned_step].
  - split; [by eapply sound_start|]. intros i g Hin. by apply elem_of_nil in Hin.
Qed.

(** The requests that cost: those served, and those that had the issuer called. *)
Definition charged (s : system) (i : nat) : Prop :=
  i ∈ sy_orders s
  ∨ ∃ r resp, sy_threads s !! i = Some (mkThread r (Answered resp)) ∧ status resp = 200%Z.

Lemma charged_granted perId perProf s i :
  metered perId perProf s → accounted s → charged s i → ∃ g, (i, g) ∈ sy_grants s.
Proof using.
  intros Hm Ha [Hi|(r & resp & Hi & H200)].
  - destruct (ac_joined s Ha i Hi) as [Hg _]. apply list_elem_of_fmap in Hg as ([j g] & -> & Hg). by exists g.
  - destruct (me_threads _ _ _ Hm i _ Hi H200) as (t & id & prof & n & Hg & _). by eexists.
Qed.

(** ** One request alone *)

(** What is left of the handler. *)
Definition rest (r : http_request) (st : stage) : M (option unit) :=
  let recorded := λ c, and_then (checkIssueRateLimit env dns_text c) (issue_authorized env dns_text) in
  let keyed := λ c, and_then (recordAuthorizedIssue env dns_text c) recorded in
  let authorized := λ c, and_then (attachPublicKeyFingerprint env dns_text c) keyed in
  let parsed := λ c, and_then (authorizeIssueRequest env dns_text c) authorized in
  let authenticated := λ c, and_then (parseIssueRequest env dns_text c) parsed in
  match st with
  | Arrived => and_then (receive r) authenticated
  | Authenticated c => authenticated c
  | Parsed c => parsed c
  | Authorized c => authorized c
  | Keyed c => keyed c
  | Recorded c => recorded c
  | Passed c => issue_authorized env dns_text c
  | Resolved c _ res => and_then (deliver c res) (λ _, mret None)
  | Waiting _ _ | Answered _ => mret None
  end.

Lemma rest_handler r w : snd (rest r Arrived w) = snd (issueCertificate env dns_text r w).
Proof using.
  unfold rest, receive, issueCertificate, and_then, mbind, M_bind.
  destruct (newID env "req_" w) as [[id|e] w1]; [|done].
  by destruct (authenticateIssueRequest _ _ _ w1) as [[c|] w2].
Qed.

Lemma run_app es1 es2 s : run (es1 ++ es2) s = run es1 s ≫= run es2.
Proof using.
  revert s. induction es1 as [|e es IH]; intros s; [done|]. simpl.
  destruct (event_step e s) as [s1|]; [apply IH|done].
Qed.

(** The steps of request [i], with no flight on, do what is left of its handler. *)
Definition completes (i : nat) (r : http_request) (st : stage) : Prop :=
  ∀ s, sound s → sy_threads s !! i = Some (mkThread r st) → g_flights (sy_group s) = ∅ →
    ∃ es s' resp, Forall inner es ∧ run es s = Some s'
      ∧ sy_world s' = snd (rest r st (sy_world s))
      ∧ sy_threads s' = <[i:=mkThread r (Answered resp)]> (sy_threads s).

Lemma completes_more i r st st' e s s1 :
  completes i r st' → inner e → event_step e s = Some s1 → sound s →
  sy_threads s !! i = Some (mkThread r st) →
  sy_threads s1 = <[i:=mkThread r st']> (sy_threads s) → g_flights (sy_group s1) = ∅ →
  snd (rest r st' (sy_world s1)) = snd (rest r st (sy_world s)) →
  ∃ es s' resp, Forall inner es ∧ run es s = Some s'
    ∧ sy_world s' = snd (rest r st (sy_world s))
    ∧ sy_threads s' = <[i:=mkThread r (Answered resp)]> (sy_threads s).
Proof using.
  intros Hc He Hstep Hs Hi Hi1 Hf Hrest.
  destruct (Hc s1) as (es & s' & resp & Hin & Hrun & Hw & Ht); [by eapply sound_step| |done|].
  { rewrite Hi1. apply list_lookup_insert_eq. by eapply lookup_lt_Some. }
  exists (e :: es), s', resp. split_and!.
  - by constructor.
  - simpl. by rewrite Hstep.
  - by rewrite Hw.
  - by rewrite Ht, Hi1, list_insert_insert_eq.
Qed.

Lemma completes_handle {T} i r st (m : M (option T)) (f : T → stage) (k : T → M (option unit)) :
  handle r st = Some (then_at f m) → rest r st = and_then m k →
  (∀ x, rest r (f x) = k x) → (∀ x, completes i r (f x)) → completes i r st.
Proof using.
  intros Hm Hrest Hk Hc s Hs Hi Hf.
  destruct (m (sy_world s)) as [[x|] w'] eqn:Em.
  - eapply (completes_more i r st (f x) (Handle i)); [apply Hc|done| |done|done|..].
    + simpl. rewrite Hi. simpl. rewrite Hm. simpl. unfold then_at, mbind, M_bind. rewrite Em. done.
    + done.
    + done.
    + unfold sy_world at 1. simpl. rewrite Hk, Hrest. unfold and_then, mbind, M_bind. by rewrite Em.
  - eexists [Handle i], _, _. split; [by repeat constructor|]. split.
    + simpl. rewrite Hi. simpl. rewrite Hm. simpl. unfold then_at, mbind, M_bind. rewrite Em. done.
    + split; [|done]. unfold sy_world at 1. simpl. rewrite Hrest. unfold and_then, mbind, M_bind. by rewrite Em.
Qed.

Lemma completes_resolved i r c fr res : completes i r (Resolved c fr res).
Proof using.
  intros s Hs Hi Hf.
  pose proof (handle_wp _ _ i r (Resolved c fr res) _ (sy_world s) eq_refl (so_threads s Hs _ _ Hi)
    (sound_served s Hs)) as Hwp.
  unfold wp in Hwp. destruct (deliver c res (sy_world s)) as [[st'|] w'] eqn:Ed.
  { by destruct Hwp as (_ & _ & _ & Hsucc & _). }
  eexists [Handle i], _, _. split; [by repeat constructor|]. split.
  - simpl. rewrite Hi. simpl. rewrite Ed. done.
  - split; [|done]. unfold sy_world at 1. simpl. unfold and_then, mbind, M_bind. by rewrite Ed.
Qed.

(** Only one thread waits with a request. *)
Lemma resolve_one s i r c fr res :
  sound s → sy_threads s !! i = Some (mkThread r (Waiting c fr)) →
  resolve [fr_id fr] res <$> sy_threads s = <[i:=mkThread r (Resolved c fr res)]> (sy_threads s).
Proof using.
  intros Hs Hi. assert (Hid : ∀ j r' c' fr', sy_threads s !! j = Some (mkThread r' (Waiting c' fr')) → fr_id fr' = j).
  { intros j r' c' fr' Hj. by destruct (so_threads s Hs _ _ Hj) as (q & _ & w & ->). }
  apply list_eq. intros j. rewrite list_lookup_fmap. destruct (decide (i = j)) as [<-|Hne].
  - rewrite list_lookup_insert_eq, Hi by (by eapply lookup_lt_Some). simpl. unfold resolve. simpl.
    by rewrite decide_True by (by left).
  - rewrite list_lookup_insert_ne by done. destruct (sy_threads s !! j) as [[r' st']|] eqn:Hj; [|done].
    simpl. f_equal. unfold resolve. simpl. destruct st'; try done. case_decide as Hin; [|done].
    apply list_elem_of_singleton in Hin. rewrite (Hid _ _ _ _ Hi), (Hid _ _ _ _ Hj) in Hin. by subst.
Qed.

(** A flight with one request comes to its end. *)
Lemma flight_lands fuel i r c fr st res w' s :
  sound s → sy_threads s !! i = Some (mkThread r (Waiting c fr)) →
  g_flights (sy_group s) = {[key_String (fr_key fr) := mkFlight fr st []]} →
  run_alone env fuel fr st (sy_world s) = (Some res, w') →
  ∃ es s', Forall inner es ∧ run es s = Some s' ∧ sy_world s' = w' ∧ sound s'
    ∧ g_flights (sy_group s') = ∅
    ∧ sy_threads s' = <[i:=mkThread r (Resolved c fr res)]> (sy_threads s).
Proof using.
  revert st s. induction fuel as [|fuel IH]; intros st s Hs Hi Hf Hrun; [done|]. simpl in Hrun.
  set (k := key_String (fr_key fr)) in *.
  assert (Hk : g_flights (sy_group s) !! k = Some (mkFlight fr st [])) by (by rewrite Hf, lookup_singleton_eq).
  destruct (event_step (Fly k) s) as [s1|] eqn:Hstep; [|by simpl in Hstep; rewrite Hk in Hstep].
  assert (Hs1 : sound s1) by (by eapply sound_step).
  simpl in Hstep. rewrite Hk in Hstep. simpl in Hstep. injection Hstep as <-.
  destruct (advance env fr st (sy_world s)) as [[st'|res'] w1] eqn:Ea.
  - destruct (IH st' _ Hs1) as (es & s' & Hin & Hr & Hw & Hs' & Hfl & Ht).
    + done.
    + simpl. unfold drive. rewrite Hk. simpl. unfold sy_world in Ea. rewrite Ea. simpl.
      by rewrite Hf, insert_singleton_eq.
    + unfold sy_world at 1. simpl. unfold drive. rewrite Hk. simpl. unfold sy_world in Ea. by rewrite Ea.
    + exists (Fly k :: es), s'. split_and!; try done; [by constructor|]. simpl. rewrite Hk. simpl. by rewrite Ea.
  - injection Hrun as -> <-. eexists [Fly k], _. split; [by repeat constructor|].
    split; [simpl; rewrite Hk; simpl; by rewrite Ea|]. split_and!; [|exact Hs1| |].
    + unfold sy_world at 1. simpl. unfold drive. rewrite Hk. simpl. unfold sy_world in Ea. by rewrite Ea.
    + simpl. unfold drive. rewrite Hk. simpl. unfold sy_world in Ea. rewrite Ea. simpl.
      by rewrite Hf, delete_singleton_eq.
    + simpl. by apply resolve_one.
Qed.

(** The flight and what follows it, against the handler's own. *)
Lemma rest_admitted r c q i w :
  ctx_Profile c = Some q →
  let fr := flight_of i w c q in
  let '(res, w') := issueOrLoad env (fr_key fr) (fr_profile fr) (fr_csr fr) w in
  snd (rest r (Resolved c fr res) w') = snd (rest r (Passed c) w).
Proof using.
  intros Hq fr. unfold rest, issue_authorized. rewrite Hq. cbn zeta.
  unfold issueOrLoadWithSingleflight, and_then, mbind, M_bind.
  change (fr_key fr) with (cacheKey w (ctx_Identity c) (ctx_ProfileName c) q (ctx_PublicKeyFP c)).
  change (fr_profile fr) with q. change (fr_csr fr) with (ctx_CSRPEM c).
  destruct (issueOrLoad env _ q (ctx_CSRPEM c) w) as [[given|e] w1].
  - unfold deliver, and_then, mbind, M_bind.
    destruct (recordIssuedResult env dns_text c given w1) as [[[]|] w2] eqn:Er; simpl; by rewrite Er.
  - unfold deliver. destruct (refuse_spec env dns_text (T:=stage) c EventCertificateIssueFailed SeverityError
      DecisionError ReasonIssuerFailed e 502 "issuance failed" w1) as (w2 & E1 & _).
    destruct (refuse_spec env dns_text (T:=issuedResult) c EventCertificateIssueFailed SeverityError
      DecisionError ReasonIssuerFailed e 502 "issuance failed" w1) as (w3 & E2 & _).
    rewrite E1, E2. unfold refuse, mbind, M_bind in E1, E2.
    destruct (auditEvent env dns_text c _ _ _ _ _ w1) as [ev w4]. destruct (record env ev w4) as [x w5].
    simpl in *. injection E1 as <-. injection E2 as <-. done.
Qed.

Lemma completes_admitted i r c : completes i r (Passed c).
Proof using.
  intros s Hs Hi Hf. destruct (so_threads s Hs _ _ Hi) as (q & csr & Hp & _).
  pose proof (pm_profile _ _ _ _ _ Hp) as Hq. set (fr := flight_of i (sy_world s) c q).
  destruct (event_step (Join i) s) as [s1|] eqn:Hstep;
    [|by simpl in Hstep; rewrite Hi in Hstep; simpl in Hstep; rewrite Hq in Hstep].
  assert (Hs1 : sound s1) by (by eapply sound_step). pose proof Hstep as Hjoin.
  simpl in Hstep. rewrite Hi in Hstep. simpl in Hstep. rewrite Hq in Hstep. simpl in Hstep.
  injection Hstep as Hs1'.
  assert (Hi1 : sy_threads s1 = <[i:=mkThread r (Waiting c fr)]> (sy_threads s)) by (by rewrite <- Hs1').
  assert (Hf1 : g_flights (sy_group s1) = {[key_String (fr_key fr) := mkFlight fr Reading []]}).
  { rewrite <- Hs1'. simpl. rewrite Hf. unfold join_flight. by rewrite lookup_empty. }
  assert (Hw1 : sy_world s1 = sy_world s) by (by rewrite <- Hs1'). clear Hs1'.
  assert (Hlt : i < length (sy_threads s)) by (by eapply lookup_lt_Some).
  pose proof (run_alone_issueOrLoad env fr (sy_world s)) as Hrun.
  pose proof (rest_admitted r c q i (sy_world s) Hq) as Hrest. fold fr in Hrest. cbn zeta in Hrest.
  destruct (issueOrLoad env (fr_key fr) (fr_profile fr) (fr_csr fr) (sy_world s)) as [res w'].
  destruct (flight_lands 3 i r c fr Reading res w' s1 Hs1) as (es & s2 & Hin & Hr & Hw2 & Hs2 & Hf2 & Ht2);
    [by rewrite Hi1, list_lookup_insert_eq|done|by rewrite Hw1|].
  destruct (completes_resolved i r c fr res s2 Hs2) as (es' & s3 & resp & Hin' & Hr' & Hw3 & Ht3).
  { rewrite Ht2, Hi1, list_insert_insert_eq. by apply list_lookup_insert_eq. }
  { done. }
  exists (Join i :: es ++ es'), s3, resp. split_and!.
  - constructor; [done|]. by apply Forall_app.
  - change (event_step (Join i) s ≫= run (es ++ es') = Some s3). rewrite Hjoin. simpl. by rewrite run_app, Hr.
  - by rewrite Hw3, Hw2, Hrest.
  - by rewrite Ht3, Ht2, Hi1, !list_insert_insert_eq.
Qed.

Lemma completes_arrived i r : completes i r Arrived.
Proof using.
  apply (completes_handle i r Arrived _ Authenticated _ eq_refl eq_refl); [done|]. intros c1.
  apply (completes_handle i r (Authenticated c1) _ Parsed _ eq_refl eq_refl); [done|]. intros c2.
  apply (completes_handle i r (Parsed c2) _ Authorized _ eq_refl eq_refl); [done|]. intros c3.
  apply (completes_handle i r (Authorized c3) _ Keyed _ eq_refl eq_refl); [done|]. intros c4.
  apply (completes_handle i r (Keyed c4) _ Recorded _ eq_refl eq_refl); [done|]. intros c5.
  apply (completes_handle i r (Recorded c5) _ Passed _ eq_refl eq_refl); [done|]. intros c6.
  apply completes_admitted.
Qed.

(** ** Properties *)

(** Request [r] is one the broker may serve: its client certificate names a
host, its body carries a signed request, and a content read of the policy file
gives this host this profile, for these names. *)
Record lawful (s : system) (r : http_request) (a : admission) : Prop := {
  lw_certificate : ∃ n cert rest, PeerCertificates r = Some (Some cert :: rest)
    ∧ client_certificate (env_clock env n) cert (ad_identity a);
  lw_body : ∃ text, read_body r = Some text
    ∧ decode_issueRequest text = Some (mkRequest (ad_profile_name a) (ad_csrPEM a));
  lw_csr : ParseCSRPEM (ad_csrPEM a) = Ok (ad_csr a);
  lw_file : ∃ data cfg, data ∈ sy_reads s ∧ yaml_decode data = Ok cfg
    ∧ file_authorizes cfg (ad_identity a) (ad_profile_name a) (ad_csr a) (ad_profile a);
  lw_fingerprint : PublicKeyFingerprint (csr_PublicKey (ad_csr a)) = Ok (ad_fingerprint a) }.

Definition key_for (key : CertificateCacheKey) (a : admission) : Prop :=
  Identity key = ad_identity a ∧ ProfileName key = ad_profile_name a
  ∧ ProfileHash key = Hash (ad_profile a) ∧ PublicKeySHA256 key = ad_fingerprint a.

(** What an entitled request is admitted with. *)
Lemma entitled_admission s r c q :
  entitled (sy_reads s) r c q →
  ∃ a, lawful s r a ∧ ctx_Request c = r ∧ ctx_Profile c = Some q
    ∧ a = mkAdmission (ctx_Identity c) (ctx_ProfileName c) (ctx_CSRPEM c) (ad_csr a) (ad_policy a) q
            (ctx_PublicKeyFP c)
    ∧ dnsname.CanonicalList (csr_DNSNames (ad_csr a)) = Ok (ir_DNSNames (issue_request q (ctx_CSRPEM c))).
Proof using.
  intros (csr & [Hr (req & [(n & Hid) (text & Hb & Hd) _ Hcsr] & Hn & Hpem)
    (pol & (now & data & cfg & Hin & Hy & Hco) & Hauth) _ Hq] & Hfp).
  exists (mkAdmission (ctx_Identity c) (ctx_ProfileName c) (ctx_CSRPEM c) csr pol q (ctx_PublicKeyFP c)).
  split_and!; try done.
  - apply IdentityFromRequest_Ok in Hid as (cert & rest & Hp & Hcert).
    constructor; simpl; [by exists n, cert, rest| |by rewrite Hpem| |done].
    + exists text. rewrite Hn, Hpem. split; [done|]. by destruct req.
    + exists data, cfg. split_and!; [done..|]. by apply (Authorize_file now cfg pol Hco).
  - by apply Authorize_Ok in Hauth as (_ & _ & ?).
Qed.

Lemma entitled_lawful s r c q i fr :
  entitled (sy_reads s) r c q → linked i c q fr →
  ∃ a, lawful s r a ∧ key_for (fr_key fr) a ∧ fr_profile fr = ad_profile a ∧ fr_csr fr = ad_csrPEM a
    ∧ dnsname.CanonicalList (csr_DNSNames (ad_csr a)) = Ok (ir_DNSNames (issue_request (ad_profile a) (ad_csrPEM a))).
Proof using.
  intros (a & Ha & _ & _ & Heq & Hnames)%entitled_admission (w & ->). exists a.
  rewrite Heq in *. by split_and!.
Qed.

(** A bundle for the key text [k]: the store gave it for a key of this text, or
the issuer made it for a lawful request with a key of this text, for exactly the
names of that request. *)
Definition rightful (s : system) (k : string) (given : issuedResult) : Prop :=
  (∃ key margin st n m, key_String key = k ∧ st ∈ g_stores (sy_group s)
     ∧ GetValidCertificate (env_store env m) (env_clock env n) key margin st
       = Ok (issued_bundle given) ∧ issued_cache given = "hit")
  ∨ (∃ j r a key i i', sy_threads s !! j = Some r ∧ lawful s (th_request r) a
       ∧ key_for key a ∧ key_String key = k
       ∧ Issue (issue_request (ad_profile a) (ad_csrPEM a)) i = (Ok (issued_bundle given), i')
       ∧ dnsname.CanonicalList (csr_DNSNames (ad_csr a))
         = Ok (ir_DNSNames (issue_request (ad_profile a) (ad_csrPEM a)))
       ∧ issued_cache given = "miss").

Lemma origin_rightful s k given : origin s k given → rightful s k given.
Proof using.
  destruct 1 as [fr st n m b _ Hk Hin Hg|fr i i' b (t & c & q & Ht & Hq & Hl) Hk _ Hiss].
  - left. by exists (fr_key fr), (RenewBefore (fr_profile fr)), st, n, m.
  - right. destruct (entitled_lawful _ _ _ _ _ _ Hq Hl) as (a & Ha & Hka & Hp & Hc & Hn).
    exists (fr_id fr), t, a, (fr_key fr), i, i'. rewrite Hp, Hc in Hiss. done.
Qed.

(** A request answered with status 200 is lawful, and its bundle rightful. *)
Definition serves_lawfully (s : system) : Prop := ∀ i r resp,
  sy_threads s !! i = Some (mkThread r (Answered resp)) → status resp = 200%Z →
  ∃ a key given, lawful s r a ∧ key_for key a
    ∧ content resp = IssueBody (newIssueResponse given)
    ∧ rightful s (key_String key) given.

Lemma traced_lawful s : sound s → traced s → serves_lawfully s.
Proof using.
  intros Hs Ht i r resp Hi H200.
  pose proof (so_threads s Hs i _ Hi H200) as (c & q & fr & given & Hq & Hl & Hdn & Hc).
  destruct (entitled_lawful _ _ _ _ _ _ Hq Hl) as (a & Ha & Hka & _).
  exists a, (fr_key fr), given. split_and!; [done..|]. by apply origin_rightful, Ht.
Qed.

(** The grant of request [i], in the hour that ends at [T]. *)
Definition granted_in (s : system) (Q : grant → Prop) (T : Z) (i : nat) : Prop :=
  ∃ g, (i, g) ∈ sy_grants s ∧ Q g ∧ (T - Hour < at_time g ≤ T)%Z.

(** What the limits mean: each request that costs was granted, once, to its host;
it has the issuer called once at most; of those granted within an hour to a
host, or to a host and profile, no more cost than the limits. *)
Record obeys_limits (perId perProf : Z) (s : system) : Prop := {
  ol_granted : ∀ i, charged s i → ∃ g t n, (i, g) ∈ sy_grants s ∧ sy_threads s !! i = Some t
    ∧ IdentityFromRequest (env_clock env n) (PeerCertificates (th_request t)) = Ok (to_identity g);
  ol_once : NoDup (fst <$> sy_grants s) ∧ NoDup (sy_orders s);
  ol_identity : (0 < perId)%Z → ∀ id T l, NoDup l →
    (∀ i, i ∈ l → charged s i ∧ granted_in s (λ g, to_identity g = id) T i) →
    (Z.of_nat (length l) ≤ perId)%Z;
  ol_profile : (0 < perProf)%Z → ∀ id prof T l, NoDup l →
    (∀ i, i ∈ l → charged s i
       ∧ granted_in s (λ g, to_identity g = id ∧ for_profile g = prof) T i) →
    (Z.of_nat (length l) ≤ perProf)%Z }.

Lemma metered_obeys perId perProf s :
  metered perId perProf s → accounted s → owned s → obeys_limits perId perProf s.
Proof using yaml_decode.
  intros Hm Ha Hown. pose proof (me_once _ _ _ Hm) as Hone.
  destruct (me_within _ _ _ Hm) as [Hid Hpr]. constructor.
  - intros i (g & Hg)%(charged_granted _ _ _ _ Hm Ha). destruct (Hown _ _ Hg) as (t & n & ? & ?).
    by exists g, t, n.
  - split; [done|apply Ha].
  - intros Hpos id T l Hnd Hl. specialize (Hid Hpos id T). unfold identity_times in Hid.
    pose proof (granted_count (λ g, to_identity g = id) (sy_grants s) T l Hone Hnd
      (λ i Hi, proj2 (Hl i Hi))). lia.
  - intros Hpos id prof T l Hnd Hl. specialize (Hpr Hpos id prof T). unfold profile_times in Hpr.
    pose proof (granted_count (λ g, to_identity g = id ∧ for_profile g = prof) (sy_grants s) T l Hone Hnd
      (λ i Hi, proj2 (Hl i Hi))). lia.
Qed.

(** C2: Over the whole life of a broker, however its requests interleave with one
another, with the flights to the issuer and with edits of the policy file: a
request answered with status 200 has a client certificate of a host to which a
content read of the policy file gives the profile it asks for, and a signed
request for exactly the profile's names; the bundle it is given is one the
store gave, or the issuer made for the names of such a request, for the key of
this identity, profile, profile hash and public key. *)
Theorem service_serves_lawful perId perProf es w wt data s i r resp :
  fresh perId perProf w wt data → run es (start w wt data) = Some s →
  sy_threads s !! i = Some (mkThread r (Answered resp)) → status resp = 200%Z →
  ∃ a key given, lawful s r a ∧ key_for key a
    ∧ content resp = IssueBody (newIssueResponse given)
    ∧ rightful s (key_String key) given.
Proof using.
  intros Hf Hrun. destruct (run_traced _ _ _ _ _ _ _ Hf Hrun) as [Hs Ht]. by apply traced_lawful.
Qed.

(** C3: Over the whole life of a broker whose clock does not go back, however its
requests interleave: each request that is served, or that has the issuer called,
was granted by the limiter, once, to the host its client certificate names; it
has the issuer called once at most; and of these requests, no more are granted
within an hour to a host, or to a host and profile, than the limits, when they
are positive. This asks that names in client certificates have no zero byte. *)
Theorem service_limits perId perProf es w wt data s :
  (∀ n m, n ≤ m → (env_clock env n ≤ env_clock env m)%Z) →
  (∀ r, Arrive r ∈ es → plain_request r) →
  fresh perId perProf w wt data → run es (start w wt data) = Some s →
  obeys_limits perId perProf s.
Proof using.
  intros Hclock Hes Hf Hrun. destruct (run_metered _ _ _ _ _ _ _ Hclock Hes Hf Hrun) as (_ & Hm & Ha).
  apply metered_obeys; [done..|]. by apply (run_owned _ _ _ _ _ _ _ Hf Hrun).
Qed.

(** C6: No request is left without its answer, and none has two: from any moment
of the life of a broker, the steps of its requests and flights come to an end,
at most eleven for each request; where none is possible, every request is
answered; and the responses written are, at every moment, those of the requests
answered so far. *)
Theorem service_answers perId perProf es w wt data s :
  fresh perId perProf w wt data → run es (start w wt data) = Some s →
  w_responses (sy_world s) ≡ₚ omap thread_response (sy_threads s)
  ∧ (∀ es' s', Forall inner es' → run es' s = Some s' → length es' ≤ 11 * length (sy_threads s))
  ∧ ((∀ e, inner e → event_step e s = None) →
       Forall (λ t, is_Some (thread_response t)) (sy_threads s)).
Proof using.
  intros Hf Hrun. pose proof (run_sound _ _ _ _ _ _ _ Hf Hrun) as Hs. split_and!.
  - apply Hs.
  - intros es' s' Hin Hrun'. pose proof (inner_run_works _ _ _ Hs Hin Hrun'). pose proof (work_bound s Hs). lia.
  - intros Hstuck. apply Forall_lookup. intros i t Hi.
    destruct (thread_response t) eqn:Er; [by eexists|].
    destruct (inner_enabled s i t Hs Hi Er) as (e & s' & He & Hstep). by rewrite Hstuck in Hstep.
Qed.

(** The service is the handler, cut: whatever the life of the broker so far,
a request that arrives when no flight is on can be brought to its answer by
its own steps, without another request, and these steps leave the server in
exactly the state that the handler [issueCertificate] leaves it in. *)
Theorem handler_is_a_run perId perProf es w wt data s r :
  fresh perId perProf w wt data → run es (start w wt data) = Some s →
  g_flights (sy_group s) = ∅ →
  ∃ es' s' resp, Forall inner es' ∧ run (Arrive r :: es') s = Some s'
    ∧ sy_world s' = snd (issueCertificate env dns_text r (sy_world s))
    ∧ sy_threads s' = sy_threads s ++ [mkThread r (Answered resp)].
Proof using.
  intros Hf Hrun Hfl. pose proof (run_sound _ _ _ _ _ _ _ Hf Hrun) as Hs.
  destruct (event_step (Arrive r) s) as [s1|] eqn:Hstep; [|done].
  assert (Hs1 : sound s1) by (by eapply sound_step). injection Hstep as <-.
  destruct (completes_arrived (length (sy_threads s)) r _ Hs1) as (es' & s' & resp & Hin & Hr & Hw & Ht).
  { simpl. by rewrite lookup_app_r, Nat.sub_diag by done. }
  { done. }
  exists es', s', resp. split_and!; [done|done| |].
  - rewrite Hw. apply rest_handler.
  - rewrite Ht. simpl. by rewrite insert_app_r_alt, Nat.sub_diag by done.
Qed.
End Service.

(** ** Three requests at once

A server of limit two, while the policy file is edited: the first two requests
share a flight, the third is one too many. *)

#[local] Existing Instance test_crypto.
#[local] Existing Instance broker_spec.test_issuer.

Definition test_watch : watch := Watch_start (Ok 1%Z) (mkManager (Some (the_policy test_config))).

Definition test_start : @system FileStore FileJSONLRecorder nat :=
  start (test_server "fail_open") test_watch "A".

Definition test_events (k : string) : list event :=
  [Arrive api_request; Arrive api_request; Handle 0; Handle 1; Handle 0; Handle 1; Handle 0;
   Look (mkObservation (2 * Hour) (Ok 2%Z) (Ok "B")); Handle 1;
   Handle 0; Handle 0; Handle 0; Arrive api_request; Join 0; Fly k; Handle 1; Handle 1; Handle 1;
   Join 1; Fly k; Fly k; Handle 1; Handle 2; Handle 2; Handle 2; Handle 2; Handle 2; Handle 0; Handle 2].

Definition test_run := run test_env no_text two_documents.

Definition test_flight_key : string :=
  key_String (cacheKey (test_server "fail_open") "api01" "api" api_profile_compiled
    (Sha256.sha256.hex_sha256 "pub")).

Definition test_end : @system FileStore FileJSONLRecorder nat :=
  default test_start (test_run (test_events test_flight_key) test_start).

Definition answer_of (s : @system FileStore FileJSONLRecorder nat) (i : nat) : response :=
  default no_response (sy_threads s !! i ≫= thread_response).

Example three_at_once :
  status <$> (answer_of test_end <$> [0; 1; 2]) = [200; 200; 429]%Z
  ∧ w_issuer (sy_world test_end) = 1 ∧ sy_orders test_end = [0]
  ∧ fst <$> sy_grants test_end = [0; 1] ∧ sy_reads test_end = ["A"; "B"].
Proof. vm_compute. done. Qed.

Lemma test_runs :
  run test_env no_text two_documents (test_events test_flight_key)
    (start (test_server "fail_open") test_watch "A") = Some test_end.
Proof. vm_compute. reflexivity. Qed.

Lemma test_fresh : fresh two_documents 2 2 (test_server "fail_open") test_watch "A".
Proof.
  constructor; [done| |done|done]. exists (the_policy test_config), 0%Z, "A", test_config.
  split_and!; [done|by left|done|]. by vm_compute.
Qed.

Example service_serves_lawful_witness :
  ∃ a given, lawful test_env two_documents test_end api_request a
    ∧ content (answer_of test_end 1) = IssueBody (newIssueResponse given).
Proof.
  destruct (service_serves_lawful test_env no_text two_documents 2 2 (test_events test_flight_key)
    (test_server "fail_open") test_watch "A" test_end 1 api_request (answer_of test_end 1)
    test_fresh test_runs) as (a & key & given & Ha & _ & Hc & _).
  - vm_compute. reflexivity.
  - vm_compute. reflexivity.
  - exists a, given. exact (conj Ha Hc).
Defined.

Lemma api_request_plain : plain_request api_request.
Proof. intros cert rest [= <- _]. unfold no_nul. vm_compute. set_solver. Qed.

Example service_limits_witness :
  NoDup (fst <$> sy_grants test_end)
  ∧ ∀ T l, NoDup l → (∀ i, i ∈ l → charged test_end i
      ∧ granted_in test_end (λ g, to_identity g = "api01") T i) → (Z.of_nat (length l) ≤ 2)%Z.
Proof.
  destruct (service_limits test_env no_text two_documents 2 2 (test_events test_flight_key)
    (test_server "fail_open") test_watch "A" test_end) as [_ [Hone _] Hid _].
  - intros n m Hnm. simpl. lia.
  - intros r Hr. assert (r = api_request) as ->; [|apply api_request_plain].
    unfold test_events in Hr. repeat (apply elem_of_cons in Hr as [Hr|Hr]; [by inversion Hr|]).
    by apply elem_of_nil in Hr.
  - exact test_fresh.
  - exact test_runs.
  - split; [exact Hone|]. exact (Hid eq_refl "api01").
Defined.

Example service_answers_witness :
  w_responses (sy_world test_end) ≡ₚ omap thread_response (sy_threads test_end).
Proof.
  exact (proj1 (service_answers test_env no_text two_documents 2 2 (test_events test_flight_key)
    (test_server "fail_open") test_watch "A" test_end test_fresh test_runs)).
Defined.

Example handler_is_a_run_witness :
  ∃ es' s', run test_env no_text two_documents (Arrive api_request :: es') test_end = Some s'
    ∧ sy_world s' = snd (issueCertificate test_env no_text api_request (sy_world test_end)).
Proof.
  destruct (handler_is_a_run test_env no_text two_documents 2 2 (test_events test_flight_key)
    (test_server "fail_open") test_watch "A" test_end api_request test_fresh test_runs)
    as (es' & s' & resp & _ & Hrun & Hw & _).
  - vm_compute. reflexivity.
  - exists es', s'. exact (conj Hrun Hw).
Defined.
End service_spec.
