(* ===== verification/AuditTrail.v ===== *)
(** * The audit trail of a broker in service

What is on the record of a broker that fails closed ([issue_audit.go],
[issue.go]), over the whole life of [Service]: no bundle is ordered or served
whose authorization is not recorded, and none is served whose delivery is not.
The recorder is what [RecorderLaws] asks of it. *)

From S2P Require Import Prelude GoStrings DnsName GoTime Json X509 Policy PolicySpec PolicyManager.
From S2P Require Import RateLimit Pki AuditLog Store Authn Broker BrokerSpec SingleFlight Service ServiceSpec.
Import x509 policy policy_spec policy_manager ratelimit pki audit store authn broker broker_spec.
Import single_flight service service_spec.
#[local] Open Scope go_scope.

Module audit_trail.

Section Trail.
Context {CR : Crypto} {S A I F E : Type}.
Context `{CS : CertificateStore S} `{RL : RecorderLaws E A F} `{IS : Issuer I}.
Context (env : environment (F:=F)) (dns_text : dnsname.error → string).
Context {yaml_error : Type} (yaml_decode : string → result yaml_error Config).
#[local] Existing Instance M_ret.
#[local] Existing Instance M_bind.
#[local] Notation world := (broker.world (S:=S) (A:=A) (I:=I)).
#[local] Notation M := (M (S:=S) (A:=A) (I:=I)).
#[local] Notation system := (service.system (S:=S) (A:=A) (I:=I)).
#[local] Notation event_step := (service.event_step env dns_text yaml_decode).
#[local] Notation run := (service.run env dns_text yaml_decode).
#[local] Notation entitled := (service.entitled env yaml_decode).
#[local] Notation sound := (service.sound env yaml_decode).

(** ** What the events say *)

(** The event is about the request of this context. *)
Definition describes (c : certificateRequestContext) (ev : Event) : Prop :=
  audit.Identity ev = ctx_Identity c ∧ audit.ProfileName ev = ctx_ProfileName c
  ∧ (∀ q, ctx_Profile c = Some q → audit.ProfileHash ev = Hash q)
  ∧ SourceIP ev = sourceIP (ctx_Request c).

Definition authorization (c : certificateRequestContext) (ev : Event) : Prop :=
  audit.Type_ ev = EventCertificateAuthorized ∧ describes c ev.

Definition issuance (c : certificateRequestContext) (given : issuedResult) (ev : Event) : Prop :=
  audit.Type_ ev = (if issued_cache given == "hit" then EventCertificateCacheHit
                    else EventCertificateIssued)
  ∧ CertSerialNumber ev = LeafSerialNumber (issued_bundle given)
  ∧ CacheResult ev = issued_cache given ∧ describes c ev.

Lemma auditEvent_says c t sv d rc err (w : world) :
  let ev := fst (auditEvent env dns_text c t sv d rc err w) in audit.Type_ ev = t ∧ describes c ev.
Proof using.
  simpl. split; [done|]. split_and!; [done|done| |done]. simpl. by intros q ->.
Qed.

Lemma issuedEvent_says c given (w : world) :
  issuance c given (fst (issuedEvent env dns_text c given w)).
Proof using.
  unfold issuedEvent, mbind, M_bind, with_world. 
  pose proof (auditEvent_says c (if issued_cache given == "hit" then EventCertificateCacheHit
    else EventCertificateIssued) SeverityInfo (if issued_cache given == "hit" then DecisionCacheHit
    else DecisionIssue) (if issued_cache given == "hit" then ReasonCacheHit else ReasonCacheMiss) None w) as [Ht Hd].
  destruct (auditEvent _ _ _ _ _ _ _ _ w) as [ev w1]. simpl in *. by split_and!.
Qed.

(** ** What is on the record *)

Definition recorded (w : world) (ev : Event) : Prop := ∃ a, w_audit w = Some a ∧ on_record a ev.

(** The broker fails closed, and has a recorder. *)
Definition closed (w : world) : Prop := failureMode w = "fail_closed" ∧ is_Some (w_audit w).

Definition keeps_trail (w w' : world) : Prop :=
  (closed w → closed w') ∧ ∀ ev, recorded w ev → recorded w' ev.

Lemma trail_same (w w' : world) :
  failureMode w' = failureMode w → w_audit w' = w_audit w → keeps_trail w w'.
Proof using. intros Hm Ha. unfold keeps_trail, closed, recorded. by rewrite Hm, Ha. Qed.

Lemma trail_stable : stable keeps_trail.
Proof using RL.
  constructor.
  - split; [by split|]. intros w1 w2 w3 [Hc1 H1] [Hc2 H2]. split; auto.
  - intros w. by apply trail_same.
  - intros resp w. by apply trail_same.
  - intros l w. by apply trail_same.
  - intros f e a w Ha. split; [by intros [Hm _]; split|]. intros ev (a' & Ha' & Hev).
    rewrite Ha in Ha'. injection Ha' as <-. eexists. split; [done|]. by apply record_keeps.
Qed.

(** With the identifiers and time it is given, an event says the same. *)
Lemma record_says ev (w w' : world) :
  record env ev w = (None, w') → is_Some (w_audit w) →
  ∃ id rid t, recorded w' (with_ids ev id rid t).
Proof using RL.
  unfold record, mbind, M_bind. intros Hr [a Ha]. revert Hr.
  destruct (normalize_says env ev w) as [Hn (id & rid & t & Hev)].
  destruct (normalizeAuditEvent env ev w) as [ev' w1]. simpl in Hn, Hev. subst ev'.
  unfold with_world. rewrite Hn, Ha. destruct (Record_ _ _ a) as [err a'] eqn:Er. intros [= -> <-].
  exists id, rid, t, a'. split; [done|]. by eapply record_on.
Qed.

Lemma barrier_says {T} ev (x y : T) (w w' : world) :
  barrier env ev x w = (Some y, w') → closed w → ∃ id rid t, recorded w' (with_ids ev id rid t).
Proof using RL.
  unfold barrier, auditBarrier, mbind, M_bind, with_world. intros Hb [Hmode Ha]. revert Hb.
  pose proof (quiet_record env ev w) as [Hs _].
  destruct (record env ev w) as [err w1] eqn:Er. simpl in Hs. destruct err as [e|].
  - rewrite (sc_mode _ _ Hs), Hmode. by intros [=].
  - intros [= _ <-]. by apply (record_says ev w).
Qed.

(** ** What is recorded of a request at each stage *)

(** The request of the thread was authorized as [c] says, on the record. *)
Definition vouched (w : world) (c : certificateRequestContext) : Prop :=
  ∃ ev, recorded w ev ∧ authorization c ev.

(** A bundle is served to a request that is entitled to it, on the record. *)
Definition served_on_record (rd : list string) (w : world) (r : http_request) (resp : response) : Prop :=
  ∃ c q given ev, entitled rd r c q ∧ content resp = IssueBody (newIssueResponse given)
    ∧ vouched w c ∧ recorded w ev ∧ issuance c given ev.

Definition stage_audited (rd : list string) (w : world) (r : http_request) (st : stage) : Prop :=
  match st with
  | Recorded c | Passed c | Waiting c _ | Resolved c _ _ => vouched w c
  | Answered resp => status resp = 200%Z → served_on_record rd w r resp
  | _ => True
  end.

Lemma vouched_keeps (w w' : world) c : keeps_trail w w' → vouched w c → vouched w' c.
Proof using. intros [_ Hk] (ev & Hev & ?). exists ev. auto. Qed.
#[local] Hint Resolve vouched_keeps : certplane.

Lemma stage_audited_mono rd rd' (w w' : world) r st :
  rd ⊆ rd' → keeps_trail w w' → stage_audited rd w r st → stage_audited rd' w' r st.
Proof using.
  intros Hrd Hw. destruct st; simpl; eauto with certplane. intros Hold H200.
  destruct (Hold H200) as (c & q & given & ev & Hq & Hc & Hv & Hr & Hi).
  exists c, q, given, ev. split_and!; try done; [by eapply entitled_mono|eauto with certplane|by apply Hw].
Qed.

Lemma authorized_says c (w w' : world) c' :
  recordAuthorizedIssue env dns_text c w = (Some c', w') → closed w → vouched w' c.
Proof using RL.
  unfold recordAuthorizedIssue, mbind, M_bind. intros Hb Hw.
  pose proof (auditEvent_says c EventCertificateAuthorized SeverityInfo DecisionAllow ReasonOK None w) as He.
  assert (Hk := keeps_auditEvent env dns_text keeps_trail trail_stable c EventCertificateAuthorized
    SeverityInfo DecisionAllow ReasonOK None w).
  destruct (auditEvent _ _ _ _ _ _ _ _ w) as [ev w1]. simpl in He, Hk.
  destruct (barrier_says _ _ _ _ _ Hb (proj1 Hk Hw)) as (id & rid & t & Hr). by eexists.
Qed.

Lemma issued_says c given (w w' : world) :
  recordIssuedResult env dns_text c given w = (Some tt, w') → closed w →
  ∃ ev, recorded w' ev ∧ issuance c given ev.
Proof using RL.
  unfold recordIssuedResult, mbind, M_bind. intros Hb Hw. pose proof (issuedEvent_says c given w) as He.
  pose proof (quiet_issuedEvent env dns_text c given w) as [Hs _].
  destruct (issuedEvent _ _ _ _ w) as [ev w1]. simpl in He, Hs.
  assert (Hw1 : closed w1).
  { destruct Hw as [Hm Ha]. split; [by rewrite (sc_mode _ _ Hs)|by apply (sc_recorder _ _ Hs)]. }
  destruct (barrier_says _ _ _ _ _ Hb Hw1) as (id & rid & t & Hr). by eexists.
Qed.

Lemma deliver_audited rd r c q res (w w' : world) resp :
  deliver env dns_text c res w = (None, w') → keeps_trail w w' → closed w →
  entitled rd r c q → vouched w c → w_responses w' = w_responses w ++ [resp] →
  status resp = 200%Z → served_on_record rd w' r resp.
Proof using RL.
  intros Hd Hk Hc Hq Hv Hresp H200. destruct res as [given|e]; simpl in Hd.
  - pose proof (wp_recordIssued env dns_text c given w) as Hwp.
    unfold and_then, writeJSON, mbind, M_bind in Hd. unfold wp in Hwp.
    destruct (recordIssuedResult env dns_text c given w) as [[[]|] w1] eqn:Er.
    + destruct (issued_says _ _ _ _ Er Hc) as (ev & Hev & Hi). injection Hd as <-. simpl in Hresp.
      rewrite (proj2 Hwp) in Hresp. apply app_inj_tail in Hresp as [_ <-].
      exists c, q, given, ev. split_and!; try done. by eapply vouched_keeps.
    + injection Hd as <-. destruct Hwp as [[_ Hr] _]. rewrite Hr in Hresp.
      apply app_inj_tail in Hresp as [_ <-]. done.
  - destruct (refuse_spec (T:=stage) env dns_text c EventCertificateIssueFailed SeverityError DecisionError
      ReasonIssuerFailed e 502 "issuance failed" w) as (w1 & Hw1 & [_ Hr]).
    rewrite Hw1 in Hd. injection Hd as <-. rewrite Hr in Hresp. by apply app_inj_tail in Hresp as [_ <-].
Qed.

(** The stage a request goes to by itself. *)
Lemma handle_audited rd dn i r st (m : M (option stage)) x (w w' : world) :
  handle env dns_text r st = Some m → m w = (x, w') → closed w →
  stage_ok (S:=S) (A:=A) (I:=I) env yaml_decode rd dn i r st →
  (∀ pol, w_policy w = Some pol → served_policy yaml_decode rd pol) →
  stage_audited rd w r st → stage_audited rd w' r (settle x w').
Proof using RL.
  intros Hm Hw Hc Hok Hpol Hst.
  pose proof (handle_wp env dns_text yaml_decode rd dn i r st m w Hm Hok Hpol) as Hwp.
  pose proof (keeps_handle env dns_text keeps_trail trail_stable r st m Hm w) as Hk.
  unfold wp in Hwp. rewrite Hw in Hwp, Hk. simpl in Hk. destruct x as [st'|].
  - destruct Hwp as (_ & _ & _ & Hsucc & _). cbn [settle].
    destruct st as [| | | |c|c| | | |], st' as [| | | | |c'|c'| | |]; try done; simpl in Hsucc; subst c'; simpl.
    + injection Hm as <-. unfold then_at, mbind, M_bind in Hw.
      destruct (recordAuthorizedIssue env dns_text c w) as [[c1|] w1] eqn:Er; [|done].
      injection Hw as _ <-. by eapply authorized_says.
    + by eapply vouched_keeps.
  - destruct Hwp as (_ & _ & _ & resp & Hresp & _ & Hne). cbn [settle]. rewrite Hresp, last_snoc. simpl.
    intros H200. destruct st as [| | | | | | | |c fr res|]; try done.
    injection Hm as <-. destruct Hok as (_ & q & Hq & _). by eapply deliver_audited.
Qed.

(** ** Over the life of a broker *)

(** The flights, the watcher and the arrivals leave the recorder alone. *)
Lemma advance_recorder r st (w w' : world) x :
  advance env r st w = (x, w') → failureMode w' = failureMode w ∧ w_audit w' = w_audit w.
Proof using.
  destruct st as [| |b]; simpl;
    unfold store_Get, store_Put, issuer_Issue, mbind, M_bind, time_Now, draw, with_world;
    cbn [w_store w_draws set_draws].
  - by intros [= _ <-].
  - destruct (Issue _ _) as [res i']. by intros [= _ <-].
  - destruct (PutCertificate _ _ _ _ _) as [e s']. by intros [= _ <-].
Qed.

Lemma event_keeps (R : relation world) e s s' :
  stable R → (∀ w w', failureMode w' = failureMode w → w_audit w' = w_audit w → R w w') →
  event_step e s = Some s' → R (sy_world s) (sy_world s').
Proof using.
  intros HR Hsame. destruct e as [r|i|i|k|o]; simpl.
  - intros [= <-]. by apply Hsame.
  - intros ([r st] & Hi & (m & Hm & He)%bind_Some)%bind_Some. simpl in Hm, He.
    pose proof (keeps_handle env dns_text R HR r st m Hm (sy_world s)) as Hk.
    destruct (m (sy_world s)) as [x w']. by injection He as <-.
  - intros (t & Hi & He)%bind_Some. destruct (th_stage t); try done.
    apply bind_Some in He as (q & _ & [= <-]). by apply Hsame.
  - intros (f & Hk & [= <-])%bind_Some. unfold sy_world, drive. simpl. rewrite Hk.
    destruct (advance env (leader f) (at_stage f) (g_world (sy_group s))) as [[st|res] w'] eqn:Ea;
      apply advance_recorder in Ea as [Hm Ha]; by apply Hsame.
  - intros [= <-]. by apply Hsame.
Qed.

Lemma event_trail e s s' : event_step e s = Some s' → keeps_trail (sy_world s) (sy_world s').
Proof using RL. apply event_keeps; [apply trail_stable|apply trail_same]. Qed.

Record audited (s : system) : Prop := mkAudited {
  au_closed : closed (sy_world s);
  au_threads : ∀ i t, sy_threads s !! i = Some t →
    stage_audited (sy_reads s) (sy_world s) (th_request t) (th_stage t);
  au_orders : ∀ i, i ∈ sy_orders s → ∃ t c q, sy_threads s !! i = Some t
    ∧ entitled (sy_reads s) (th_request t) c q ∧ vouched (sy_world s) c }.

Lemma threads_audited e s s' :
  event_step e s = Some s' → sound s → audited s →
  ∀ i t, sy_threads s' !! i = Some t →
    stage_audited (sy_reads s') (sy_world s') (th_request t) (th_stage t).
Proof using RL.
  intros He Hs [Hc Ht _]. pose proof (gw_reads _ _ (event_grows _ _ _ _ _ _ He)) as Hrd.
  pose proof (event_trail _ _ _ He) as Hw.
  assert (Hold : ∀ i t, sy_threads s !! i = Some t →
    stage_audited (sy_reads s') (sy_world s') (th_request t) (th_stage t)).
  { intros i t Hi. eapply stage_audited_mono; eauto. }
  intros j t. destruct e as [r|i|i|k|o]; simpl in He.
  - injection He as <-. intros [Hj|[_ Hj]]%lookup_app_Some; [by eapply Hold|].
    by apply list_lookup_singleton_Some in Hj as [_ <-].
  - apply bind_Some in He as ([r st] & Hi & (m & Hm & He)%bind_Some). simpl in Hm, He.
    destruct (m (sy_world s)) as [x w'] eqn:Em. injection He as <-. simpl.
    intros [(<- & <- & _)|[_ Hj]]%list_lookup_insert_Some; [|by eapply Hold]. simpl.
    eapply (handle_audited _ (g_done (sy_group s)) i); try done.
    + exact (so_threads _ _ _ Hs _ _ Hi).
    + exact (sound_served _ _ _ Hs).
    + exact (Ht _ _ Hi).
  - apply bind_Some in He as ([r st] & Hi & He). simpl in He. destruct st as [| | | | | |c| | |]; try done.
    apply bind_Some in He as (q & _ & [= <-]). simpl.
    intros [(<- & <- & _)|[_ Hj]]%list_lookup_insert_Some; [|by eapply Hold]. exact (Hold _ _ Hi).
  - apply bind_Some in He as (f & _ & [= <-]). simpl. destruct (fst _) as [st|res]; [by apply Hold|]. simpl.
    intros ([r st] & -> & Hj)%list_lookup_fmap_Some. pose proof (Hold _ _ Hj) as Hst. unfold resolve.
    simpl in *. destruct st; try done. by case_decide.
  - injection He as <-. by apply Hold.
Qed.

Lemma orders_audited e s s' :
  event_step e s = Some s' → sound s → audited s →
  ∀ i, i ∈ sy_orders s' → ∃ t c q, sy_threads s' !! i = Some t
    ∧ entitled (sy_reads s') (th_request t) c q ∧ vouched (sy_world s') c.
Proof using RL.
  intros He Hs [Hc Ht Ho]. pose proof (event_trail _ _ _ He) as Hw.
  pose proof (event_grows _ _ _ _ _ _ He) as [Hrd _ _ Hth].
  assert (Hold : ∀ i t c q, sy_threads s !! i = Some t → entitled (sy_reads s) (th_request t) c q →
    vouched (sy_world s) c → ∃ t c q, sy_threads s' !! i = Some t
      ∧ entitled (sy_reads s') (th_request t) c q ∧ vouched (sy_world s') c).
  { intros i t c q Hi Hq Hv. destruct (Hth _ _ Hi) as (t' & Hi' & Er). exists t', c, q. rewrite Er.
    split_and!; [done|by eapply entitled_mono|by eapply vouched_keeps]. }
  intros i Hi. assert (Hin : i ∈ sy_orders s ∨ ∃ k f, g_flights (sy_group s) !! k = Some f
    ∧ i = fr_id (leader f)).
  { destruct e as [r|j|j|k|o]; simpl in He.
    - left. by injection He as <-.
    - left. apply bind_Some in He as (t & _ & (m & _ & He)%bind_Some).
      destruct (m (sy_world s)). by injection He as <-.
    - left. apply bind_Some in He as (t & _ & He). destruct (th_stage t); try done.
      by apply bind_Some in He as (q & _ & [= <-]).
    - apply bind_Some in He as (f & Hk & [= <-]). simpl in Hi. apply elem_of_app in Hi as [Hi|Hi]; [by left|].
      right. exists k, f. split; [done|]. unfold ordered in Hi.
      destruct (at_stage f); set_solver.
    - left. by injection He as <-. }
  destruct Hin as [Hin|(k & f & Hk & ->)].
  - destruct (Ho i Hin) as (t & c & q & ? & ? & ?). by eapply Hold.
  - destruct (in_flight_thread env yaml_decode s (leader f) Hs) as (t & c & Hti & Hst);
      [by eapply in_flight_elem; [|left]|].
    pose proof (so_threads _ _ _ Hs _ _ Hti) as Hok. pose proof (Ht _ _ Hti) as Hv.
    rewrite Hst in Hok, Hv. destruct Hok as (q & Hq & _). by eapply Hold.
Qed.

Lemma audited_step e s s' : event_step e s = Some s' → sound s → audited s → audited s'.
Proof using RL.
  intros He Hs Ha. constructor; [|by eapply threads_audited|by eapply orders_audited].
  apply (event_trail _ _ _ He), Ha.
Qed.

Lemma run_audited perId perProf es w wt data s :
  closed w → fresh yaml_decode perId perProf w wt data → run es (start w wt data) = Some s →
  sound s ∧ audited s.
Proof using RL.
  intros Hc Hf Hrun.
  apply (run_invariant env dns_text yaml_decode (λ s, sound s ∧ audited s) es (start w wt data)); [|done|].
  - intros e s1 s2 _ He [Hs Ha]. split; [by eapply sound_step|by eapply audited_step].
  - split; [by eapply sound_start|]. constructor; simpl; [done|done|set_solver].
Qed.

(** ** Properties *)

(** An event about the admitted request [r]. *)
Definition about (r : http_request) (a : admission) (ev : Event) : Prop :=
  audit.Identity ev = ad_identity a ∧ audit.ProfileName ev = ad_profile_name a
  ∧ audit.ProfileHash ev = Hash (ad_profile a) ∧ SourceIP ev = sourceIP r.

Lemma entitled_about (s : system) r c q :
  entitled (sy_reads s) r c q →
  ∃ a, lawful env yaml_decode s r a ∧ ∀ ev, describes c ev → about r a ev.
Proof using.
  intros (a & Ha & Hr & Hq & Heq & _)%entitled_admission. exists a. split; [done|].
  intros ev (Hi & Hp & Hh & Hs). rewrite Heq. subst r. split_and!; simpl; auto.
Qed.

(** Whoever is served is, with the bundle, on the record, and so is whoever has the
issuer called. *)
Record on_the_record (s : system) : Prop := {
  or_served : ∀ i r resp,
    sy_threads s !! i = Some (mkThread r (Answered resp)) → status resp = 200%Z →
    ∃ a given ev ev', lawful env yaml_decode s r a
      ∧ content resp = IssueBody (newIssueResponse given)
      ∧ recorded (sy_world s) ev ∧ audit.Type_ ev = EventCertificateAuthorized ∧ about r a ev
      ∧ recorded (sy_world s) ev' ∧ about r a ev'
      ∧ audit.Type_ ev' = (if issued_cache given == "hit" then EventCertificateCacheHit
                           else EventCertificateIssued)
      ∧ CertSerialNumber ev' = LeafSerialNumber (issued_bundle given)
      ∧ CacheResult ev' = issued_cache given;
  or_ordered : ∀ i, i ∈ sy_orders s → ∃ t a ev, sy_threads s !! i = Some t
    ∧ lawful env yaml_decode s (th_request t) a
    ∧ recorded (sy_world s) ev ∧ audit.Type_ ev = EventCertificateAuthorized
    ∧ about (th_request t) a ev }.

Lemma audited_on_the_record s : audited s → on_the_record s.
Proof using.
  intros Ha. constructor.
  - intros i r resp Hi H200.
    destruct (au_threads _ Ha _ _ Hi H200) as (c & q & given & ev' & Hq & Hcon & (ev & Hr & Hau) & Hr' & Hiss).
    destruct Hau as [Ht Hd], Hiss as (Ht' & Hser & Hcache & Hd').
    destruct (entitled_about _ _ _ _ Hq) as (a & Hl & Hab). exists a, given, ev, ev'. auto 20.
  - intros i Hi. destruct (au_orders _ Ha i Hi) as (t & c & q & Ht & Hq & ev & Hr & Hty & Hd).
    destruct (entitled_about _ _ _ _ Hq) as (a & Hl & Hab). exists t, a, ev. auto 20.
Qed.

(** C5: The audit log is complete: over the whole life of a broker that fails closed
and has a recorder, however its requests interleave, and whatever fails. A
request answered with status 200 is lawful, and on the record are its
authorization, with its host, profile, profile hash and address, and the
delivery of the very bundle it was given, with its serial number and whether it
came from the cache. The issuer is called for lawful requests only whose
authorization is on the record. *)
Theorem service_audited perId perProf es w wt data s :
  closed w → fresh yaml_decode perId perProf w wt data → run es (start w wt data) = Some s →
  on_the_record s.
Proof using RL.
  intros Hc Hf Hrun. apply audited_on_the_record. by apply (run_audited _ _ _ _ _ _ _ Hc Hf Hrun).
Qed.
End Trail.

(** ** The three requests of [ServiceSpec], failing closed *)

#[local] Existing Instance test_crypto.
#[local] Existing Instance broker_spec.test_issuer.

Definition closed_end : @service.system FileStore FileJSONLRecorder nat :=
  default test_start (test_run (test_events test_flight_key)
    (start (test_server "fail_closed") test_watch "A")).

Lemma closed_runs :
  service.run test_env no_text two_documents (test_events test_flight_key)
    (start (test_server "fail_closed") test_watch "A") = Some closed_end.
Proof. vm_compute. reflexivity. Qed.

Lemma closed_fresh : fresh two_documents 2 2 (test_server "fail_closed") test_watch "A".
Proof.
  constructor; [done| |done|done]. exists (the_policy test_config), 0%Z, "A", test_config.
  split_and!; [done|by left|done|]. by vm_compute.
Qed.

Example service_audited_witness :
  ∃ a ev, recorded (sy_world closed_end) ev ∧ audit.Type_ ev = EventCertificateAuthorized
    ∧ about api_request a ev.
Proof.
  destruct (service_audited test_env no_text two_documents 2 2 (test_events test_flight_key)
    (test_server "fail_closed") test_watch "A" closed_end) as [Hserved _].
  - split; [reflexivity|]. by eexists.
  - exact closed_fresh.
  - exact closed_runs.
  - destruct (Hserved 0 api_request (answer_of closed_end 0)) as (a & given & ev & ev' & _ & _ & Hr & Ht & Hab & _).
    + vm_compute. reflexivity.
    + vm_compute. reflexivity.
    + exists a, ev. exact (conj Hr (conj Ht Hab)).
Defined.
End audit_trail.
