(* ===== verification/ServiceRefusals.v ===== *)
(** * Why a broker in service refuses

The converse of [ServiceSpec]: over the whole life of [Service], a request that
is not served has a reason not to be, in its own certificate or body, in the
policy file, in the grants of the hour, in the store, the issuer or the audit
recorder. Nobody is refused for what another request did, the limits apart. *)

From S2P Require Import Prelude GoStrings DnsName GoTime Json X509 Policy PolicySpec PolicyManager.
From S2P Require Import RateLimit Pki AuditLog Store Authn Broker BrokerSpec SingleFlight Service ServiceSpec.
From S2P Require Import AuditTrail.
Import x509 policy policy_spec policy_manager ratelimit pki audit store authn broker broker_spec.
Import single_flight service service_spec audit_trail.
#[local] Open Scope go_scope.

Module service_refusals.

Section Refusals.
Context {CR : Crypto} {S A I F E : Type}.
Context `{CS : CertificateStore S} `{RO : RecorderOps E A F} `{IS : Issuer I}.
Context (env : environment (F:=F)) (dns_text : dnsname.error → string).
Context {yaml_error : Type} (yaml_decode : string → result yaml_error Config).
#[local] Existing Instance M_ret.
#[local] Existing Instance M_bind.
#[local] Notation world := (broker.world (S:=S) (A:=A) (I:=I)).
#[local] Notation M := (M (S:=S) (A:=A) (I:=I)).
#[local] Notation system := (service.system (S:=S) (A:=A) (I:=I)).
#[local] Notation event_step := (service.event_step env dns_text yaml_decode).
#[local] Notation run := (service.run env dns_text yaml_decode).
#[local] Notation entitled := (service.entitled env yaml_decode).
#[local] Notation sound := (service.sound (S:=S) (A:=A) (I:=I) env yaml_decode).
#[local] Notation traced := (service_spec.traced (S:=S) (A:=A) (I:=I) env yaml_decode).
#[local] Notation metered := (service_spec.metered (S:=S) (A:=A) (I:=I) env).
#[local] Notation lawful := (service_spec.lawful (S:=S) (A:=A) (I:=I) env yaml_decode).
#[local] Notation audit_fails := (broker_spec.audit_fails (S:=S) (A:=A) (I:=I) (E:=E)).

(** ** Reasons *)

(** What a request asks for, and who asks. *)
Record asks (r : http_request) (identity profileName : string) (csr : CertificateRequest) : Prop := {
  as_certificate : ∃ n cert rest, PeerCertificates r = Some (Some cert :: rest)
    ∧ client_certificate (env_clock env n) cert identity;
  as_body : ∃ text pem, read_body r = Some text
    ∧ decode_issueRequest text = Some (mkRequest profileName pem) ∧ ParseCSRPEM pem = Ok csr }.

(** The limit is used up: in the hour that ends at [T], as many requests as it
allows were granted. *)
Definition used_up (s : system) (Q : grant → Prop) (limit T : Z) : Prop :=
  (0 < limit)%Z ∧ ∃ l, NoDup l ∧ (limit ≤ Z.of_nat (length l))%Z ∧ ∀ j, j ∈ l → granted_in s Q T j.

(** A flight of the key text [k] failed, for a lawful request of this text: a
store of the run could not be read, the issuer was called and did not issue, or
what it issued could not be stored. *)
Definition mishap (s : system) (k : string) : Prop :=
  ∃ j t a key, sy_threads s !! j = Some t ∧ lawful s (th_request t) a ∧ key_for key a
    ∧ key_String key = k
    ∧ ((∃ st n m e, st ∈ g_stores (sy_group s)
          ∧ GetValidCertificate (env_store env m) (env_clock env n) key (RenewBefore (ad_profile a)) st
            = Err e ∧ e ≠ ErrCacheMiss)
       ∨ (j ∈ sy_orders s
          ∧ ∃ i i' e, Issue (issue_request (ad_profile a) (ad_csrPEM a)) i = (Err e, i'))
       ∨ (j ∈ sy_orders s
          ∧ ∃ i i' b st st' n m e, Issue (issue_request (ad_profile a) (ad_csrPEM a)) i = (Ok b, i')
            ∧ st ∈ g_stores (sy_group s)
            ∧ PutCertificate (env_store env m) (env_clock env n) key (Some b) st = (Some e, st'))).

(** The reason of each status. There is none for [503 "policy not loaded"]: a
broker that started always has a policy. *)
Inductive excused (perId perProf : Z) (s : system) (r : http_request) : Z → string → Prop :=
  | no_identifier n : env_ulid env n = None → excused perId perProf s r 500 "internal error"
  | no_certificate n :
      (∀ cert rest identity, PeerCertificates r = Some (Some cert :: rest) →
         ¬ client_certificate (env_clock env n) cert identity) →
      excused perId perProf s r 401 "unauthorized"
  | bad_body :
      (∀ text req, read_body r = Some text → decode_issueRequest text = Some req →
         Request_Profile req = "" ∨ Request_CSRPEM req = "") →
      excused perId perProf s r 400 "invalid request"
  | bad_signing_request text req :
      read_body r = Some text → decode_issueRequest text = Some req →
      (∀ csr fp, ParseCSRPEM (Request_CSRPEM req) = Ok csr →
         PublicKeyFingerprint (csr_PublicKey csr) ≠ Ok fp) →
      excused perId perProf s r 400 "invalid csr"
  | not_granted identity profileName csr data cfg :
      asks r identity profileName csr → data ∈ sy_reads s → yaml_decode data = Ok cfg → file_ok cfg →
      (∀ q, ¬ file_authorizes cfg identity profileName csr q) →
      excused perId perProf s r 403 "forbidden"
  | too_many a n :
      lawful s r a →
      used_up s (λ g, to_identity g = ad_identity a) perId (env_clock env n)
      ∨ used_up s (λ g, to_identity g = ad_identity a ∧ for_profile g = ad_profile_name a) perProf
          (env_clock env n) →
      excused perId perProf s r 429 "rate limited"
  | not_recorded a :
      lawful s r a → audit_fails (sy_world s) → excused perId perProf s r 503 "audit unavailable"
  | not_delivered a key :
      lawful s r a → key_for key a → mishap s (key_String key) →
      excused perId perProf s r 502 "issuance failed".

Definition accounts_for (perId perProf : Z) (s : system) (r : http_request) (resp : response) : Prop :=
  status resp = 200%Z ∨ ∃ msg, content resp = ErrorBody msg ∧ excused perId perProf s r (status resp) msg.

(** ** What only grows *)

Record later (s s' : system) : Prop := {
  la_grows : grows s s';
  la_grants : sy_grants s ⊆ sy_grants s';
  la_audit : audit_fails (sy_world s) → audit_fails (sy_world s') }.

Lemma lawful_later (s s' : system) r a : grows s s' → lawful s r a → lawful s' r a.
Proof using.
  intros Hg [? ? ? (data & cfg & Hin & ? & ?) ?]. constructor; try done. exists data, cfg.
  split; [by apply Hg|done].
Qed.

Lemma used_up_later s s' Q limit T : later s s' → used_up s Q limit T → used_up s' Q limit T.
Proof using.
  intros [_ Hg _] (Hl & l & Hnd & Hlen & Hall). split; [done|]. exists l. split_and!; [done..|].
  intros j Hj. destruct (Hall j Hj) as (g & Hin & ?). exists g. split; [by apply Hg|done].
Qed.

Lemma mishap_later (s s' : system) k : grows s s' → mishap s k → mishap s' k.
Proof using.
  intros Hgr (j & t & a & key & Hj & Hl & Hk & Hks & Hm). pose proof Hgr as [_ Hst Hor Hth].
  destruct (Hth _ _ Hj) as (t' & Hj' & Er). exists j, t', a, key. rewrite Er.
  split_and!; [done|by eapply lawful_later|done|done|]. destruct Hm as [H|[[? H]|[? H]]].
  - left. naive_solver.
  - right. left. auto.
  - right. right. split; [auto|]. naive_solver.
Qed.

Lemma excused_later perId perProf s s' r code msg :
  later s s' → excused perId perProf s r code msg → excused perId perProf s' r code msg.
Proof using.
  intros Hl. pose proof Hl as [Hg _ Ha]. destruct 1.
  - by eapply no_identifier.
  - by eapply no_certificate.
  - by eapply bad_body.
  - by eapply bad_signing_request.
  - eapply not_granted; [done|by apply Hg|done..].
  - eapply too_many; [by eapply lawful_later|]. naive_solver eauto using used_up_later.
  - eapply not_recorded; [by eapply lawful_later|auto].
  - eapply not_delivered; [by eapply lawful_later|done|by eapply mishap_later].
Qed.

Lemma accounts_later perId perProf s s' r resp :
  later s s' → accounts_for perId perProf s r resp → accounts_for perId perProf s' r resp.
Proof using. intros Hl [?|(msg & ? & ?)]; [by left|]. right. eauto using excused_later. Qed.

(** The server's mode and recorder stay. *)
Definition same_mode (w w' : world) : Prop :=
  failureMode w' = failureMode w ∧ (is_Some (w_audit w') ↔ is_Some (w_audit w)).

Lemma same_mode_stable : stable same_mode.
Proof using.
  unfold same_mode. constructor; simpl; try done.
  split; [done|]. intros w1 w2 w3 [? ?] [? ?]. split; [congruence|by etrans].
Qed.

Lemma event_later e s s' : event_step e s = Some s' → later s s'.
Proof using.
  intros He. constructor; [by eapply event_grows| |].
  - destruct e as [r|i|i|k|o]; simpl in He.
    + by injection He as <-.
    + apply bind_Some in He as (t & _ & (m & _ & He)%bind_Some). destruct (m (sy_world s)).
      injection He as <-. simpl. set_solver.
    + apply bind_Some in He as (t & _ & He). destruct (th_stage t); try done.
      by apply bind_Some in He as (q & _ & [= <-]).
    + by apply bind_Some in He as (f & _ & [= <-]).
    + by injection He as <-.
  - pose proof (event_keeps env dns_text yaml_decode same_mode e s s' same_mode_stable) as Hk.
    destruct Hk as [Hm Ha]; [|done|].
    { intros w w' Hm Ha. split; [done|]. by rewrite Ha. }
    intros (? & ? & ?). split_and!; [congruence|by apply Ha|done].
Qed.

(** The grants of a full hour are those of as many requests. *)
Lemma full_used_up (s : system) Q `{!∀ g, Decision (Q g)} limit T :
  NoDup (fst <$> sy_grants s) → (0 < limit)%Z →
  (limit ≤ Z.of_nat (window_count (at_time <$> filter Q (snd <$> sy_grants s)) T))%Z →
  used_up s Q limit T.
Proof using.
  intros Hone Hl Hn. split; [done|].
  set (P := λ ig : nat * grant, Q (snd ig) ∧ (T - Hour < at_time (snd ig) ≤ T)%Z).
  exists (fst <$> filter P (sy_grants s)). split_and!.
  - eapply sublist_NoDup; [done|]. apply fmap_sublist, sublist_filter.
  - etrans; [done|]. apply inj_le. rewrite length_fmap. unfold window_count. clear.
    induction (sy_grants s) as [|[j g] gr IH]; [done|]. rewrite fmap_cons. simpl snd. rewrite !filter_cons.
    destruct (decide (Q g)) as [Hq|Hq].
    + rewrite fmap_cons, filter_cons. case_decide as Ht; case_decide as Hp; simpl; try lia.
      by destruct Hp.
    + case_decide as Hp; simpl; lia.
  - intros j ([j' g] & -> & [[Hq Ht] Hin]%list_elem_of_filter)%list_elem_of_fmap. by exists g.
Qed.

(** The grants were made in the past. *)
Definition dated (s : system) : Prop :=
  ∀ j g, (j, g) ∈ sy_grants s → (at_time g ≤ env_clock env (w_draws (sy_world s)))%Z.

(** ** The response of each stage *)

Section Stages.
Context (perId perProf : Z) (s : system) (i : nat) (r : http_request).
Context (Hsound : sound s).
#[local] Notation w := (sy_world s).
#[local] Notation excuse := (excused perId perProf s r).

(** The step ends with a response that is accounted for. *)
Definition justified (w w' : world) : Prop :=
  ∃ resp, w_responses w' = w_responses w ++ [resp] ∧ accounts_for perId perProf s r resp.

Lemma answered_justified code msg (w1 w2 w3 : world) :
  audit_only w1 w2 → answered (mkHttpResponse code (ErrorBody msg)) w2 w3 → excuse code msg →
  justified w1 w3.
Proof using.
  intros [_ H1] [_ H2] He. eexists. split; [by rewrite H2, H1|]. right. by exists msg.
Qed.

Lemma answered_justified_now code msg (w1 w2 : world) :
  answered (mkHttpResponse code (ErrorBody msg)) w1 w2 → excuse code msg → justified w1 w2.
Proof using. by apply answered_justified. Qed.

Lemma receive_justified :
  wp (receive env dns_text r) w (justified w) (λ _ _, True).
Proof using.
  unfold receive, newID, wp, mbind, M_bind, draw.
  set (w0 := set_draws _ w). assert (H0 : audit_only w w0) by (split; [by constructor | done]).
  destruct (env_ulid env (w_draws w)) as [id|] eqn:Eu; simpl.
  - set (c := new_context _ r). pose proof (wp_authenticate env dns_text c w0) as Ha. unfold wp in Ha.
    destruct (authenticateIssueRequest env dns_text c w0) as [[c'|] w']; [done|].
    destruct Ha as (Ha & n & e & He). eapply answered_justified; [done..|].
    apply (no_certificate _ _ _ _ n). intros cert rest id' Hp Hc.
    assert (IdentityFromRequest (env_clock env n) (PeerCertificates (ctx_Request c)) = Ok id') as Hid
      by (apply IdentityFromRequest_Ok; eauto). by rewrite He in Hid.
  - eapply (answered_justified 500%Z _ w w0); [done|split; [by constructor|done]|]. by eapply no_identifier.
Qed.

Lemma bad_csr_excuse (w1 : world) : refusal env (E:=E) r w1 400 "invalid csr" → excuse 400 "invalid csr".
Proof using.
  inversion 1 as [| | |text req Hb Hd Hp| | | |]; subst. apply (bad_signing_request _ _ _ _ text req); [done..|].
  intros csr fp Hcsr Hfp. by rewrite Hcsr, Hfp in Hp.
Qed.

Lemma parse_justified c :
  ctx_Request c = r → wp (parseIssueRequest env dns_text c) w (justified w) (λ _ _, True).
Proof using.
  intros Hr. eapply wp_mono; [apply wp_parse| |done]. intros w' (msg & Ha & Href).
  eapply answered_justified_now; [done|]. rewrite Hr in Href. clear Hr.
  inversion Href as [| |Hb| | | | |]; subst; [|by eapply bad_csr_excuse].
  apply bad_body. intros text req Hread Hdec. rewrite Hread in Hb. simpl in Hb. by rewrite Hdec in Hb.
Qed.

Lemma carries_asks c req csr :
  ctx_Request c = r → carries env c req csr → asks r (ctx_Identity c) (ctx_ProfileName c) csr.
Proof using.
  intros Hr (_ & Hn & [(n & Hid) (text & Hb & Hd) _ Hcsr]). rewrite Hr in *. constructor.
  - exists n. by apply IdentityFromRequest_Ok.
  - exists text, (Request_CSRPEM req). split_and!; [done| |done]. rewrite Hn. by destruct req.
Qed.

Lemma authorize_justified c :
  well_formed env r c → wp (authorizeIssueRequest env dns_text c) w (justified w) (λ _ _, True).
Proof using Hsound.
  intros (Hr & req & csr & Hc & _). pose proof Hc as (Hcsr & _).
  destruct (so_serves _ _ _ Hsound) as (pol & now & data & cfg & Hcur & Hin & Hy & Hco).
  rewrite <- (so_policy _ _ _ Hsound) in Hcur. unfold authorizeIssueRequest, wp. rewrite Hcur.
  cbv zeta. cbn [ctx_Identity ctx_ProfileName ctx_CSR with_Policy]. rewrite Hcsr.
  destruct (Authorize pol (ctx_Identity c) (ctx_ProfileName c) (Some csr)) as [q [e|]] eqn:Ea; [|done].
  apply wp_refuse. intros w' Hw. eapply answered_justified_now; [done|].
  eapply not_granted; [by eapply carries_asks|done..|by eapply Compile_file_ok|].
  intros q' Hf%(Authorize_file now cfg pol Hco). by rewrite Ea in Hf.
Qed.

Lemma attach_justified c csr q :
  permitted env yaml_decode (sy_reads s) r c csr q →
  wp (attachPublicKeyFingerprint env dns_text c) w (justified w) (λ _ _, True).
Proof using.
  intros Hp. pose proof (pm_request _ _ _ _ _ _ _ Hp) as Hr.
  destruct (permitted_carries _ _ _ _ _ _ _ Hp) as (req & Hc).
  eapply wp_mono; [by apply (wp_attach env dns_text c req csr)| |done]. intros w' (Ha & Href).
  eapply answered_justified_now; [done|]. rewrite Hr in Href. by eapply bad_csr_excuse.
Qed.

Lemma record_justified c q :
  entitled (sy_reads s) r c q → wp (recordAuthorizedIssue env dns_text c) w (justified w) (λ _ _, True).
Proof using.
  intros (a & Ha & _)%entitled_admission. eapply wp_mono; [apply wp_barrier_after, quiet_auditEvent| |done].
  intros w' (Hans & Hf). eapply answered_justified_now; [done|]. by eapply not_recorded.
Qed.
Lemma rate_justified c q :
  metered perId perProf s → dated s → plain_request r → entitled (sy_reads s) r c q →
  wp (checkIssueRateLimit env dns_text c) w (justified w) (λ _ _, True).
Proof using.
  intros Hm Hd Hp Hq. pose proof (plain_identity _ _ _ _ _ _ Hp Hq) as Hn.
  destruct (entitled_admission _ _ _ _ _ _ Hq) as (a & Ha & _ & _ & Heq & _).
  unfold checkIssueRateLimit, wp, mbind, M_bind, time_Now, draw, with_world. cbn [w_limiter set_draws].
  assert (Hpast : ∀ g, g ∈ snd <$> sy_grants s → (at_time g ≤ env_clock env (w_draws w))%Z).
  { intros g ([j g'] & -> & Hin)%list_elem_of_fmap. by eapply Hd. }
  pose proof (λ e, Allow_refused _ _ _ _ _ _ (ctx_ProfileName c) e Hn (me_limiter _ _ _ _ Hm) Hpast) as Hr.
  destruct (Allow _ _ _ (w_limiter w)) as [[e|] l]; [|done]. apply wp_refuse. intros w' [_ Hresp].
  eexists. split; [by rewrite Hresp|]. right. eexists. split; [done|].
  apply (too_many _ _ _ _ a (w_draws w)); [done|]. rewrite Heq. simpl.
  destruct (Hr e eq_refl) as [[Hl Hc]|[Hl Hc]].
  - left. exact (full_used_up _ _ _ _ (me_once _ _ _ _ Hm) Hl Hc).
  - right. exact (full_used_up _ _ _ _ (me_once _ _ _ _ Hm) Hl Hc).
Qed.

Lemma deliver_justified c fr res q :
  entitled (sy_reads s) r c q → linked (S:=S) (A:=A) (I:=I) i c q fr →
  (∀ e, res = Err e → mishap s (key_String (fr_key fr))) →
  wp (deliver env dns_text c res) w (justified w) (λ _ _, True).
Proof using.
  intros Hq Hl Hm. destruct (entitled_lawful _ _ _ _ _ _ _ _ Hq Hl) as (a & Ha & Hk & _).
  destruct res as [given|e]; simpl.
  - apply wp_and_then. eapply wp_mono; [apply wp_recordIssued| |].
    + intros w' [Hans Hf]. eapply answered_justified_now; [done|]. by eapply not_recorded.
    + intros [] w1 [_ Hr]. unfold wp, writeJSON, mbind, M_bind. simpl.
      eexists. split; [simpl; by rewrite Hr|]. by left.
  - apply wp_refuse. intros w' Ha'. eapply answered_justified_now; [done|]. eapply not_delivered; eauto.
Qed.

(** A step that ends a request ends it with a reason, or serves it. *)
Lemma handle_justified st m :
  metered perId perProf s → dated s → plain_request r →
  sy_threads s !! i = Some (mkThread r st) → handle env dns_text r st = Some m →
  (∀ fr e, (fr, Err e) ∈ g_done (sy_group s) → mishap s (key_String (fr_key fr))) →
  wp m w (justified w) (λ _ _, True).
Proof using Hsound.
  intros Hm Hd Hp Hi Hh Hdone. pose proof (so_threads _ _ _ Hsound _ _ Hi) as Hok. simpl in Hok.
  destruct st; try discriminate Hh; injection Hh as <-; try apply wp_then_at.
  - apply receive_justified.
  - apply parse_justified. by destruct Hok.
  - by apply authorize_justified.
  - destruct Hok as (csr & q & ?). by eapply attach_justified.
  - destruct Hok as (q & ?). by eapply record_justified.
  - destruct Hok as (q & ?). by eapply rate_justified.
  - destruct Hok as (Hin & q & Hq & Hl). eapply deliver_justified; [done..|]. intros e ->. by eapply Hdone.
Qed.
End Stages.

(** ** Over the life of a broker *)

Definition failures_traced (s : system) : Prop :=
  ∀ fr e, (fr, Err e) ∈ g_done (sy_group s) → mishap s (key_String (fr_key fr)).

Record explained (perId perProf : Z) (s : system) : Prop := mkExplained {
  ax_threads : ∀ i r resp, sy_threads s !! i = Some (mkThread r (Answered resp)) →
    accounts_for perId perProf s r resp;
  ax_done : failures_traced s;
  ax_dated : dated s }.

Section Clock.
Context (clock_forward : ∀ n m, n ≤ m → (env_clock env n ≤ env_clock env m)%Z).

Lemma event_draws e s s' : event_step e s = Some s' → w_draws (sy_world s) ≤ w_draws (sy_world s').
Proof using.
  destruct e as [r|i|i|k|o]; simpl.
  - by intros [= <-].
  - intros (t & _ & (m & Hm & He)%bind_Some)%bind_Some.
    pose proof (forward_handle env dns_text _ _ _ Hm (sy_world s)) as Hf.
    destruct (m (sy_world s)). by injection He as <-.
  - intros (t & _ & He)%bind_Some. destruct (th_stage t); try done.
    by apply bind_Some in He as (q & _ & [= <-]).
  - intros (f & Hk & [= <-])%bind_Some. unfold sy_world, drive. simpl. rewrite Hk.
    destruct (advance env (leader f) (at_stage f) (g_world (sy_group s))) as [[st|res] w'] eqn:Ea;
      by apply advance_world in Ea as (_ & _ & _ & ?).
  - by intros [= <-].
Qed.

(** A grant that is added is dated now. *)
Lemma event_dated e s s' : event_step e s = Some s' → dated s → dated s'.
Proof using clock_forward.
  intros He Hd j g Hin. pose proof (event_draws _ _ _ He) as Hw%clock_forward.
  assert (Hold : (j, g) ∈ sy_grants s → (at_time g ≤ env_clock env (w_draws (sy_world s')))%Z).
  { intros Hg%Hd. lia. }
  destruct e as [r|i|i|k|o]; simpl in He.
  - injection He as <-. by apply Hold.
  - apply bind_Some in He as (t & _ & (m & _ & He)%bind_Some).
    destruct (m (sy_world s)) as [x w']. injection He as <-. simpl in Hin.
    apply elem_of_app in Hin as [Hg|Hg]; [by apply Hold|]. unfold granted_by in Hg.
    destruct (th_stage t), x; try by apply elem_of_nil in Hg.
    apply list_elem_of_singleton in Hg as [= -> ->]. exact Hw.
  - apply bind_Some in He as (t & _ & He). destruct (th_stage t); try done.
    apply bind_Some in He as (q & _ & [= <-]). by apply Hold.
  - apply bind_Some in He as (f & _ & [= <-]). by apply Hold.
  - injection He as <-. by apply Hold.
Qed.
End Clock.

(** A flight that fails fails for its leader. *)
Lemma fly_mishap k f e w' s :
  sound s → traced s → g_flights (sy_group s) !! k = Some f →
  advance env (leader f) (at_stage f) (sy_world s) = (inr (Err e), w') →
  ∀ s', event_step (Fly k) s = Some s' → mishap s' k.
Proof using.
  intros Hs [Htf _ Hst] Hk Ha s' He. destruct (Htf _ _ Hk) as [Hall Hb].
  apply Forall_cons in Hall as [[(t & c & q & Ht & Hq & Hl) Hkey] _].
  pose proof (event_grows _ _ _ _ _ _ He) as Hg.
  destruct (entitled_lawful _ _ _ _ _ _ _ _ Hq Hl) as (a & Hlaw & Hka & Hp & Hc & _).
  destruct (gw_threads _ _ Hg _ _ Ht) as (t' & Ht' & Er).
  exists (fr_id (leader f)), t', a, (fr_key (leader f)). rewrite Er.
  split_and!; [done|by eapply lawful_later|done|done|].
  pose proof (gw_stores _ _ Hg _ Hst) as Hst'.
  assert (Hord : sy_orders s' = sy_orders s ++ ordered f).
  { simpl in He. rewrite Hk in He. by injection He as <-. }
  apply advance_advanced in Ha. destruct f as [l stg ws]. simpl in *. rewrite <- Hp, <- Hc.
  inversion Ha as [|n m e' Hget Hne| |i i' e' Hi| |n m b e' st' Hput|]; subst.
  - left. by exists (w_store (sy_world s)), n, m, e'.
  - right. left. rewrite Hord. split; [apply elem_of_app; right; by left|]. by exists i, i', e'.
  - right. right. destruct (Hb b eq_refl) as (Hin & i & i' & Hi). rewrite Hord.
    split; [apply elem_of_app; by left|]. by exists i, i', b, (w_store (sy_world s)), (w_store w'), n, m, e'.
Qed.

Lemma event_failures e s s' :
  event_step e s = Some s' → sound s → traced s → failures_traced s → failures_traced s'.
Proof using.
  intros He Hs Ht Hf. pose proof (event_grows _ _ _ _ _ _ He) as Hg.
  assert (Hold : ∀ fr x, (fr, Err x) ∈ g_done (sy_group s) → mishap s' (key_String (fr_key fr))).
  { intros fr x Hin. by eapply mishap_later, Hf. }
  intros fr x Hin. destruct e as [r|i|i|k|o]; pose proof He as He'; simpl in He'.
  - injection He' as <-. by eapply Hold.
  - apply bind_Some in He' as (t & _ & (m & _ & He')%bind_Some).
    destruct (m (sy_world s)) as [y w']. injection He' as <-. by eapply Hold.
  - apply bind_Some in He' as (t & _ & He'). destruct (th_stage t); try done.
    apply bind_Some in He' as (q & _ & [= <-]). by eapply Hold.
  - apply bind_Some in He' as (f & Hk & He').
    assert (Hd : sy_group s' = drive env k (sy_group s)) by (by injection He' as <-).
    unfold drive in Hd. rewrite Hk in Hd. clear He'.
    destruct (advance env (leader f) (at_stage f) (g_world (sy_group s))) as [[st|res] w'] eqn:Ea;
      rewrite Hd in Hin; cbn [g_done] in Hin; [by eapply Hold|].
    apply elem_of_app in Hin as [Hin|(fr' & [= -> <-] & Hin)%list_elem_of_fmap]; [by eapply Hold|].
    destruct (tr_flights _ _ _ Ht _ _ Hk) as [Hall _]. rewrite Forall_forall in Hall.
    destruct (Hall _ Hin) as [_ ->]. by eapply fly_mishap.
  - injection He' as <-. by eapply Hold.
Qed.

Section Run.
Context (perId perProf : Z) (clock_forward : ∀ n m, n ≤ m → (env_clock env n ≤ env_clock env m)%Z).

Lemma threads_explained e s s' :
  event_step e s = Some s' → sound s → metered perId perProf s → explained perId perProf s →
  ∀ i r resp, sy_threads s' !! i = Some (mkThread r (Answered resp)) →
    accounts_for perId perProf s' r resp.
Proof using.
  intros He Hs Hm [Hth Hf Hd]. pose proof (event_later _ _ _ He) as Hl.
  assert (Hold : ∀ i r resp, sy_threads s !! i = Some (mkThread r (Answered resp)) →
    accounts_for perId perProf s' r resp) by (intros; eapply accounts_later; eauto).
  intros j r resp. destruct e as [r0|i|i|k|o]; simpl in He.
  - injection He as <-. intros [Hj|[_ Hj]]%lookup_app_Some; [by eapply Hold|].
    by apply list_lookup_singleton_Some in Hj as [_ [=]].
  - apply bind_Some in He as ([r1 st] & Hi & (m & Hh & He)%bind_Some). simpl in Hh, He.
    assert (Hp : plain_request r1).
    { pose proof (me_plain _ _ _ _ Hm) as Hp. rewrite Forall_lookup in Hp. apply (Hp _ _ Hi). }
    pose proof (handle_justified perId perProf s i r1 Hs st m Hm Hd Hp Hi Hh Hf) as Hj.
    pose proof (handle_wp env dns_text yaml_decode _ _ i r1 st m (sy_world s) Hh
      (so_threads _ _ _ Hs _ _ Hi) (sound_served _ _ _ Hs)) as Hwp.
    unfold wp in Hj, Hwp. destruct (m (sy_world s)) as [x w'] eqn:Em. injection He as He. rewrite <- He at 1.
    simpl. intros [(<- & Ht & _)|[_ Hk]]%list_lookup_insert_Some; [|by eapply Hold].
    destruct x as [st'|]; simpl in Ht.
    + destruct Hwp as (_ & _ & _ & Hsucc & _). injection Ht as -> ->. by destruct st.
    + destruct Hj as (resp' & Hresp & Hacc). rewrite Hresp, last_snoc in Ht. injection Ht as <- <-.
      by eapply accounts_later.
  - apply bind_Some in He as ([r1 st] & Hi & He). simpl in He. destruct st; try done.
    apply bind_Some in He as (q & _ & [= He]). rewrite <- He at 1. simpl.
    intros [(_ & Hx & _)|[_ Hj]]%list_lookup_insert_Some; [by simplify_eq|by eapply Hold].
  - apply bind_Some in He as (f & _ & [= He]). rewrite <- He at 1. simpl.
    destruct (fst _) as [st|res]; [by apply Hold|]. simpl.
    intros ([r1 st] & Er & Hj)%list_lookup_fmap_Some. unfold resolve in Er. simpl in Er.
    destruct st; try (simplify_eq; by eapply Hold). case_decide; by simplify_eq.
  - injection He as He. rewrite <- He at 1. simpl. by eapply Hold.
Qed.

Lemma explained_step e s s' :
  event_step e s = Some s' → sound s → traced s → metered perId perProf s →
  explained perId perProf s → explained perId perProf s'.
Proof using clock_forward.
  intros He Hs Ht Hm Ha. constructor.
  - by eapply threads_explained.
  - eapply event_failures; [done..|]. by eapply ax_done.
  - eapply event_dated; [done..|]. by eapply ax_dated.
Qed.

Lemma run_explained es w wt data s :
  (∀ r, Arrive r ∈ es → plain_request r) →
  fresh (S:=S) (A:=A) (I:=I) yaml_decode perId perProf w wt data →
  run es (start w wt data) = Some s → explained perId perProf s.
Proof using clock_forward.
  intros Hes Hf Hrun.
  destruct (run_invariant env dns_text yaml_decode
    (λ s, (sound s ∧ traced s) ∧ metered perId perProf s ∧ explained perId perProf s) es (start w wt data) s)
    as (_ & _ & ?); [|done| |done].
  - intros e s1 s2 Hin He ((Hs & Ht) & Hm & Ha). split_and!.
    + by eapply sound_step.
    + by eapply traced_step.
    + eapply metered_step; try done. destruct e; try done. by apply Hes.
    + by eapply explained_step.
  - split; [|split; [by eapply metered_start|]].
    + by apply (run_traced env dns_text yaml_decode perId perProf [] w wt data).
    + constructor; simpl; [done|intros ? ? Hin|intros ? ? Hin]; by apply elem_of_nil in Hin.
Qed.
End Run.

(** ** Properties *)

(** C7: No request is refused without a reason: over the whole life of a broker
whose clock does not go back, however its requests interleave, a request that
is answered, and not with status 200, has an error of the table [excused], and
its reason holds. 401: at some reading of the clock, its client certificate is
not one the broker accepts. 400: its body, or the request in it, is unusable.
403: a content read of the policy file does not give its host this profile for
these names. 429: it is lawful, and in the hour before some reading of the
clock as many requests as a positive limit allows were granted to its host, or to its host and profile. 502: it is
lawful, and a flight for its key failed, in the store or at the issuer. 503: it
is lawful, the broker fails closed, and its recorder refuses events. 500: an
identifier could not be made. *)
Theorem service_refusals perId perProf es w wt data s i r resp :
  (∀ n m, n ≤ m → (env_clock env n ≤ env_clock env m)%Z) →
  (∀ r, Arrive r ∈ es → plain_request r) →
  fresh (S:=S) (A:=A) (I:=I) yaml_decode perId perProf w wt data →
  run es (start w wt data) = Some s →
  sy_threads s !! i = Some (mkThread r (Answered resp)) → status resp ≠ 200%Z →
  ∃ msg, content resp = ErrorBody msg ∧ excused perId perProf s r (status resp) msg.
Proof using.
  intros Hclock Hes Hf Hrun Hi Hn.
  by destruct (ax_threads _ _ _ (run_explained _ _ Hclock _ _ _ _ _ Hes Hf Hrun) _ _ _ Hi) as [?|?].
Qed.
End Refusals.

(** ** The third of the three requests of [ServiceSpec] *)

#[local] Existing Instance test_crypto.
#[local] Existing Instance broker_spec.test_issuer.

Example service_refusals_witness :
  excused test_env (E:=audit_error) two_documents 2 2 test_end api_request 429 "rate limited".
Proof.
  destruct (service_refusals test_env no_text two_documents 2 2 (test_events test_flight_key)
    (test_server "fail_open") test_watch "A" test_end 2 api_request (answer_of test_end 2))
    as (msg & Hc & He).
  - intros n m Hnm. simpl. lia.
  - intros r Hr. assert (r = api_request) as ->; [|apply api_request_plain].
    unfold test_events in Hr. repeat (apply elem_of_cons in Hr as [Hr|Hr]; [by inversion Hr|]).
    by apply elem_of_nil in Hr.
  - exact test_fresh.
  - exact test_runs.
  - vm_compute. reflexivity.
  - vm_compute. discriminate.
  - assert (msg = "rate limited") as ->.
    { assert (content (answer_of test_end 2) = ErrorBody "rate limited") as E by (vm_compute; reflexivity).
      rewrite E in Hc. by injection Hc. }
    assert (status (answer_of test_end 2) = 429%Z) as E by (vm_compute; reflexivity).
    rewrite E in He. exact He.
Defined.
End service_refusals.
