(* ===== verification/Exchange.v ===== *)
(** * The exchange between the agent and the broker

[internal/agent/client.go] against [internal/broker/issue.go]: the agent posts a
JSON request and reads the broker's JSON answer. The two sides are composed:
what the agent is given is what the broker served for the request the agent
made, and a refusal reaches it with its status and message. An agent that the
policy file grants a profile is never told that it is not authorized: all that
can stop it is a limit, the audit log, the store or the authority. *)

From S2P Require Import Prelude GoStrings GoTime Json JsonDecode X509.
From S2P Require Import DnsName Policy PolicySpec RateLimit Pki Os OsLogic AuditLog Store Authn.
From S2P Require Import Agent Broker BrokerSpec.
Import json_decode x509 policy policy_spec pki os os_logic audit store agent broker broker_spec.
#[local] Open Scope go_scope.

Module exchange.

(** ** The two texts *)

Lemma valid_text_format t : valid_text (format_RFC3339 t) = format_RFC3339 t.
Proof. apply valid_text_id, valid_utf8_ascii, time_byte_ascii, format_time. Qed.

(** The broker reads the request the agent made. *)
Lemma decode_payload profile csrPEM :
  decode_issueRequest (request_payload profile csrPEM)
  = Some (mkRequest (valid_text profile) (valid_text csrPEM)).
Proof.
  unfold decode_issueRequest, request_payload, json_decode.Unmarshal.
  pose proof (read_document_print 1 (JObject [("profile", JString profile); ("csr_pem", JString csrPEM)])
    "" eq_refl ltac:(done) eq_refl) as Hd.
  rewrite string_app_nil_r in Hd. rewrite Hd. cbn. by rewrite !text_of_escaped.
Qed.

(** The agent reads the answer of the broker. *)
Definition answer_fields (r : broker.issueResponse) : agent.issueResponse :=
  mkIssueResponse (valid_text (Response_CertPEM r)) (valid_text (Response_ChainPEM r))
    (valid_text (Response_FullChainPEM r)) (valid_text (Response_SerialNumber r))
    (valid_text (Response_NotBefore r)) (valid_text (Response_NotAfter r))
    (valid_text (Response_Cache r)).

Lemma decode_answer r : decode_issueResponse (body_text (IssueBody r)) = Some (answer_fields r).
Proof.
  unfold decode_issueResponse, body_text, json_decode.Unmarshal.
  rewrite (read_document_print 1 (issueResponse_json r) newline) by done.
  unfold answer_fields. rewrite <- !text_of_escaped. reflexivity.
Qed.

(** A response on its way. *)
Definition http_answer (resp : response) : http_response :=
  mkHttp (status resp) (Ok (body_text (content resp))).

Lemma limit_read_all n s : (N.of_nat (len s) <= n)%N → limit_read n s = s.
Proof.
  revert n. induction s as [|a s IH]; [done|]. intros n Hn. cbn [limit_read len] in *.
  destruct (N.eqb_spec n 0); [lia|]. rewrite IH by lia. done.
Qed.

(** What an agent has of a bundle: texts as JSON keeps them, whole seconds. *)
Definition received (b : Bundle) : Bundle :=
  mkBundle (valid_text (CertPEM b)) (valid_text (ChainPEM b)) (valid_text (FullChainPEM b))
    (valid_text (LeafSerialNumber b)) (truncate_second (NotBefore b)) (truncate_second (NotAfter b)).

(** Small enough for the agent's limit. *)
Definition fits (resp : response) : Prop := (N.of_nat (len (body_text (content resp))) <= max_response)%N.

Lemma read_fields text out nb na :
  limit_read max_response text = text → decode_issueResponse text = Some out →
  parse_RFC3339 (res_NotBefore out) = Some nb → parse_RFC3339 (res_NotAfter out) = Some na →
  read_response (mkHttp 200 (Ok text))
  = Ok (mkBundle (res_CertPEM out) (res_ChainPEM out) (res_FullChainPEM out)
          (res_LeafSerialNumber out) nb na).
Proof.
  intros Hl Hd Hb Ha. unfold read_response. cbn [http_body http_status].
  cbn [wrap_err fmap result_fmap mbind result_bind]. rewrite Hl. change (_ || _) with false. cbv iota.
  rewrite Hd. cbn [from_option_err mbind result_bind]. rewrite Hb. cbn [from_option_err mbind result_bind].
  by rewrite Ha.
Qed.

Lemma read_served issued :
  fits (mkHttpResponse 200 (IssueBody (newIssueResponse issued))) →
  formattable (NotBefore (issued_bundle issued)) →
  formattable (NotAfter (issued_bundle issued)) →
  read_response (http_answer (mkHttpResponse 200 (IssueBody (newIssueResponse issued))))
  = Ok (received (issued_bundle issued)).
Proof.
  intros Hf Hb Ha. unfold http_answer. cbn [status content].
  rewrite (read_fields _ (answer_fields (newIssueResponse issued))
    (truncate_second (NotBefore (issued_bundle issued)))
    (truncate_second (NotAfter (issued_bundle issued)))); [done|by apply limit_read_all|apply decode_answer|..];
    unfold answer_fields, newIssueResponse; cbn [res_NotBefore res_NotAfter Response_NotBefore Response_NotAfter];
    by rewrite valid_text_format, parse_format.
Qed.

Lemma read_refused resp :
  fits resp → (status resp < 200 ∨ 300 ≤ status resp)%Z →
  read_response (http_answer resp)
  = Err (BrokerReturned (status resp) (TrimSpace (body_text (content resp)))).
Proof.
  intros Hf Hs. unfold read_response, http_answer. cbn [http_body http_status].
  cbn [wrap_err fmap result_fmap mbind result_bind]. rewrite limit_read_all by done.
  destruct (status resp <? 200)%Z eqn:E1; [done|]. destruct (300 <=? status resp)%Z eqn:E2; [done|lia].
Qed.

(** ** An agent that talks to this broker *)

Section Exchange.
Context {CR : Crypto} {S A I F E : Type}.
Context `{CS : CertificateStore S} `{RO : RecorderOps E A F} `{IS : broker.Issuer I}.
Context (env : broker.environment (F:=F)) (dns_text : dnsname.error → string).
#[local] Notation world := (broker.world (S:=S) (A:=A) (I:=I)).

(** The agent's connection: its certificates, its address; the payload is the
body. *)
Record connection := mkConnection {
  peer : option (list (option Certificate)); address : string; agent_name : string }.

Definition post (c : connection) (payload : string) : http_request :=
  mkHttpRequest (peer c) payload false (address c) (agent_name c).

Definition no_reply : response := mkHttpResponse 0 (TextBody "").

(** What a server in state [w] answers to the payload. *)
Definition serve (c : connection) (payload : string) (w : world) : world :=
  snd (issueCertificate env dns_text (post c payload) w).
Definition reply (c : connection) (payload : string) (w : world) : response :=
  default no_reply (last (w_responses (serve c payload w))).

Lemma reply_outcome c payload (w : world) :
  outcome env (post c payload) w (serve c payload w) (reply c payload w).
Proof using.
  unfold reply, serve.
  destruct (issueCertificate_completed env dns_text (post c payload) w) as (_ & _ & resp & -> & Ho).
  by rewrite last_snoc.
Qed.

Lemma admitted_post c profile csrPEM (w : world) a :
  admitted env (post c (request_payload profile csrPEM)) w a →
  ad_profile_name a = valid_text profile ∧ ad_csrPEM a = valid_text csrPEM.
Proof using.
  intros [_ (text & Hb & Hd) _ _ _ _ _ _]. unfold read_body in Hb. simpl in Hb.
  destruct (_ <? _)%Z; [done|]. injection Hb as <-. rewrite decode_payload in Hd. by injection Hd as <- <-.
Qed.

(** The agent's call meets the reply of the broker. *)
Lemma client_Issue_reply sv client c profile csrPEM (w : world) m :
  valid_url sv (string_app (baseURL client) "/v1/certificates") = true →
  (∀ url payload, env_http sv (m_draws m) url payload = Ok (http_answer (reply c payload w))) →
  fst (BrokerClient_Issue sv client profile csrPEM m)
  = read_response (http_answer (reply c (request_payload profile csrPEM) w)).
Proof using.
  intros Hu Ha. unfold BrokerClient_Issue. rewrite Hu. simpl. unfold mbind, EM_bind. simpl.
  rewrite Ha. by destruct (read_response _).
Qed.

(** Where a bundle comes from. *)
Lemma issuing_bundle a (w w' : world) issued :
  issuing_for env a w w' (Ok issued) →
  (∃ n m, GetValidCertificate (env_store env m) (env_clock env n) (ad_key w a)
            (RenewBefore (ad_profile a)) (w_store w) = Ok (issued_bundle issued))
  ∨ ∃ i', broker.Issue (issue_request (ad_profile a) (ad_csrPEM a)) (w_issuer w)
          = (Ok (issued_bundle issued), i').
Proof using. inversion 1; subst; eauto. Qed.

(** What a reply is to the agent that reads it. *)
Definition reply_read (c : connection) (profile csrPEM : string) (w : world)
    (read : result client_error Bundle) : Prop :=
  let r := post c (request_payload profile csrPEM) in
  let w' := serve c (request_payload profile csrPEM) w in
  match read with
  | Ok b =>
      ∃ a issued, admitted env r w a
        ∧ ad_profile_name a = valid_text profile ∧ ad_csrPEM a = valid_text csrPEM
        ∧ issuing_for env a w w' (Ok issued) ∧ b = received (issued_bundle issued)
  | Err e =>
      ∃ code msg, (400 ≤ code < 600)%Z
        ∧ e = BrokerReturned code (TrimSpace (body_text (ErrorBody msg)))
        ∧ reply c (request_payload profile csrPEM) w = mkHttpResponse code (ErrorBody msg)
  end.

(** The bundles of the store and of the issuer have instants with a text. *)
Definition dated (w : world) (c : connection) (payload : string) : Prop :=
  ∀ a issued, issuing_for env a w (serve c payload w) (Ok issued) →
    formattable (NotBefore (issued_bundle issued)) ∧ formattable (NotAfter (issued_bundle issued)).

Lemma read_reply c profile csrPEM (w : world) :
  fits (reply c (request_payload profile csrPEM) w) →
  dated w c (request_payload profile csrPEM) →
  reply_read c profile csrPEM w (read_response (http_answer (reply c (request_payload profile csrPEM) w))).
Proof using.
  intros Hf Hd. pose proof (reply_outcome c (request_payload profile csrPEM) w) as Ho.
  assert (Herr : ∀ code msg, (400 ≤ code < 600)%Z →
    reply c (request_payload profile csrPEM) w = mkHttpResponse code (ErrorBody msg) →
    reply_read c profile csrPEM w
      (read_response (http_answer (reply c (request_payload profile csrPEM) w)))).
  { intros code msg Hc Hr. rewrite read_refused, Hr; [|done|rewrite Hr; cbn [status]; lia].
    by exists code, msg. }
  inversion Ho as [code msg Hr _ _ E1|a e _ _ E1|a issued _ _ _ E1|a issued Ha Hi E1].
  - eapply Herr; [by eapply refusal_code | done].
  - by eapply (Herr 502%Z).
  - by eapply (Herr 503%Z).
  - rewrite <- E1 in Hf. destruct (Hd _ _ Hi) as [Hb Hna]. rewrite read_served by done.
    exists a, issued. destruct (admitted_post _ _ _ _ _ Ha). done.
Qed.

(** C15: An agent whose call reaches the broker is told what the broker did for
this very call. A bundle it is given was issued, or read from the cache, for an
admitted request of its profile and certificate request, and arrives as it is,
texts as JSON keeps them and instants to the second; an error it is given is
the broker's refusal, with its status and message. This asks that the answer is
within the agent's limit of two megabytes and that the dates of bundles are in
the years 1 to 9999. *)
Theorem exchange_correct sv client c profile csrPEM (w : world) m :
  valid_url sv (string_app (baseURL client) "/v1/certificates") = true →
  (∀ url payload, env_http sv (m_draws m) url payload = Ok (http_answer (reply c payload w))) →
  fits (reply c (request_payload profile csrPEM) w) →
  dated w c (request_payload profile csrPEM) →
  reply_read c profile csrPEM w (fst (BrokerClient_Issue sv client profile csrPEM m)).
Proof using.
  intros Hu Ha Hf Hd. rewrite (client_Issue_reply _ _ c _ _ w) by done. by apply read_reply.
Qed.

(** ** An agent that the policy grants its certificate *)

(** The policy in service is compiled from a file that lists [profileName] for
the host whose identity the connection's certificate names, and [names] are the
profile's; [q] is the compiled profile. *)
Record set_up (c : connection) (w : world) (identity profileName : string) (names : list string)
    (q : CompiledProfile) : Prop := {
  su_identity : ∀ n, authn.IdentityFromRequest (broker.env_clock env n) (peer c) = Ok identity;
  su_policy : ∃ now cfg pol, Compile now cfg = Ok pol ∧ w_policy w = Some pol
    ∧ ∃ k rawHost ref rawProfile, Config_Hosts cfg !! k = Some rawHost
      ∧ TrimSpace (Host_Identity rawHost) = identity
      ∧ ref ∈ Host_Profiles rawHost ∧ TrimSpace ref = profileName
      ∧ Config_Profiles cfg !! profileName = Some rawProfile
      ∧ compileProfile profileName rawProfile = Ok q
      ∧ dnsname.EqualSet names (Profile_DNSNames rawProfile) = true }.

(** A request the broker can read: texts that JSON keeps, in a body within the
broker's limit. *)
Record sendable (profile csrPEM : string) : Prop := {
  sd_profile : profile ≠ "" ∧ valid_text profile = profile;
  sd_csr : csrPEM ≠ "" ∧ valid_text csrPEM = csrPEM;
  sd_size : (Z.of_nat (len (request_payload profile csrPEM)) <= maxIssueRequestBodyBytes)%Z }.

(** The errors left: the limits, the audit log, the store or the authority. *)
Inductive excuse (identity profile : string) (w w' : world) : Z → Prop :=
  | limits_reached n e :
      fst (ratelimit.Allow (broker.env_clock env n) identity profile (w_limiter w)) = Some e →
      excuse identity profile w w' 429
  | audit_lost : audit_fails (E:=E) w → excuse identity profile w w' 503
  | issuing_failed a e : issuing_for env a w w' (Err e) → excuse identity profile w w' 502.

Lemma read_sent c profile csrPEM :
  sendable profile csrPEM →
  read_body (post c (request_payload profile csrPEM)) = Some (request_payload profile csrPEM)
  ∧ decode_issueRequest (request_payload profile csrPEM) = Some (mkRequest profile csrPEM).
Proof using.
  intros [[_ Hp] [_ Hc] Hs]. split; [|by rewrite decode_payload, Hp, Hc].
  unfold read_body, post. cbn [Body_fails Body].
  by rewrite (proj2 (Z.ltb_ge _ _) Hs).
Qed.

Lemma set_up_authorizes `{CL : !CryptoLaws} c (w : world) identity profile names q rnd key csrPEM :
  set_up c w identity profile names q → GenerateServiceCSR rnd key names = Ok csrPEM →
  ∃ csr pol, ParseCSRPEM csrPEM = Ok csr ∧ csr_PublicKey csr = Public key
    ∧ w_policy w = Some pol
    ∧ Authorize pol identity profile (Some csr) = (Some q, None).
Proof using.
  intros [_ (now & cfg & pol & Hc & Hw & k & rh & ref & rp & Hk & Hi & Hr & Ht & Hp & Hq & Hs)] Hg.
  destruct (service_csr_is_authorized now cfg pol k rh rp ref profile q rnd key names csrPEM)
    as (csr & Hparse & Hkey & Hauth); [done..|].
  exists csr, pol. by rewrite <- Hi.
Qed.

(** No refusal is left but those of the limits and of the audit log. *)
Lemma set_up_refusal `{CL : !CryptoLaws} c (w w' : world) identity profile names q rnd key csrPEM code msg :
  set_up c w identity profile names q → (∀ n, is_Some (broker.env_ulid env n)) →
  GenerateServiceCSR rnd key names = Ok csrPEM → is_Some (pkix_der (Public key)) →
  sendable profile csrPEM →
  refusal env (post c (request_payload profile csrPEM)) w code msg →
  excuse identity profile w w' code.
Proof using.
  intros Hs Hu Hg [der Hder] Hsend Href.
  destruct (read_sent c _ _ Hsend) as [Hbody Hdec]. pose proof (su_identity _ _ _ _ _ _ Hs) as Hid.
  destruct (set_up_authorizes _ _ _ _ _ _ _ _ _ Hs Hg) as (csr & pol & Hcsr & Hkey & Hpol & Hauth).
  assert (Hfp : PublicKeyFingerprint (csr_PublicKey csr) = Ok (Sha256.sha256.hex_sha256 der)).
  { unfold PublicKeyFingerprint. by rewrite Hkey, Hder. }
  assert (Hone : ∀ i req csr', presented env (post c (request_payload profile csrPEM)) i req csr' →
    i = identity ∧ req = mkRequest profile csrPEM ∧ csr' = csr).
  { intros i req csr' [(n & Hn) (text & Ht & Hd) _ Hp]. simpl in Hn. rewrite Hid in Hn.
    rewrite Hbody in Ht. injection Ht as <-. rewrite Hdec in Hd. injection Hd as <-.
    simpl in Hp. rewrite Hcsr in Hp. by injection Hn; injection Hp. }
  destruct Href as [[n Hn]|n e He|Hbad|text req Ht Hd Hbad|Hnone|pol' i req csr' p e Hp Hpol' Ha
    |i req _ Haudit|n i req e (csr' & _ & _ & Hp & _) Hr].
  - by destruct (Hu n) as [? Hx]; rewrite Hn in Hx.
  - simpl in He. by rewrite Hid in He.
  - rewrite Hbody in Hbad. simpl in Hbad. rewrite Hdec in Hbad.
    destruct Hsend as [[? _] [? _] _], Hbad; done.
  - rewrite Hbody in Ht. injection Ht as <-. rewrite Hdec in Hd. injection Hd as <-.
    simpl in Hbad. by rewrite Hcsr, Hfp in Hbad.
  - congruence.
  - apply Hone in Hp as (-> & -> & ->). assert (pol' = pol) as -> by congruence.
    cbn [Request_Profile] in Ha. by rewrite Hauth in Ha.
  - by constructor.
  - apply Hone in Hp as (-> & -> & ->). by eapply limits_reached.
Qed.

(** Nor is the request admitted for anything else. *)
Lemma set_up_admitted `{CL : !CryptoLaws} c (w : world) identity profile names q rnd key csrPEM a :
  set_up c w identity profile names q → GenerateServiceCSR rnd key names = Ok csrPEM →
  sendable profile csrPEM →
  admitted env (post c (request_payload profile csrPEM)) w a →
  ad_identity a = identity ∧ ad_profile a = q ∧ csr_PublicKey (ad_csr a) = Public key.
Proof using.
  intros Hs Hg [[_ Hvp] [_ Hvc] _] Hadm.
  destruct (set_up_authorizes _ _ _ _ _ _ _ _ _ Hs Hg) as (csr & pol & Hparse & Hkey & Hpol & Hgrant).
  destruct (admitted_post _ _ _ _ _ Hadm) as [Hn Hpem]. rewrite Hvp in Hn. rewrite Hvc in Hpem.
  destruct Hadm as [(n & Hc) _ _ Hcsr Hp Hauth _ _].
  apply authn.IdentityFromRequest_Ok in Hc. simpl in Hc. rewrite (su_identity _ _ _ _ _ _ Hs) in Hc.
  injection Hc as Hid. rewrite Hpem, Hparse in Hcsr. injection Hcsr as Hcsr.
  rewrite Hpol in Hp. injection Hp as Hp.
  rewrite Hn, <- Hid, <- Hcsr, <- Hp, Hgrant in Hauth. injection Hauth as Hq. by rewrite <- Hcsr.
Qed.

(** C16: An agent whose host the policy file grants a profile is served: for a
certificate request it makes for the profile's names, with a key the broker
can read and a client certificate of the host, the broker never answers that
the request is malformed, not authenticated or not authorized. The agent is
given a bundle, of an admission for its host, profile and key, or is told that
a limit is reached, that the audit log is lost, or that the store or the
authority failed, and each of these is so. *)
Theorem granted_agent_is_served `{CL : !CryptoLaws} sv client c (w : world) m identity profile names
    q rnd key csrPEM :
  set_up c w identity profile names q → (∀ n, is_Some (broker.env_ulid env n)) →
  GenerateServiceCSR rnd key names = Ok csrPEM → is_Some (pkix_der (Public key)) →
  sendable profile csrPEM →
  valid_url sv (string_app (baseURL client) "/v1/certificates") = true →
  (∀ url payload, env_http sv (m_draws m) url payload = Ok (http_answer (reply c payload w))) →
  fits (reply c (request_payload profile csrPEM) w) →
  dated w c (request_payload profile csrPEM) →
  let w' := serve c (request_payload profile csrPEM) w in
  match fst (BrokerClient_Issue sv client profile csrPEM m) with
  | Ok b => ∃ a issued, ad_identity a = identity ∧ ad_profile a = q
      ∧ csr_PublicKey (ad_csr a) = Public key
      ∧ issuing_for env a w w' (Ok issued) ∧ b = received (issued_bundle issued)
  | Err e => ∃ code text, e = BrokerReturned code text ∧ excuse identity profile w w' code
  end.
Proof using.
  intros Hs Hu Hg Hder Hsend Hurl Hhttp Hfits Hdated w'.
  rewrite (client_Issue_reply _ _ c _ _ w) by done.
  pose proof (read_reply c profile csrPEM w Hfits Hdated) as Hread. unfold reply_read in Hread.
  destruct (read_response _) as [b|e].
  - destruct Hread as (a & issued & Ha & _ & _ & Hi & ->). exists a, issued.
    by destruct (set_up_admitted _ _ _ _ _ _ _ _ _ a Hs Hg Hsend Ha) as (? & ? & ?).
  - destruct Hread as (code & msg & _ & -> & Hrep). eexists _, _. split; [done|].
    pose proof (reply_outcome c (request_payload profile csrPEM) w) as Ho. rewrite Hrep in Ho.
    inversion Ho; subst.
    + by eapply set_up_refusal.
    + by econstructor.
    + by constructor.
Qed.
End Exchange.

(** ** An agent and a server *)

#[local] Existing Instance test_crypto.
#[local] Existing Instance broker_spec.test_issuer.

Definition test_connection : connection :=
  mkConnection (Some [Some client_cert]) "10.0.0.7:5050" "Go-http-client/1.1".

Definition connected (e : broker.environment) : services := {|
  X509KeyPair _ _ := None;
  AppendCertsFromPEM _ := true;
  valid_url _ := true;
  env_http _ _ payload :=
    Ok (http_answer (reply e no_text test_connection payload (test_server "fail_open")));
  env_enroll _ _ _ := Err "";
  env_renew _ _ _ _ := Err "";
  env_shell _ _ := mkShell "" None false |}.

Lemma test_issues r i b i' : broker.Issue r i = (Ok b, i') → b = issued_bundle_1.
Proof. by intros [= <- _]. Qed.

Lemma test_dated (e : broker.environment) :
  env_store e = (λ _, IO_ok) →
  dated e no_text (test_server "fail_open") test_connection
    (request_payload "api" "CERTIFICATE REQUEST:request").
Proof.
  intros He a issued Hi. unfold issuing_for in Hi.
  assert (Hnone : ∀ n m k r, GetValidCertificate (env_store e m)
    (broker.env_clock e n) k r (w_store (test_server "fail_open")) = Err ErrCacheMiss)
    by (intros; by rewrite He).
  apply issuing_bundle in Hi as [(n & m & Hg)|(i' & Hiss)]; [by rewrite Hnone in Hg|].
  apply test_issues in Hiss as ->. split; split; vm_compute; done.
Qed.

Example exchange_correct_witness :
  ∃ b a, fst (BrokerClient_Issue (connected broker_spec.test_env) (mkClient "https://broker") "api"
      "CERTIFICATE REQUEST:request" (mkMachine (mkDisk ∅ [] []) [] [] 0)) = Ok b
    ∧ LeafSerialNumber b = "ff" ∧ ad_identity a = "api01"
    ∧ admitted broker_spec.test_env (post test_connection
        (request_payload "api" "CERTIFICATE REQUEST:request")) (test_server "fail_open") a.
Proof.
  pose proof (exchange_correct broker_spec.test_env no_text (connected broker_spec.test_env) (mkClient "https://broker")
    test_connection "api" "CERTIFICATE REQUEST:request" (test_server "fail_open")
    (mkMachine (mkDisk ∅ [] []) [] [] 0) eq_refl (λ _ _, eq_refl)) as H.
  destruct (fst (BrokerClient_Issue _ _ _ _ _)) as [b|e] eqn:E;
    [|exfalso; revert E; vm_compute; discriminate].
  destruct H as (a & issued & Ha & _).
  - vm_compute. discriminate.
  - by apply test_dated.
  - exists b, a. split; [done|]. split; [revert E; vm_compute; by intros [= <-]|]. split; [|done].
    destruct Ha as [(n & cert & rest & Hp & Hc) _ _ _ _ _ _ _].
    injection Hp as <- _. symmetry. exact (Authn.authn.cc_name _ _ _ Hc).
Defined.

#[local] Existing Instance test_crypto_laws.

Definition api_names : list string := ["API.whisper.cl"; "api-v2.whisper.cl."].

Lemma test_set_up :
  set_up still_env test_connection (test_server "fail_open") "api01" "api" api_names
    api_profile_compiled.
Proof.
  constructor; [done|]. exists 0%Z, test_config, (the_policy test_config).
  split; [by vm_compute|]. split; [done|].
  exists "api01", (mkHost "api01" ["api"]), "api", api_profile.
  split_and!; [done|done|by left|done|done|by vm_compute|by vm_compute].
Qed.

Lemma test_sendable : sendable "api" "CERTIFICATE REQUEST:request".
Proof. constructor; [by vm_compute|by vm_compute|by vm_compute]. Qed.

Example granted_agent_is_served_witness :
  ∃ b a, fst (BrokerClient_Issue (connected still_env) (mkClient "https://broker") "api"
      "CERTIFICATE REQUEST:request" (mkMachine (mkDisk ∅ [] []) [] [] 0)) = Ok b
    ∧ LeafSerialNumber b = "ff" ∧ ad_identity a = "api01" ∧ ad_profile a = api_profile_compiled.
Proof.
  pose proof (granted_agent_is_served still_env no_text (connected still_env)
    (mkClient "https://broker") test_connection (test_server "fail_open")
    (mkMachine (mkDisk ∅ [] []) [] [] 0) "api01" "api" api_names api_profile_compiled "" test_key
    "CERTIFICATE REQUEST:request" test_set_up (λ _, ltac:(by eexists)) ltac:(by vm_compute)
    ltac:(by eexists) test_sendable eq_refl (λ _ _, eq_refl)) as H.
  destruct (fst (BrokerClient_Issue _ _ _ _ _)) as [b|e] eqn:E;
    [|exfalso; revert E; vm_compute; discriminate].
  destruct H as (a & issued & Hi & Hq & _).
  - vm_compute. discriminate.
  - by apply test_dated.
  - exists b, a. split; [done|]. split; [revert E; vm_compute; by intros [= <-]|]. exact (conj Hi Hq).
Defined.
End exchange.
