(* ===== verification/Acme.v ===== *)
(** * The ACME issuer ([internal/broker/issuer/acme])

[acme.go]: the issuer behind the broker's interface [Issuer]. The library that
speaks ACME (lego), its DNS providers and [url.Parse] are inputs, collected in
[library]; the secrets come from any [Provider] of [Secrets]. *)

From Stdlib Require Import Ascii.
From S2P Require Import Prelude GoStrings GoTime Json Os OsLogic.
From S2P Require Import FileUtil Secrets X509 Pki PkiFiles Broker.
Import x509 pki broker os os_logic fileutil secrets.
#[local] Open Scope go_scope.

Module acme.

Record HTTPReqConfig := mkHTTPReq {
  Endpoint : string;
  Mode : string;
  UsernameSecret : string;
  PasswordSecret : string;
  PropagationTimeout : Z;
  PollingInterval : Z;
  HTTPTimeout : Z;
  RecursiveNameservers : list string }.

Record Config := mkConfig {
  DirectoryURL : string;
  AccountEmail : string;
  AccountKey : string;
  DNSProvider : string;
  PreferredChain : string;
  HTTPReq : HTTPReqConfig }.

(** A [crypto.PrivateKey]; [None] is a key that is no [crypto.Signer]. *)
Definition account_key : Type := option Signer.

(** The user: its registration, when it is not nil, by its URI. *)
Record accountUser := mkUser { email : string; registration : option string; key : account_key }.

(** ** The library *)

(** The provider of DNS records, and the options it is set with. *)
Inductive dns_provider :=
  | Cloudflare (AuthToken : string)
  | Httpreq (endpoint mode username password : string) (propagation polling timeout : Z).
Inductive dns_option :=
  | AddRecursiveNameservers (l : list string)
  | RecursiveNSsPropagationRequirement
  | DisableAuthoritativeNssPropagationRequirement.

Record lego_client := mkLego {
  lc_user : accountUser;
  lc_directory : string;
  lc_key_type : string;
  lc_dns : option (dns_provider * list dns_option) }.

Record obtain_request := mkObtain {
  ob_csr : CertificateRequest; ob_bundle : bool; ob_preferred_chain : string }.

Record resource := mkResource { Certificate_ : string; IssuerCertificate : string }.

(** The [n]-th draw of a run that reaches the directory meets the [n]-th answer.
Errors carry their text. *)
Record library := mkLibrary {
  lego_NewClient : nat → lego_client → option string;
  lego_Register : nat → lego_client → result string (option string);
  NewDNSProviderConfig : dns_provider → option string;
  SetDNS01Provider : dns_provider → list dns_option → option string;
  url_Parse : string → option string;
  ObtainForCSR : nat → lego_client → obtain_request → result string (option resource) }.

Inductive acme_error :=
  | DirectoryURLRequired
  | AccountEmailRequired
  | AccountKeyRequired
  | ReadingAccountKey (path : string) (e : errno)
  | AccountKeyNotPEM (path : string)
  | UnsupportedKeyFormat (path : string)
  | GeneratingAccountKey (e : string)
  | MarshalingAccountKey (e : string)
  | WritingAccountKey (path : string) (e : file_error)
  | CreatingClient (e : string)
  | Registering (e : string)
  | UnsupportedChallenge (challenge : string)
  | SecretsRequired
  | CredentialsRequired
  | ResolvingSecret (name : string) (e : secret_error)
  | CreatingDNSProvider (e : string)
  | SettingDNSProvider (e : string)
  | UnsupportedDNSProvider (name : string)
  | ParsingEndpoint (endpoint : string)
  | ParsingCSR (e : pki_error)
  | Obtaining (profile e : string)
  | EmptyResource
  | ParsingACMECertificate (e : pki_error).

Section Acme.
Context (env : environment) (h : host) (lib : library) {CR : Crypto}.
Context {P : Type} `{PR : !Provider env h P}.

(** ** The account key *)

Definition parseAccountKey (path data : string) : result acme_error account_key :=
  match pem_Decode data with
  | None => Err (AccountKeyNotPEM path)
  | Some block =>
      match ParsePKCS8PrivateKey (Block_Bytes block) with
      | Ok key => Ok key
      | Err _ =>
          match ParseECPrivateKey (Block_Bytes block) with
          | Ok key => Ok (Some key)
          | Err _ => Err (UnsupportedKeyFormat path)
          end
      end
  end.

Definition createAccountKey (path : string) : EM acme_error account_key :=
  rnd ← draw (env_rand env);
  key ← lift (wrap_err GeneratingAccountKey (ecdsa_GenerateKey rnd));
  der ← lift (wrap_err MarshalingAccountKey (MarshalPKCS8PrivateKey key));
  let pemData := pem_EncodeToMemory (mkBlock "PRIVATE KEY" der) in
  _ ← wrapM (WritingAccountKey path) (WriteFileAtomic env path pemData mode_600);
  mret (Some key).

Definition loadOrCreateAccountKey (path : string) : EM acme_error account_key :=
  data ← attempt (ReadFile env path);
  match data with
  | Ok data => lift (parseAccountKey path data)
  | Err ErrNotExist => createAccountKey path
  | Err e => fail (ReadingAccountKey path e)
  end.

(** ** The issuer *)

(** [secrets] may be nil. *)
Record Issuer := mkIssuer { cfg : Config; secrets_ : option P; user : accountUser }.

Definition EC256 : string := "P256".

Definition newClient (i : Issuer) : EM acme_error lego_client :=
  let client := mkLego (user i) (DirectoryURL (cfg i)) EC256 None in
  _ ← log (Call "acme.directory" [DirectoryURL (cfg i)]);
  answer ← draw (lego_NewClient lib);
  match answer client with
  | Some e => fail (CreatingClient e)
  | None => mret client
  end.

Definition with_DNSProvider (c : Config) : Config :=
  mkConfig (DirectoryURL c) (AccountEmail c) (AccountKey c)
    (if DNSProvider c == "" then "cloudflare" else DNSProvider c) (PreferredChain c) (HTTPReq c).

Definition New (c : Config) (secretProvider : option P) : EM acme_error Issuer :=
  if DirectoryURL c == "" then fail DirectoryURLRequired
  else if AccountEmail c == "" then fail AccountEmailRequired
  else if AccountKey c == "" then fail AccountKeyRequired
  else
    let c := with_DNSProvider c in
    key ← loadOrCreateAccountKey (AccountKey c);
    let i := mkIssuer c secretProvider (mkUser (AccountEmail c) None key) in
    client ← newClient i;
    _ ← log (Call "acme.register" [AccountEmail c]);
    answer ← draw (lego_Register lib);
    reg ← lift (wrap_err Registering (answer client));
    mret (mkIssuer c secretProvider (mkUser (AccountEmail c) reg key)).

Definition Name (i : Issuer) : string := "acme".
Definition Directory (i : Issuer) : string := DirectoryURL (cfg i).
Definition AccountKeyID (i : Issuer) : string :=
  match registration (user i) with
  | Some uri => if uri != "" then uri else AccountEmail (cfg i)
  | None => AccountEmail (cfg i)
  end.

(** ** The DNS provider *)

(** [i.secrets.Get], when the provider is not nil. *)
Definition get_secret (i : Issuer) (name : string) : EM acme_error string :=
  match secrets_ i with
  | None => fail SecretsRequired
  | Some p => wrapM (ResolvingSecret name) (Get p name)
  end.

(** A secret whose name is configured. *)
Definition optional_secret (i : Issuer) (name : string) : EM acme_error string :=
  if name != "" then get_secret i name else mret "".

Definition new_provider (p : dns_provider) : EM acme_error dns_provider :=
  match NewDNSProviderConfig lib p with
  | Some e => fail (CreatingDNSProvider e)
  | None => mret p
  end.

Definition httpreqProvider (i : Issuer) : EM acme_error dns_provider :=
  let r := HTTPReq (cfg i) in
  match url_Parse lib (Endpoint r) with
  | None => fail (ParsingEndpoint (Endpoint r))
  | Some endpoint =>
      username ← optional_secret i (UsernameSecret r);
      password ← optional_secret i (PasswordSecret r);
      new_provider (Httpreq endpoint (Mode r) username password (PropagationTimeout r)
                      (PollingInterval r) (HTTPTimeout r))
  end.

Definition set_provider (client : lego_client) (p : dns_provider) (opts : list dns_option)
    : EM acme_error lego_client :=
  match SetDNS01Provider lib p opts with
  | Some e => fail (SettingDNSProvider e)
  | None => mret (mkLego (lc_user client) (lc_directory client) (lc_key_type client)
                    (Some (p, opts)))
  end.

Definition httpreq_options (i : Issuer) : list dns_option :=
  match RecursiveNameservers (HTTPReq (cfg i)) with
  | [] => []
  | servers => [AddRecursiveNameservers servers; RecursiveNSsPropagationRequirement;
                DisableAuthoritativeNssPropagationRequirement]
  end.

(** The client with its provider set. *)
Definition configureDNSProvider (i : Issuer) (client : lego_client) (req : IssueRequest)
    : EM acme_error lego_client :=
  let name := ToLower (DNSProvider (cfg i)) in
  if name == "cloudflare" then
    match secrets_ i with
    | None => fail SecretsRequired
    | Some _ =>
        if ir_ACMECredentialsName req == "" then fail CredentialsRequired
        else
          token ← get_secret i (ir_ACMECredentialsName req);
          provider ← new_provider (Cloudflare token);
          set_provider client provider []
    end
  else if name == "httpreq" then
    provider ← httpreqProvider i;
    set_provider client provider (httpreq_options i)
  else fail (UnsupportedDNSProvider (DNSProvider (cfg i))).

(** ** Issue *)

(** [None] is a nil resource. *)
Definition check_resource (r : option resource) : result acme_error resource :=
  match r with
  | None => Err EmptyResource
  | Some r => if Certificate_ r == "" then Err EmptyResource else Ok r
  end.

Definition bundle_of (r : resource) (cert : Certificate) : Bundle :=
  let chainPEM := IssuerCertificate r in
  let fullchain := string_app (Certificate_ r) chainPEM in
  mkBundle (Certificate_ r) chainPEM fullchain (SerialString (cert_SerialNumber cert))
    (cert_NotBefore cert) (cert_NotAfter cert).

Definition Issue (i : Issuer) (req : IssueRequest) : EM acme_error Bundle :=
  if ir_ACMEChallenge req != "dns-01" then fail (UnsupportedChallenge (ir_ACMEChallenge req))
  else
    client ← newClient i;
    client ← configureDNSProvider i client req;
    csr ← lift (wrap_err ParsingCSR (ParseCSRPEM (ir_CSRPEM req)));
    _ ← log (Call "acme.obtain" [ir_CSRPEM req]);
    answer ← draw (ObtainForCSR lib);
    resource ← lift (wrap_err (Obtaining (ir_ProfileName req))
                 (answer client (mkObtain csr false (PreferredChain (cfg i)))));
    resource ← lift (check_resource resource);
    cert ← lift (wrap_err ParsingACMECertificate (ParseCertificatePEM (Certificate_ resource)));
    mret (bundle_of resource cert).

(** Behind the interface of the broker: with the machine it runs on, and the
texts of its errors. *)
Definition acme_ops (text : acme_error → string) : broker.Issuer (Issuer * machine) := {|
  Issuer_Name im := Name (fst im);
  Issuer_Directory im := Directory (fst im);
  Issuer_AccountKeyID im := AccountKeyID (fst im);
  broker.Issue req im :=
    let '(r, m) := Issue (fst im) req (snd im) in (wrap_err text r, (fst im, m)) |}.
End Acme.
End acme.
