(* ===== verification/AcmeSpec.v ===== *)
(** * Properties of the ACME issuer

The account key survives restarts; what an issuance asks of the certificate
authority, and when. *)

From S2P Require Import Prelude GoStrings GoTime Json Os OsLogic.
From S2P Require Import FileUtil Secrets X509 Pki PkiFiles Agent AgentSpec Broker Acme.
Import x509 pki broker os os_logic fileutil secrets pki_files acme.
#[local] Open Scope go_scope.

Module acme_spec.

Section Spec.
Context (env : environment) (h : host) (lib : library) {CR : Crypto}.
Context {P : Type} `{PL : ProviderLaws env h P}.

(** ** The account key *)

(** Files other than the account key's are kept, and the key's is as [key_kept]
says. *)
Record account_inv (path : string) (d0 d : disk) : Prop := {
  ai_wf : wf_disk d;
  ai_key : key_kept d0 d path;
  ai_others q : q ≠ path → temp_like q = false → keeps d0 d q }.

Lemma account_inv_start path d : wf_disk d → account_inv path d d.
Proof using.
  intros Hwf. split; [done| |done]. unfold key_kept. destruct (read_file d path); [done|]. by left.
Qed.

Lemma account_inv_write path d d' key kt :
  read_file d path = None → MarshalPrivateKeyPEM key = Ok kt →
  wf_disk d → atomically d d' path (kt, mode_600) → account_inv path d d'.
Proof using.
  intros Hn Hkt Hwf Ha. split; [apply Ha| |apply Ha].
  by eapply (key_kept_new d d d' path key kt); [apply account_inv_start|..].
Qed.

Lemma create_marshals key der :
  MarshalPKCS8PrivateKey key = Ok der →
  MarshalPrivateKeyPEM key = Ok (pem_EncodeToMemory (mkBlock "PRIVATE KEY" der)).
Proof using. unfold MarshalPrivateKeyPEM. by intros ->. Qed.

Lemma parse_created `{CL : !CryptoLaws} path key kt :
  MarshalPrivateKeyPEM key = Ok kt → parseAccountKey path kt = Ok (Some key).
Proof using.
  unfold MarshalPrivateKeyPEM, parseAccountKey. intros (der & E%wrap_err_Ok & [= <-])%bind_Ok.
  rewrite pem_decode_encode by set_solver. simpl. by rewrite (pkcs8_decodes key).
Qed.

(** The key is the one in the file. *)
Definition key_in_file (d : disk) (path : string) (key : account_key) : Prop :=
  ∃ text mode, read_file d path = Some (text, mode) ∧ parseAccountKey path text = Ok key.

Lemma safe_loadOrCreate `{CL : !CryptoLaws} J path (Q : account_key → disk → list action → Prop) d l :
  wf_disk d → temp_like path = false → J l →
  (∀ key d', account_inv path d d' → key_in_file d' path key → Q key d' l) →
  safe (account_inv path d) J (loadOrCreateAccountKey env path) Q d l.
Proof using.
  intros Hwf Hp HJ HQ. assert (Hi := account_inv_start path d Hwf). unfold loadOrCreateAccountKey.
  safe_step. unfold safe at 1. apply wp_attempt, wp_ReadFile; simpl.
  - intros e. split_and!; [done..|]. by safe_step.
  - intros [text mode] Hf. split_and!; [done..|]. safe_step. intros key Hk.
    apply HQ; [done|]. by exists text, mode.
  - intros Hn. split_and!; [done..|]. unfold createAccountKey.
    do 2 safe_step. do 2 safe_step. intros key _. do 2 safe_step. intros der Hder%wrap_err_Ok.
    apply create_marshals in Hder as Hkt. do 2 safe_step.
    apply safe_WriteFile; [done..| |].
    + intros d' Ha. by eapply account_inv_write.
    + intros d' Ha [Hr _] _. assert (account_inv path d d') by (by eapply account_inv_write).
      safe_step. apply HQ; [done|]. eexists _, _. split; [exact Hr|]. by apply parse_created.
Qed.

Lemma safe_New `{CL : !CryptoLaws} c secretProvider (Q : Issuer (P:=P) → disk → list action → Prop) d l :
  wf_disk d → temp_like (AccountKey c) = false →
  (∀ reg key d' l', account_inv (AccountKey c) d d' → key_in_file d' (AccountKey c) key →
     DirectoryURL c ≠ "" → AccountEmail c ≠ "" → AccountKey c ≠ "" →
     Q (mkIssuer (with_DNSProvider c) secretProvider (mkUser (AccountEmail c) reg key)) d' l') →
  safe (account_inv (AccountKey c) d) (λ _, True) (New env lib c secretProvider) Q d l.
Proof using.
  intros Hwf Hp HQ. assert (Hi := account_inv_start (AccountKey c) d Hwf). unfold New.
  case_bool_decide; [by safe_step|]. case_bool_decide; [by safe_step|].
  case_bool_decide; [by safe_step|]. safe_step. apply safe_loadOrCreate; [done..|].
  intros key d' Hi' Hk. safe_step. unfold newClient. safe_step. apply safe_log; [done..|].
  do 2 safe_step. destruct (lego_NewClient lib _ _); [by safe_step|]. safe_step.
  safe_step. apply safe_log; [done..|]. do 2 safe_step. do 2 safe_step.
  intros reg _. safe_step. auto.
Qed.

(** ** Secrets and providers *)

Notation Issuer := (Issuer (P:=P)).

(** The secret of a name. *)
Definition secret_of (i : Issuer) (d : disk) (name v : string) : Prop :=
  ∃ p, secrets_ i = Some p ∧ v ≠ "" ∧ holds_secret p d name v.
Definition optional_of (i : Issuer) (d : disk) (name v : string) : Prop :=
  if name == "" then v = "" else secret_of i d name v.

(** The provider an issuance uses, with its options. *)
Inductive dns_for (i : Issuer) (req : IssueRequest) (d : disk) : dns_provider → list dns_option → Prop :=
  | for_cloudflare token :
      ToLower (DNSProvider (cfg i)) = "cloudflare" → ir_ACMECredentialsName req ≠ "" →
      secret_of i d (ir_ACMECredentialsName req) token → dns_for i req d (Cloudflare token) []
  | for_httpreq endpoint username password :
      ToLower (DNSProvider (cfg i)) = "httpreq" →
      url_Parse lib (Endpoint (HTTPReq (cfg i))) = Some endpoint →
      optional_of i d (UsernameSecret (HTTPReq (cfg i))) username →
      optional_of i d (PasswordSecret (HTTPReq (cfg i))) password →
      dns_for i req d (Httpreq endpoint (Mode (HTTPReq (cfg i))) username password
        (PropagationTimeout (HTTPReq (cfg i))) (PollingInterval (HTTPReq (cfg i)))
        (HTTPTimeout (HTTPReq (cfg i)))) (httpreq_options i).

(** Requests of which none is for a certificate. *)
Definition asks_no_certificate (asked : list action) : Prop :=
  Forall (λ a, ∀ args, a ≠ Call "acme.obtain" args) asked.
Definition quietly (l l' : list action) : Prop := ∃ asked, l' = l ++ asked ∧ asks_no_certificate asked.

Lemma quietly_refl l : quietly l l.
Proof using. exists []. rewrite app_nil_r. split; [done | constructor]. Qed.
Lemma quietly_trans l1 l2 l3 : quietly l1 l2 → quietly l2 l3 → quietly l1 l3.
Proof using.
  intros (a & -> & Ha) (b & -> & Hb). exists (a ++ b). rewrite app_assoc. split; [done|].
  by apply Forall_app.
Qed.
Lemma quietly_call l s args : s ≠ "acme.obtain" → quietly l (l ++ [Call s args]).
Proof using. intros Hs. eexists. split; [done|]. repeat constructor. congruence. Qed.

Lemma wp_get_secret I i name (Q : result acme_error string → disk → list action → Prop) d l :
  (∀ e l', quietly l l' → Q (Err e) d l') →
  (∀ v l', quietly l l' → secret_of i d name v → Q (Ok v) d l') →
  wp I (get_secret env h i name) Q d l.
Proof using PL.
  intros He Hv. unfold get_secret. destruct (secrets_ i) as [p|] eqn:Es.
  - wp_step. apply wp_quiet. eapply wp_consequence; [apply (get_spec p name)|].
    intros r d' l' (-> & (asked & -> & Ha) & Hr).
    assert (Hq : quietly l (l ++ asked)).
    { exists asked. split; [done|]. eapply Forall_impl; [exact Ha|]. by intros a [args ->] args'. }
    destruct r as [v|e]; simpl; [|auto]. apply Hv; [done|]. by exists p.
  - wp_step. apply He, quietly_refl.
Qed.

Lemma wp_optional_secret I i name (Q : result acme_error string → disk → list action → Prop) d l :
  (∀ e l', quietly l l' → Q (Err e) d l') →
  (∀ v l', quietly l l' → optional_of i d name v → Q (Ok v) d l') →
  wp I (optional_secret env h i name) Q d l.
Proof using PL.
  intros He Hv. unfold optional_secret. unfold optional_of in Hv.
  case_bool_decide; simpl; [wp_step; auto using quietly_refl|].
  apply wp_get_secret; auto.
Qed.

Lemma wp_set_new I client provider opts (Q : result acme_error lego_client → disk → list action → Prop) d l :
  (∀ e, Q (Err e) d l) →
  Q (Ok (mkLego (lc_user client) (lc_directory client) (lc_key_type client)
       (Some (provider, opts)))) d l →
  wp I (p ← new_provider lib provider; set_provider lib client p opts) Q d l.
Proof using.
  intros He HQ. unfold new_provider, set_provider. wp_step.
  destruct (NewDNSProviderConfig lib provider); wp_step; [done|].
  destruct (SetDNS01Provider lib provider opts); by wp_step.
Qed.

Lemma wp_configure I i client req (Q : result acme_error lego_client → disk → list action → Prop) d l :
  (∀ e l', quietly l l' → Q (Err e) d l') →
  (∀ p opts l', quietly l l' → dns_for i req d p opts →
     Q (Ok (mkLego (lc_user client) (lc_directory client) (lc_key_type client) (Some (p, opts)))) d l') →
  wp I (configureDNSProvider env h lib i client req) Q d l.
Proof using PL.
  intros He HQ. pose proof (quietly_refl l) as Hl. unfold configureDNSProvider.
  case_bool_decide as Hc.
  - destruct (secrets_ i) eqn:Es; [|wp_step; auto]. case_bool_decide; [wp_step; auto|].
    wp_step. apply wp_get_secret; [done|]. intros token l' Hl' Ht.
    apply wp_set_new; [auto|]. apply HQ; [done|]. by constructor.
  - case_bool_decide as Hh; [|wp_step; auto]. wp_step. unfold httpreqProvider.
    destruct (url_Parse lib _) as [endpoint|] eqn:Eu; [|wp_step; auto].
    wp_step. apply wp_optional_secret; [done|]. intros u l1 Hl1 Hu.
    wp_step. apply wp_optional_secret; [intros; apply He; by eapply quietly_trans|].
    intros pw l2 Hl2 Hpw. assert (quietly l l2) by (by eapply quietly_trans).
    unfold new_provider. destruct (NewDNSProviderConfig lib _); wp_step; [auto|].
    unfold set_provider. destruct (SetDNS01Provider lib _ _); wp_step; [auto|].
    apply HQ; [done|]. by constructor.
Qed.

(** ** Issuing *)

Definition client_of (i : Issuer) (p : dns_provider) (opts : list dns_option) : lego_client :=
  mkLego (user i) (DirectoryURL (cfg i)) EC256 (Some (p, opts)).

(** What is asked, and with which client. *)
Definition asks (i : Issuer) (req : IssueRequest) (d : disk) (client : lego_client)
    (ask : obtain_request) : Prop :=
  ir_ACMEChallenge req = "dns-01"
  ∧ (∃ p opts, dns_for i req d p opts ∧ client = client_of i p opts)
  ∧ ∃ csr, ParseCSRPEM (ir_CSRPEM req) = Ok csr ∧ ask = mkObtain csr false (PreferredChain (cfg i)).

(** The bundle of an answer of the authority. *)
Definition answers (client : lego_client) (ask : obtain_request) (b : Bundle) : Prop :=
  ∃ n r cert, ObtainForCSR lib n client ask = Ok (Some r) ∧ Certificate_ r ≠ ""
    ∧ ParseCertificatePEM (Certificate_ r) = Ok cert ∧ b = bundle_of r cert.

Definition issue_post (i : Issuer) (req : IssueRequest) (d : disk) (l : list action)
    (r : result acme_error Bundle) (l' : list action) : Prop :=
  (∃ l1, quietly l l1 ∧ (l' = l1 ∧ is_ok r = false
     ∨ ∃ client ask, l' = l1 ++ [Call "acme.obtain" [ir_CSRPEM req]] ∧ asks i req d client ask
       ∧ ∀ b, r = Ok b → answers client ask b))
  ∧ (ir_ACMEChallenge req ≠ "dns-01" → l' = l).

Lemma wp_Issue i req d l :
  wp (λ _, False) (Issue env h lib i req) (λ r d' l', d' = d ∧ issue_post i req d l r l') d l.
Proof using PL.
  unfold Issue. case_bool_decide as Hc; simpl.
  2:{ wp_step. split; [done|]. split; [|done]. exists l. split; [apply quietly_refl | by left]. }
  assert (Hquit : ∀ l' e, quietly l l' → d = d ∧ issue_post i req d l (Err e) l').
  { intros l' e Hl. split; [done|]. split; [|done]. exists l'. split; [done | by left]. }
  wp_step. unfold newClient. wp_step. wp_step. wp_step.
  assert (Hl1 : quietly l (l ++ [Call "acme.directory" [DirectoryURL (cfg i)]]))
    by (by apply quietly_call).
  wp_step. destruct (lego_NewClient lib _ _); wp_step; [by apply Hquit|].
  wp_step. apply wp_configure; [intros e l' Hl'; apply Hquit; by eapply quietly_trans|].
  intros p opts l2 Hl2 Hd. assert (quietly l l2) by (by eapply quietly_trans).
  do 2 wp_step. destruct (ParseCSRPEM (ir_CSRPEM req)) as [csr|e] eqn:Ep; simpl; [|by apply Hquit].
  do 2 wp_step. wp_step. apply wp_draw. intros k.
  set (client := client_of i p opts). set (ask := mkObtain csr false (PreferredChain (cfg i))).
  assert (Hask : asks i req d client ask) by (split_and!; eauto).
  assert (Hend : ∀ r : result acme_error Bundle, (∀ b, r = Ok b → answers client ask b) →
    d = d ∧ issue_post i req d l r (l2 ++ [Call "acme.obtain" [ir_CSRPEM req]])).
  { intros r Hr. split; [done|]. split; [|done]. exists l2. split; [done|]. right. eauto. }
  change (mkLego _ _ _ (Some (p, opts))) with client.
  do 2 wp_step. destruct (ObtainForCSR lib k client ask) as [r|e] eqn:Eo; simpl; [|by apply Hend].
  do 2 wp_step. destruct r as [r|]; simpl; [|by apply Hend].
  case_bool_decide; simpl; [by apply Hend|]. do 2 wp_step.
  destruct (ParseCertificatePEM (Certificate_ r)) as [cert|e] eqn:Ec; simpl; [|by apply Hend].
  wp_step. apply Hend. intros b [= <-]. by exists k, r, cert.
Qed.
End Spec.

Lemma key_in_file_unique {CR : Crypto} d d' path key key' :
  read_file d path = read_file d' path → key_in_file d path key → key_in_file d' path key' →
  key = key'.
Proof. intros E (t & m & H & Hk) (t' & m' & H' & Hk'). congruence. Qed.

(** A key that was in its file is still there. *)
Lemma account_inv_read {CR : Crypto} path d d' :
  account_inv path d d' → is_Some (read_file d path) → read_file d' path = read_file d path.
Proof. intros [_ Hk _] [f Hf]. unfold key_kept in Hk. rewrite Hf in Hk. by destruct Hk. Qed.

(** ** Properties *)

(** C36: Making an issuer never replaces the account key: whatever fails, at each
moment and after a crash at that moment, its file is the one that was there or,
where there was none, nothing or a complete new key only its owner can read; no
other file changes. An issuer that is made has the key that is in the file, the
provider cloudflare when none is configured, and an identifier of its account
that is the URI of its registration or its e-mail address. Every later issuer
made with the same file has the same key. *)
Theorem New_correct {CR : Crypto} {CL : CryptoLaws} {P} env lib (c : Config) (sp : option P) m :
  wf_disk (m_disk m) → temp_like (AccountKey c) = false →
  let '(r, m') := New env lib c sp m in
  (∃ moments, m_past m' = m_past m ++ moments
     ∧ ∀ d, d ∈ m_disk m' :: moments → account_inv (AccountKey c) (m_disk m) d)
  ∧ ∀ i, r = Ok i →
    cfg i = with_DNSProvider c ∧ DNSProvider (cfg i) ≠ "" ∧ AccountKeyID i ≠ ""
    ∧ key_in_file (m_disk m') (AccountKey c) (key (user i))
    ∧ ∀ env' lib' c' sp' m2 i', AccountKey c' = AccountKey c → wf_disk (m_disk m2) →
        read_file (m_disk m2) (AccountKey c) = read_file (m_disk m') (AccountKey c) →
        fst (New env' lib' c' sp' m2) = Ok i' → key (user (P:=P) i') = key (user i).
Proof.
  intros Hwf Hp.
  assert (Hnew : ∀ env lib c (sp : option P) m, wf_disk (m_disk m) → temp_like (AccountKey c) = false →
    safe (account_inv (AccountKey c) (m_disk m)) (λ _, True) (New env lib c sp)
      (λ i d _, cfg i = with_DNSProvider c ∧ email (user i) = AccountEmail c ∧ AccountEmail c ≠ ""
         ∧ key_in_file d (AccountKey c) (key (user i))) (m_disk m) (m_log m)).
  { intros. apply safe_New; [done..|]. intros. done. }
  pose proof (safe_run _ _ _ _ _ (Hnew env lib c sp m Hwf Hp)) as H.
  destruct (New env lib c sp m) as [r m']. destruct H as (new & Hpast & Hall & _ & Hr). simpl in *.
  rewrite Forall_forall in Hall. split; [exists new; split; [done|apply Hall]|].
  intros i Hi. destruct (Hr i Hi) as (Hcfg & _ & Hmail & Hkey). rewrite Hcfg.
  split_and!; [done| | |done|].
  - simpl. by case_bool_decide.
  - unfold AccountKeyID. rewrite Hcfg. destruct (registration (user i)) as [uri|]; [|done].
    by case_bool_decide.
  - intros env' lib' c' sp' m2 i' Hc Hwf2 Hread Hi'.
    assert (Hp' : temp_like (AccountKey c') = false) by (by rewrite Hc).
    destruct (safe_run _ _ _ _ _ (Hnew env' lib' c' sp' m2 Hwf2 Hp')) as (new2 & _ & Hall2 & _ & Hr2).
    destruct (Hr2 i' Hi') as (_ & _ & _ & Hkey2). rewrite Hc in *.
    eapply key_in_file_unique; [|exact Hkey2|exact Hkey]. rewrite <- Hread.
    apply account_inv_read; [by apply Forall_cons in Hall2 as [? _]|].
    rewrite Hread. destruct Hkey as (t & mode & -> & _). by eexists.
Qed.

(** C14: An issuance changes no file. It asks the authority for a certificate at most
once, as its last request, and only for a profile with the challenge dns-01,
for the request it was given, with a client of the account whose DNS provider is
the configured one, made with the secret the profile names (or those of the
configuration, for httpreq) and never an empty one. A bundle is only returned
for an answer of the authority to this request: its full chain is the
certificate followed by the chain, its serial number and validity are those of
the certificate. Another challenge asks nobody anything. *)
Theorem Issue_correct {CR : Crypto} env h lib {P} `{ProviderLaws env h P} (i : Issuer (P:=P)) req m :
  let '(r, m') := Issue env h lib i req m in
  m_disk m' = m_disk m ∧ m_past m' = m_past m
  ∧ issue_post env h lib i req (m_disk m) (m_log m) r (m_log m').
Proof.
  destruct (wp_run _ _ _ _ (wp_Issue env h lib i req (m_disk m) (m_log m)))
    as (new & Hp & Hn & Hd & Hpost).
  destruct (Issue env h lib i req m) as [r m']. simpl in *. split_and!; [done| |done].
  rewrite Hp. destruct new as [|d new]; [by rewrite app_nil_r|].
  by apply Forall_cons in Hn as [[] _].
Qed.

(** ** An issuer *)

Definition test_library : library := {|
  lego_NewClient _ _ := None;
  lego_Register _ _ := Ok (Some "https://acme/account/1");
  NewDNSProviderConfig _ := None;
  SetDNS01Provider _ _ := None;
  url_Parse url := Some url;
  ObtainForCSR _ _ _ := Ok (Some (mkResource "CERTIFICATE:cert" "chain")) |}.
Definition test_host : host := {|
  getenv name := if name == "CF_TOKEN" then Some "token" else None;
  new_client _ := None;
  vault_answer _ _ := Ok None |}.
Definition test_config : Config :=
  mkConfig "https://acme" "ops@whisper.cl" "/acme/key.pem" "" ""
    (mkHTTPReq "" "" "" "" 0 0 0 []).
Definition test_issuer : Issuer (P:=EnvProvider) :=
  mkIssuer (with_DNSProvider test_config) (Some (mkEnvProvider))
    (mkUser "ops@whisper.cl" (Some "https://acme/account/1") (Some test_key)).
Definition test_issue : IssueRequest :=
  mkIssueRequest "api" ["api.whisper.cl"] "CERTIFICATE REQUEST:request" "dns-01" "CF_TOKEN".

(** The key made by the first issuer is the one of the second, after a restart. *)
Lemma New_correct_witness :
  let m := snd (New (CR:=test_crypto) (P:=EnvProvider) test_env test_library test_config None empty_machine) in
  ∃ i', fst (New (CR:=test_crypto) (P:=EnvProvider) test_env test_library test_config None m) = Ok i'
    ∧ key (user i') = Some test_key.
Proof.
  pose proof (New_correct (CR:=test_crypto) (CL:=test_crypto_laws) (P:=EnvProvider) test_env test_library
    test_config None empty_machine empty_disk_wf eq_refl) as H.
  destruct (New test_env test_library test_config None empty_machine) as [r m'] eqn:E.
  destruct H as [(moments & Hp & Hall) H].
  assert (Er : ∃ i, r = Ok i ∧ key (user i) = Some test_key).
  { assert (fst (r, m') = r) as <- by done. rewrite <- E. vm_compute. by eexists. }
  destruct Er as (i & -> & Hk). destruct (H i eq_refl) as (_ & _ & _ & _ & Hlater).
  cbn [snd].
  destruct (fst (New (CR:=test_crypto) (P:=EnvProvider) test_env test_library test_config None m'))
    as [i'|e] eqn:Hi'; [|exfalso; revert Hi'; assert (Em : snd (New (CR:=test_crypto) (P:=EnvProvider) test_env test_library test_config None empty_machine) = m') by (by rewrite E); rewrite <- Em; vm_compute; discriminate].
  exists i'. split; [done|]. rewrite <- Hk.
  apply (Hlater test_env test_library test_config None m' i'); [done| |done|done].
  destruct (Hall (m_disk m')) as [Hwf _ _]; [left|done].
Defined.

Lemma Issue_correct_witness :
  ∃ b client ask, fst (Issue (CR:=agent_spec.agent_crypto) test_env test_host test_library test_issuer
      test_issue empty_machine) = Ok b
    ∧ asks (CR:=agent_spec.agent_crypto) test_env test_host test_library test_issuer test_issue
        empty_disk client ask
    ∧ FullChainPEM b = string_app (CertPEM b) (ChainPEM b).
Proof.
  pose proof (Issue_correct (CR:=agent_spec.agent_crypto) test_env test_host test_library test_issuer
    test_issue empty_machine) as H.
  destruct (Issue test_env test_host test_library test_issuer test_issue empty_machine)
    as [r m'] eqn:E.
  assert (Er : ∃ b, r = Ok b).
  { assert (fst (r, m') = r) as <- by done. rewrite <- E. vm_compute. by eexists. }
  destruct Er as [b ->]. destruct H as (_ & _ & (l1 & _ & [[_ [=]]|(client & ask & _ & Ha & Hb)]) & _).
  exists b, client, ask. split_and!; [done|done|].
  by destruct (Hb b eq_refl) as (n & r & cert & _ & _ & _ & ->).
Defined.
End acme_spec.
