(* ===== verification/Command.v ===== *)
(** * The commands ([cmd], [internal/logging], [internal/broker/http.go])

How the two programs choose and make their parts from a configuration file:
[cmd/broker/common.go], [serve.go], [policy.go], [cmd/agent/common.go] and the
commands that use them, the set-up of the HTTP server, the handler of the log.
A configuration that is accepted never meets the errors of a part that is
unknown or not configured ([runServe_correct]). *)

From Stdlib Require Import Ascii.
From S2P Require Import Prelude GoStrings GoTime Json Os OsLogic FileUtil.
From S2P Require Import Config Secrets X509 Policy PolicySpec PolicyManager Pki Agent StepCa.
From S2P Require Import AuditLog StoreSqlite SqliteSchema Broker Acme AcmeSpec.
Import os os_logic fileutil secrets.
#[local] Open Scope go_scope.

Module command.

(** ** internal/logging *)

Inductive level := LevelDebug | LevelInfo | LevelWarn | LevelError.

(** The handler: its level, whether it writes text, and where. *)
Record logger := mkLogger { logger_level : level; logger_text : bool; logger_stderr : bool }.

Definition logging_New (c : config.LoggingConfig) : logger :=
  let name := ToLower (config.Level c) in
  let l := if name == "debug" then LevelDebug
           else if name == "warn" then LevelWarn
           else if name == "error" then LevelError
           else LevelInfo in
  mkLogger l (config.Format c == "text") (config.Destination c == "stderr").

Lemma elem_of_two {A} (x a b : A) : x ∈ [a; b] ↔ x = a ∨ x = b.
Proof. by rewrite elem_of_cons, list_elem_of_singleton. Qed.

(** ** What a computation may result in *)

Definition results {St X T} (c : St → result X T * St) (Q : result X T → Prop) : Prop :=
  ∀ s, Q (fst (c s)).

Section Results.
Lemma results_ret {X T} (x : T) (Q : result X T → Prop) : Q (Ok x) → results (mret x : EM X T) Q.
Proof. by intros HQ s. Qed.
Lemma results_fail {X T} (e : X) (Q : result X T → Prop) : Q (Err e) → results (fail e : EM X T) Q.
Proof. by intros HQ s. Qed.
Lemma results_lift {X T} (r : result X T) (Q : result X T → Prop) : Q r → results (lift r) Q.
Proof. by intros HQ s. Qed.
Lemma results_any {St X T} (c : St → result X T * St) (Q : result X T → Prop) :
  (∀ r, Q r) → results c Q.
Proof. by intros HQ s. Qed.
Lemma results_bind {X T U} (c : EM X T) (f : T → EM X U) Q :
  results c (λ r, match r with Ok x => results (f x) Q | Err e => Q (Err e) end) →
  results (c ≫= f) Q.
Proof.
  intros H s. specialize (H s). unfold mbind, EM_bind. destruct (c s) as [[x|e] s1]; simpl in *; [|done].
  apply H.
Qed.
Lemma results_wrapM {X Y T} (g : X → Y) (c : EM X T) Q :
  results c (λ r, Q (wrap_err g r)) → results (wrapM g c) Q.
Proof. intros H s. specialize (H s). unfold wrapM. by destruct (c s). Qed.
Lemma results_attempt {X Y T} (c : EM X T) (Q : result Y (result X T) → Prop) :
  results c (λ r, Q (Ok r)) → results (attempt c) Q.
Proof. intros H s. specialize (H s). unfold attempt. by destruct (c s). Qed.
Lemma results_draw {X T} (stream : nat → T) (Q : result X T → Prop) :
  (∀ n, Q (Ok (stream n))) → results (draw stream) Q.
Proof. intros HQ s. apply HQ. Qed.
Lemma results_log {X} a (Q : result X unit → Prop) : Q (Ok tt) → results (log a) Q.
Proof. by intros HQ s. Qed.
Lemma results_mono {St X T} (c : St → result X T * St) (Q Q' : result X T → Prop) :
  results c Q → (∀ r, Q r → Q' r) → results c Q'.
Proof. intros H HQ s. apply HQ, H. Qed.
End Results.

(** ** cmd/broker/common.go *)

(** The providers of secrets behind one interface. *)
Inductive secrets_provider :=
  | ViaEnv (p : secrets.EnvProvider)
  | ViaFile (p : secrets.FileProvider)
  | ViaVault (p : secrets.VaultProvider).

Section Provider.
Context (env : os.environment) (h : secrets.host).

#[export] Instance secrets_provider_ops : secrets.Provider env h secrets_provider := λ p name,
  match p with
  | ViaEnv p => Env_Get h p name
  | ViaFile p => File_Get env p name
  | ViaVault p => Vault_Get h p name
  end.

Definition provider_holds (p : secrets_provider) : disk → string → string → Prop :=
  match p with
  | ViaEnv p => env_holds h p
  | ViaFile p => file_holds p
  | ViaVault p => vault_holds h p
  end.

#[export] Program Instance secrets_provider_laws : secrets.ProviderLaws env h secrets_provider :=
  {| secrets.holds_secret := provider_holds |}.
Next Obligation. 
  intros [p|p|p] name d l;
    [exact (get_spec (env:=env) (h:=h) (P:=EnvProvider) p name d l) | exact (get_spec (env:=env) (h:=h) (P:=FileProvider) p name d l)
    | exact (get_spec (env:=env) (h:=h) (P:=VaultProvider) p name d l)].
Qed.
End Provider.

Inductive command_error :=
  | ConfigRequired
  | LoadingConfig (e : config.load_error)
  | LoadingPolicy (path : string)
  | UnknownSecretsProvider (name : string)
  | VaultError (e : secrets.vault_error)
  | UnknownStoreDriver (name : string)
  | StoreError (e : schema.open_error)
  | UnknownIssuerProvider (name : string)
  | IssuerError (e : acme.acme_error)
  | ReadingCABundle (path : string) (e : errno)
  | EmptyCABundle (path : string)
  | PolicyRequired
  | UnknownIdentityProvider (name : string)
  | IdentityError (e : stepca.stepca_error)
  | AgentError (e : agent.agent_error).

(** The store that is opened, by its path. *)
Inductive broker_store := SqliteStore (path : string) | FileStoreAt (path : string).

Section Broker.
Context (env : os.environment) (h : secrets.host) (lib : acme.library) {CR : pki.Crypto}.
Context {D : Type} `{DB : schema.Database D} (db_Open : string → option string).
(** [url.ParseRequestURI], the two YAML decoders, the reading of a CA bundle and
the clock. *)
Context (request_uri : string → bool) (decode : string → option config.BrokerConfig).
Context {yaml_error : Type} (yaml_decode : string → result yaml_error policy.Config).
Context (AppendCertsFromPEM : string → bool) (clock : nat → Z).

Definition loadBrokerConfig (path : string) : EM command_error config.BrokerConfig :=
  if path == "" then fail ConfigRequired
  else wrapM LoadingConfig (config.LoadBroker env request_uri decode path).

Definition openBrokerStore (cfg : config.BrokerConfig) (d : D) (m : machine)
    : result command_error broker_store * D * machine :=
  let driver := config.Store_Driver cfg in
  let path := config.Store_Path cfg in
  if driver == "sqlite" then
    let '(r, d', m') := schema.NewSQLiteStore env db_Open path d m in
    (match r with Ok _ => Ok (SqliteStore (Clean path)) | Err e => Err (StoreError e) end, d', m')
  else if driver == "file" then (Ok (FileStoreAt path), d, m)
  else (Err (UnknownStoreDriver driver), d, m).

Definition vault_config (s : config.SecretsConfig) : secrets.VaultConfig :=
  secrets.mkVaultConfig (config.Vault_Address s) (config.Vault_Token s) (config.Vault_TokenFile s)
    (config.Vault_MountPath s) (config.Vault_KVVersion s) (config.Vault_Key s)
    (config.Vault_Timeout s) (config.Vault_Namespace s).

Definition buildSecretsProvider (cfg : config.BrokerConfig) : EM command_error secrets_provider :=
  let s := config.Secrets cfg in
  let name := config.Secrets_Provider s in
  if name == "env" then mret (ViaEnv secrets.mkEnvProvider)
  else if name == "file" then mret (ViaFile secrets.File_New)
  else if (name == "vault") || (name == "openbao") then
    p ← wrapM VaultError (secrets.Vault_New env h (vault_config s)); mret (ViaVault p)
  else fail (UnknownSecretsProvider name).

Definition acme_config (i : config.IssuerConfig) : acme.Config :=
  let r := config.HTTPReq i in
  acme.mkConfig (config.DirectoryURL i) (config.AccountEmail i) (config.AccountKey i)
    (config.DNSProvider i) (config.PreferredChain i)
    (acme.mkHTTPReq (config.Endpoint r) (config.Mode r) (config.UsernameSecret r)
      (config.PasswordSecret r) (config.PropagationTimeout r) (config.PollingInterval r)
      (config.HTTPTimeout r) (config.RecursiveNameservers r)).

Definition buildIssuer (cfg : config.BrokerConfig) (p : secrets_provider)
    : EM command_error (acme.Issuer (P:=secrets_provider)) :=
  let i := config.Issuer cfg in
  if config.Issuer_Provider i == "acme" then
    wrapM IssuerError (acme.New env lib (acme_config i) (Some p))
  else fail (UnknownIssuerProvider (config.Issuer_Provider i)).

(** ** cmd/broker/serve.go *)

(** [policy.Load] and [policy.NewManager] on a file. *)
Definition on_policy {T} (path : string)
    (f : Z → result policy_manager.io_error string → result (policy_manager.load_error (yaml_error:=yaml_error)) T)
    : EM command_error T :=
  data ← attempt (ReadFile env path);
  now ← draw clock;
  lift (wrap_err (λ _, LoadingPolicy path) (f now (wrap_err (λ _, policy_manager.IOError) data))).
Definition Load (path : string) : EM command_error policy.CompiledPolicy :=
  on_policy path (policy_manager.Load yaml_decode).
Definition NewManager (path : string) : EM command_error policy_manager.Manager :=
  on_policy path (policy_manager.NewManager yaml_decode).

Record server_parts := mkParts {
  sp_cfg : config.BrokerConfig;
  sp_policy : policy_manager.Manager;
  sp_secrets : secrets_provider;
  sp_store : broker_store;
  sp_issuer : acme.Issuer (P:=secrets_provider) }.

(** The parts made of files. *)
Definition serve_files (path : string)
    : EM command_error (config.BrokerConfig * policy_manager.Manager * secrets_provider) :=
  cfg ← loadBrokerConfig path;
  pm ← NewManager (config.Policy_Path cfg);
  sp ← buildSecretsProvider cfg;
  mret (cfg, pm, sp).

(** [runServe] up to the server: what it is made of. *)
Definition runServe (path : string) (d : D) (m : machine)
    : result command_error server_parts * D * machine :=
  let '(r1, m1) := serve_files path m in
  match r1 with
  | Err e => (Err e, d, m1)
  | Ok (cfg, pm, sp) =>
      let '(r2, d', m2) := openBrokerStore cfg d m1 in
      match r2 with
      | Err e => (Err e, d', m2)
      | Ok st =>
          let '(r3, m3) := buildIssuer cfg sp m2 in
          ((λ i, mkParts cfg pm sp st i) <$> r3, d', m3)
      end
  end.

(** ** cmd/broker/policy.go *)

(** What [policy validate] prints. *)
Definition policy_summary (p : policy.CompiledPolicy) : string :=
  foldr string_app "" ["policy ok: hash="; policy.Policy_Hash p;
    " profiles="; itoa (Z.of_nat (size (policy.Policy_Profiles p)));
    " identities="; itoa (Z.of_nat (size (policy.HostsByIdentity p))); newline].

Definition runPolicyValidate (path : string) : EM command_error string :=
  if path == "" then fail PolicyRequired
  else
    compiled ← Load path; mret (policy_summary compiled).

(** ** internal/broker/http.go *)

Inductive route := Healthz | Readyz | IssueCertificate.

Record http_server := mkHTTPServer {
  hs_Addr : string;
  hs_routes : list (string * route);
  hs_ReadHeaderTimeout : Z;
  hs_ReadTimeout : Z;
  hs_WriteTimeout : Z;
  hs_IdleTimeout : Z;
  hs_MinVersion : Z;
  hs_ClientAuth : Z;
  hs_ClientCAs : string }.

(** [tls.RequireAndVerifyClientCert]. *)
Definition RequireAndVerifyClientCert : Z := 4.

(** The bundle whose certificates make the pool. *)
Definition loadCertPool (path : string) : EM command_error string :=
  data ← wrapM (ReadingCABundle path) (ReadFile env path);
  if AppendCertsFromPEM data then mret data else fail (EmptyCABundle path).

Definition HTTPServer (cfg : config.BrokerConfig) : EM command_error http_server :=
  let s := config.Server cfg in
  agentCAPool ← loadCertPool (config.AgentCABundle s);
  mret (mkHTTPServer (config.Address s)
    [("GET /healthz", Healthz); ("GET /readyz", Readyz); ("POST /v1/certificates", IssueCertificate)]
    (config.ReadHeaderTimeout s) (config.ReadTimeout s) (config.WriteTimeout s)
    (config.IdleTimeout s) (broker.tlsMinVersion (config.TLS_MinVersion s))
    RequireAndVerifyClientCert agentCAPool).
End Broker.

(** *** The recorder of audit events *)

Section Recorder.
Context {E A F : Type} `{RO : audit.RecorderOps E A F}.

(** A mirrored recorder holds the store's and that of the standard output. *)
Inductive built_recorder :=
  | DiscardAll
  | ToStore (a : A)
  | Mirrored (m : audit.MultiRecorder (R := A + audit.JSONLRecorder)).

Definition buildAuditRecorder (cfg : config.BrokerConfig) (storeRecorder : A) : built_recorder :=
  if negb (config.AuditEnabled cfg) then DiscardAll
  else if config.MirrorToLog cfg then
    Mirrored (audit.NewMultiRecorder [Some (inl storeRecorder); Some (inr (audit.mkJSONLRecorder ""))])
  else ToStore storeRecorder.

(** An error of the store's recorder, or of the standard output's. *)
Definition sum_Record (f : F * audit.write_outcome) (e : audit.Event) (r : A + audit.JSONLRecorder)
    : option (E + audit.audit_error) * (A + audit.JSONLRecorder) :=
  match r with
  | inl a => let '(err, a') := audit.Record_ (fst f) e a in (inl <$> err, inl a')
  | inr j => let '(err, j') := audit.JSONLRecorder_Record (snd f) e j in (inr <$> err, inr j')
  end.
#[export] Instance sum_ops :
  audit.RecorderOps (E + audit.audit_error) (A + audit.JSONLRecorder) (F * audit.write_outcome) :=
  {| audit.Record_ := sum_Record |}.

Definition built_Record (f : F * audit.write_outcome) (e : audit.Event) (r : built_recorder)
    : option (list (E + audit.audit_error)) * built_recorder :=
  match r with
  | DiscardAll => (None, DiscardAll)
  | ToStore a => let '(err, a') := audit.Record_ (fst f) e a in ((λ x, [inl x]) <$> err, ToStore a')
  | Mirrored m =>
      let '(err, m') := audit.MultiRecorder_Record (replicate (length m) f) e m in (err, Mirrored m')
  end.
#[export] Instance built_ops :
  audit.RecorderOps (list (E + audit.audit_error)) built_recorder (F * audit.write_outcome) :=
  {| audit.Record_ := built_Record |}.

(** The store's recorder within. *)
Definition recorder_store (r : built_recorder) : option A :=
  match r with
  | DiscardAll => None
  | ToStore a => Some a
  | Mirrored m => match m with inl a :: _ => Some a | _ => None end
  end.
End Recorder.

(** What [ListenAndServe] records before it serves. *)
Definition started_event : audit.Event :=
  audit.mkEvent "" "" 0 audit.EventBrokerStarted audit.SeverityInfo audit.DecisionAllow "" "" "" ""
    audit.ReasonOK "" "" "" "" "" "" None None "" "" "" "" None None "" None.

Definition announce {S A I F E : Type} `{RO : audit.RecorderOps E A F}
    (env : broker.environment (F:=F)) (w : broker.world (S:=S) (A:=A) (I:=I))
    : broker.world (S:=S) (A:=A) (I:=I) :=
  snd (broker.record env started_event w).

(** The server that is started: the parts, the store that was opened, and the
machine its issuer runs on. *)
Definition server_of {S A : Type} (p : server_parts) (st : S) (a : A) (m : machine)
    : broker.world (S:=S) (A:=built_recorder (A:=A)) (I:=acme.Issuer (P:=secrets_provider) * machine) :=
  broker.NewServer (config.FailureMode (sp_cfg p)) (config.PerIdentityPerHour (sp_cfg p))
    (config.PerIdentityProfilePerHour (sp_cfg p)) (policy_manager.Current (sp_policy p)) st
    (sp_issuer p, m) (Some (buildAuditRecorder (sp_cfg p) a)).

(** ** cmd/agent *)

Section Agent.
Context (env : os.environment) {CR : pki.Crypto}.
Context (request_uri : string → bool) (decode : string → option config.AgentConfig).
Context (libs : nat → stepca.library) (sv : agent.services) (text : stepca.stepca_error → string).

Definition loadAgentConfig (path : string) : EM command_error config.AgentConfig :=
  if path == "" then fail ConfigRequired
  else wrapM LoadingConfig (config.LoadAgent env request_uri decode path).

Definition stepca_config (s : config.StepCAConfig) : stepca.Config :=
  stepca.mkConfig (config.StepCA_URL s) (config.Fingerprint s) (config.RootCABundle s)
    (config.StepCA_Timeout s).

Definition resolveIdentityCA (cfg : config.AgentConfig) : result command_error stepca.Provider :=
  let i := config.Identity cfg in
  if config.Identity_Provider i == "step-ca" then
    wrap_err IdentityError (stepca.New (libs 0) (stepca_config (config.StepCA i)))
  else Err (UnknownIdentityProvider (config.Identity_Provider i)).

Definition loadAgentRuntime (path : string)
    : EM command_error (config.AgentConfig * stepca.Provider) :=
  cfg ← loadAgentConfig path;
  ca ← lift (resolveIdentityCA cfg);
  mret (cfg, ca).

Definition services_with (ca : stepca.Provider) : agent.services :=
  stepca.with_step_ca libs ca text sv.

Definition runEnroll (path : string) : EM command_error unit :=
  '(cfg, ca) ← loadAgentRuntime path;
  wrapM AgentError (agent.Enroll env (services_with ca) cfg).
Definition runRun (path : string) : EM command_error unit :=
  '(cfg, ca) ← loadAgentRuntime path;
  wrapM AgentError (agent.Run env (services_with ca) cfg).
Definition runCheck (path : string) : EM command_error unit :=
  cfg ← loadAgentConfig path;
  wrapM AgentError (agent.Check env cfg).
End Agent.

(** ** What a configuration that is accepted never meets *)

Ltac results_step :=
  lazymatch goal with
  | |- results (mret _) _ => apply results_ret
  | |- results (fail _) _ => apply results_fail
  | |- results (lift _) _ => apply results_lift
  | |- results (mbind _ _) _ => apply results_bind
  | |- results (wrapM _ _) _ => apply results_wrapM
  | |- results (attempt _) _ => apply results_attempt
  | |- results (draw _) _ => apply results_draw; intros ?
  | |- results (log _) _ => apply results_log
  end; simpl.

(** The errors that are not the world's but the program's. *)
Definition acme_misconfigured (e : acme.acme_error) : Prop :=
  match e with
  | acme.DirectoryURLRequired | acme.AccountEmailRequired | acme.AccountKeyRequired
  | acme.SecretsRequired | acme.UnsupportedDNSProvider _ => True
  | _ => False
  end.

Definition sound {T} (r : result acme.acme_error T) : Prop :=
  match r with Ok _ => True | Err e => ¬ acme_misconfigured e end.

Lemma sound_bind {T U} (c : EM acme.acme_error T) (f : T → EM acme.acme_error U) :
  results c sound → (∀ x, results (f x) sound) → results (c ≫= f) sound.
Proof.
  intros Hc Hf. results_step. eapply results_mono; [exact Hc|].
  intros [x|e]; [intros _; apply Hf | done].
Qed.

Lemma parseAccountKey_sound {CR : pki.Crypto} path data : sound (acme.parseAccountKey path data).
Proof. unfold acme.parseAccountKey. repeat case_match; simpl; auto. Qed.

Lemma loadOrCreate_sound {CR : pki.Crypto} env path :
  results (acme.loadOrCreateAccountKey env path) sound.
Proof.
  unfold acme.loadOrCreateAccountKey. results_step. results_step. apply results_any.
  intros [data|e]; simpl; [results_step; apply parseAccountKey_sound|].
  destruct e; try (results_step; simpl; tauto).
  unfold acme.createAccountKey. do 2 results_step.
  do 2 results_step. destruct (pki.ecdsa_GenerateKey _); simpl; [|auto].
  do 2 results_step. destruct (pki.MarshalPKCS8PrivateKey _); simpl; [|auto].
  do 2 results_step. apply results_any. intros [[]|e']; simpl; [by results_step | auto].
Qed.

Lemma newClient_sound {P} lib (i : acme.Issuer (P:=P)) :
  results (acme.newClient lib i) sound.
Proof.
  unfold acme.newClient. do 2 results_step. do 2 results_step.
  destruct (acme.lego_NewClient _ _ _); results_step; auto.
Qed.

(** A configuration with its required fields is never refused for what it lacks. *)
Lemma acme_New_configured {CR : pki.Crypto} {P} env lib (c : acme.Config) (sp : option P) :
  acme.DirectoryURL c ≠ "" → acme.AccountEmail c ≠ "" → acme.AccountKey c ≠ "" →
  results (acme.New env lib c sp) (λ r, match r with
    | Ok i => acme.cfg i = acme.with_DNSProvider c ∧ acme.secrets_ i = sp
    | Err e => ¬ acme_misconfigured e end).
Proof.
  intros Hd He Hk. unfold acme.New. rewrite !bool_decide_false by done.
  results_step. eapply results_mono; [apply loadOrCreate_sound|]. intros [key|e]; [intros _|done].
  results_step. eapply results_mono; [apply newClient_sound|]. intros [client|e]; [intros _|done].
  do 2 results_step. do 2 results_step. do 2 results_step.
  destruct (acme.lego_Register _ _ _); simpl; [by results_step | auto].
Qed.

Lemma resolveToken_configured env h c : results (resolveToken env h c) (λ r, r ≠ Err AddressRequired).
Proof.
  assert (Hend : ∀ token, results (if TrimSpace token == "" then fail TokenEmpty
    else mret (M:=EM vault_error) (TrimSpace token)) (λ r, r ≠ Err AddressRequired)).
  { intros token. case_bool_decide; by results_step. }
  unfold resolveToken. results_step. destruct (v_Token c != ""); [results_step; apply Hend|].
  destruct (v_TokenFile c != ""); [|results_step; apply Hend].
  results_step. apply results_any. intros [text|e]; simpl; [apply Hend | done].
Qed.

Lemma Vault_New_configured env h c :
  v_Address c ≠ "" → results (Vault_New env h c) (λ r, r ≠ Err AddressRequired).
Proof.
  intros Ha. unfold Vault_New. rewrite bool_decide_false by done. results_step.
  eapply results_mono; [apply resolveToken_configured|]. intros [token|e] He; [|congruence].
  destruct (new_client _ _); by results_step.
Qed.

(** A configured issuer is never refused for its provider or its secrets. *)
Lemma acme_Issue_configured {CR : pki.Crypto} env h lib (i : acme.Issuer (P:=secrets_provider)) req p :
  acme.DNSProvider (acme.cfg i) ∈ ["cloudflare"; "httpreq"] → acme.secrets_ i = Some p →
  results (acme.Issue env h lib i req) sound.
Proof.
  intros Hd Hs. unfold acme.Issue. case_bool_decide; simpl; [|results_step; simpl; tauto].
  apply sound_bind; [apply newClient_sound|]. intros client.
  assert (Hget : ∀ name, results (acme.get_secret env h i name) sound).
  { intros name. unfold acme.get_secret. rewrite Hs. results_step.
    apply results_any. intros [v|e]; simpl; tauto. }
  assert (Hopt : ∀ name, results (acme.optional_secret env h i name) sound).
  { intros name. unfold acme.optional_secret. case_bool_decide; simpl; [by results_step | apply Hget]. }
  assert (Hnew : ∀ pr, results (acme.new_provider lib pr) sound).
  { intros pr. unfold acme.new_provider. destruct (acme.NewDNSProviderConfig _ _); results_step; simpl; tauto. }
  assert (Hset : ∀ pr opts, results (acme.set_provider lib client pr opts) sound).
  { intros pr opts. unfold acme.set_provider. destruct (acme.SetDNS01Provider _ _ _); results_step; simpl; tauto. }
  apply sound_bind.
  - unfold acme.configureDNSProvider. rewrite Hs.
    apply elem_of_cons in Hd as [->|Hd%list_elem_of_singleton].
    + rewrite bool_decide_true by done. case_bool_decide; [results_step; simpl; tauto|].
      auto using sound_bind.
    + rewrite Hd. rewrite bool_decide_false, bool_decide_true by done. apply sound_bind; [|auto].
      unfold acme.httpreqProvider. destruct (acme.url_Parse _ _); [|results_step; simpl; tauto].
      auto using sound_bind.
  - intros client'. do 2 results_step. destruct (pki.ParseCSRPEM _); simpl; [|tauto].
    do 2 results_step. do 2 results_step. do 2 results_step.
    destruct (acme.ObtainForCSR _ _ _ _) as [res|]; simpl; [|tauto]. do 2 results_step.
    destruct res as [res|]; simpl; [|tauto]. case_bool_decide; simpl; [tauto|].
    do 2 results_step. destruct (pki.ParseCertificatePEM _); simpl; [|tauto]. by results_step.
Qed.

(** ** Starting the broker *)

Lemma EM_bind_eq {X T U} (c : EM X T) (f : T → EM X U) m r m' :
  (c ≫= f) m = (r, m') →
  (∃ e, c m = (Err e, m') ∧ r = Err e) ∨ ∃ x m1, c m = (Ok x, m1) ∧ f x m1 = (r, m').
Proof.
  unfold mbind, EM_bind. destruct (c m) as [[x|e] m1]; [by eauto|]. intros [= <- <-]. eauto.
Qed.

(** The errors that come from the world: files, the network, the database, texts
that do not parse. *)
Definition from_outside (path : string) (e : command_error) : Prop :=
  match e with
  | ConfigRequired => path = ""
  | LoadingConfig _ | LoadingPolicy _ => True
  | VaultError e => e ≠ AddressRequired
  | StoreError e => e ≠ schema.PathRequired
  | IssuerError e => ¬ acme_misconfigured e
  | _ => False
  end.

(** The provider a name of the configuration stands for. *)
Definition provider_for (name : string) (p : secrets_provider) : Prop :=
  match p with
  | ViaEnv _ => name = "env"
  | ViaFile p => name = "file" ∧ p = File_New
  | ViaVault _ => name ∈ ["vault"; "openbao"]
  end.

Section Serve.
Context (env : os.environment) (h : host) (lib : acme.library) {CR : pki.Crypto}.
Context {D : Type} `{DB : schema.Database D} (db_Open : string → option string).
Context (request_uri : string → bool) (decode : string → option config.BrokerConfig).
Context {yaml_error : Type} (yaml_decode : string → result yaml_error policy.Config).
Context (clock : nat → Z).

Lemma buildSecretsProvider_configured cfg path :
  config.secrets_valid (config.Secrets cfg) →
  results (buildSecretsProvider env h cfg) (λ r, match r with
    | Ok p => provider_for (config.Secrets_Provider (config.Secrets cfg)) p
    | Err e => from_outside path e end).
Proof using.
  intros Hv. unfold buildSecretsProvider.
  case_bool_decide as H1; [by results_step|]. case_bool_decide as H2; [by results_step|].
  unfold config.secrets_valid in Hv. rewrite !elem_of_two in Hv.
  destruct Hv as [Hv|(Hv & Ha & _)]; [by destruct Hv|].
  assert ((config.Secrets_Provider (config.Secrets cfg) == "vault")
    || (config.Secrets_Provider (config.Secrets cfg) == "openbao") = true) as ->.
  { apply orb_true_iff. by rewrite !bool_decide_eq_true. }
  results_step. results_step. eapply results_mono; [by apply Vault_New_configured|].
  intros [p|e]; simpl; [intros _; results_step; by apply elem_of_two|congruence].
Qed.

Lemma buildIssuer_configured cfg sp path :
  config.issuer_valid request_uri (config.Issuer cfg) →
  results (buildIssuer env lib cfg sp) (λ r, match r with
    | Ok i => acme.cfg i = acme.with_DNSProvider (acme_config (config.Issuer cfg))
        ∧ acme.secrets_ i = Some sp ∧ ∀ req, results (acme.Issue env h lib i req) sound
    | Err e => from_outside path e end).
Proof using.
  intros [Hp [Hd _] [He Hk] Hdns]. unfold buildIssuer. rewrite bool_decide_true by done.
  results_step. eapply results_mono; [by apply acme_New_configured|].
  intros [i|e]; [|done]. simpl. intros [Hc Hs]. split_and!; [done..|].
  intros req. eapply acme_Issue_configured; [|done]. rewrite Hc. simpl.
  rewrite bool_decide_false by (destruct Hdns as [->|[-> _]]; done).
  rewrite elem_of_two. destruct Hdns as [->|[-> _]]; auto.
Qed.

Lemma openBrokerStore_configured cfg path d m :
  config.Store_Driver cfg ∈ ["sqlite"; "file"] → config.Store_Path cfg ≠ "" →
  match fst (fst (openBrokerStore env db_Open cfg d m)) with
  | Ok s => s = if config.Store_Driver cfg == "sqlite" then SqliteStore (Clean (config.Store_Path cfg))
                else FileStoreAt (config.Store_Path cfg)
  | Err e => from_outside path e
  end.
Proof using.
  intros Hd Hp. unfold openBrokerStore. case_bool_decide as H1.
  - unfold schema.NewSQLiteStore. rewrite bool_decide_false by done.
    destruct (MkdirAll _ _ _) as [[[]|e] m1]; [|done].
    destruct (db_Open _); [done|]. by destruct (schema.migrate _ _) as [[[]|e] d'].
  - apply elem_of_two in Hd as [?|?]; [done|]. by rewrite bool_decide_true.
Qed.

Lemma loadBrokerConfig_Ok path m cfg m' :
  loadBrokerConfig env request_uri decode path m = (Ok cfg, m') →
  config.broker_valid request_uri cfg
  ∧ (∃ text mode c, read_file (m_disk m) path = Some (text, mode) ∧ decode text = Some c
      ∧ cfg = config.Broker_ApplyDefaults c ∧ config.limits_in_force c cfg)
  ∧ m_disk m' = m_disk m.
Proof using.
  unfold loadBrokerConfig. case_bool_decide; [done|]. unfold wrapM.
  pose proof (config.LoadBroker_Ok env request_uri decode path m) as Hok.
  destruct (wp_run (λ _, True) (config.LoadBroker env request_uri decode path)
    (λ _ d _, d = m_disk m) m) as (_ & _ & _ & Hd).
  { unfold config.LoadBroker, config.loadYAML. wp_step. do 2 wp_step.
    apply wp_ReadFile; [done| |done]. intros [text mode] _. simpl. wp_step.
    destruct (decode text); simpl; [by wp_step|done]. }
  destruct (config.LoadBroker _ _ _ _ m) as [[c|e] m1]; [|done]. simpl in *.
  intros [= <- <-]. destruct (Hok c eq_refl) as (? & ?). done.
Qed.

(** The policy of the file, when it compiles. *)
Definition policy_of_file (d : disk) (path : string) (pm : policy_manager.Manager) : Prop :=
  ∃ text mode now c pol, read_file d path = Some (text, mode) ∧ yaml_decode text = Ok c
    ∧ policy.Compile now c = Ok pol ∧ policy_manager.Current pm = Some pol.

Lemma NewManager_on_files path m pm m' :
  NewManager env yaml_decode clock path m = (Ok pm, m') → policy_of_file (m_disk m) path pm.
Proof using.
  intros E.
  destruct (wp_run (λ _, True) (NewManager env yaml_decode clock path)
    (λ r _ _, ∀ pm, r = Ok pm → policy_of_file (m_disk m) path pm) m) as (_ & _ & _ & HQ).
  { unfold NewManager, on_policy. wp_step. wp_step. apply wp_ReadFile; simpl.
    - intros e. do 2 wp_step. wp_step. done.
    - intros [text mode] Hf. do 2 wp_step. wp_step. unfold policy_manager.NewManager, policy_manager.Reload.
      destruct (policy_manager.Load yaml_decode _ _) as [pol|e] eqn:El; [|done].
      apply policy_manager.Load_Ok in El as (data & c & [= <-] & Hy & Hc).
      intros pm' [= <-]. by exists text, mode, (clock n), c, pol.
    - intros _. do 2 wp_step. wp_step. done. }
  rewrite E in HQ. by apply HQ.
Qed.

Lemma NewManager_outside path' path :
  results (NewManager env yaml_decode clock path) (λ r, match r with Ok _ => True | Err e => from_outside path' e end).
Proof using.
  unfold NewManager, on_policy. do 2 results_step. apply results_any. intros data.
  do 2 results_step. results_step. by destruct (policy_manager.NewManager _ _ _).
Qed.

(** What a broker that starts is made of. *)
Record started (path : string) (m : machine) (p : server_parts) : Prop := {
  st_valid : config.broker_valid request_uri (sp_cfg p);
  st_file : ∃ text mode c, read_file (m_disk m) path = Some (text, mode) ∧ decode text = Some c
    ∧ sp_cfg p = config.Broker_ApplyDefaults c ∧ config.limits_in_force c (sp_cfg p);
  st_policy : policy_of_file (m_disk m) (config.Policy_Path (sp_cfg p)) (sp_policy p);
  st_secrets : provider_for (config.Secrets_Provider (config.Secrets (sp_cfg p))) (sp_secrets p);
  st_store : sp_store p = if config.Store_Driver (sp_cfg p) == "sqlite"
    then SqliteStore (Clean (config.Store_Path (sp_cfg p)))
    else FileStoreAt (config.Store_Path (sp_cfg p));
  st_issuer : acme.cfg (sp_issuer p) = acme.with_DNSProvider (acme_config (config.Issuer (sp_cfg p)))
    ∧ acme.secrets_ (sp_issuer p) = Some (sp_secrets p);
  st_issues : ∀ req, results (acme.Issue env h lib (sp_issuer p) req) sound }.

(** A broker that starts has a valid configuration, that of the file with its
defaults, a policy compiled from the policy file it names, the secret provider
and the store it names, an issuer with its settings, and the limits of the file,
of which 0 stands for the default; no request makes this issuer fail for a DNS provider it does not know or for
want of secrets. When the broker does not start, the reason is in the files, the
database or the network, never in a part the configuration names and the program
does not have, nor in a setting that validation lets through and a part
refuses. *)
Theorem runServe_correct path d m :
  match fst (fst (runServe env h lib db_Open request_uri decode yaml_decode clock path d m)) with
  | Ok p => started path m p
  | Err e => from_outside path e
  end.
Proof using.
  unfold runServe. destruct (serve_files _ _ _ _ _ _ path m) as [r1 m1] eqn:E1.
  unfold serve_files in E1.
  apply EM_bind_eq in E1 as [(e & Ec & ->)|(cfg & ma & Ec & E1)].
  { simpl. unfold loadBrokerConfig in Ec. case_bool_decide; [by injection Ec as <- _|].
    unfold wrapM in Ec. destruct (config.LoadBroker _ _ _ _ m) as [[c|e'] m2]; [done|].
    by injection Ec as <- _. }
  destruct (loadBrokerConfig_Ok _ _ _ _ Ec) as (Hv & Hf & Hd).
  apply EM_bind_eq in E1 as [(e & Ep & ->)|(pm & mb & Ep & E1)].
  { pose proof (NewManager_outside path (config.Policy_Path cfg) ma) as H. by rewrite Ep in H. }
  apply NewManager_on_files in Ep. rewrite Hd in Ep.
  pose proof (buildSecretsProvider_configured cfg path (config.bv_secrets _ _ Hv) mb) as Hs.
  apply EM_bind_eq in E1 as [(e & Es & ->)|(sp & mc & Es & E1)]; rewrite Es in Hs; [done|].
  injection E1 as <- <-. destruct (config.bv_store _ _ Hv) as [Hdr Hpath].
  pose proof (openBrokerStore_configured cfg path d mc Hdr Hpath) as Ho.
  destruct (openBrokerStore _ _ cfg d mc) as [[[st|e] d'] m2]; [|done].
  pose proof (buildIssuer_configured cfg sp path (config.bv_issuer _ _ Hv) m2) as Hi.
  destruct (buildIssuer _ _ cfg sp m2) as [[i|e] m3]; [|done]. destruct Hi as (Hc & Hsec & Hiss).
  by split.
Qed.
End Serve.

(** ** The recorder that is built *)

(** Without audit nothing is recorded and nothing fails; with it each event goes
to the store's recorder, and its failures are failures; a mirror adds its own. *)
Lemma buildAuditRecorder_records {E A F} `{RO : audit.RecorderOps E A F} cfg (a : A) f e :
  let '(err, r) := audit.Record_ f e (buildAuditRecorder cfg a) in
  let '(store_err, a') := audit.Record_ (fst f) e a in
  if config.AuditEnabled cfg then
    recorder_store r = Some a'
    ∧ (err = None ↔ store_err = None
        ∧ (config.MirrorToLog cfg = true →
             fst (audit.JSONLRecorder_Record (snd f) e (audit.mkJSONLRecorder "")) = None))
  else err = None ∧ r = DiscardAll.
Proof.
  unfold buildAuditRecorder. simpl. destruct (config.AuditEnabled cfg); simpl.
  2: { by destruct (audit.Record_ (fst f) e a). }
  destruct (config.MirrorToLog cfg); simpl.
  - unfold audit.MultiRecorder_Record. simpl.
    destruct (audit.Record_ (fst f) e a) as [[x|] a'];
      destruct (audit.JSONLRecorder_Record (snd f) e _) as [[y|] j]; simpl; naive_solver.
  - destruct (audit.Record_ (fst f) e a) as [[x|] a']; simpl; naive_solver.
Qed.

(** What it does to the store's recorder: what the store's recorder does. *)
Lemma built_Record_store {E A F} `{RO : audit.RecorderOps E A F} f e (b : built_recorder (A:=A)) :
  let '(err, b') := audit.Record_ f e b in
  recorder_store b' = (λ a, snd (audit.Record_ (fst f) e a)) <$> recorder_store b
  ∧ (err = None → ∀ a, recorder_store b = Some a → fst (audit.Record_ (fst f) e a) = None).
Proof.
  destruct b as [|a|m]; simpl; [done| |].
  - destruct (audit.Record_ (fst f) e a) as [[x|] a'] eqn:Er; simpl; (split; [done|]); [done|].
    intros _ a0 [= <-]. by rewrite Er.
  - unfold audit.MultiRecorder_Record. destruct m as [|[a|j] m]; simpl.
    + done.
    + destruct (audit.Record_ (fst f) e a) as [[x|] a'] eqn:Er;
        destruct (audit.record_all _ _ m) as [errs m']; simpl; (split; [done|]); [done|].
      intros _ a0 [= <-]. by rewrite Er.
    + destruct (audit.JSONLRecorder_Record (snd f) e j) as [[x|] j'];
        by destruct (audit.record_all _ _ m) as [errs m'].
Qed.

(** An event is on its record when it is on that of the store, if it has one. *)
Definition built_on_record {E A F} `{RL : audit.RecorderLaws E A F}
    (b : built_recorder (A:=A)) (e : audit.Event) : Prop :=
  match recorder_store b with Some a => audit.on_record a e | None => True end.
#[export] Program Instance built_laws {E A F} `{RL : audit.RecorderLaws E A F} :
  audit.RecorderLaws (list (E + audit.audit_error)) (built_recorder (A:=A)) (F * audit.write_outcome) :=
  {| audit.on_record := built_on_record |}.
Next Obligation.
  intros E A F ? RL f e b b' Hr. unfold built_on_record. pose proof (built_Record_store f e b) as Hb. rewrite Hr in Hb.
  destruct Hb as [-> Hok]. destruct (recorder_store b) as [a|]; [|done]. simpl.
  specialize (Hok eq_refl a eq_refl). destruct (audit.Record_ (fst f) e a) as [err a'] eqn:Er.
  simpl in Hok. subst err. by eapply audit.record_on.
Qed.
Next Obligation.
  intros E A F ? RL f e b x. unfold built_on_record. pose proof (built_Record_store f e b) as Hb.
  destruct (audit.Record_ f e b) as [err b']. destruct Hb as [Hb _]. simpl. rewrite Hb.
  destruct (recorder_store b) as [a|]; [|done]. by apply audit.record_keeps.
Qed.

(** ** Starting the agent *)

(** An agent's configuration that is accepted makes its authority, unless the
library refuses it. *)
Lemma loadAgentRuntime_correct env request_uri decode libs path :
  results (loadAgentRuntime env request_uri decode libs path) (λ r, match r with
    | Ok (cfg, ca) => config.agent_valid request_uri cfg
        ∧ stepca.cfg ca = stepca.with_Timeout (stepca_config (config.StepCA (config.Identity cfg)))
    | Err ConfigRequired => path = ""
    | Err (LoadingConfig _) | Err (IdentityError (stepca.CreatingClient _)) => True
    | Err _ => False end).
Proof.
  unfold loadAgentRuntime. results_step. unfold loadAgentConfig.
  case_bool_decide; [by results_step|]. results_step.
  intros m. pose proof (config.LoadAgent_Ok env request_uri decode path m) as Hok.
  destruct (config.LoadAgent _ _ _ _ m) as [[cfg|e] m1]; [|done]. simpl in *.
  destruct (Hok cfg eq_refl) as [Hv _]. results_step. results_step.
  destruct (config.av_identity _ _ Hv) as [_ _ _ _ _ _ Hp [Hu _] Hroot].
  unfold resolveIdentityCA. rewrite bool_decide_true by done. unfold stepca.New. simpl.
  rewrite (bool_decide_false (_ = "")) by done.
  assert (bool_decide (config.Fingerprint (config.StepCA (config.Identity cfg)) = "")
    && bool_decide (config.RootCABundle (config.StepCA (config.Identity cfg)) = "") = false) as ->.
  { rewrite andb_false_iff, !bool_decide_eq_false. done. }
  unfold stepca.newClient, stepca.make_client. destruct (stepca.step_NewClient _ _); simpl; [done|].
  by results_step.
Qed.

(** ** A broker that starts *)

Definition two_files : machine :=
  mkMachine (mkDisk {["/etc/broker.yml" := 0; "/etc/policy.yml" := 1]}
    [mkInode "broker" mode_600 true; mkInode "A" mode_600 true] []) [] [] 0.

Definition file_broker : config.BrokerConfig :=
  config.mkBrokerConfig (config.Server config.broker_file) (config.Policy_Path config.broker_file) true
    (config.Issuer config.broker_file) (config.Secrets config.broker_file) "file" "/var/lib/cache.json"
    None "fail_closed" true 0 0 (config.Broker_Logging config.broker_file).

Definition test_start :=
  runServe (CR:=pki.test_crypto) (D:=schema.test_db) (DB:=schema.test_db_ops) config.calm_env acme_spec.test_host acme_spec.test_library
    (λ _, None) (λ _, true) (λ t, if t == "broker" then Some file_broker else None)
    policy_manager.two_documents (λ _, 0%Z) "/etc/broker.yml".

Example runServe_correct_witness :
  ∃ p, fst (fst (test_start schema.new_db two_files)) = Ok p
    ∧ sp_store p = FileStoreAt "/var/lib/cache.json"
    ∧ policy_manager.Current (sp_policy p) = Some (policy_spec.the_policy policy_spec.test_config).
Proof.
  pose proof (runServe_correct (CR:=pki.test_crypto) (DB:=schema.test_db_ops) config.calm_env
    acme_spec.test_host acme_spec.test_library (λ _, None) (λ _, true)
    (λ t, if t == "broker" then Some file_broker else None) policy_manager.two_documents (λ _, 0%Z)
    "/etc/broker.yml" schema.new_db two_files) as H.
  unfold test_start.
  destruct (fst (fst (runServe _ _ _ _ _ _ _ _ _ _ _))) as [p|e] eqn:E;
    [|exfalso; revert E; vm_compute; discriminate].
  exists p. split; [done|]. split.
  - rewrite (st_store _ _ _ _ _ _ _ _ _ H). revert E. vm_compute. by intros [= <-].
  - revert E. vm_compute. by intros [= <-].
Defined.
End command.
