(* ===== verification/Serve.v ===== *)
(** * The broker as a program ([cmd/broker/serve.go], [http.go])

[runServe] to its end: the parts of [Command], the server they make, and
[ListenAndServe], during which the server lives the life of [Service]. What is
proved of a server that starts in [ServiceSpec] holds of the program. *)

From S2P Require Import Prelude GoStrings DnsName GoTime Json Os OsLogic FileUtil Config Secrets X509 Policy.
From S2P Require Import PolicySpec PolicyManager RateLimit Pki AuditLog Store SqliteSchema Authn Broker.
From S2P Require Import BrokerSpec SingleFlight Service ServiceSpec AuditTrail Acme AcmeSpec AgentSpec Command.
Import broker service service_spec audit_trail command.
#[local] Open Scope go_scope.

Module serve.

(** What [ListenAndServeTLS] returns, never nil. *)
Inductive listen_end := ErrServerClosed | ListenFailed (e : string).

Inductive serve_error :=
  | NotStarted (e : command_error)
  | NotListening (e : command_error)
  | ListenError (e : string).

(** The events of the watcher. *)
Definition looks (e : event) : bool := match e with Look _ => true | _ => false end.

Section Serve.
Context (env : os.environment) (h : secrets.host) (lib : acme.library) {CR : pki.Crypto}.
Context {D : Type} `{DB : schema.Database D} (db_Open : string → option string).
Context (request_uri : string → bool) (decode : string → option config.BrokerConfig).
Context {yaml_error : Type} (yaml_decode : string → result yaml_error policy.Config).
Context (AppendCertsFromPEM : string → bool) (clock : nat → Z).
Context {S A E F : Type} `{CS : store.CertificateStore S} `{RL : audit.RecorderLaws E A F}.
Context (benv : broker.environment (F:=F * audit.write_outcome)).
Context (dns_text : dnsname.error → string) (issuer_text : acme.acme_error → string).
#[local] Instance issuer_ops : broker.Issuer (acme.Issuer (P:=secrets_provider) * os.machine) :=
  acme.acme_ops env h lib issuer_text.
#[local] Notation world := (broker.world (S:=S) (A:=built_recorder (A:=A))
  (I:=acme.Issuer (P:=secrets_provider) * os.machine)).
#[local] Notation system := (service.system (S:=S) (A:=built_recorder (A:=A))
  (I:=acme.Issuer (P:=secrets_provider) * os.machine)).
#[local] Notation run := (service.run (E:=list (E + audit.audit_error)) benv dns_text yaml_decode).
#[local] Notation runServe := (runServe env h lib db_Open request_uri decode yaml_decode clock).
#[local] Notation HTTPServer := (HTTPServer env AppendCertsFromPEM).

(** A computation on the machine of the server. *)
Definition on_machine {X T} (c : os.EM X T) (w : world) : result X T * world :=
  let '(r, m) := c (snd (w_issuer w)) in (r, set_issuer (fst (w_issuer w), m) w).

(** [Server.ListenAndServe]: the requests, flights and edits of the policy file it
meets are the events [es]. The server is shut down when its context ends; then
[ListenAndServeTLS] returns at once, whatever the requests have come to. *)
Definition ListenAndServe (cfg : config.BrokerConfig) (wt : policy_manager.watch) (data : string)
    (es : list event) (ending : listen_end) (w : world) : option (option serve_error * system) :=
  let '(r, w1) := on_machine (HTTPServer cfg) w in
  match r with
  | Err e => Some (Some (NotListening e), start w1 wt data)
  | Ok _ =>
      s ← run es (start (announce benv w1) wt data);
      Some (match ending with ErrServerClosed => None | ListenFailed e => Some (ListenError e) end, s)
  end.

(** [runServe] to its end: on the store that was opened, with its recorder, and the
modification time of the policy file as the watcher finds it. The watcher runs
when the configuration says so. *)
Definition serve (path : string) (stat : result policy_manager.io_error Z) (st : S) (a : A)
    (es : list event) (ending : listen_end) (d : D) (m : os.machine)
    : option (option serve_error * option system) :=
  let '(r, _, m') := runServe path d m in
  match r with
  | Err e => Some (Some (NotStarted e), None)
  | Ok p =>
      if negb (config.Policy_Watch (sp_cfg p)) && existsb looks es then None
      else
        let data := default "" (fst <$> os.read_file (os.m_disk m) (config.Policy_Path (sp_cfg p))) in
        '(err, s) ← ListenAndServe (sp_cfg p) (policy_manager.Watch_start stat (sp_policy p)) data es
                      ending (server_of p st a m');
        Some (err, Some s)
  end.

(** ** From the parts to the life of the server *)

Lemma announce_keeps (w : world) : broker_spec.audit_only w (announce benv w).
Proof using. apply broker_spec.quiet_record. Qed.

(** The HTTP server asks every client for a certificate of the bundle, and fails
for want of the bundle only. *)
Definition verifies (cfg : config.BrokerConfig) (r : result command_error http_server) : Prop :=
  match r with
  | Ok hs => hs_ClientAuth hs = RequireAndVerifyClientCert ∧ (VersionTLS12 ≤ hs_MinVersion hs)%Z
      ∧ AppendCertsFromPEM (hs_ClientCAs hs) = true ∧ hs_Addr hs = config.Address (config.Server cfg)
  | Err (ReadingCABundle path _) | Err (EmptyCABundle path) =>
      path = config.AgentCABundle (config.Server cfg)
  | Err _ => False
  end.

Lemma HTTPServer_verifies cfg : results (HTTPServer cfg) (verifies cfg).
Proof using.
  unfold command.HTTPServer. results_step. unfold loadCertPool. results_step. results_step.
  apply results_any. intros [data|e]; simpl; [|done].
  destruct (AppendCertsFromPEM data) eqn:Ha; [|by results_step]. do 2 results_step.
  split_and!; [done| |done|done]. unfold tlsMinVersion, VersionTLS12, VersionTLS13. by case_match.
Qed.

(** A server made of these parts is one that starts. *)
Lemma server_fresh path m p stat (st : S) (a : A) m' i (w : world) mode data :
  started env h lib request_uri decode yaml_decode path m p →
  os.read_file (os.m_disk m) (config.Policy_Path (sp_cfg p)) = Some (data, mode) →
  broker_spec.audit_only (set_issuer i (server_of p st a m')) w →
  fresh yaml_decode (config.PerIdentityPerHour (sp_cfg p)) (config.PerIdentityProfilePerHour (sp_cfg p))
    w (policy_manager.Watch_start stat (sp_policy p)) data.
Proof using.
  intros Hp Hdata [[_ Hpol _ Hlim _ _] Hresp]. constructor; [by rewrite Hpol | |by rewrite Hlim|by rewrite Hresp].
  destruct (st_policy _ _ _ _ _ _ _ _ _ Hp) as (text & mode' & now & c & pol & Hf & Hy & Hc & Hcur).
  rewrite Hdata in Hf. injection Hf as <- <-. exists pol, now, data, c. split_and!; [done|by left|done..].
Qed.

(** Without the watcher no content but the first is read. *)
Lemma run_unwatched es (s s' : system) :
  existsb looks es = false → run es s = Some s' → sy_reads s' = sy_reads s.
Proof using.
  intros Hes Hrun.
  apply (run_invariant benv dns_text yaml_decode (λ s', sy_reads s' = sy_reads s) es s s'); [|done|done].
  intros e s1 s2 Hin He <-. assert (He' : looks e = false).
  { apply not_true_iff_false. intros Ht. apply not_true_iff_false in Hes. apply Hes, existsb_exists.
    exists e. by rewrite <- list_elem_of_In. }
  destruct e as [r|i|i|k|o]; simpl in He; [..|done]; simplify_option_eq; try done.
  - by destruct (_ (sy_world s1)); simplify_eq.
  - by case_match; simplify_option_eq.
Qed.

(** The recorder of the store, within that of the server. *)
Definition store_recorder (w : world) : option A := w_audit w ≫= recorder_store.

Lemma store_recorder_stable :
  stable (E:=list (E + audit.audit_error))
    (λ w w' : world, is_Some (store_recorder w) → is_Some (store_recorder w')).
Proof using.
  constructor; try done; [split; [by intros ?|intros ? ? ?; auto]|].
  intros f e b w Hb. unfold store_recorder. rewrite Hb. pose proof (built_Record_store f e b) as Hs.
  destruct (audit.Record_ f e b) as [err b']. destruct Hs as [Hs _]. simpl. rewrite Hs.
  by destruct (recorder_store b).
Qed.

Lemma run_store_recorder es (s s' : system) :
  run es s = Some s' → is_Some (store_recorder (sy_world s)) → is_Some (store_recorder (sy_world s')).
Proof using.
  apply (run_invariant benv dns_text yaml_decode (λ s, is_Some (store_recorder (sy_world s))) es).
  intros e s1 s2 _ He. apply (event_keeps benv dns_text yaml_decode _ e s1 s2 store_recorder_stable); [|done].
  intros w w' _ Ha. unfold store_recorder. by rewrite Ha.
Qed.

(** The life of a broker with the parts [p], up to the state [s]. *)
Record lived (path : string) (m : os.machine) (p : server_parts) (s : system) : Prop := {
  lv_started : started env h lib request_uri decode yaml_decode path m p;
  lv_reads : ∃ data mode, os.read_file (os.m_disk m) (config.Policy_Path (sp_cfg p)) = Some (data, mode)
    ∧ (config.Policy_Watch (sp_cfg p) = false → sy_reads s = [data]);
  lv_ready : is_Some (w_policy (sy_world s));
  lv_lawful : serves_lawfully benv yaml_decode s;
  lv_limits : obeys_limits benv (config.PerIdentityPerHour (sp_cfg p))
    (config.PerIdentityProfilePerHour (sp_cfg p)) s;
  lv_recorder : config.AuditEnabled (sp_cfg p) = true → is_Some (store_recorder (sy_world s));
  lv_record : config.FailureMode (sp_cfg p) = "fail_closed" → on_the_record benv yaml_decode s }.

Lemma run_lived path m p stat (st : S) (a : A) m' i w es s :
  (∀ j k, j ≤ k → (env_clock benv j ≤ env_clock benv k)%Z) →
  (∀ r, Arrive r ∈ es → plain_request r) →
  (config.Policy_Watch (sp_cfg p) = false → existsb looks es = false) →
  started env h lib request_uri decode yaml_decode path m p →
  broker_spec.audit_only (set_issuer i (server_of p st a m')) w →
  (config.AuditEnabled (sp_cfg p) = true → is_Some (store_recorder w)) →
  run es (start w (policy_manager.Watch_start stat (sp_policy p))
    (default "" (fst <$> os.read_file (os.m_disk m) (config.Policy_Path (sp_cfg p))))) = Some s →
  lived path m p s.
Proof using DB.
  intros Hclock Hes Hlook Hp Hw Hst Hrun.
  destruct (st_policy _ _ _ _ _ _ _ _ _ Hp) as (data & mode & now & c & pol & Hf & _).
  rewrite Hf in Hrun. simpl in Hrun. pose proof (server_fresh _ _ _ stat _ _ _ _ _ _ _ Hp Hf Hw) as Hfr.
  destruct (run_traced _ _ _ _ _ _ _ _ _ _ Hfr Hrun) as [Hs Ht].
  destruct (run_metered _ _ _ _ _ _ _ _ _ _ Hclock Hes Hfr Hrun) as (_ & Hm & Ha).
  constructor; [done| | | | | |].
  - exists data, mode. split; [done|]. intros Hwatch. by rewrite (run_unwatched _ _ _ (Hlook Hwatch) Hrun).
  - rewrite (so_policy _ _ _ Hs). destruct (so_serves _ _ _ Hs) as (q & now' & ? & ? & -> & _). done.
  - by apply traced_lawful.
  - apply (metered_obeys benv yaml_decode); [done..|]. by apply (run_owned _ _ _ _ _ _ _ _ _ _ Hfr Hrun).
  - intros Hen. by apply (run_store_recorder _ _ _ Hrun), Hst.
  - intros Hmode. apply audited_on_the_record.
    assert (Hc : closed w).
    { destruct Hw as [[Hwm _ _ _ _ Hrec] _]. split; [by rewrite Hwm|]. apply Hrec. by eexists. }
    by apply (run_audited _ _ _ _ _ _ _ _ _ _ Hc Hfr Hrun).
Qed.

(** A broker with audit has the store's recorder within its own. *)
Lemma server_store_recorder p (st : S) (a : A) m' i :
  config.AuditEnabled (sp_cfg p) = true → store_recorder (set_issuer i (server_of p st a m')) = Some a.
Proof using.
  intros Hen. unfold store_recorder, server_of, buildAuditRecorder. simpl. rewrite Hen. simpl.
  by destruct (config.MirrorToLog (sp_cfg p)).
Qed.

(** C4: The broker as a program, from its configuration file to its end: it starts
with the parts its files describe, or fails for reasons of the world; it meets
requests only when it has a bundle of certificates to ask of every client, over
TLS 1.2 at least; from then on, however requests and edits of the policy file
interleave, it is ready, whoever it serves is granted what it gets by a content
of the policy file it was configured with (that of the start, unless it is
watched), no more is served or issued than its limits allow, which are those of
its file, or 50 and 20 an hour where the file has none or 0 (that 0 disables a
limit, as the schema of the file says, is not so), and when it is to fail closed with the audit log enabled, whoever is served or has the
issuer called is on the record of the store. It ends without an error exactly when it is shut down. *)
Theorem serve_correct path stat st a es ending d m err end_state :
  (∀ j k, j ≤ k → (env_clock benv j ≤ env_clock benv k)%Z) →
  (∀ r, Arrive r ∈ es → plain_request r) →
  serve path stat st a es ending d m = Some (err, end_state) →
  match end_state with
  | None => ∃ e, err = Some (NotStarted e) ∧ from_outside path e
  | Some s => ∃ p, lived path m p s
      ∧ ((∃ hs, verifies (sp_cfg p) (Ok hs)
            ∧ err = match ending with ErrServerClosed => None | ListenFailed e => Some (ListenError e) end)
         ∨ (∃ e, verifies (sp_cfg p) (Err e) ∧ err = Some (NotListening e) ∧ sy_threads s = []))
  end.
Proof using.
  intros Hclock Hes. unfold serve.
  pose proof (runServe_correct env h lib db_Open request_uri decode yaml_decode clock path d m) as Hstart.
  destruct (runServe path d m) as [[[p|e] d'] m']; simpl in Hstart; [|intros [= <- <-]; by exists e].
  destruct (negb _ && existsb looks es) eqn:Hlook; [done|].
  assert (Hlook' : config.Policy_Watch (sp_cfg p) = false → existsb looks es = false).
  { intros Hw. by rewrite Hw in Hlook. }
  unfold ListenAndServe, on_machine. pose proof (HTTPServer_verifies (sp_cfg p) (snd (w_issuer (server_of p st a m')))) as Hv.
  destruct (HTTPServer _ _) as [[hs|e] m1]; simpl in Hv; intros ([err' s'] & Hx & [= <- <-])%bind_Some; exists p.
  - apply bind_Some in Hx as (s & Hrun & [= <- <-]). split; [|left; by exists hs].
    eapply run_lived; [done..| | |exact Hrun]; [apply announce_keeps|]. intros Hen.
    apply (keeps_record benv _ store_recorder_stable started_event). by rewrite server_store_recorder.
  - injection Hx as <- <-. split; [|right; by exists e].
    eapply (run_lived _ _ _ _ _ _ _ _ _ []); [done|set_solver|done|done| | |reflexivity].
    + split; [apply broker_spec.same_core_refl|done].
    + intros Hen. by rewrite server_store_recorder.
Qed.
End Serve.

(** ** A broker that serves a request and is shut down *)

Definition served_files : os.machine :=
  os.mkMachine (os.mkDisk {["/etc/broker.yml" := 0; "/etc/policy.yml" := 1; "/tls/agents.pem" := 2]}
    [os.mkInode "broker" os.mode_600 true; os.mkInode "A" os.mode_600 true;
     os.mkInode "CERTIFICATE:agents" os.mode_600 true] []) [] [] 0.

Definition test_benv : broker.environment (F:=audit.file_faults * audit.write_outcome) :=
  mkEnvironment (λ n, (Hour + Z.of_nat n)%Z) (λ _, Some "01ARZ3") (λ _, (audit.all_ok, audit.Written))
    (λ _, store.IO_ok) (λ _, "error").

Definition test_host : secrets.host := {|
  secrets.getenv name := if name == "cf" then Some "token" else None;
  secrets.new_client _ := None;
  secrets.vault_answer _ _ := Ok None |}.

#[local] Existing Instance store.FileStore_ops.
#[local] Existing Instance audit.FileJSONLRecorder_ops.
#[local] Existing Instance audit.FileJSONLRecorder_laws.

Definition test_serve :=
  serve (CR:=agent_spec.agent_crypto) (D:=schema.test_db) (DB:=schema.test_db_ops) (S:=store.FileStore)
    (A:=audit.FileJSONLRecorder)
    config.calm_env test_host acme_spec.test_library
    (λ _, None) (λ _, true) (λ t, if t == "broker" then Some file_broker else None)
    policy_manager.two_documents (λ t, t == "CERTIFICATE:agents") (λ _, 0%Z) test_benv
    broker_spec.no_text (λ _, "acme") "/etc/broker.yml" (Ok 1%Z) (store.mkFileStore None)
    (audit.mkFileJSONLRecorder None).

Definition one_request (k : string) : list event :=
  [Arrive broker_spec.api_request; Handle 0; Handle 0; Handle 0; Handle 0; Handle 0;
   Look (policy_manager.mkObservation (2 * Hour) (Ok 2%Z) (Ok "B")); Handle 0; Join 0;
   Fly k; Fly k; Fly k; Handle 0].

Lemma one_request_plain k r : Arrive r ∈ one_request k → plain_request r.
Proof.
  intros Hr. assert (r = broker_spec.api_request) as ->; [|apply api_request_plain].
  unfold one_request in Hr. rewrite !elem_of_cons, elem_of_nil in Hr. naive_solver.
Qed.

(** The key of the flight the request waits for. *)
Definition test_flight_key : string :=
  match test_serve (take 9 (one_request "")) ErrServerClosed schema.new_db served_files with
  | Some (_, Some s) =>
      match th_stage <$> sy_threads s with
      | Waiting _ fr :: _ => store.key_String (single_flight.fr_key fr)
      | _ => ""
      end
  | _ => ""
  end.

Definition test_life : option (option serve_error * option service.system) :=
  test_serve (one_request test_flight_key) ErrServerClosed schema.new_db served_files.

Example test_life_ends :
  match test_life with
  | Some (None, Some s) => sy_reads s = ["A"; "B"] ∧ sy_orders s = [0]
      ∧ status <$> omap thread_response (sy_threads s) = [200%Z]
  | _ => False
  end.
Proof. vm_compute. done. Qed.

(** A shutdown does not wait: the broker ends without an error while a request
waits for its flight. *)
Example shutdown_abandons :
  match test_serve (take 9 (one_request "")) ErrServerClosed schema.new_db served_files with
  | Some (None, Some s) => omap thread_response (sy_threads s) = [] ∧ length (sy_threads s) = 1
  | _ => False
  end.
Proof. vm_compute. done. Qed.

Example serve_correct_witness :
  ∃ s p, test_life = Some (None, Some s)
    ∧ (0 < config.PerIdentityPerHour (sp_cfg p))%Z
    ∧ obeys_limits test_benv (config.PerIdentityPerHour (sp_cfg p))
        (config.PerIdentityProfilePerHour (sp_cfg p)) s.
Proof.
  pose proof test_life_ends as Hend. destruct test_life as [[[e|] [s|]]|] eqn:Hlife;
    try (exfalso; exact Hend). clear Hend.
  destruct (serve_correct (CR:=agent_spec.agent_crypto) (DB:=schema.test_db_ops)
    config.calm_env test_host acme_spec.test_library
    (λ _, None) (λ _, true) (λ t, if t == "broker" then Some file_broker else None)
    policy_manager.two_documents (λ t, t == "CERTIFICATE:agents") (λ _, 0%Z) test_benv
    broker_spec.no_text (λ _, "acme") "/etc/broker.yml" (Ok 1%Z) (store.mkFileStore None)
    (audit.mkFileJSONLRecorder None) (one_request test_flight_key) ErrServerClosed schema.new_db
    served_files None (Some s)) as (p & Hp & _).
  - intros j k Hjk. simpl. lia.
  - apply one_request_plain.
  - exact Hlife.
  - exists s, p. split; [reflexivity|]. destruct Hp as [Hs _ _ _ Hl _ _].
    split; [|exact Hl]. destruct (st_file _ _ _ _ _ _ _ _ _ Hs) as (text & mode & c & _ & _ & _ & [Hid _]).
    destruct Hid as [[_ ->]|[Hpos ->]]; [reflexivity|exact Hpos].
Defined.
End serve.
