(* ===== verification/Inspect.v ===== *)
(** * The commands that inspect a broker ([cmd/broker/certs.go], [audit.go])

[certs list] and [audit tail]: the configuration, the store it names, the JSON
written to the standard output. *)

From Stdlib Require Import Ascii.
From S2P Require Import Prelude GoStrings GoTime Json JsonDecode JsonTypes Os OsLogic FileUtil.
From S2P Require Import Config Secrets X509 Pki AuditLog Store StoreSqlite StoreAudit StoreFileAudit StoreDisk SqliteSchema Command.
Import json_decode json_types os os_logic store sqlite disk_store command.
#[local] Open Scope go_scope.

Module inspect.

Inductive inspect_error :=
  | OnCommand (e : command_error)
  | OnTables (e : store_error)
  | OnFile (e : disk_error)
  | OnTableAudit (e : sqlite_audit.audit_store_error)
  | OnFileAudit (e : file_audit.file_audit_error)
  | EncodingEntries
  | WritingEntries.

Section Inspect.
Context (env : os.environment) (request_uri : string → bool) (decode : string → option config.BrokerConfig).
Context {D : Type} `{DB : schema.Database D} (db_Open : string → option string).
(** The tables of an open database, and what they answer. *)
Context {T : Type} `{CT : CacheTable T} `{AT : sqlite_audit.AuditTable T} (tables : D → T) (answer : io).

(** The configuration, and the store that it names, opened. *)
Definition open_configured (configPath : string) (d : D) (m : machine)
    : result command_error broker_store * D * machine :=
  let '(r, m1) := loadBrokerConfig env request_uri decode configPath m in
  match r with
  | Err e => (Err e, d, m1)
  | Ok cfg => openBrokerStore env db_Open cfg d m1
  end.

(** ** certs.go *)

Definition store_List (st : broker_store) (d : D) : EM inspect_error (list CacheEntry) :=
  match st with
  | SqliteStore _ => lift (wrap_err OnTables (SQLite_List answer (tables d)))
  | FileStoreAt path => wrapM OnFile (Disk_List env path)
  end.

(** [json.Encoder] with an indent: what it writes ends in a line feed. *)
Definition entries_text (es : list CacheEntry) : option string :=
  js ← mapM entry_json es; Some (string_app (MarshalIndent (JArray js)) newline).

Definition print_entries (w : audit.write_outcome) (es : list CacheEntry) (out : string)
    : result inspect_error unit * string :=
  match entries_text es with
  | None => (Err EncodingEntries, out)
  | Some text =>
      match w with
      | audit.Written => (Ok tt, string_app out text)
      | audit.FailedAfter n => (Err WritingEntries, string_app out (take_bytes n text))
      end
  end.

Definition runCertsList (configPath : string) (w : audit.write_outcome) (d : D) (m : machine) (out : string)
    : result inspect_error unit * string * D * machine :=
  let '(r1, d1, m1) := open_configured configPath d m in
  match r1 with
  | Err e => (Err (OnCommand e), out, d1, m1)
  | Ok st =>
      let '(r2, m2) := store_List st d1 m1 in
      match r2 with
      | Err e => (Err e, out, d1, m2)
      | Ok es => let '(r3, out') := print_entries w es out in (r3, out', d1, m2)
      end
  end.

(** ** audit.go *)

Definition default_tail : Z := 200.

Definition as_result {X Y} (f : X → Y) (o : option X) : result Y unit :=
  match o with Some e => Err (f e) | None => Ok tt end.

Definition store_WriteAuditEvents (st : broker_store) (faults : file_audit.tail_faults) (limit : Z) (d : D)
    (files : disk) (out : string) : result inspect_error unit * string :=
  match st with
  | SqliteStore _ =>
      let '(r, out') := sqlite_audit.SQLite_WriteAuditEvents answer (file_audit.tf_print faults) limit (tables d) out in
      (as_result OnTableAudit r, out')
  | FileStoreAt path =>
      let log := file_audit.mkAuditFile (fst <$> read_file files (string_app path ".audit.jsonl")) in
      let '(r, out') := file_audit.WriteAuditEvents faults limit log out in
      (as_result OnFileAudit r, out')
  end.

Definition runAuditTail (configPath : string) (faults : file_audit.tail_faults) (limit : Z) (d : D) (m : machine)
    (out : string) : result inspect_error unit * string * D * machine :=
  let '(r1, d1, m1) := open_configured configPath d m in
  match r1 with
  | Err e => (Err (OnCommand e), out, d1, m1)
  | Ok st =>
      let '(r2, out') := store_WriteAuditEvents st faults limit d1 (m_disk m1) out in
      (r2, out', d1, m1)
  end.

(** ** Lemmas *)

(** The configuration is the file's with its defaults; a file store is taken as
it is. *)
Definition configured (configPath : string) (files : disk) (cfg : config.BrokerConfig) : Prop :=
  ∃ text mode c, read_file files configPath = Some (text, mode) ∧ decode text = Some c
    ∧ cfg = config.Broker_ApplyDefaults c.

Lemma open_configured_Ok configPath d m st d1 m1 :
  open_configured configPath d m = (Ok st, d1, m1) →
  ∃ cfg, configured configPath (m_disk m) cfg
    ∧ ((config.Store_Driver cfg = "file" ∧ st = FileStoreAt (config.Store_Path cfg)
         ∧ d1 = d ∧ m_disk m1 = m_disk m)
       ∨ (config.Store_Driver cfg = "sqlite" ∧ st = SqliteStore (Clean (config.Store_Path cfg)))).
Proof using.
  unfold open_configured. destruct (loadBrokerConfig _ _ _ _ m) as [[cfg|e] m0] eqn:E; [|done].
  apply loadBrokerConfig_Ok in E as (_ & (text & mode & c & Ht & Hc & Hcfg & _) & Hd).
  assert (Hf : configured configPath (m_disk m) cfg) by (by exists text, mode, c). unfold openBrokerStore.
  case_bool_decide as Hs.
  - destruct (schema.NewSQLiteStore _ _ _ d m0) as [[[[]|e] d'] m']; [|done]. intros [= <- <- <-].
    exists cfg. split; [done|]. by right.
  - case_bool_decide as Hfile; [|done]. intros [= <- <- <-]. exists cfg. split; [done|]. by left.
Qed.

Lemma entries_text_read es :
  Forall entry_ok es → ∃ text, entries_text es = Some text
    ∧ unmarshal (decode_list decode_entry) text = Some (Some es).
Proof using.
  intros Hes. destruct (list_json_ok 2 entry_json decode_entry es) as (js & Ejs & Hd).
  { eapply Forall_impl; [exact Hes|]. intros e. apply decode_entry_print. }
  exists (string_app (MarshalIndent (JArray js)) newline). unfold entries_text. rewrite Ejs.
  split; [done|]. by apply (unmarshal_indent_tail 3).
Qed.

Lemma store_List_file path d m es m' :
  store_List (FileStoreAt path) d m = (Ok es, m') →
  m_disk m' = m_disk m
  ∧ ∃ entries, loadLocked IO_ok (store_at path (m_disk m)) = Ok entries ∧ es = snd <$> map_to_list entries.
Proof using.
  simpl. unfold wrapM. pose proof (wp_run (λ _, True) _ _ m (wp_list_refines env path _ _ _))
    as (_ & _ & _ & Hd & f & Hr).
  destruct (Disk_List env path m) as [[es'|e] m1]; simpl in *; [|done]. intros [= <- <-].
  split; [done|]. unfold FileStore_List in Hr.
  destruct (loadLocked f _) as [entries|] eqn:E; simpl in Hr; [|done]. exists entries.
  split; [|done]. destruct f; simpl in *; done.
Qed.

Lemma store_List_disk st d m : m_disk (snd (store_List st d m)) = m_disk m.
Proof using.
  destruct st as [p|p]; [done|]. simpl. unfold wrapM.
  pose proof (wp_run (λ _, True) _ _ m (wp_list_refines env p _ _ _)) as (_ & _ & _ & Hd & _).
  by destruct (Disk_List env p m).
Qed.

Lemma print_entries_ends w es out r out' :
  print_entries w es out = (r, out') →
  match r with
  | Ok _ => ∃ text, entries_text es = Some text ∧ out' = string_app out text
  | Err EncodingEntries => out' = out ∧ ¬ Forall entry_ok es
  | Err e => e = WritingEntries ∧ ∃ text n, entries_text es = Some text ∧ out' = string_app out (take_bytes n text)
  end.
Proof using.
  unfold print_entries. destruct (entries_text es) as [text|] eqn:E.
  - destruct w; intros [= <- <-]; eauto 6.
  - intros [= <- <-]. split; [done|]. intros Hes. apply entries_text_read in Hes as (text & Et & _). congruence.
Qed.

(** What the store that was opened lists, and that it stays as it is. *)
Definition listed (cfg : config.BrokerConfig) (d : D) (files : disk) (d' : D) (files' : disk) (es : list CacheEntry) : Prop :=
  (config.Store_Driver cfg = "file" ∧ d' = d ∧ files' = files
    ∧ ∃ entries, loadLocked IO_ok (store_at (config.Store_Path cfg) files) = Ok entries
        ∧ es = snd <$> map_to_list entries)
  ∨ (config.Store_Driver cfg = "sqlite" ∧ SQLite_List answer (tables d') = Ok es).

(** The tail of the log of a file store is that of [StoreFileAudit], on the file
next to the cache; no file is changed. *)
Lemma runAuditTail_file configPath faults limit d m out r out' d' m' :
  runAuditTail configPath faults limit d m out = (r, out', d', m') →
  match r with
  | Err (OnCommand _) => out' = out
  | _ => ∃ cfg, configured configPath (m_disk m) cfg
      ∧ (config.Store_Driver cfg = "file" →
           d' = d ∧ m_disk m' = m_disk m
           ∧ (r, out') = store_WriteAuditEvents (FileStoreAt (config.Store_Path cfg)) faults limit d (m_disk m) out)
  end.
Proof using.
  unfold runAuditTail. destruct (open_configured configPath d m) as [[[st|e] d1] m1] eqn:Eo;
    [|by intros [= <- <- <- <-]].
  apply open_configured_Ok in Eo as (cfg & Hc & Hst).
  destruct (store_WriteAuditEvents st faults limit d1 (m_disk m1) out) as [r2 out2] eqn:Et.
  intros [= <- <- <- <-].
  assert (H : ∃ cfg, configured configPath (m_disk m) cfg
    ∧ (config.Store_Driver cfg = "file" → d1 = d ∧ m_disk m1 = m_disk m
         ∧ (r2, out2) = store_WriteAuditEvents (FileStoreAt (config.Store_Path cfg)) faults limit d (m_disk m) out)).
  { exists cfg. split; [done|]. intros Hf. destruct Hst as [(_ & -> & -> & Hd)|[Hs _]]; [|congruence].
    rewrite Hd in Et. by rewrite Et. }
  destruct r2 as [[]|e]; [done|]. destruct e; try done. exfalso. revert Et.
  destruct st; simpl; [destruct (sqlite_audit.SQLite_WriteAuditEvents _ _ _ _ _) as [[?|] ?]
    | destruct (file_audit.WriteAuditEvents _ _ _ _) as [[?|] ?]]; discriminate.
Qed.

(** C32: [certs list] that returns no error has written the JSON text of the
entries of the store that the configuration file names, and nothing else: that
text, decoded, is the very list of entries, when they are ones that a JSON text
keeps, as those of a cache in order are; with a file store no file and no
database changes. When it returns an error, nothing is written, unless it is the
writing that failed, part way. *)
Theorem runCertsList_correct configPath w d m out :
  let '(r, out', d', m') := runCertsList configPath w d m out in
  match r with
  | Ok _ => ∃ cfg es text, configured configPath (m_disk m) cfg
      ∧ listed cfg d (m_disk m) d' (m_disk m') es
      ∧ entries_text es = Some text ∧ out' = string_app out text
      ∧ (Forall entry_ok es → unmarshal (decode_list decode_entry) text = Some (Some es))
      ∧ (config.Store_Driver cfg = "file" → file_in_order (store_at (config.Store_Path cfg) (m_disk m)) →
           Forall entry_ok es)
  | Err e => out' = out
      ∨ e = WritingEntries ∧ ∃ es text n, entries_text es = Some text ∧ out' = string_app out (take_bytes n text)
  end.
Proof using.
  unfold runCertsList. destruct (open_configured configPath d m) as [[[st|e] d1] m1] eqn:Eo; [|by left].
  destruct (open_configured_Ok _ _ _ _ _ _ Eo) as (cfg & Hc & Hst).
  destruct (store_List st d1 m1) as [[es|e] m2] eqn:El; [|by left].
  destruct (print_entries w es out) as [r out'] eqn:Ep. apply print_entries_ends in Ep.
  destruct r as [[]|e].
  2:{ destruct e; try done; destruct Ep as [Ep H]; try done; [by left|].
      right. split; [done|]. destruct H as (text & n & ? & ?). eauto. }
  destruct Ep as (text & Et & ->). exists cfg, es, text.
  assert (Hl : listed cfg d (m_disk m) d1 (m_disk m2) es).
  { destruct Hst as [(Hd & -> & -> & Hm)|(Hd & ->)].
    - left. apply store_List_file in El as [Hm' He]. rewrite Hm in Hm', He. done.
    - right. split; [done|]. simpl in El. unfold lift in El.
      destruct (SQLite_List answer (tables d1)) as [es'|]; [|done]. by injection El as <- _. }
  split_and!; [done..| |].
  - intros Hes. destruct (entries_text_read es Hes) as (text' & Et' & Hr). congruence.
  - intros Hf [Hok Hents]. destruct Hl as [(_ & _ & _ & entries & Hload & ->)|[Hs _]]; [|congruence].
    unfold file_entries in Hents. rewrite Hload in Hents. apply Forall_fmap, Forall_forall.
    intros [k e] Hin%elem_of_map_to_list. by apply (Hents k e).
Qed.
End Inspect.

(** ** A broker with one certificate *)

Definition cache_content : string := default "" (MarshalIndent <$> map_json entry_json
  {[key_String test_cache_key := mkCacheEntry test_cache_key test_bundle Hour Hour]}).

Definition listing_machine : machine :=
  mkMachine (mkDisk {["/etc/broker.yml" := 0; "/var/lib/cache.json" := 1]}
    [mkInode "broker" mode_600 true; mkInode cache_content mode_600 true] []) [] [] 0.

Definition test_listing : result inspect_error unit * string * schema.test_db * machine :=
  runCertsList (DB:=schema.test_db_ops) config.calm_env (λ _, true)
    (λ t, if t == "broker" then Some file_broker else None) (λ _, None)
    (λ _, ∅ : test_table) IO_ok "/etc/broker.yml" audit.Written schema.new_db listing_machine "".

Example runCertsList_correct_witness :
  ∃ text, snd (fst (fst test_listing)) = string_app "" text
    ∧ unmarshal (decode_list decode_entry) text
      = Some (Some [mkCacheEntry test_cache_key test_bundle Hour Hour]).
Proof.
  pose proof (runCertsList_correct (DB:=schema.test_db_ops) config.calm_env (λ _, true)
    (λ t, if t == "broker" then Some file_broker else None) (λ _, None)
    (λ _, ∅ : test_table) IO_ok "/etc/broker.yml" audit.Written schema.new_db listing_machine "") as H.
  unfold test_listing.
  destruct (runCertsList _ _ _ _ _ _ _ _ _ _ _) as [[[r out'] d'] m'] eqn:E.
  destruct r as [[]|e]; [|exfalso; revert E; vm_compute; discriminate].
  destruct H as (cfg & es & text & Hc & Hl & Et & -> & _). exists text. split; [done|].
  replace text with (snd (fst (fst test_listing))); [vm_compute; reflexivity|].
  unfold test_listing. by rewrite E.
Defined.
End inspect.
