(* ===== verification/Cli.v ===== *)
(** * The declarations of the commands ([cmd/broker], [cmd/agent])

[root.go], [main.go] and the functions [new...Command] of both programs: the
commands as data for [cobra], which is a parameter, and what follows from its
documented behaviour. What each command runs is in [Command], [Serve] and
[Inspect]. *)

From S2P Require Import Prelude GoStrings Json.
#[local] Open Scope go_scope.

Module cli.

(** ** What is declared

A flag sets a variable of the program; a command runs, or has commands below. *)
Section Command.
Context {O A : Type}.

Inductive flag_var :=
  | StringVar (value : string) (set : string → O → O)
  | IntVar (value : Z) (set : Z → O → O).

Record flag := mkFlag {
  Flag_Name : string;
  Shorthand : string;
  Usage : string;
  Var : flag_var;
  Required : bool }.

Inductive command := mkCommand {
  Use : string;
  Short : string;
  SilenceErrors : bool;
  SilenceUsage : bool;
  DisableDefaultCmd : bool;
  HelpHidden : bool;
  PersistentFlags : list flag;
  Flags : list flag;
  RunE : option (O → A);
  Commands : list command }.

(** A command that only groups others, and one that only runs. *)
Definition group (use short : string) (commands : list command) : command :=
  mkCommand use short false false false false [] [] None commands.
Definition runs (use short : string) (flags : list flag) (run : O → A) : command :=
  mkCommand use short false false false false [] flags (Some run) [].

(** [MarkPersistentFlagRequired], which fails for a flag that is not declared. *)
Definition MarkPersistentFlagRequired (name : string) (c : command) : option command :=
  if existsb (λ f, Flag_Name f == name) (PersistentFlags c) then
    Some (mkCommand (Use c) (Short c) (SilenceErrors c) (SilenceUsage c) (DisableDefaultCmd c)
      (HelpHidden c)
      ((λ f, mkFlag (Flag_Name f) (Shorthand f) (Usage f) (Var f)
               (Required f || (Flag_Name f == name))) <$> PersistentFlags c)
      (Flags c) (RunE c) (Commands c))
  else None.

Definition AddCommand (commands : list command) (c : command) : command :=
  mkCommand (Use c) (Short c) (SilenceErrors c) (SilenceUsage c) (DisableDefaultCmd c)
    (HelpHidden c) (PersistentFlags c) (Flags c) (RunE c) (Commands c ++ commands).

(** The commands that run, with the words that lead to them and the flags they
know, those of the commands above included. *)
Fixpoint leaves (inherited : list flag) (c : command) : list (list string * list flag * (O → A)) :=
  match c with
  | mkCommand _ _ _ _ _ _ persistent flags run commands =>
      match run with Some f => [([], inherited ++ persistent ++ flags, f)] | None => [] end
      ++ flat_map (λ c', (λ x, (Use c' :: fst (fst x), snd (fst x), snd x))
                           <$> leaves (inherited ++ persistent) c') commands
  end.

(** What [pflag] and [cobra] panic or go wrong on: two flags of a command with the
same name or shorthand, two commands with the same words. *)
Definition well_formed (c : command) : bool :=
  bool_decide (NoDup ((fst ∘ fst) <$> leaves [] c))
  && forallb (λ x, bool_decide (NoDup (Flag_Name <$> snd (fst x)))
                && bool_decide (NoDup (filter (.≠ "") (Shorthand <$> snd (fst x))))) (leaves [] c).
End Command.
Arguments flag_var : clear implicits.
Arguments flag : clear implicits.
Arguments command : clear implicits.

(** ** cmd/broker *)

(** The variables the flags set: [configPath] of [cliOptions], [policyPath] and
[limit] of the commands. *)
Record broker_options := mkBrokerOptions { configPath : string; policyPath : string; limit : Z }.

Inductive broker_action :=
  | RunServe (configPath : string)
  | RunPolicyValidate (policyPath : string)
  | RunCertsList (configPath : string)
  | RunAuditTail (configPath : string) (limit : Z).

Definition newServeCommand : command broker_options broker_action :=
  runs "serve" "Run the broker HTTPS/mTLS API" [] (λ o, RunServe (configPath o)).

Definition newPolicyValidateCommand : command broker_options broker_action :=
  runs "validate" "Validate and compile a broker policy file"
    [mkFlag "policy" "" "broker policy YAML file"
       (StringVar "" (λ v o, mkBrokerOptions (configPath o) v (limit o))) false]
    (λ o, RunPolicyValidate (policyPath o)).
Definition newPolicyCommand : command broker_options broker_action :=
  group "policy" "Policy utilities" [newPolicyValidateCommand].

Definition newCertsListCommand : command broker_options broker_action :=
  runs "list" "List cached certificate bundles" [] (λ o, RunCertsList (configPath o)).
Definition newCertsCommand : command broker_options broker_action :=
  group "certs" "Certificate cache utilities" [newCertsListCommand].

Definition newAuditTailCommand : command broker_options broker_action :=
  runs "tail" "Write recent audit events as JSON lines"
    [mkFlag "limit" "" "maximum number of audit events to print"
       (IntVar 200 (λ v o, mkBrokerOptions (configPath o) (policyPath o) v)) false]
    (λ o, RunAuditTail (configPath o) (limit o)).
Definition newAuditCommand : command broker_options broker_action :=
  group "audit" "Audit utilities" [newAuditTailCommand].

(** The root of a program: the required flag [--config], and the commands. [None]
is the panic. *)
Definition rootCommand {O A} (program short : string) (set : string → O → O)
    (commands : list (command O A)) : option (command O A) :=
  AddCommand commands <$> MarkPersistentFlagRequired "config"
    (mkCommand program short true true true true
       [mkFlag "config" "c" "YAML config file path" (StringVar "" set) false] [] None []).

Definition broker_newRootCommand (program : string) : option (command broker_options broker_action) :=
  rootCommand program "Certplane broker" (λ v o, mkBrokerOptions v (policyPath o) (limit o))
    [newServeCommand; newPolicyCommand; newCertsCommand; newAuditCommand].

(** ** cmd/agent *)

Inductive agent_action :=
  | RunEnroll (configPath : string)
  | RunRun (configPath : string)
  | RunCheck (configPath : string).

(** [cliOptions] of the agent has the path alone. *)
Definition newEnrollCommand : command string agent_action :=
  runs "enroll" "Enroll this host and obtain an agent identity certificate" [] RunEnroll.
Definition newRunCommand : command string agent_action :=
  runs "run" "Run the agent renewal loop" [] RunRun.
Definition newCheckCommand : command string agent_action :=
  runs "check" "Validate agent configuration and local files" [] RunCheck.

Definition agent_newRootCommand (program : string) : option (command string agent_action) :=
  rootCommand program "Certplane agent" (λ v _, v) [newEnrollCommand; newRunCommand; newCheckCommand].

(** ** main.go *)

(** What [Execute] comes to: it refuses the arguments, shows a help text, or calls
a command, which may fail. *)
Inductive execution {A : Type} := Refuses (e : string) | Shows | Calls (a : A).
Arguments execution : clear implicits.

(** What is on the standard error, and the exit code. [act] gives the error of an
action. *)
Definition main {A} (act : A → option string) (x : execution A) : string * Z :=
  let failed e := (foldr string_app "" ["Error: "; e; newline], 1%Z) in
  match x with
  | Refuses e => failed e
  | Shows => ("", 0%Z)
  | Calls a => match act a with Some e => failed e | None => ("", 0%Z) end
  end.

(** [cobra]: what it makes of the arguments, the flags they set. It calls a command
of the tree, once its required flags, inherited ones included, are set. *)
Class Cobra (O A : Type) := {
  execute : command O A → list string → O → execution A;
  given : command O A → list string → list string }.
Class CobraLaws (O A : Type) `{Cobra O A} := {
  execute_calls root args o a : execute root args o = Calls a →
    ∃ x o', x ∈ leaves [] root ∧ a = snd x o'
      ∧ Forall (λ f, Required f = true → Flag_Name f ∈ given root args) (snd (fst x)) }.

(** ** Lemmas *)

(** The trees of both programs are made without a panic, have commands and flags
told apart by their names, and run these commands at these words. *)
Lemma broker_commands program :
  ∃ root, broker_newRootCommand program = Some root ∧ well_formed root = true
    ∧ (λ x, (fst (fst x), snd x (mkBrokerOptions "c" "p" 7))) <$> leaves [] root
      = [(["serve"], RunServe "c"); (["policy"; "validate"], RunPolicyValidate "p");
         (["certs"; "list"], RunCertsList "c"); (["audit"; "tail"], RunAuditTail "c" 7)].
Proof.
  eexists. split_and!; [reflexivity|by vm_compute|done].
Qed.

Lemma agent_commands program :
  ∃ root, agent_newRootCommand program = Some root ∧ well_formed root = true
    ∧ (λ x, (fst (fst x), snd x "c")) <$> leaves [] root
      = [(["enroll"], RunEnroll "c"); (["run"], RunRun "c"); (["check"], RunCheck "c")].
Proof.
  eexists. split_and!; [reflexivity|by vm_compute|done].
Qed.

(** Every command of the broker wants [--config], [policy validate] too, which has
no use for it. *)
Lemma broker_wants_config `{CobraLaws broker_options broker_action} program root args o a :
  broker_newRootCommand program = Some root → execute root args o = Calls a →
  "config" ∈ given root args.
Proof.
  intros [= <-] (x & o' & Hx & _ & Hf)%execute_calls. revert Hx Hf. simpl.
  rewrite !elem_of_cons, elem_of_nil.
  intros [->|[->|[->|[->|[]]]]]; simpl; intros [Hc _]%Forall_cons; by apply Hc.
Qed.

(** A program exits with 1 exactly when it says why. *)
Lemma main_exit {A} (act : A → option string) x :
  snd (main act x) = 1%Z ↔ fst (main act x) ≠ "".
Proof. destruct x as [e| |a]; simpl; [done..|]. by destruct (act a). Qed.
End cli.
